(* ===== verification/_CoqProject ===== *)
-Q . S2P
Prelude.v
Bytes.v
Search.v
Loop.v
Utf8.v
Cursor.v
Metadata.v
OmitText.v
MetadataRecord.v
MetadataCanonical.v
MetadataDecode.v
MetadataValid.v
MetadataNormalize.v
MetadataBorrow.v
MetadataRestore.v
AttributeName.v
Directory.v
DirectoryStructure.v
DirectoryCanonical.v
SymlinkTransport.v
LinuxAcl.v
LinuxAclPortable.v
Platform.v
PlatformRead.v
PlatformXattr.v
PlatformEntry.v
PlatformNames.v
PlatformDescriptors.v
Samples.v
PathFilter.v
FileHeader.v
Zstdz.v
Memory.v
ZstdzMemory.v
File.v
FileMemory.v
CApi.v
Measurement.v
MeasurementRun.v
Consumer.v
TreePatch.v
TreePatchDecode.v
TreePatchEncode.v
TreePatchApply.v
Recovery.v
Reservation.v
ReservationApply.v
