(* ===== verification/Prelude.v ===== *)
(** * Verification of the Rust implementation of difz

    difz computes binary deltas between files and between directory trees. This
    library models its Rust implementation under [src/rust/]: the portable core
    ([rust/src]), the boundary to the native codec ([rust/zstdz]), the file
    system capabilities ([rust/platform]), the C interface ([rust/c-api]) and
    the measuring consumer ([rust/consumer]). The wire contract it is checked
    against is [docs/directory-format.md].

    ** How the parts interact

    A file patch ([file.rs]) is the header of [lib.rs] and one frame of the
    codec. A tree patch is the envelope of [tree_patch.rs] around a body that
    [tree_patch_encode.rs] writes, [tree_patch_decode.rs] reads and
    [tree_patch_apply.rs] turns back into a snapshot; its entries carry file
    patches, canonical metadata ([metadata_*.rs]) and paths ([directory*.rs]),
    and its rules are compiled by [path_filter.rs]. [symlink_transport.rs],
    [attribute_name.rs] and [linux_acl.rs] are the forms metadata takes where
    a file system cannot hold it directly; [metadata_restore.rs] decides which.
    The platform crate reads the entries; the C interface and the consumer call
    the file operations.

    ** Files of the library

    Shared: this prelude (results, the [?] operator as [let?], loops with early
    return, checked arithmetic, allocation, the tactic [inv_ok]); [Bytes] (byte
    strings, slices, little-endian integers), [Search] (the standard library's
    binary search), [Loop] (loops that the system ends, and loops with a
    variant), [Utf8], and [Cursor], whose
    class [WireSound] is the contract every reader of a wire format is proved
    against.

    - [Metadata], [MetadataRecord], [MetadataCanonical], [MetadataDecode],
      [MetadataBorrow], [MetadataRestore]: the files of [rust/src] of the same
      names; [OmitText] adds the grammar of [Omit::parse]. [MetadataValid] and
      [MetadataNormalize] hold what validation and normalisation mean.
    - [AttributeName], [SymlinkTransport], [LinuxAcl]: the files of the same
      names; [LinuxAclPortable] holds the round trip through the portable form.
    - [Directory] ([directory.rs], [directory_record.rs]), [DirectoryStructure],
      [DirectoryCanonical], [PathFilter], [FileHeader] ([lib.rs]), [Zstdz]
      ([zstdz/src/lib.rs]), [File]: the files of the same names.
    - [TreePatch], [TreePatchDecode], [TreePatchEncode], [TreePatchApply]: the
      four files of tree patches.
    - [Platform] and [PlatformRead] ([platform/src/lib.rs]), [PlatformXattr],
      [PlatformEntry], [PlatformNames]: the files of the platform crate, and
      [PlatformDescriptors], which follows the descriptors through them.
    - [Memory], [ZstdzMemory], [FileMemory]: blocks, contexts and vectors behind
      raw pointers, with undefined behaviour; the unsafe code of
      [zstdz/src/lib.rs] and the functions of [file.rs] over it, which refine
      the pure definitions of [Zstdz] and [File].
    - [CApi] ([c-api/src/lib.rs]), [Measurement] and [MeasurementRun]
      ([consumer/src/measurement.rs]: the sweep, and [run] around it), and
      [Consumer] ([consumer/src/main.rs]).
    - [Recovery], [Reservation] and [ReservationApply]: the operations compared
      with themselves over another allocator, one that refuses and one that
      grants only what the input's length and the caller's budget justify.
    - [Samples]: the concrete snapshots the witnesses evaluate.

    A Rust function is the definition of the same name; one turn of a loop is a
    definition of its own where the loop has a body worth naming. A private
    newtype ([CanonicalMetadata], [CanonicalSnapshot], [PosixAcl], [Transport])
    is a record, and what its constructor establishes is a predicate that the
    theorems about its consumers assume.

    ** What is not the program's own code

    The following are arguments of the definitions that use them, as classes
    whose laws state documented behaviour:
    - [Allocator]: which requests are granted. A request names its place in
      the run, a path of statements and turns, besides what the vector holds
      and what is asked for, so any one can be refused alone, also one of the
      size of another. [AllocatorTotal] is memory without end; [Recovery] shows
      that a refusal has no other effect than to be reported.
    - [Blake3]: the hash functions.
    - [Native]: the calls and constants of the zstd library, with
      [NativeDocumented] and [NativeAvailable], the latter of a library that
      has memory: it accepts the settings the code passes, which are within the
      bounds [zstd.h] documents, in contexts that are idle. [Zstd] is what the
      rest of the code sees of [zstdz], with the laws [ZstdSafe],
      [ZstdRoundTrip] and [ZstdSteady], which [Zstdz] derives from those of
      [Native]; its calls take their place in the run, as requests do.
    - [Os], [OpenFlags], [XattrOs], [StatOs], [StatNumbers], [DirOs], [Errno],
      [ErrorKinds]: system calls as state passing, and the numbers of [libc].
      Theorems about them hold for every answer of the system, and say more for
      one that behaves as its manual says.
    - [Machine] and [Placement]: where the process puts what it allocates, for
      the C interface and for raw memory; [Unwinding], which calls of the core
      panic, for the boundary that has to catch them; [Clock], the program's own
      trait, and [NativeTime], the system's two clocks behind [NativeClock], for
      the measuring harness, and [Host], its files, programs and JSON writer.
    Of the standard library, [Memory] models what the unsafe code uses: slices,
    the raw interface of [Vec], destructors.
    Each law is satisfied by a concrete instance in a witness.

    Integers are [Z] with the width written out: checked and saturating
    operations where the code has them, a remainder where a cast truncates.
    [usize] has 64 bits. Strings of the program are UTF-8 byte strings. [Cow]
    is its bytes, except in [TreePatchApply], where ownership decides whether
    memory is reserved.

    ** What the theorems show

    - Tree patches: applying a created patch gives the target without the
      omitted metadata; a successful application of any patch is safe and
      within its output budget; another source is refused; the decoder accepts
      exactly the encodings of well-formed patches; creation succeeds exactly
      when the limits allow it.
    - Metadata: normalisation computes the one canonical record, whatever the
      order of capture; decoding and validation accept exactly the canonical
      forms; the restore planner computes the declarative plan.
    - Directories: validators accept exactly the hierarchies and canonical
      snapshots; identities determine snapshots; symlink targets that are
      accepted never leave the root; lookups are exact.
    - Filters: compilation gives exactly the tokens that the characters of a
      pattern spell by a declarative grammar, and the dynamic program gives the
      verdict of the last matching rule of a declarative semantics of patterns.
    - Files and the codec: round trips and refusals; the unsafe code below them
      never meets undefined behaviour, frees every context and buffer on every
      path, and computes what the pure definitions do.
    - Transports: exact wire round trips of symlink transports and access
      lists, and of native attribute names.
    - Platform: loops over system calls end within a bound whatever the system
      answers, results never exceed the caller's ceiling and are never
      truncated; no path leaks a descriptor or closes one that is not its own,
      that of a stream dropped after any number of its names included.
    - C interface: whole sessions over a heap of buffers; which status every
      call answers, exactly; failures and panics change nothing.
    - Measurement: the sweep's protocol and schedule, and that its iterations
      and samples are those of the clock's own readings; a run leaves the files
      as it found them and reports only what it has verified.
    - The consumer's own assertions hold.
    - Allocation: refusals are reported and change nothing else; no count in an
      input makes a decoder reserve more elements than the input has bytes, and
      no length in a patch makes its application reserve more than the budget.

    ** Bounds and fuel

    A loop whose end is the system's to decide is [Loop.run], with fuel.
    [buffer_fuel] is 58 turns: a buffer of 256 bytes that doubles reaches any
    64-bit ceiling in fewer, and the theorems about [get] and [read_symlink]
    include that they return. The fuel of [read_limited], [read_file], [next],
    [pull] and [collect] is an argument, and their theorems state that enough
    suffices. A loop with a variant of its own is [Loop.iterate], a total
    function without fuel: [scan_members] and [compile_from], every turn of
    which consumes a character. The decimal loop recurses on its digits; the
    binary search runs on its window; a decimal of a [usize] has at most 20
    digits, and the chunks of a list are no more than its elements.

    ** Not modelled

    The build script of [zstdz], which only names what to compile and link;
    allocations that end the process when they are refused ([vec!],
    [format!]), which are taken to succeed; panics of [println!] other than as the failure of a call; the
    const assertions evaluated by the compiler; accessors that return a field. The Zig and C implementations
    under [src/src] are another program. *)

From Stdlib Require Export ZArith Lia Sorted.
From stdpp Require Export base tactics sets list numbers option.
From stdpp Require Import gmap.

#[global] Open Scope Z_scope.

(** ** Results

    Rust's [Result<T, E>] and the [?] operator. *)

Inductive result (E A : Type) : Type :=
| Ok (a : A)
| Err (e : E).
Arguments Ok {E A} a.
Arguments Err {E A} e.

#[export] Instance result_eq_dec `{EqDecision E, EqDecision A} : EqDecision (result E A).
Proof. solve_decision. Defined.

Declare Scope difz_scope.
Delimit Scope difz_scope with difz.
#[global] Open Scope difz_scope.

Definition rbind {E A B : Type} (m : result E A) (k : A -> result E B) : result E B :=
  match m with
  | Ok a => k a
  | Err e => Err e
  end.

Notation "'let?' x ':=' m 'in' k" := (rbind m (fun x => k))
  (at level 10, x pattern, m at level 100, k at level 200,
   format "'[v' 'let?'  x  ':='  m  'in' '/' k ']'") : difz_scope.

(** [e.map_err(f)?] *)
Definition map_err {E E' A : Type} (f : E -> E') (m : result E A) : result E' A :=
  match m with
  | Ok a => Ok a
  | Err e => Err (f e)
  end.

(** [o.ok_or(e)?] *)
Definition ok_or {E A : Type} (e : E) (o : option A) : result E A :=
  match o with
  | Some a => Ok a
  | None => Err e
  end.

(** [if c { return Err(e) }] *)
Definition fail_if {E : Type} (c : bool) (e : E) : result E unit :=
  if c then Err e else Ok tt.

Definition is_ok {E A : Type} (m : result E A) : bool :=
  match m with
  | Ok _ => true
  | Err _ => false
  end.

Section Iteration.
Context {E A S : Type}.

(** A [for] loop with early return over a slice, threading a state. *)
Fixpoint foldM (f : S -> A -> result E S) (s : S) (l : list A) : result E S :=
  match l with
  | [] => Ok s
  | x :: l => let? s := f s x in foldM f s l
  end.

(** A [for] loop with early return and no state. *)
Fixpoint iterM (f : A -> result E unit) (l : list A) : result E unit :=
  match l with
  | [] => Ok tt
  | x :: l => let? _ := f x in iterM f l
  end.
End Iteration.

(** ** Facts about results *)

Section ResultFacts.
Context {E A B S : Type}.

Lemma rbind_Ok (m : result E A) (k : A -> result E B) (b : B) :
  rbind m k = Ok b <-> exists a, m = Ok a /\ k a = Ok b.
Proof.
  destruct m as [a | e]; simpl; split.
  - eauto.
  - by intros (a' & [= <-] & H).
  - done.
  - by intros (a' & ? & ?).
Qed.

Lemma rbind_Err (m : result E A) (k : A -> result E B) (e : E) :
  rbind m k = Err e <-> m = Err e \/ exists a, m = Ok a /\ k a = Err e.
Proof.
  destruct m as [a | e']; simpl; split.
  - eauto.
  - by intros [? | (a' & [= <-] & H)].
  - intros [= ->]. by left.
  - intros [[= ->] | (a' & ? & ?)]; done.
Qed.

Lemma rbind_assoc {C} (m : result E A) (f : A -> result E B) (g : B -> result E C) :
  rbind (rbind m f) g = rbind m (fun a => rbind (f a) g).
Proof. by destruct m. Qed.

Lemma fail_if_Ok (c : bool) (e : E) (u : unit) : fail_if c e = Ok u <-> c = false.
Proof. destruct c, u; simpl; split; congruence. Qed.

Lemma fail_if_Err (c : bool) (e e' : E) : fail_if c e = Err e' <-> c = true /\ e = e'.
Proof. destruct c; simpl; split; naive_solver. Qed.

Lemma ok_or_Ok (o : option A) (e : E) (a : A) : ok_or e o = Ok a <-> o = Some a.
Proof. destruct o; simpl; split; congruence. Qed.

Lemma ok_or_Err (o : option A) (e e' : E) : ok_or e o = Err e' <-> o = None /\ e = e'.
Proof. destruct o; simpl; split; naive_solver. Qed.

Lemma map_err_Ok {E'} (f : E -> E') (m : result E A) (a : A) :
  map_err f m = Ok a <-> m = Ok a.
Proof. destruct m; simpl; split; congruence. Qed.

Lemma map_err_Err {E'} (f : E -> E') (m : result E A) (e : E') :
  map_err f m = Err e <-> exists e0, m = Err e0 /\ f e0 = e.
Proof. destruct m; simpl; split; naive_solver. Qed.

Lemma is_ok_Ok (m : result E A) : is_ok m = true <-> exists a, m = Ok a.
Proof. destruct m; simpl; split; naive_solver. Qed.

Lemma foldM_app (f : S -> A -> result E S) s l1 l2 :
  foldM f s (l1 ++ l2) = rbind (foldM f s l1) (fun s => foldM f s l2).
Proof.
  revert s. induction l1 as [| x l1 IH]; intros s; simpl; [done |].
  by destruct (f s x); simpl.
Qed.

(** A loop whose every iteration succeeds and keeps an invariant of the number
    of iterations done succeeds with it. *)
Lemma foldM_run (f : S -> A -> result E S) (I : nat -> S -> Prop) s l :
  I O s ->
  (forall i x s, l !! i = Some x -> I i s -> exists s', f s x = Ok s' /\ I (Datatypes.S i) s') ->
  exists s', foldM f s l = Ok s' /\ I (length l) s'.
Proof.
  revert I s. induction l as [| x l IH]; intros I s Hs Hf; cbn [foldM length]; [eauto |].
  destruct (Hf O x s eq_refl Hs) as (s1 & -> & H1). cbn [rbind].
  apply (IH (fun i => I (Datatypes.S i)) s1 H1). intros i y s2 Hy. by apply (Hf (Datatypes.S i)).
Qed.

Lemma iterM_Ok (f : A -> result E unit) l u :
  iterM f l = Ok u <-> Forall (fun x => f x = Ok tt) l.
Proof.
  induction l as [| x l IH]; simpl.
  - destruct u. split; auto.
  - rewrite Forall_cons_iff. destruct (f x) as [[] | e] eqn:Ef; simpl.
    + rewrite IH. naive_solver.
    + naive_solver.
Qed.
End ResultFacts.

(** In a loop that succeeds every iteration does. *)
Lemma foldM_each {E A S} (f : S -> A -> result E S) s l s' x :
  foldM f s l = Ok s' -> x ∈ l -> exists s1 s2, f s1 x = Ok s2.
Proof.
  revert s. induction l as [| y l IH]; intros s Hf Hx; [by apply not_elem_of_nil in Hx |].
  cbn [foldM] in Hf. apply rbind_Ok in Hf as (s1 & Hy & Hf).
  apply elem_of_cons in Hx as [-> | Hx]; [by eauto |]. by apply (IH s1).
Qed.

(** A loop that checks each element and its relation to what the state keeps of
    the previous one: the shape of the source's ordered validators. *)
Section Adjacent.
Context {E A K : Type} (keep : A -> K) (f : option K -> A -> result E (option K)).
Context (P : A -> Prop) (R : K -> A -> Prop).

Definition adjacent (a b : A) : Prop := R (keep a) b.

(** The step's meaning may depend on the elements being well typed. *)
Section Typed.
Context (T : A -> Prop) (f_Ok : forall p x r, T x ->
  f p x = Ok r <-> P x /\ (forall k, p = Some k -> R k x) /\ r = Some (keep x)).

Lemma foldM_adjacent_from l p :
  Forall T l ->
  is_ok (foldM f p l) = true <->
  Forall P l /\ (forall k x, p = Some k -> head l = Some x -> R k x) /\ Sorted adjacent l.
Proof.
  revert p. induction l as [| x l IH]; intros p Ht; cbn [foldM].
  - split; [| done]. intros _. split_and!; auto. intros k x _ [=].
  - apply Forall_cons_iff in Ht as [Hx Ht]. rewrite is_ok_Ok. setoid_rewrite rbind_Ok. split.
    + intros (r & s & (Hp & Hr & ->)%f_Ok & Hl); [| done].
      destruct (proj1 (IH (Some (keep x)) Ht)) as (Hf & Hh & Hs); [apply is_ok_Ok; eauto |].
      split_and!.
      * by constructor.
      * intros k y -> [= <-]. auto.
      * constructor; [done |]. destruct l as [| y l]; constructor. by apply (Hh (keep x)).
    + intros (Hf & Hh & Hs).
      apply Forall_cons_iff in Hf as [Hp Hf]. apply Sorted_inv in Hs as [Hs Hd].
      assert (is_ok (foldM f (Some (keep x)) l) = true) as [r Hr]%is_ok_Ok.
      { apply IH; [done |]. split_and!; [done | | done]. intros k y [= <-] Hy.
        destruct l; [done |]. injection Hy as ->. by inversion Hd. }
      exists r, (Some (keep x)). split; [| done]. apply f_Ok; [done |]. split_and!; [done | | done].
      intros k ->. by apply (Hh k).
Qed.

Lemma foldM_adjacent_typed l :
  Forall T l -> is_ok (foldM f None l) = true <-> Forall P l /\ Sorted adjacent l.
Proof. intros Ht. rewrite foldM_adjacent_from by done. naive_solver. Qed.
End Typed.

Lemma foldM_adjacent l :
  (forall p x r, f p x = Ok r <-> P x /\ (forall k, p = Some k -> R k x) /\ r = Some (keep x)) ->
  is_ok (foldM f None l) = true <-> Forall P l /\ Sorted adjacent l.
Proof.
  intros Hf. apply (foldM_adjacent_typed (fun _ => True)); [auto |]. by apply Forall_forall.
Qed.
End Adjacent.

(** ** Automation

    [inv_ok] turns a hypothesis stating that a composed computation succeeded
    into the facts about its parts, one step per [?] of the code. *)

Ltac inv_ok_step :=
  match goal with
  | H : rbind _ _ = Ok _ |- _ =>
      apply rbind_Ok in H; let a := fresh "a" in destruct H as (a & ? & H)
  | H : fail_if _ _ = Ok _ |- _ => apply fail_if_Ok in H
  | H : ok_or _ _ = Ok _ |- _ => apply ok_or_Ok in H
  | H : map_err _ _ = Ok _ |- _ => apply map_err_Ok in H
  | H : Ok _ = Ok _ |- _ => first [ injection H; clear H; intros; try subst | clear H ]
  | H : Err _ = Ok _ |- _ => discriminate H
  | H : Ok _ = Err _ |- _ => discriminate H
  | H : Err _ = Err _ |- _ => injection H as H; try subst
  | x : unit |- _ => destruct x
  | H : context [match ?p with (_, _) => _ end] |- _ =>
      is_var p; let x := fresh "x" in let c := fresh "c" in destruct p as [x c]
  end.
Ltac inv_ok := repeat inv_ok_step.

(** [zbool] reads boolean integer tests as inequalities. *)
Ltac zbool :=
  rewrite ?negb_true_iff, ?negb_false_iff, ?andb_true_iff, ?andb_false_iff, ?orb_true_iff,
    ?orb_false_iff, ?Z.ltb_lt, ?Z.ltb_ge, ?Z.leb_le, ?Z.leb_gt, ?Z.eqb_eq, ?Z.eqb_neq in *.

(** [step_ok H] rewrites the goal's next computation with [H : m = Ok _]. *)
Tactic Notation "step_ok" uconstr(H) := rewrite H; simpl rbind; cbv beta iota.

(** ** Machine integers

    A [w]-bit unsigned integer is a [Z] in range; arithmetic that the code lets
    wrap, truncates or checks is written out where it happens. *)

Definition u16_max : Z := 2 ^ 16 - 1.
Definition u32_max : Z := 2 ^ 32 - 1.
Definition u64_max : Z := 2 ^ 64 - 1.
(** [usize] of the supported 64-bit targets. *)
Definition usize_max : Z := 2 ^ 64 - 1.
Definition isize_max : Z := 2 ^ 63 - 1.

Definition is_u16 (z : Z) : Prop := 0 <= z < 2 ^ 16.
Definition is_u32 (z : Z) : Prop := 0 <= z < 2 ^ 32.
Definition is_u64 (z : Z) : Prop := 0 <= z < 2 ^ 64.
Definition is_i64 (z : Z) : Prop := - 2 ^ 63 <= z < 2 ^ 63.

#[export] Instance is_u16_dec z : Decision (is_u16 z).
Proof. unfold is_u16. apply _. Defined.
#[export] Instance is_u32_dec z : Decision (is_u32 z).
Proof. unfold is_u32. apply _. Defined.
#[export] Instance is_u64_dec z : Decision (is_u64 z).
Proof. unfold is_u64. apply _. Defined.
#[export] Instance is_i64_dec z : Decision (is_i64 z).
Proof. unfold is_i64. apply _. Defined.

(** [a.checked_add(b)] on [usize] and [u64], which have the same width. *)
Definition checked_add (a b : Z) : option Z :=
  if a + b <=? u64_max then Some (a + b) else None.
(** [a.checked_sub(b)] *)
Definition checked_sub (a b : Z) : option Z :=
  if b <=? a then Some (a - b) else None.
(** [a.checked_mul(b)] on [usize] *)
Definition checked_mul (a b : Z) : option Z :=
  if a * b <=? u64_max then Some (a * b) else None.

Lemma checked_add_Some a b c : checked_add a b = Some c <-> c = a + b /\ a + b <= u64_max.
Proof. unfold checked_add. destruct (Z.leb_spec (a + b) u64_max); naive_solver lia. Qed.
Lemma checked_sub_Some a b c : checked_sub a b = Some c <-> c = a - b /\ b <= a.
Proof. unfold checked_sub. destruct (Z.leb_spec b a); naive_solver lia. Qed.
Lemma checked_mul_Some a b c : checked_mul a b = Some c <-> c = a * b /\ a * b <= u64_max.
Proof. unfold checked_mul. destruct (Z.leb_spec (a * b) u64_max); naive_solver lia. Qed.

(** A test of every value of a small range. *)
Lemma all_below (n : Z) (P : Z -> bool) z :
  forallb P (seqZ 0 n) = true -> 0 <= z < n -> P z = true.
Proof.
  intros Ha Hz. rewrite forallb_forall in Ha. apply Ha, list_elem_of_In, elem_of_seqZ. lia.
Qed.

(** No bit of [bits] at [n] or above, for a [w]-bit value: the source's
    [bits & !mask != 0] tests. *)
Lemma high_bits_zero bits n w :
  0 <= n <= w -> 0 <= bits < 2 ^ w ->
  Z.land bits (Z.shiftl (Z.ones (w - n)) n) = 0 <-> bits < 2 ^ n.
Proof.
  intros Hn Hb.
  assert (Z.land bits (Z.shiftl (Z.ones (w - n)) n) = Z.shiftl (bits / 2 ^ n) n) as ->.
  { transitivity (Z.shiftl (Z.land (Z.shiftr bits n) (Z.ones (w - n))) n).
    - apply Z.bits_inj'. intros i Hi.
      rewrite Z.land_spec, !Z.shiftl_spec, Z.land_spec by lia.
      destruct (Z.lt_ge_cases (i - n) 0).
      + rewrite !(Z.testbit_neg_r _ (i - n)) by lia. by rewrite andb_false_r.
      + rewrite Z.shiftr_spec by lia. by replace (i - n + n) with i by lia.
    - rewrite Z.land_ones, Z.shiftr_div_pow2 by lia. f_equal. apply Z.mod_small.
      split; [apply Z.div_pos; lia |]. apply Z.div_lt_upper_bound; [lia |].
      rewrite <- Z.pow_add_r by lia. replace (n + (w - n)) with w by lia. lia. }
  rewrite Z.shiftl_mul_pow2 by lia. assert (0 < 2 ^ n) by lia.
  pose proof (Z.div_mod bits (2 ^ n)). pose proof (Z.mod_pos_bound bits (2 ^ n)).
  split; intros H'; [nia |]. by rewrite Z.div_small by lia.
Qed.

(** A test of one bit: [z & (1 << i) != 0]. *)
Lemma land_bit z i : 0 <= i -> negb (Z.land z (2 ^ i) =? 0) = Z.testbit z i.
Proof.
  intros Hi. destruct (Z.testbit z i) eqn:Hz.
  - apply negb_true_iff, Z.eqb_neq. intros H0.
    assert (Z.testbit (Z.land z (2 ^ i)) i = true) as Ht
      by (rewrite Z.land_spec, Hz, Z.pow2_bits_true by done; done).
    rewrite H0, Z.bits_0 in Ht. done.
  - apply negb_false_iff, Z.eqb_eq, Z.bits_inj'. intros j Hj.
    rewrite Z.land_spec, Z.bits_0. destruct (decide (i = j)) as [<- | Hn]; [by rewrite Hz |].
    by rewrite Z.pow2_bits_false, andb_false_r.
Qed.

(** ** Allocation

    The code reserves storage with [Vec::try_reserve] and its variants and turns
    a refusal into an [OutOfMemory] error. Whether the global allocator grants a
    request is outside the program, and depends on everything that went before:
    it is a function of the whole request that every definition that allocates
    takes. A request says when it is made, how many elements its vector holds
    and how many more it asks for. The moment is a path: a number for each call
    or loop turn the request is inside of, from the outermost, and one for the
    statement that makes it; it tells element types and vectors apart too. Where
    a function that reserves is called more than once in a run, each call has
    its own moment, and a vector that is filled by repeated requests holds more
    at each: the requests of a run for at least one element differ, and an
    allocator can refuse any one of them and grant the others. *)

Record Request : Type := MkRequest { moment : list Z; present : Z; wanted : Z }.

#[export] Instance Request_eq_dec : EqDecision Request.
Proof. solve_decision. Defined.

Class Allocator := { grants : Request -> bool }.

(** [v.try_reserve(n).map_err(|_| e)?] where [v] holds [present] elements. *)
Definition reserve `{Allocator} {E : Type} (e : E) (statement present n : Z) : result E unit :=
  if grants (MkRequest [statement] present n) then Ok tt else Err e.

(** What a call or a loop turn numbered [k] meets. *)
Definition at_moment (k : Z) (A : Allocator) : Allocator :=
  {| grants r := @grants A (MkRequest (k :: moment r) (present r) (wanted r)) |}.

(** The same for a path of moments, the outermost first. *)
Definition at_path (ks : list Z) (A : Allocator) : Allocator := foldl (fun A k => at_moment k A) A ks.

(** Memory suffices: the assumption of the theorems that promise a result. *)
Class AllocatorTotal `{Allocator} := { grants_all : forall r, grants r = true }.

#[export] Instance at_moment_total k A : @AllocatorTotal A -> @AllocatorTotal (at_moment k A).
Proof. intros Ht. constructor. intros r. apply Ht. Qed.

#[export] Instance at_path_total ks A : @AllocatorTotal A -> @AllocatorTotal (at_path ks A).
Proof. revert A. induction ks as [| k ks IH]; intros A Ht; [done |]. apply IH, _. Qed.

(** Memory suffices for requests of at most [bound] elements. *)
Definition grants_up_to (bound : Z) (A : Allocator) : Prop :=
  forall r, wanted r <= bound -> @grants A r = true.

Lemma at_moment_up_to bound k A : grants_up_to bound A -> grants_up_to bound (at_moment k A).
Proof. intros Hg r Hr. by apply Hg. Qed.

Lemma at_path_up_to bound ks A : grants_up_to bound A -> grants_up_to bound (at_path ks A).
Proof. revert A. induction ks as [| k ks IH]; intros A Hg; [done |]. by apply IH, at_moment_up_to. Qed.

Lemma total_up_to bound A : @AllocatorTotal A -> grants_up_to bound A.
Proof. intros Ht r _. apply Ht. Qed.

Lemma reserve_total `{AllocatorTotal} {E} (e : E) k p n : reserve e k p n = Ok tt.
Proof. unfold reserve. by rewrite grants_all. Qed.

Lemma reserve_granted `{Allocator} {E} (e : E) k p n :
  grants (MkRequest [k] p n) = true -> reserve e k p n = Ok tt.
Proof. unfold reserve. by intros ->. Qed.

Lemma reserve_refused `{Allocator} {E} (e : E) k p n :
  grants (MkRequest [k] p n) = false -> reserve e k p n = Err e.
Proof. unfold reserve. by intros ->. Qed.

Lemma reserve_up_to `{A : Allocator} {E} (e : E) bound k p n :
  grants_up_to bound A -> n <= bound -> reserve e k p n = Ok tt.
Proof. unfold reserve. intros Hg Hn. by rewrite Hg. Qed.

Lemma reserve_Err `{Allocator} {E} (e e' : E) k p n : reserve e k p n = Err e' -> e' = e.
Proof. unfold reserve. destruct (grants _); congruence. Qed.

(** [grant] runs the reservations of a computation when memory suffices. *)
Ltac grant := repeat (rewrite reserve_total; cbn [rbind]; cbv beta).

(** The allocator that grants every request, for concrete evaluations, and the
    one that grants requests of at most [bound] elements. *)
Definition plentiful : Allocator := {| grants := fun _ => true |}.
#[export] Instance plentiful_total : @AllocatorTotal plentiful.
Proof. by constructor. Qed.

Definition at_most (bound : Z) : Allocator := {| grants r := wanted r <=? bound |}.
Lemma at_most_up_to bound : grants_up_to bound (at_most bound).
Proof. intros r Hr. by apply Z.leb_le. Qed.

(** ** Lists *)

Section ListFacts.
Context {A : Type}.

Definition zlen (l : list A) : Z := Z.of_nat (length l).

Lemma zlen_nonneg (l : list A) : 0 <= zlen l.
Proof. unfold zlen. lia. Qed.
Lemma zlen_cons x (l : list A) : zlen (x :: l) = 1 + zlen l.
Proof. unfold zlen. simpl length. lia. Qed.
Lemma zlen_app (l1 l2 : list A) : zlen (l1 ++ l2) = zlen l1 + zlen l2.
Proof. unfold zlen. rewrite length_app. lia. Qed.

(** [&s[..n]] and [&s[n..]] *)
Definition ztake (n : Z) (l : list A) : list A := take (Z.to_nat n) l.
Definition zdrop (n : Z) (l : list A) : list A := drop (Z.to_nat n) l.

(** [s.get(a..b)] *)
Definition get_range (a b : Z) (l : list A) : option (list A) :=
  if (a <=? b) && (b <=? zlen l) then Some (ztake (b - a) (zdrop a l)) else None.

Lemma ztake_zdrop n (l : list A) : ztake n l ++ zdrop n l = l.
Proof. apply take_drop. Qed.
Lemma zlen_ztake n (l : list A) : 0 <= n <= zlen l -> zlen (ztake n l) = n.
Proof. unfold zlen, ztake. intros ?. rewrite length_take. lia. Qed.
Lemma zlen_ztake_le n (l : list A) : zlen (ztake n l) <= Z.max n 0.
Proof. unfold zlen, ztake. rewrite length_take. lia. Qed.
Lemma zlen_zdrop n (l : list A) : 0 <= n <= zlen l -> zlen (zdrop n l) = zlen l - n.
Proof. unfold zlen, zdrop. intros ?. rewrite length_drop. lia. Qed.
Lemma ztake_app_exact (l1 l2 : list A) n : n = zlen l1 -> ztake n (l1 ++ l2) = l1.
Proof. intros ->. unfold ztake, zlen. rewrite Nat2Z.id. apply take_app_length. Qed.
Lemma zdrop_app_exact (l1 l2 : list A) n : n = zlen l1 -> zdrop n (l1 ++ l2) = l2.
Proof. intros ->. unfold zdrop, zlen. rewrite Nat2Z.id. apply drop_app_length. Qed.
Lemma ztake_0 (l : list A) : ztake 0 l = [].
Proof. done. Qed.
Lemma zdrop_0 (l : list A) : zdrop 0 l = l.
Proof. done. Qed.
Lemma ztake_all (l : list A) n : zlen l <= n -> ztake n l = l.
Proof. unfold ztake, zlen. intros. apply take_ge. lia. Qed.
Lemma zlen_0_nil (l : list A) : zlen l = 0 -> l = [].
Proof. destruct l; [done |]. rewrite zlen_cons. pose proof (zlen_nonneg l). lia. Qed.

Lemma get_range_app (l1 l2 l3 : list A) a b :
  a = zlen l1 -> b = zlen l1 + zlen l2 -> get_range a b (l1 ++ l2 ++ l3) = Some l2.
Proof.
  intros -> ->. unfold get_range. rewrite !zlen_app.
  pose proof (zlen_nonneg l2). pose proof (zlen_nonneg l3).
  replace (_ && _) with true by (symmetry; zbool; lia).
  rewrite zdrop_app_exact by done. rewrite ztake_app_exact by lia. done.
Qed.

Lemma get_range_Some (l s : list A) a b :
  0 <= a -> get_range a b l = Some s ->
  exists l1 l3, l = l1 ++ s ++ l3 /\ zlen l1 = a /\ zlen s = b - a.
Proof.
  intros Ha. unfold get_range. destruct (_ && _) eqn:Hc; [| done]. intros [= <-]. zbool.
  exists (ztake a l), (zdrop (b - a) (zdrop a l)).
  rewrite !ztake_zdrop, !zlen_ztake by (rewrite ?zlen_zdrop by lia; lia). done.
Qed.

(** A range that starts where a known prefix ends is next. *)
Lemma get_range_after (pre rest s : list A) a b :
  get_range a b (pre ++ rest) = Some s -> a = zlen pre ->
  exists rest', rest = s ++ rest' /\ zlen s = b - a.
Proof.
  intros Hg ->. apply get_range_Some in Hg as (l1 & l3 & Hl & Hl1 & Hs); [| apply zlen_nonneg].
  apply app_inj_1 in Hl as [_ ->]; [eauto | unfold zlen in Hl1; lia].
Qed.

Lemma take_S_snoc (l : list A) i x : l !! i = Some x -> take (S i) l = take i l ++ [x].
Proof. apply take_S_r. Qed.
End ListFacts.

Lemma strongly_sorted_impl {A} (R S : A -> A -> Prop) l :
  (forall a b, R a b -> S a b) -> StronglySorted R l -> StronglySorted S l.
Proof.
  intros H. induction 1 as [| x l Hs IH Hx]; constructor; [done |].
  eapply List.Forall_impl; [| exact Hx]. auto.
Qed.

#[global] Arguments zlen : simpl never.
#[global] Arguments ztake : simpl never.
#[global] Arguments zdrop : simpl never.

Create HintDb difz discriminated.
#[export] Hint Resolve zlen_nonneg : difz.

(** [zlens] adds that every measured length is nonnegative, then calls [lia].
    [zlen []] is replaced by conversion: [rewrite] would match it with any [0]. *)
Ltac zlen_nil :=
  repeat match goal with
  | |- context [@zlen ?A nil] => change (@zlen A nil) with 0
  | H : context [@zlen ?A nil] |- _ => change (@zlen A nil) with 0 in H
  end.
Ltac zlens :=
  zlen_nil;
  repeat match goal with
  | |- context [zlen ?l] =>
      lazymatch goal with
      | _ : 0 <= zlen l |- _ => fail
      | _ => pose proof (zlen_nonneg l)
      end
  | _ : context [zlen ?l] |- _ =>
      lazymatch goal with
      | _ : 0 <= zlen l |- _ => fail
      | _ => pose proof (zlen_nonneg l)
      end
  end; lia.

(** ** Maps

    The largest value of a measure over a map bounds each of them: an address
    past everything is fresh. *)

Lemma fold_max_ge {V} (f : Z -> V -> Z) start (m : gmap Z V) :
  start <= map_fold (fun k v top => Z.max (f k v) top) start m
  /\ forall k v, m !! k = Some v -> f k v <= map_fold (fun k v top => Z.max (f k v) top) start m.
Proof.
  apply (map_fold_weak_ind (fun top m => start <= top /\ forall k v, m !! k = Some v -> f k v <= top)).
  - split; [done |]. intros k v. by rewrite lookup_empty.
  - intros k v m' top _ [Ht Hm]. split; [lia |]. intros k' v'. rewrite lookup_insert_Some.
    intros [[<- <-] | [_ Hk]]; [lia |]. apply Hm in Hk. lia.
Qed.
