(* ===== verification/Bytes.v ===== *)
(** * Bytes, byte strings and their little-endian integers

    The byte-level vocabulary of the source: [u8] values, [&[u8]] slices with
    the slice methods the code calls, fixed-width little-endian integers and the
    lexicographic order of byte strings. *)

From Stdlib Require Export Strings.Byte.
From Stdlib Require Strings.String.
From stdpp Require Export sorting.
From S2P Require Export Prelude.

Abbreviation byte := Byte.byte.
Abbreviation bytes := (list byte).

#[export] Instance byte_eq_decision : EqDecision byte := Byte.byte_eq_dec.

(** The value of a byte, and Rust's truncating [as u8]. *)
Definition u8 (b : byte) : Z := Z.of_N (Byte.to_N b).
Definition as_u8 (z : Z) : byte :=
  match Byte.of_N (Z.to_N (z mod 256)) with
  | Some b => b
  | None => x00
  end.

(** Byte string literals [b"..."]. *)
Export Strings.String.StringSyntax.
Definition lit (s : String.string) : bytes := String.list_byte_of_string s.
#[global] Arguments lit s%_string_scope.

Lemma u8_range b : 0 <= u8 b < 256.
Proof. unfold u8. pose proof (Byte.to_N_bounded b). lia. Qed.

Lemma u8_as_u8 z : u8 (as_u8 z) = z mod 256.
Proof.
  unfold u8, as_u8. pose proof (Z.mod_pos_bound z 256 ltac:(lia)).
  destruct (Byte.of_N _) as [b |] eqn:E.
  - apply Byte.to_of_N in E. rewrite E. lia.
  - apply Byte.of_N_None_iff in E. lia.
Qed.

Lemma as_u8_u8 b : as_u8 (u8 b) = b.
Proof.
  unfold as_u8. rewrite Z.mod_small by apply u8_range. unfold u8.
  by rewrite N2Z.id, Byte.of_to_N.
Qed.

Lemma u8_inj a b : u8 a = u8 b -> a = b.
Proof. intros H. by rewrite <- (as_u8_u8 a), H, as_u8_u8. Qed.

#[export] Instance u8_Inj : Inj (=) (=) u8.
Proof. exact u8_inj. Qed.

Lemma u8_as_u8_small z : 0 <= z < 256 -> u8 (as_u8 z) = z.
Proof. intros. by rewrite u8_as_u8, Z.mod_small. Qed.

(** ** Little-endian integers *)

(** [z.to_le_bytes()] of an [n]-byte integer; truncates like [as]. *)
Fixpoint le_bytes (n : nat) (z : Z) : bytes :=
  match n with
  | O => []
  | S n => as_u8 z :: le_bytes n (z / 256)
  end.

(** [from_le_bytes] of an unsigned integer *)
Fixpoint of_le (l : bytes) : Z :=
  match l with
  | [] => 0
  | b :: l => u8 b + 256 * of_le l
  end.

Definition le16 (z : Z) : bytes := le_bytes 2 z.
Definition le32 (z : Z) : bytes := le_bytes 4 z.
Definition le64 (z : Z) : bytes := le_bytes 8 z.

(** [i64::from_le_bytes]: two's complement. *)
Definition of_le_i64 (l : bytes) : Z :=
  let u := of_le l in if u <? 2 ^ 63 then u else u - 2 ^ 64.

Lemma length_le_bytes n z : length (le_bytes n z) = n.
Proof. revert z. induction n as [| n IH]; intros z; simpl; congruence. Qed.

Lemma zlen_le_bytes n z : zlen (le_bytes n z) = Z.of_nat n.
Proof. unfold zlen. by rewrite length_le_bytes. Qed.
Lemma zlen_le16 z : zlen (le16 z) = 2. Proof. apply (zlen_le_bytes 2). Qed.
Lemma zlen_le32 z : zlen (le32 z) = 4. Proof. apply (zlen_le_bytes 4). Qed.
Lemma zlen_le64 z : zlen (le64 z) = 8. Proof. apply (zlen_le_bytes 8). Qed.

Lemma of_le_le_bytes n z : of_le (le_bytes n z) = z mod 256 ^ Z.of_nat n.
Proof.
  revert z. induction n as [| n IH]; intros z; simpl le_bytes; cbn [of_le].
  - by rewrite Z.pow_0_r, Z.mod_1_r.
  - rewrite IH, u8_as_u8, Nat2Z.inj_succ, Z.pow_succ_r by lia.
    rewrite Z.rem_mul_r by (try lia; apply Z.pow_nonzero; lia). lia.
Qed.

Lemma of_le_range l : 0 <= of_le l < 256 ^ zlen l.
Proof.
  induction l as [| b l IH]; cbn [of_le].
  - zlen_nil. simpl. lia.
  - rewrite zlen_cons, Z.pow_add_r by zlens. pose proof (u8_range b). lia.
Qed.

Lemma le_bytes_of_le l : le_bytes (length l) (of_le l) = l.
Proof.
  induction l as [| b l IH]; cbn [of_le length le_bytes]; [done |].
  pose proof (u8_range b). f_equal.
  - apply u8_inj. rewrite u8_as_u8, Z.mul_comm, Z.mod_add by lia. by apply Z.mod_small.
  - rewrite Z.mul_comm, Z.div_add, Z.div_small by lia. by rewrite Z.add_0_l.
Qed.

Lemma le_bytes_of_le_n n l : zlen l = Z.of_nat n -> le_bytes n (of_le l) = l.
Proof. intros H. replace n with (length l) by (unfold zlen in H; lia). apply le_bytes_of_le. Qed.

Lemma of_le_le16 z : is_u16 z -> of_le (le16 z) = z.
Proof. intros. unfold le16. rewrite of_le_le_bytes. by apply Z.mod_small. Qed.
Lemma of_le_le32 z : is_u32 z -> of_le (le32 z) = z.
Proof. intros. unfold le32. rewrite of_le_le_bytes. by apply Z.mod_small. Qed.
Lemma of_le_le64 z : is_u64 z -> of_le (le64 z) = z.
Proof. intros. unfold le64. rewrite of_le_le_bytes. by apply Z.mod_small. Qed.
Lemma of_le_i64_le64 z : is_i64 z -> of_le_i64 (le64 z) = z.
Proof.
  unfold is_i64. intros Hz. unfold of_le_i64, le64. rewrite of_le_le_bytes.
  change (256 ^ Z.of_nat 8) with (2 ^ 64).
  destruct (Z.le_gt_cases 0 z).
  - rewrite Z.mod_small by lia. destruct (Z.ltb_spec z (2 ^ 63)); lia.
  - replace (z mod 2 ^ 64) with (z + 2 ^ 64).
    + destruct (Z.ltb_spec (z + 2 ^ 64) (2 ^ 63)); lia.
    + apply (Z.mod_unique _ _ (-1)); lia.
Qed.

Lemma le16_of_le l : zlen l = 2 -> le16 (of_le l) = l.
Proof. apply (le_bytes_of_le_n 2). Qed.
Lemma le32_of_le l : zlen l = 4 -> le32 (of_le l) = l.
Proof. apply (le_bytes_of_le_n 4). Qed.
Lemma le64_of_le l : zlen l = 8 -> le64 (of_le l) = l.
Proof. apply (le_bytes_of_le_n 8). Qed.

Lemma le_bytes_mod n z : le_bytes n (z mod 256 ^ Z.of_nat n) = le_bytes n z.
Proof.
  rewrite <- of_le_le_bytes. apply le_bytes_of_le_n. apply zlen_le_bytes.
Qed.

Lemma le64_of_le_i64 l : zlen l = 8 -> le64 (of_le_i64 l) = l.
Proof.
  intros Hl. unfold of_le_i64. destruct (Z.ltb_spec (of_le l) (2 ^ 63)).
  - by apply le64_of_le.
  - rewrite <- (le64_of_le l Hl) at 2. unfold le64.
    rewrite <- (le_bytes_mod 8 (of_le l - _)), <- (le_bytes_mod 8 (of_le l)).
    f_equal. change (256 ^ Z.of_nat 8) with (1 * 2 ^ 64).
    rewrite <- (Z.mod_add (of_le l - 2 ^ 64) 1) by lia. f_equal; lia.
Qed.

Lemma of_le_u16 l : zlen l = 2 -> is_u16 (of_le l).
Proof. intros H. pose proof (of_le_range l). by rewrite H in *. Qed.
Lemma of_le_u32 l : zlen l = 4 -> is_u32 (of_le l).
Proof. intros H. pose proof (of_le_range l). by rewrite H in *. Qed.
Lemma of_le_u64 l : zlen l = 8 -> is_u64 (of_le l).
Proof. intros H. pose proof (of_le_range l). by rewrite H in *. Qed.
Lemma of_le_i64_range l : zlen l = 8 -> is_i64 (of_le_i64 l).
Proof.
  intros H. pose proof (of_le_u64 l H) as Hr. unfold is_u64 in Hr. unfold is_i64, of_le_i64.
  destruct (Z.ltb_spec (of_le l) (2 ^ 63)); lia.
Qed.

(** Reading a stream of known lengths from the front. *)
Lemma zlen_inj_app (a a' r r' : bytes) : zlen a = zlen a' -> a ++ r = a' ++ r' -> a = a' /\ r = r'.
Proof. unfold zlen. intros Hl. apply app_inj_1. lia. Qed.

Lemma le16_inj a b : is_u16 a -> is_u16 b -> le16 a = le16 b -> a = b.
Proof. intros Ha Hb E. by rewrite <- (of_le_le16 a Ha), E, of_le_le16. Qed.
Lemma le32_inj a b : is_u32 a -> is_u32 b -> le32 a = le32 b -> a = b.
Proof. intros Ha Hb E. by rewrite <- (of_le_le32 a Ha), E, of_le_le32. Qed.
Lemma le64_inj a b : is_u64 a -> is_u64 b -> le64 a = le64 b -> a = b.
Proof. intros Ha Hb E. by rewrite <- (of_le_le64 a Ha), E, of_le_le64. Qed.

Create Rewrite HintDb zlen.
#[export] Hint Rewrite @zlen_app @zlen_cons zlen_le16 zlen_le32 zlen_le64 : zlen.
#[export] Hint Resolve u8_range of_le_u16 of_le_u32 of_le_u64 : difz.
#[global] Opaque le16 le32 le64 of_le of_le_i64.

(** ** The order of byte strings

    [Ord for [u8]]: lexicographic, a proper prefix first. *)

Fixpoint bytes_cmp (a b : bytes) : comparison :=
  match a, b with
  | [], [] => Eq
  | [], _ :: _ => Lt
  | _ :: _, [] => Gt
  | x :: a, y :: b =>
      match u8 x ?= u8 y with
      | Eq => bytes_cmp a b
      | c => c
      end
  end.

Definition bytes_lt (a b : bytes) : Prop := bytes_cmp a b = Lt.
(** [a < b] and [a >= b] as the code tests them. *)
Definition bytes_ltb (a b : bytes) : bool :=
  match bytes_cmp a b with
  | Lt => true
  | _ => false
  end.

Lemma bytes_cmp_refl a : bytes_cmp a a = Eq.
Proof. induction a as [| x a IH]; simpl; [done |]. by rewrite Z.compare_refl. Qed.

Lemma bytes_cmp_eq a b : bytes_cmp a b = Eq <-> a = b.
Proof.
  split; [| intros ->; apply bytes_cmp_refl].
  revert b. induction a as [| x a IH]; intros [| y b]; simpl; try done.
  destruct (Z.compare_spec (u8 x) (u8 y)) as [E | |]; try done.
  intros H. by rewrite (u8_inj _ _ E), (IH _ H).
Qed.

Lemma bytes_cmp_antisym a b : bytes_cmp b a = CompOpp (bytes_cmp a b).
Proof.
  revert b. induction a as [| x a IH]; intros [| y b]; simpl; try done.
  rewrite Z.compare_antisym. destruct (u8 x ?= u8 y); simpl; auto.
Qed.

Lemma bytes_cmp_gt a b : bytes_cmp a b = Gt <-> bytes_lt b a.
Proof. unfold bytes_lt. rewrite (bytes_cmp_antisym a b). by destruct (bytes_cmp a b). Qed.

Lemma bytes_lt_trans a b c : bytes_lt a b -> bytes_lt b c -> bytes_lt a c.
Proof.
  unfold bytes_lt. revert b c.
  induction a as [| x a IH]; intros [| y b] [| z c]; simpl; try done.
  destruct (Z.compare_spec (u8 x) (u8 y)), (Z.compare_spec (u8 y) (u8 z)),
    (Z.compare_spec (u8 x) (u8 z)); try done; try lia. apply IH.
Qed.

Lemma bytes_lt_irrefl a : ~ bytes_lt a a.
Proof. unfold bytes_lt. by rewrite bytes_cmp_refl. Qed.

#[export] Instance bytes_lt_strict : StrictOrder bytes_lt.
Proof. split; [intros a; apply bytes_lt_irrefl | intros a b c; apply bytes_lt_trans]. Qed.

Lemma bytes_ltb_lt a b : bytes_ltb a b = true <-> bytes_lt a b.
Proof. unfold bytes_ltb, bytes_lt. by destruct (bytes_cmp a b). Qed.

Lemma bytes_ltb_false a b : bytes_ltb a b = false <-> a = b \/ bytes_lt b a.
Proof.
  unfold bytes_ltb. rewrite <- bytes_cmp_gt, <- bytes_cmp_eq.
  destruct (bytes_cmp a b); naive_solver.
Qed.

#[export] Instance bytes_lt_dec a b : Decision (bytes_lt a b).
Proof. unfold bytes_lt. apply _. Defined.

Lemma bytes_lt_total a b : bytes_lt a b \/ a = b \/ bytes_lt b a.
Proof.
  rewrite <- (bytes_cmp_gt a b), <- (bytes_cmp_eq a b). unfold bytes_lt.
  destruct (bytes_cmp a b); auto.
Qed.

Lemma bytes_lt_snoc_prefix a b : b <> [] -> bytes_lt a (a ++ b).
Proof.
  intros Hb. unfold bytes_lt. induction a as [| x a IH]; simpl.
  - by destruct b.
  - by rewrite Z.compare_refl.
Qed.

(** ** Sorted lists grow at the end *)

Section SortedSnoc.
Context {A : Type} (R : A -> A -> Prop).

Lemma Sorted_snoc_iff l e :
  Sorted R (l ++ [e]) <-> Sorted R l /\ (forall q, list.last l = Some q -> R q e).
Proof.
  induction l as [| x l IH]; simpl.
  - split; [intros _; split; [constructor | done] | repeat constructor].
  - split.
    + intros [Hs Hd]%Sorted_inv. apply IH in Hs as [Hs Hl].
      destruct l as [| y l]; simpl in *.
      * split; [repeat constructor |]. intros q [= <-]. by inversion Hd.
      * split; [| exact Hl]. constructor; [done |]. constructor. by inversion Hd.
    + intros [[Hs Hd]%Sorted_inv Hl]. destruct l as [| y l]; simpl in *.
      * constructor; [by repeat constructor |]. constructor. by apply Hl.
      * constructor; [by apply IH |]. constructor. by inversion Hd.
Qed.

Lemma Sorted_app_l l1 l2 : Sorted R (l1 ++ l2) -> Sorted R l1.
Proof.
  induction l2 as [| e l2 IH] using rev_ind; [by rewrite app_nil_r |].
  rewrite app_assoc. intros [Hs _]%Sorted_snoc_iff. auto.
Qed.
End SortedSnoc.

(** ** Slice methods *)

(** [s.contains(&b)] *)
Definition contains (b : byte) (s : bytes) : bool := existsb (Byte.eqb b) s.

Fixpoint strip_prefix (p s : bytes) : option bytes :=
  match p, s with
  | [], _ => Some s
  | x :: p, y :: s => if Byte.eqb x y then strip_prefix p s else None
  | _ :: _, [] => None
  end.
Definition starts_with (p s : bytes) : bool := bool_decide (is_Some (strip_prefix p s)).
(** [s.strip_suffix(p)] and [s.ends_with(p)] *)
Definition strip_suffix (p s : bytes) : option bytes := @rev byte <$> strip_prefix (rev p) (rev s).
Definition ends_with (p s : bytes) : bool := bool_decide (is_Some (strip_suffix p s)).

(** [s.split(|b| *b == sep)] *)
Fixpoint split_on (sep : byte) (s : bytes) : list bytes :=
  match s with
  | [] => [[]]
  | x :: s =>
      if Byte.eqb x sep then [] :: split_on sep s
      else match split_on sep s with
           | part :: parts => (x :: part) :: parts
           | [] => [[x]]
           end
  end.

(** [s.iter().rposition(|b| *b == sep)] *)
Fixpoint rposition (sep : byte) (s : bytes) : option nat :=
  match s with
  | [] => None
  | x :: s =>
      match rposition sep s with
      | Some i => Some (S i)
      | None => if Byte.eqb x sep then Some 0%nat else None
      end
  end.

(** [s.iter().filter(|b| **b == x).count()] *)
Definition count_byte (x : byte) (s : bytes) : nat := length (List.filter (Byte.eqb x) s).

Definition is_ascii_alphabetic (b : byte) : bool :=
  (65 <=? u8 b) && (u8 b <=? 90) || (97 <=? u8 b) && (u8 b <=? 122).
Definition is_ascii_digit (b : byte) : bool := (48 <=? u8 b) && (u8 b <=? 57).
Definition is_ascii_hexdigit (b : byte) : bool :=
  is_ascii_digit b || (65 <=? u8 b) && (u8 b <=? 70) || (97 <=? u8 b) && (u8 b <=? 102).
Definition to_ascii_lowercase (b : byte) : byte :=
  if (65 <=? u8 b) && (u8 b <=? 90) then as_u8 (u8 b + 32) else b.
Definition eq_ignore_ascii_case (a b : bytes) : bool :=
  bool_decide (to_ascii_lowercase <$> a = to_ascii_lowercase <$> b).

Lemma byte_eqb_eq a b : Byte.eqb a b = true <-> a = b.
Proof. split; [apply Byte.byte_dec_bl | apply Byte.byte_dec_lb]. Qed.
Lemma byte_eqb_neq a b : Byte.eqb a b = false <-> a <> b.
Proof. rewrite <- byte_eqb_eq. by destruct (Byte.eqb a b). Qed.
Lemma byte_eqb_refl a : Byte.eqb a a = true.
Proof. by apply byte_eqb_eq. Qed.

Lemma contains_true b s : contains b s = true <-> b ∈ s.
Proof.
  unfold contains. rewrite existsb_exists. split.
  - intros (x & Hx & ->%byte_eqb_eq). by apply list_elem_of_In.
  - intros H. exists b. by rewrite <- list_elem_of_In, byte_eqb_refl.
Qed.
Lemma contains_false b s : contains b s = false <-> b ∉ s.
Proof. rewrite <- contains_true. by destruct (contains b s). Qed.

Lemma strip_prefix_Some p s t : strip_prefix p s = Some t <-> s = p ++ t.
Proof.
  revert s. induction p as [| x p IH]; intros s; simpl.
  - naive_solver.
  - destruct s as [| y s]; [naive_solver |].
    destruct (Byte.eqb x y) eqn:E.
    + apply byte_eqb_eq in E as ->. rewrite IH. naive_solver.
    + apply byte_eqb_neq in E. naive_solver.
Qed.

Lemma starts_with_true p s : starts_with p s = true <-> exists t, s = p ++ t.
Proof.
  unfold starts_with. rewrite bool_decide_eq_true. unfold is_Some.
  setoid_rewrite strip_prefix_Some. done.
Qed.

Lemma strip_suffix_Some p s t : strip_suffix p s = Some t <-> s = t ++ p.
Proof.
  unfold strip_suffix. rewrite fmap_Some. split.
  - intros (u & Hu%strip_prefix_Some & ->).
    by rewrite <- (rev_involutive s), Hu, rev_app_distr, rev_involutive.
  - intros ->. exists (rev t). rewrite strip_prefix_Some, rev_app_distr, rev_involutive. done.
Qed.

Lemma split_on_not_nil sep s : split_on sep s <> [].
Proof. destruct s as [| x s]; simpl; [done |]. destruct (Byte.eqb x sep); [done |]. by case_match. Qed.

(** The parts joined by the separator give the string back. *)
Fixpoint join_with (sep : byte) (parts : list bytes) : bytes :=
  match parts with
  | [] => []
  | [p] => p
  | p :: parts => p ++ sep :: join_with sep parts
  end.

Lemma join_with_cons sep p parts :
  parts <> [] -> join_with sep (p :: parts) = p ++ sep :: join_with sep parts.
Proof. by destruct parts. Qed.

Lemma join_split sep s : join_with sep (split_on sep s) = s.
Proof.
  induction s as [| x s IH]; simpl split_on; [done |].
  destruct (Byte.eqb x sep) eqn:E.
  - apply byte_eqb_eq in E as ->. rewrite join_with_cons by apply split_on_not_nil. by rewrite IH.
  - destruct (split_on sep s) as [| p ps] eqn:Es; [by apply split_on_not_nil in Es |].
    destruct ps; simpl in *; by rewrite IH.
Qed.

Lemma split_on_no_sep sep s : Forall (fun p => sep ∉ p) (split_on sep s).
Proof.
  induction s as [| x s IH]; simpl.
  - repeat constructor. set_solver.
  - destruct (Byte.eqb x sep) eqn:E.
    + constructor; [set_solver | done].
    + apply byte_eqb_neq in E.
      destruct (split_on sep s); inversion IH; subst; constructor; try done; set_solver.
Qed.

Lemma split_on_app sep a b :
  sep ∉ a -> split_on sep (a ++ sep :: b) = a :: split_on sep b.
Proof.
  induction a as [| x a IH]; intros Ha; simpl.
  - by rewrite byte_eqb_refl.
  - apply not_elem_of_cons in Ha as [Hx Ha].
    rewrite (proj2 (byte_eqb_neq x sep)) by done. by rewrite (IH Ha).
Qed.

Lemma split_on_nosep sep a : sep ∉ a -> split_on sep a = [a].
Proof.
  induction a as [| x a IH]; intros Ha; simpl; [done |].
  apply not_elem_of_cons in Ha as [Hx Ha].
  rewrite (proj2 (byte_eqb_neq x sep)) by done. by rewrite (IH Ha).
Qed.

(** Splitting inverts joining nonempty lists of separator-free parts. *)
Lemma split_join sep parts :
  parts <> [] -> Forall (fun p => sep ∉ p) parts -> split_on sep (join_with sep parts) = parts.
Proof.
  intros Hne Hf. induction parts as [| p parts IH]; [done |].
  apply Forall_cons_iff in Hf as [Hp Hf].
  destruct (decide (parts = [])) as [-> | Hn].
  - by apply split_on_nosep.
  - rewrite join_with_cons, split_on_app, IH by done. done.
Qed.

Lemma elem_split_last (sep : byte) s : sep ∈ s -> exists a b, s = a ++ sep :: b /\ sep ∉ b.
Proof.
  induction s as [| x s IH]; intros Hs; [by apply not_elem_of_nil in Hs |].
  destruct (decide (sep ∈ s)) as [Hin | Hn].
  - destruct (IH Hin) as (a & b & -> & Hb). by exists (x :: a), b.
  - assert (x = sep) as -> by set_solver. by exists [], s.
Qed.

Lemma rposition_last a sep b : sep ∉ b -> rposition sep (a ++ sep :: b) = Some (length a).
Proof.
  intros Hb.
  assert (rposition sep b = None) as Hn.
  { induction b as [| y b IH]; simpl; [done |].
    apply not_elem_of_cons in Hb as [Hy Hb].
    rewrite IH, (proj2 (byte_eqb_neq y sep)) by done. done. }
  induction a as [| x a IH]; simpl.
  - by rewrite Hn, byte_eqb_refl.
  - by rewrite IH.
Qed.

Lemma rposition_None sep s : rposition sep s = None <-> sep ∉ s.
Proof.
  split.
  - intros H (a & b & -> & Hb)%elem_split_last. by rewrite rposition_last in H.
  - induction s as [| x s IH]; simpl; [done |].
    intros [Hx Hs]%not_elem_of_cons. rewrite (IH Hs), (proj2 (byte_eqb_neq x sep)) by done. done.
Qed.

Lemma rposition_Some sep s i :
  rposition sep s = Some i <->
  exists a b, s = a ++ sep :: b /\ length a = i /\ sep ∉ b.
Proof.
  split.
  - intros H. destruct (decide (sep ∈ s)) as [(a & b & -> & Hb)%elem_split_last | Hn].
    + rewrite rposition_last in H by done. naive_solver.
    + apply rposition_None in Hn. congruence.
  - intros (a & b & -> & <- & Hb). by apply rposition_last.
Qed.

(** [buf[at..at + src.len()].copy_from_slice(src)] on a buffer long enough. *)
Definition write_at (at_ : Z) (src buf : bytes) : bytes :=
  ztake at_ buf ++ src ++ zdrop (at_ + zlen src) buf.

(** [[0; n]] *)
Definition zeros (n : nat) : bytes := replicate n x00.

Lemma write_at_app pre old post src at_ :
  at_ = zlen pre -> zlen src = zlen old -> write_at at_ src (pre ++ old ++ post) = pre ++ src ++ post.
Proof.
  intros -> Hl. unfold write_at. rewrite ztake_app_exact by done.
  rewrite (app_assoc pre old post), zdrop_app_exact by (autorewrite with zlen; lia). done.
Qed.

(** Filling a zeroed buffer from the front. *)
Lemma write_next k m pre src at_ :
  at_ = zlen pre -> zlen src = Z.of_nat k - Z.of_nat m ->
  write_at at_ src (pre ++ zeros k) = (pre ++ src) ++ zeros m.
Proof.
  intros -> Hl. pose proof (zlen_nonneg src).
  replace (zeros k) with (zeros (k - m) ++ zeros m).
  - rewrite write_at_app; [by rewrite app_assoc | done |]. unfold zlen, zeros in *.
    rewrite length_replicate. lia.
  - unfold zeros. rewrite <- replicate_add. f_equal. lia.
Qed.

Lemma zlen_write_at at_ src buf :
  0 <= at_ -> at_ + zlen src <= zlen buf -> zlen (write_at at_ src buf) = zlen buf.
Proof.
  intros Ha Hb. unfold write_at. autorewrite with zlen.
  rewrite zlen_ztake by zlens. rewrite zlen_zdrop by zlens. lia.
Qed.

Lemma zlen_zeros n : zlen (zeros n) = Z.of_nat n.
Proof. unfold zlen, zeros. by rewrite length_replicate. Qed.

(** ** Hashing

    BLAKE3 is a third-party crate: a parameter that maps a byte string to 32
    bytes. A [blake3::Hasher] is the bytes it was fed, since hashing
    incrementally and hashing the concatenation agree. *)

Class Blake3 := {
  blake3 : bytes -> bytes;
  blake3_length : forall s, zlen (blake3 s) = 32
}.

Definition Hasher : Type := bytes.
Definition hasher_new : Hasher := [].
Definition hasher_update (h : Hasher) (s : bytes) : Hasher := h ++ s.
Definition hasher_finalize `{Blake3} (h : Hasher) : bytes := blake3 h.

(** A small concrete hash for evaluations: a polynomial modulo 2^31 - 1. *)
Definition toy_hash (s : bytes) : bytes :=
  le_bytes 32 (foldl (fun h b => (h * 257 + u8 b + 1) mod (2 ^ 31 - 1)) 1 s).
Definition toy_blake3 : Blake3.
Proof. exists toy_hash. intros s. apply (zlen_le_bytes 32). Defined.
