(* ===== verification/Search.v ===== *)
(** * The standard library's binary search

    [<[T]>::binary_search_by] as the Rust standard library implements it: a
    window [base, base + size) halved until one element is left. The code looks
    paths and record names up with it. *)

From S2P Require Export Bytes.

Section BinarySearch.
Context {A : Type} (f : A -> comparison) (l : list A).

(** [while size > 1 { ... }]: the window shrinks by half each turn, so the
    list's length is fuel enough. *)
Fixpoint search_window (fuel base size : nat) : nat :=
  match fuel with
  | O => base
  | S fuel =>
      if (size <=? 1)%nat then base
      else
        let half := (size / 2)%nat in
        let mid := (base + half)%nat in
        let base := match f <$> l !! mid with Some Gt => base | _ => mid end in
        search_window fuel base (size - half)
  end.

Definition binary_search_by : option nat :=
  match l with
  | [] => None
  | _ :: _ =>
      let base := search_window (length l) 0 (length l) in
      match l !! base with
      | Some x => match f x with Eq => Some base | _ => None end
      | None => None
      end
  end.

(** What is found compares equal, sorted or not. *)
Lemma binary_search_sound i :
  binary_search_by = Some i -> exists x, l !! i = Some x /\ f x = Eq.
Proof.
  unfold binary_search_by. destruct l as [| y l'] eqn:El; [done |]. rewrite <- El.
  destruct (l !! _) as [x |] eqn:Ex; [| done].
  destruct (f x) eqn:Ef; [| done | done]. intros [= <-]. by exists x.
Qed.

(** The list is ordered for [f]: elements below, then at most one equal,
    then elements above. *)
Definition ordered_for : Prop :=
  forall i j x y, (i < j)%nat -> l !! i = Some x -> l !! j = Some y ->
  f x <> Lt -> f y = Gt.

Lemma search_window_correct k x fuel base size :
  ordered_for -> l !! k = Some x -> f x = Eq ->
  (0 < size)%nat -> (size <= S fuel)%nat -> (base + size <= length l)%nat ->
  (base <= k < base + size)%nat ->
  search_window fuel base size = k.
Proof.
  intros Hord Hk Hx. revert base size.
  induction fuel as [| fuel IH]; intros base size H0 Hf Hb Hr; cbn [search_window].
  { lia. }
  destruct (Nat.leb_spec size 1); [lia |].
  pose proof (Nat.div_lt size 2 ltac:(lia) ltac:(lia)).
  pose proof (Nat.Div0.mul_div_le size 2).
  assert (1 <= size / 2)%nat by (apply Nat.div_le_lower_bound; lia).
  destruct (lookup_lt_is_Some_2 l (base + size / 2)) as [y Hy]; [lia |].
  rewrite Hy. cbn [fmap option_fmap option_map]. destruct (f y) eqn:Ey.
  - apply IH; try lia. split; [| lia].
    destruct (Nat.le_gt_cases (base + size / 2) k); [done |].
    assert (f y = Gt); [| congruence]. eapply (Hord k); eauto; congruence.
  - apply IH; try lia. split; [| lia].
    destruct (Nat.le_gt_cases (base + size / 2) k); [done |].
    assert (f y = Gt); [| congruence]. eapply (Hord k); eauto; congruence.
  - apply IH; try lia. split; [lia |].
    destruct (Nat.le_gt_cases (base + size / 2) k); [| lia].
    destruct (decide (k = base + size / 2)%nat) as [-> | Hne]; [congruence |].
    assert (f x = Gt); [| congruence]. eapply (Hord _ k); eauto; [lia | congruence].
Qed.

(** On an ordered list the search finds exactly the equal element. *)
Lemma binary_search_correct i :
  ordered_for -> binary_search_by = Some i <-> exists x, l !! i = Some x /\ f x = Eq.
Proof.
  intros Hord. split; [apply binary_search_sound |]. intros (x & Hi & Hx).
  pose proof (lookup_lt_Some _ _ _ Hi) as Hlt.
  unfold binary_search_by. destruct l as [| y l'] eqn:El; [simpl in Hlt; lia |].
  rewrite <- El in *.
  rewrite (search_window_correct i x) by (done || lia). by rewrite Hi, Hx.
Qed.

Lemma binary_search_None :
  ordered_for -> binary_search_by = None <-> forall i x, l !! i = Some x -> f x <> Eq.
Proof.
  intros Hord. split.
  - intros Hn i x Hi Hx.
    assert (binary_search_by = Some i); [apply binary_search_correct; eauto | congruence].
  - intros H. destruct binary_search_by as [i |] eqn:E; [| done].
    apply binary_search_sound in E as (x & Hi & Hx). by destruct (H i x).
Qed.
End BinarySearch.

(** Looking a key up in a list sorted by distinct keys. *)
Section KeySearch.
Context {A : Type} (key : A -> bytes).

Definition key_lt (x y : A) : Prop := bytes_lt (key x) (key y).

Lemma sorted_lookup_lt (l : list A) i j x y :
  StronglySorted key_lt l -> (i < j)%nat -> l !! i = Some x -> l !! j = Some y ->
  bytes_lt (key x) (key y).
Proof.
  intros Hs. revert i j. induction Hs as [| z l Hs IH Hz]; intros i j Hij Hi Hj; [done |].
  destruct i, j; simpl in *; try lia.
  - injection Hi as ->. rewrite Forall_forall in Hz. apply Hz.
    apply list_elem_of_In. by eapply list_elem_of_lookup_2.
  - eapply (IH i j); eauto. lia.
Qed.

Lemma sorted_ordered_for (l : list A) k :
  StronglySorted key_lt l -> ordered_for (fun x => bytes_cmp (key x) k) l.
Proof.
  intros Hs i j x y Hij Hi Hj Hx. pose proof (sorted_lookup_lt _ _ _ _ _ Hs Hij Hi Hj) as Hlt.
  rewrite bytes_cmp_gt. destruct (bytes_cmp (key x) k) eqn:E; [| done |].
  - apply bytes_cmp_eq in E as <-. done.
  - apply bytes_cmp_gt in E. by trans (key x).
Qed.

Definition search_key (l : list A) (k : bytes) : option nat :=
  binary_search_by (fun x => bytes_cmp (key x) k) l.

Lemma search_key_sound l k i :
  search_key l k = Some i -> exists x, l !! i = Some x /\ key x = k.
Proof.
  intros (x & ? & ?%bytes_cmp_eq)%binary_search_sound. eauto.
Qed.

Lemma search_key_correct l k i :
  StronglySorted key_lt l ->
  search_key l k = Some i <-> exists x, l !! i = Some x /\ key x = k.
Proof.
  intros Hs. unfold search_key. rewrite binary_search_correct by by apply sorted_ordered_for.
  by setoid_rewrite bytes_cmp_eq.
Qed.

Lemma search_key_None l k :
  StronglySorted key_lt l -> search_key l k = None <-> forall x, x ∈ l -> key x <> k.
Proof.
  intros Hs. unfold search_key. rewrite binary_search_None by by apply sorted_ordered_for.
  setoid_rewrite bytes_cmp_eq. setoid_rewrite list_elem_of_lookup. naive_solver.
Qed.
End KeySearch.

(** The search depends on the keys only. *)
Lemma search_key_fmap {A B} (keyA : A -> bytes) (keyB : B -> bytes) (la : list A) (lb : list B) k :
  keyA <$> la = keyB <$> lb -> search_key keyA la k = search_key keyB lb k.
Proof.
  intros H. assert (length la = length lb) as Hl.
  { by rewrite <- (length_fmap keyA la), H, length_fmap. }
  assert (forall i, keyA <$> la !! i = keyB <$> lb !! i) as Hi.
  { intros i. by rewrite <- !list_lookup_fmap, H. }
  assert (forall i, (fun x => bytes_cmp (keyA x) k) <$> la !! i
                  = (fun x => bytes_cmp (keyB x) k) <$> lb !! i) as Hc.
  { intros i. specialize (Hi i). destruct (la !! i), (lb !! i); simplify_eq/=; congruence. }
  assert (forall fuel base size,
    search_window (fun x => bytes_cmp (keyA x) k) la fuel base size
    = search_window (fun x => bytes_cmp (keyB x) k) lb fuel base size) as Hw.
  { induction fuel as [| fuel IH]; intros base size; cbn [search_window]; [done |]. by rewrite Hc, IH. }
  unfold search_key, binary_search_by. rewrite Hl, Hw.
  destruct la as [| a la], lb as [| b lb]; try done.
  match goal with |- context [search_window ?f ?l ?n ?m ?s] => specialize (Hi (search_window f l n m s));
    destruct (_ !! search_window f l n m s), ((b :: lb) !! search_window f l n m s) end;
    simplify_eq/=; try done. by rewrite Hi.
Qed.
