(* ===== verification/Loop.v ===== *)
(** * Loops

    A loop body is a function that either goes round again with a new state or
    leaves with a result. A loop whose end depends on what the system answers is
    iteration with fuel: [None] means the fuel ran out before the loop left, and
    the theorems about such loops say that they do return. A loop with a variant
    of its own, a measure that every turn decreases, is the total function
    [iterate]: its definition takes the proof that the measure decreases, and it
    has no result but the loop's own. *)

From S2P Require Export Bytes.

Section Loop.
Context {S A : Type} (turn : S -> S + A).

Fixpoint run (fuel : nat) (s : S) : option A :=
  match fuel with
  | O => None
  | Datatypes.S fuel =>
      match turn s with
      | inl s => run fuel s
      | inr a => Some a
      end
  end.

(** The same turns, keeping the state of a loop that has not left yet. *)
Fixpoint steps (fuel : nat) (s : S) : S + A :=
  match fuel with
  | O => inl s
  | Datatypes.S fuel =>
      match turn s with
      | inl s => steps fuel s
      | inr a => inr a
      end
  end.

Lemma run_steps n s : run n s = match steps n s with inl _ => None | inr a => Some a end.
Proof. revert s. induction n as [| n IH]; intros s; [done |]. cbn [run steps]. by destruct (turn s). Qed.

(** What every turn keeps holds of the loop, left or not. *)
Lemma steps_post (I : S -> Prop) (P : A -> Prop) n s :
  (forall s, I s -> match turn s with inl s' => I s' | inr a => P a end) ->
  I s -> match steps n s with inl s' => I s' | inr a => P a end.
Proof.
  intros Hturn. revert s. induction n as [| n IH]; intros s Hs; [done |]. cbn [steps].
  specialize (Hturn s Hs). destruct (turn s) as [s' | a]; [by apply IH | done].
Qed.

(** More fuel changes nothing. *)
Lemma run_more n m s a : run n s = Some a -> (n <= m)%nat -> run m s = Some a.
Proof.
  revert m s. induction n as [| n IH]; intros m s Hr Hm; [done |].
  destruct m as [| m]; [lia |]. cbn [run] in *. destruct (turn s); [apply IH; [done | lia] | done].
Qed.

(** What holds after every turn that returns holds of the result. *)
Lemma run_post (I : S -> Prop) (P : A -> Prop) n s a :
  (forall s s', I s -> turn s = inl s' -> I s') -> (forall s a, I s -> turn s = inr a -> P a) ->
  I s -> run n s = Some a -> P a.
Proof.
  intros Hstep Hret. revert s. induction n as [| n IH]; intros s Hs Hr; [done |]. cbn [run] in Hr.
  destruct (turn s) as [s' | a'] eqn:Ht; [by apply (IH s'); eauto |].
  injection Hr as <-. eauto.
Qed.

(** A measure that every turn round the loop decreases bounds the turns. *)
Lemma run_returns (I : S -> Prop) (measure : S -> nat) n s :
  (forall s s', I s -> turn s = inl s' -> I s' /\ (measure s' < measure s)%nat) ->
  I s -> (measure s < n)%nat -> exists a, run n s = Some a.
Proof.
  intros Hstep. revert s. induction n as [| n IH]; intros s Hs Hn; [lia |]. cbn [run].
  destruct (turn s) as [s' | a] eqn:Ht; [| by exists a].
  destruct (Hstep s s' Hs Ht) as [Hs' Hm]. apply IH; [done | lia].
Qed.
End Loop.

(** ** Loops with a variant *)

Section Variant.
Context {S A : Type} (turn : S -> S + A) (measure : S -> nat).
Context (decreases : forall s s', turn s = inl s' -> (measure s' < measure s)%nat).

Lemma turn_again n s s' : (measure s < Datatypes.S n)%nat -> turn s = inl s' -> (measure s' < n)%nat.
Proof using decreases. intros Hs Ht%decreases. lia. Qed.

(** The bound is never reached: that it is above the measure is an argument. *)
Fixpoint iterate_below (n : nat) (s : S) : (measure s < n)%nat -> A :=
  match n with
  | O => fun below => False_rect A (Nat.nlt_0_r _ below)
  | Datatypes.S n => fun below =>
      match turn s as t return turn s = t -> A with
      | inl s' => fun again => iterate_below n s' (turn_again n s s' below again)
      | inr a => fun _ => a
      end eq_refl
  end.

Definition iterate (s : S) : A := iterate_below (Datatypes.S (measure s)) s (Nat.lt_succ_diag_r _).

Lemma iterate_below_run n s below : run turn n s = Some (iterate_below n s below).
Proof.
  revert s below. induction n as [| n IH]; intros s below; [lia |]. cbn [run iterate_below].
  generalize (turn_again n s). destruct (turn s) as [s' | a]; intros again; [apply IH | done].
Qed.

(** It is what iteration with enough fuel returns. *)
Lemma iterate_run n s : (measure s < n)%nat -> run turn n s = Some (iterate s).
Proof.
  intros Hn. apply (run_more turn (Datatypes.S (measure s))); [apply iterate_below_run | lia].
Qed.

Lemma iterate_eq s :
  iterate s = match turn s with inl s' => iterate s' | inr a => a end.
Proof.
  pose proof (iterate_run (Datatypes.S (measure s)) s ltac:(lia)) as Hr. cbn [run] in Hr.
  destruct (turn s) as [s' | a] eqn:Ht; [| congruence].
  apply decreases in Ht. rewrite (iterate_run (measure s) s' Ht) in Hr. congruence.
Qed.

(** Induction on the turns of the loop. *)
Lemma iterate_ind (P : S -> A -> Prop) :
  (forall s s', turn s = inl s' -> P s' (iterate s') -> P s (iterate s')) ->
  (forall s a, turn s = inr a -> P s a) -> forall s, P s (iterate s).
Proof.
  intros Hagain Hleave s. remember (measure s) as n eqn:Hn. revert s Hn.
  induction n as [n IH] using lt_wf_ind. intros s ->. rewrite iterate_eq.
  destruct (turn s) as [s' | a] eqn:Ht; [| by apply Hleave].
  apply (Hagain s); [done |]. by apply (IH (measure s')); [apply decreases |].
Qed.
End Variant.

(** Two loops in step: turns that agree, or that leave with related results. *)
Lemma iterate_both {S A} (turn turn' : S -> S + A) measure measure' dec dec' (R : A -> A -> Prop) s :
  (forall s, match turn s, turn' s with
             | inl s1, inl s2 => s1 = s2
             | inr a, inr b => R a b
             | inr a, inl _ => forall b, R a b
             | inl _, inr _ => False
             end) ->
  R (iterate turn measure dec s) (iterate turn' measure' dec' s).
Proof.
  intros Hs. apply (iterate_ind turn measure dec (fun s a => R a (iterate turn' measure' dec' s))).
  - intros s0 s1 Ht IH. rewrite (iterate_eq turn'). specialize (Hs s0). rewrite Ht in Hs.
    destruct (turn' s0) as [s2 | b]; [by subst | done].
  - intros s0 a Ht. rewrite (iterate_eq turn'). specialize (Hs s0). rewrite Ht in Hs.
    by destruct (turn' s0) as [s2 | b].
Qed.
