(* ===== verification/Utf8.v ===== *)
(** * UTF-8

    [core::str::from_utf8] and [str::chars]: a byte string is text when it
    decodes to a sequence of Unicode scalar values, by the well-formed byte
    sequences of the Unicode standard (table 3-7). A [char] is its scalar value. *)

From S2P Require Export Bytes.

Definition continuation (b : byte) : bool := (128 <=? u8 b) && (u8 b <=? 191).
Definition low6 (b : byte) : Z := u8 b - 128.

(** The second byte after a three-byte or a four-byte lead is restricted
    further: no overlong forms, no surrogates, nothing above U+10FFFF. *)
Definition second_of_three (c : Z) (b : byte) : bool :=
  continuation b
  && (if c =? 224 then 160 <=? u8 b else true)
  && (if c =? 237 then u8 b <=? 159 else true).
Definition second_of_four (c : Z) (b : byte) : bool :=
  continuation b
  && (if c =? 240 then 144 <=? u8 b else true)
  && (if c =? 244 then u8 b <=? 143 else true).

Fixpoint chars_of (s : bytes) : option (list Z) :=
  match s with
  | [] => Some []
  | b0 :: s =>
      let c := u8 b0 in
      if c <? 128 then cons c <$> chars_of s
      else match s with
      | [] => None
      | b1 :: s =>
          if (194 <=? c) && (c <=? 223) then
            if continuation b1 then cons ((c - 192) * 64 + low6 b1) <$> chars_of s else None
          else match s with
          | [] => None
          | b2 :: s =>
              if (224 <=? c) && (c <=? 239) then
                if second_of_three c b1 && continuation b2 then
                  cons ((c - 224) * 4096 + low6 b1 * 64 + low6 b2) <$> chars_of s
                else None
              else match s with
              | [] => None
              | b3 :: s =>
                  if (240 <=? c) && (c <=? 244) then
                    if second_of_four c b1 && continuation b2 && continuation b3 then
                      cons ((c - 240) * 262144 + low6 b1 * 4096 + low6 b2 * 64 + low6 b3)
                        <$> chars_of s
                    else None
                  else None
              end
          end
      end
  end.

(** [core::str::from_utf8(s).is_ok()] *)
Definition is_utf8 (s : bytes) : bool := bool_decide (is_Some (chars_of s)).

(** [text.chars()] of a string that is known to be UTF-8. *)
Definition str_chars (s : bytes) : list Z := default [] (chars_of s).

Lemma is_utf8_true s : is_utf8 s = true <-> exists cs, chars_of s = Some cs.
Proof. unfold is_utf8. by rewrite bool_decide_eq_true. Qed.

Lemma is_utf8_ascii s : Forall (fun b => u8 b < 128) s -> is_utf8 s = true.
Proof.
  intros H. apply is_utf8_true. exists (u8 <$> s).
  induction H as [| b s Hb Hs IH]; [done |]. cbn [chars_of fmap list_fmap].
  destruct (Z.ltb_spec (u8 b) 128); [| lia]. by rewrite IH.
Qed.

(** A one-byte character is followed by text exactly when the rest is text. *)
Lemma chars_of_ascii_cons b s : u8 b < 128 -> chars_of (b :: s) = cons (u8 b) <$> chars_of s.
Proof. intros Hb. cbn [chars_of]. by destruct (Z.ltb_spec (u8 b) 128); [| lia]. Qed.

Example chars_of_mixed :
  chars_of [x61; xc3; xa9; xe2; x82; xac; xf0; x9f; x98; x80] = Some [97; 233; 8364; 128512].
Proof. reflexivity. Qed.
Example chars_of_surrogate : chars_of [xed; xa0; x80] = None.
Proof. reflexivity. Qed.
Example chars_of_overlong : chars_of [xc0; xaf] = None.
Proof. reflexivity. Qed.

(** Characters number at most the bytes. *)
Lemma chars_of_length s cs : chars_of s = Some cs -> (length cs <= length s)%nat.
Proof.
  revert cs. induction s as [s IH] using (induction_ltof1 _ (@length byte)); unfold ltof in IH.
  intros cs. destruct s as [| b0 s]; cbn [chars_of]; [by intros [= <-] |].
  assert (forall (t : bytes) (c : Z) (ds : list Z), (length t < length (b0 :: s))%nat ->
    cons c <$> chars_of t = Some ds -> (length ds <= S (length t))%nat) as Hstep.
  { intros t c ds Ht (ds' & Hds & ->)%fmap_Some. simpl. apply le_n_S. by apply IH. }
  repeat (case_match; try done); intros H'; apply Hstep in H'; simpl in *; lia.
Qed.
