(* ===== verification/Cursor.v ===== *)
(** * Bounds-checked cursors

    Three decoders of the source walk a byte slice with an offset: [Cursor] of
    [metadata_decode.rs] and the two [Reader]s of [tree_patch_decode.rs] and
    [symlink_transport.rs]. They share the checked [take] below and differ in
    the error it reports. A cursor is its slice and its offset, as in the code;
    [at_rest] abstracts it to the bytes still unread, and the laws of the
    readers are stated on that abstraction. *)

From S2P Require Export Bytes.

Record cursor : Type := Cursor { cbytes : bytes; offset : Z }.

Section Take.
Context {E : Type} (truncated : E).

Definition take_raw (c : cursor) (n : Z) : result E (bytes * cursor) :=
  let? end_ := ok_or truncated (checked_add (offset c) n) in
  let? taken := ok_or truncated (get_range (offset c) end_ (cbytes c)) in
  Ok (taken, Cursor (cbytes c) end_).
End Take.

(** [at_rest c pre rest]: the cursor stands after [pre], with [rest] unread. *)
Definition at_rest (c : cursor) (pre rest : bytes) : Prop :=
  cbytes c = pre ++ rest /\ offset c = zlen pre /\ zlen (pre ++ rest) <= usize_max.

Lemma at_rest_start s : zlen s <= usize_max -> at_rest (Cursor s 0) [] s.
Proof. done. Qed.

Section TakeFacts.
Context {E : Type} (truncated : E).

(** Taking the length of a known prefix of the unread bytes yields it. *)
Lemma take_raw_app c pre s rest n :
  at_rest c pre (s ++ rest) -> n = zlen s ->
  take_raw truncated c n = Ok (s, Cursor (cbytes c) (zlen (pre ++ s)))
  /\ at_rest (Cursor (cbytes c) (zlen (pre ++ s))) (pre ++ s) rest.
Proof.
  destruct c as [cb o]. unfold at_rest, take_raw. simpl. intros (-> & -> & Hm) ->.
  autorewrite with zlen in *.
  assert (checked_add (zlen pre) (zlen s) = Some (zlen pre + zlen s)) as ->.
  { apply checked_add_Some. unfold usize_max, u64_max in *. zlens. }
  simpl. rewrite (get_range_app pre s rest) by lia. simpl.
  rewrite <- app_assoc. autorewrite with zlen. repeat split; lia.
Qed.

(** A successful read took the next bytes and left the others. *)
Lemma take_raw_Ok c pre rest n s c' :
  at_rest c pre rest -> 0 <= n -> take_raw truncated c n = Ok (s, c') ->
  exists rest', rest = s ++ rest' /\ zlen s = n /\ at_rest c' (pre ++ s) rest'
    /\ cbytes c' = cbytes c.
Proof.
  intros (Hb & Ho & Hm) Hn H. unfold take_raw in H. inv_ok.
  apply checked_add_Some in H0 as [-> Hmax].
  match goal with H : get_range _ _ _ = Some _ |- _ =>
    apply get_range_Some in H as (l1 & l3 & Hl & Hl1 & Hl2); [| rewrite Ho; zlens] end.
  subst. rewrite Hb in Hl. rewrite Ho in Hl1.
  apply app_inj_1 in Hl as [<- ->]; [| unfold zlen in Hl1; lia].
  exists l3. split; [done |]. split; [lia |]. split; [| done].
  unfold at_rest. simpl. autorewrite with zlen in *. rewrite <- app_assoc.
  repeat split; [done | lia | lia].
Qed.

(** Too few unread bytes: the read fails with the reader's error. *)
Lemma take_raw_short c pre rest n :
  at_rest c pre rest -> zlen rest < n -> take_raw truncated c n = Err truncated.
Proof.
  intros (Hb & Ho & Hm) Hn. unfold take_raw.
  destruct (checked_add _ _) as [e |] eqn:He; [| done].
  apply checked_add_Some in He as [-> He]. simpl.
  unfold get_range. rewrite Hb, Ho. autorewrite with zlen.
  replace (_ && _) with false; [done |]. symmetry. zbool. zlens.
Qed.

Lemma take_raw_Err c n e : take_raw truncated c n = Err e -> e = truncated.
Proof.
  unfold take_raw. intros H.
  destruct (checked_add _ _); simpl in H; [| congruence].
  destruct (get_range _ _ _); simpl in H; congruence.
Qed.
End TakeFacts.

(** The cursor is exhausted exactly when nothing is left unread. *)
Lemma at_rest_end c pre rest :
  at_rest c pre rest -> offset c = zlen (cbytes c) <-> rest = [].
Proof.
  intros (Hb & Ho & Hm). rewrite Ho, Hb. autorewrite with zlen. split.
  - intros H. apply zlen_0_nil. lia.
  - intros ->. zlens.
Qed.

Lemma at_rest_pre c pre rest : at_rest c pre rest -> cbytes c = pre ++ rest.
Proof. by intros (? & ? & ?). Qed.
Lemma at_rest_left c pre rest : at_rest c pre rest -> zlen (cbytes c) - offset c = zlen rest.
Proof. intros (-> & -> & _). autorewrite with zlen. lia. Qed.

(** ** Wire formats

    The contract between a reader and the bytes a writer produces for a value:
    it reads back exactly those bytes, and whatever it reads is what would have
    been written. [wf] is what the reader establishes of the value. *)

Class WireSound {E A : Type} (read : cursor -> result E (A * cursor)) (w : A -> bytes)
    (wf : A -> Prop) : Prop := {
  wire_sound x c c' pre rest :
    at_rest c pre rest -> read c = Ok (x, c') ->
    exists rest', rest = w x ++ rest' /\ wf x /\ at_rest c' (pre ++ w x) rest'
}.
Class Wire {E A : Type} (read : cursor -> result E (A * cursor)) (w : A -> bytes)
    (wf : A -> Prop) : Prop := {
  wire_complete x c pre rest :
    wf x -> at_rest c pre (w x ++ rest) ->
    exists c', read c = Ok (x, c') /\ at_rest c' (pre ++ w x) rest;
  wire_to_sound :: WireSound read w wf
}.
Ltac wire_start := split; [| split].

(** A fixed-length field. *)
Lemma wire_take {E} (e : E) n :
  0 <= n -> Wire (fun c => take_raw e c n) id (fun s => zlen s = n).
Proof.
  intros Hn. wire_start.
  - intros s c pre rest Hs Hc. destruct (take_raw_app e c pre s rest n) as [H1 H2]; eauto.
  - intros s c c' pre rest Hc H.
    destruct (take_raw_Ok e c pre rest n s c') as (rest' & ? & ? & ? & _); eauto 10.
Qed.

Section ReadMany.
Context {E A : Type} (read : cursor -> result E (A * cursor)) (w : A -> bytes) (wf : A -> Prop).

(** [for _ in 0..n { values.push(read()?) }] *)
Fixpoint read_many (n : nat) (c : cursor) : result E (list A * cursor) :=
  match n with
  | O => Ok ([], c)
  | S n =>
      let? (x, c) := read c in
      let? (xs, c) := read_many n c in
      Ok (x :: xs, c)
  end.

#[export] Instance wire_many_sound `{!WireSound read w wf} n :
  WireSound (read_many n) (fun xs => xs ≫= w) (fun xs => length xs = n /\ Forall wf xs).
Proof.
  induction n as [| n IH]; split.
  - intros xs c c' pre rest Hc [= <- <-]. simpl. rewrite app_nil_r. eauto.
  - intros xs c c' pre rest Hc H. cbn [read_many] in H. inv_ok.
    match goal with Hr : read c = Ok (?x, ?c1), Hm : read_many n ?c1 = Ok (?ys, ?c2) |- _ =>
      destruct (wire_sound x c c1 pre rest Hc Hr) as (r1 & -> & Hx & Hc1);
      destruct (wire_sound ys c1 c2 _ r1 Hc1 Hm) as (r2 & -> & [Hl Hf] & Hc2) end.
    simpl. exists r2. rewrite <- !app_assoc in *. split_and!; auto.
Qed.

Lemma wire_many `{!Wire read w wf} n :
  Wire (read_many n) (fun xs => xs ≫= w) (fun xs => length xs = n /\ Forall wf xs).
Proof.
  split; [| apply _]. induction n as [| n IH].
  - intros xs c pre rest [Hl _] Hc. destruct xs; [| done]. simpl in *. rewrite app_nil_r. eauto.
  - intros xs c pre rest [Hl Hf] Hc. destruct xs as [| x xs]; [done |]. simpl in *.
    apply Forall_cons_iff in Hf as [Hx Hf]. rewrite <- app_assoc in Hc.
    destruct (wire_complete x c pre _ Hx Hc) as (c1 & -> & Hc1). simpl.
    destruct (IH xs c1 (pre ++ w x) rest) as (c2 & -> & Hc2); [naive_solver | done |].
    simpl. rewrite <- app_assoc in Hc2. eauto.
Qed.
End ReadMany.

(** ** The typed reads

    [byte], [u16], [u32] and [u64] of the cursors, for an error [e]. *)

Section TypedReads.
Context {E : Type} (e : E).

(** [self.take(1)?[0]] *)
Definition get_byte (c : cursor) : result E (byte * cursor) :=
  let? (s, c) := take_raw e c 1 in
  match s with
  | b :: _ => Ok (b, c)
  | [] => Err e
  end.

(** [uN::from_le_bytes(self.array()?)]: [n] bytes are always an array of [n]. *)
Definition get_uint (n : Z) (c : cursor) : result E (Z * cursor) :=
  let? (s, c) := take_raw e c n in Ok (of_le s, c).

#[export] Instance wire_byte : Wire get_byte (fun b => [b]) (fun _ => True).
Proof.
  wire_start.
  - intros b c pre rest _ Hc. unfold get_byte.
    destruct (take_raw_app e c pre [b] rest 1 Hc) as [-> H]; [done |]. simpl. eauto.
  - intros b c c' pre rest Hc H. unfold get_byte in H.
    apply rbind_Ok in H as ([s c1] & Ht & H).
    destruct (take_raw_Ok e c pre rest 1 s c1) as (r & -> & Hs & Hr & _); [done | lia | done |].
    destruct s as [| b' s]; [done |]. injection H as -> ->.
    assert (s = []) as -> by (apply zlen_0_nil; rewrite zlen_cons in Hs; lia). eauto.
Qed.

Lemma wire_uint (n : nat) :
  Wire (get_uint (Z.of_nat n)) (le_bytes n) (fun z => 0 <= z < 256 ^ Z.of_nat n).
Proof.
  wire_start.
  - intros z c pre rest Hz Hc. unfold get_uint.
    destruct (take_raw_app e c pre (le_bytes n z) rest (Z.of_nat n) Hc) as [-> H].
    { by rewrite zlen_le_bytes. }
    simpl. rewrite of_le_le_bytes, Z.mod_small by done. eauto.
  - intros z c c' pre rest Hc H. unfold get_uint in H.
    apply rbind_Ok in H as ([s c1] & Ht & H).
    destruct (take_raw_Ok e c pre rest (Z.of_nat n) s c1)
      as (r & -> & Hs & Hr & _); [done | lia | done |].
    injection H as <- <-. exists r. rewrite le_bytes_of_le_n by done.
    pose proof (of_le_range s). rewrite Hs in *. auto.
Qed.
End TypedReads.

#[export] Instance wire_u16 {E} (e : E) : Wire (get_uint e 2) le16 is_u16.
Proof. apply (wire_uint e 2). Qed.
#[export] Instance wire_u32 {E} (e : E) : Wire (get_uint e 4) le32 is_u32.
Proof. apply (wire_uint e 4). Qed.
#[export] Instance wire_u64 {E} (e : E) : Wire (get_uint e 8) le64 is_u64.
Proof. apply (wire_uint e 8). Qed.

(** A length-prefixed byte string. *)
Section Blob.
Context {E : Type} (e : E).

Definition get_blob (c : cursor) : result E (bytes * cursor) :=
  let? (length, c) := get_uint e 4 c in take_raw e c length.

#[export] Instance wire_blob :
  Wire get_blob (fun s => le32 (zlen s) ++ s) (fun s => zlen s <= u32_max).
Proof.
  wire_start.
  - intros s c pre rest Hs Hc. rewrite <- app_assoc in Hc. unfold get_blob.
    edestruct (wire_complete (Wire := wire_u32 e) (zlen s) c pre) as (c1 & E1 & Hc1); [| exact Hc |].
    { unfold is_u32, u32_max in *. zlens. }
    rewrite E1. simpl. destruct (take_raw_app e c1 _ s rest (zlen s) Hc1) as [E2 H]; [done |].
    eexists. split; [exact E2 |]. by rewrite <- app_assoc in H |- *.
  - intros s c c' pre rest Hc H. unfold get_blob in H.
    apply rbind_Ok in H as ([n c1] & Hu & H).
    destruct (wire_sound (read := get_uint e 4) n c c1 pre rest Hc) as (r & -> & Hn & Hc1); [done |].
    destruct (take_raw_Ok e c1 _ r n s c' Hc1) as (r' & -> & Hs & Hr & _);
      [unfold is_u32 in Hn; lia | done |].
    exists r'. subst n. rewrite <- !app_assoc in *. unfold is_u32, u32_max in *.
    split_and!; [done | lia | done].
Qed.
End Blob.

(** [wire_read W x] performs the next read of the goal with the contract [W]:
    the unread bytes start with what is written for [x]. [wire_done] closes a
    completeness goal once every read is done. Both keep appends flat. *)
Ltac flat_goal := repeat (progress (rewrite <- ?app_assoc; cbn [app])).
Ltac flat_at :=
  repeat match goal with
  | H : at_rest _ _ _ |- _ => progress (rewrite <- ?app_assoc in H; cbn [app] in H)
  end.
Ltac wire_read W x :=
  flat_at;
  match goal with
  | H : at_rest ?c ?pre _ |- _ =>
      let c' := fresh "c" in
      let E := fresh "E" in
      let H' := fresh "Hc" in
      edestruct (@wire_complete _ _ _ _ _ W x c pre) as (c' & E & H');
      [| cbv beta; flat_goal; exact H
       | cbv beta in E; rewrite E; clear E H; cbn [rbind]; cbv beta iota ]
  end.
Ltac wire_done :=
  cbn [rbind]; eexists; split; [reflexivity |]; flat_at; rewrite ?app_nil_r in *; flat_goal; assumption.

(** [wire_inv] inverts every successful read of the hypotheses, in order. *)
Ltac wire_inv_step :=
  match goal with
  | Hc : at_rest ?c ?pre ?rest, Hr : ?read ?c = Ok (?x, ?c') |- _ =>
      let r := fresh "rest" in
      let Heq := fresh "Hrest" in
      let Hw := fresh "Hw" in
      let Hc' := fresh "Hc" in
      destruct (wire_sound (read := read) x c c' pre rest Hc Hr) as (r & Heq & Hw & Hc');
      clear Hc Hr; cbv beta in *; try subst rest
  end.
Ltac wire_inv := repeat wire_inv_step.

(** [wire_split] proves the soundness conclusion from the inverted reads. *)
Ltac wire_split :=
  flat_at;
  match goal with
  | H : at_rest _ _ ?rest |- _ => exists rest
  end;
  rewrite ?app_nil_r in *; flat_goal; split; [reflexivity | split; [| assumption]].
