(* ===== verification/Metadata.v ===== *)
(** * Portable metadata primitives ([rust/src/metadata.rs])

    The omission families and their mask, the wire enumerations, the grammars of
    attribute names, ACE names and hardlink paths, and timestamps with their two
    override encodings. *)

From S2P Require Export Bytes.
From S2P Require Export Utf8.


Inductive Error : Type :=
| InvalidOmitMask | EmptyFamily | UnknownFamily | DuplicateFamily | InvalidNsec
| BadMetadata | EmptyName | InvalidLogicalName | ReservedTransportName
| InvalidRawName | InvalidHardlink | InvalidAceName | OutOfMemory | DuplicateXattr
| DuplicateAce | EmptyNativeAcl | ZeroLengthHole | HoleOverflow
| TruncatedMetadata | TrailingMetadata.

#[export] Instance Error_eq_dec : EqDecision Error.
Proof. solve_decision. Defined.

(** ** Enumerations

    Each [wire_enum!] has its tag ([as u8]) and its [TryFrom<u8>]; the derived
    order is the order of the tags. *)

Module Family.
Inductive Family : Type := Xattr | Acl | Timestamps | Finder | Sparse | Hardlink.

#[global] Instance Family_eq_dec : EqDecision Family.
Proof. solve_decision. Defined.

Definition ALL : list Family := [Xattr; Acl; Timestamps; Finder; Sparse; Hardlink].

Definition tag (f : Family) : Z :=
  match f with
  | Xattr => 1 | Acl => 2 | Timestamps => 3 | Finder => 4 | Sparse => 5 | Hardlink => 6
  end.

Definition name (f : Family) : bytes :=
  match f with
  | Xattr => lit "xattr"
  | Acl => lit "acl"
  | Timestamps => lit "timestamps"
  | Finder => lit "finder"
  | Sparse => lit "sparse"
  | Hardlink => lit "hardlink"
  end.

(** [1 << (self as u8 - 1)] *)
Definition bit (f : Family) : Z := Z.shiftl 1 (tag f - 1).

Definition MASK : Z := foldl (fun mask f => Z.lor mask (bit f)) 0 ALL.
End Family.

Module Os.
Inductive Os : Type := Linux | Macos | Mswin.

#[global] Instance Os_eq_dec : EqDecision Os.
Proof. solve_decision. Defined.

Definition tag (o : Os) : byte :=
  match o with Linux => x01 | Macos => x02 | Mswin => x03 end.
Definition try_from (b : byte) : result Error Os :=
  match b with x01 => Ok Linux | x02 => Ok Macos | x03 => Ok Mswin | _ => Err BadMetadata end.
End Os.

Module XattrClass.
Inductive XattrClass : Type := Logical | Raw.

#[global] Instance XattrClass_eq_dec : EqDecision XattrClass.
Proof. solve_decision. Defined.

Definition tag (c : XattrClass) : byte := match c with Logical => x01 | Raw => x02 end.
Definition try_from (b : byte) : result Error XattrClass :=
  match b with x01 => Ok Logical | x02 => Ok Raw | _ => Err BadMetadata end.
End XattrClass.

Module AceTag.
Inductive AceTag : Type := Owner | Group | Everyone | NamedUser | NamedGroup | Mask.

#[global] Instance AceTag_eq_dec : EqDecision AceTag.
Proof. solve_decision. Defined.

Definition tag (t : AceTag) : byte :=
  match t with
  | Owner => x01 | Group => x02 | Everyone => x03
  | NamedUser => x04 | NamedGroup => x05 | Mask => x06
  end.
Definition try_from (b : byte) : result Error AceTag :=
  match b with
  | x01 => Ok Owner | x02 => Ok Group | x03 => Ok Everyone
  | x04 => Ok NamedUser | x05 => Ok NamedGroup | x06 => Ok Mask
  | _ => Err BadMetadata
  end.
End AceTag.

(** ** Names *)

Definition TRANSPORT_NAMES : list bytes :=
  [ lit "difz.btime"; lit "difz.mtime"; lit "difz.finder-info"; lit "difz.bsd-flags";
    lit "difz.native-acl"; lit "difz.portable-acl"; lit "difz.sparse-holes";
    lit "difz.hardlink-to"; lit "difz.raw-xattrs"; lit "difz.symlinks" ].

Definition is_transport_name (name : bytes) : bool :=
  let bare := default name (strip_prefix (lit "user.") name) in
  bool_decide (bare ∈ TRANSPORT_NAMES).

(** Slash, backslash, colon, star, question mark, double quote, angle brackets, bar. *)
Definition FORBIDDEN : bytes := [x2f; x5c; x3a; x2a; x3f; x22; x3c; x3e; x7c].

(** [name.get(..prefix.len()).is_some_and(|head| head.eq_ignore_ascii_case(prefix))] *)
Definition has_prefix_ignore_case (prefix name : bytes) : bool :=
  match get_range 0 (zlen prefix) name with
  | Some head => eq_ignore_ascii_case head prefix
  | None => false
  end.

Definition validate_logical_name (name : bytes) : result Error unit :=
  let? _ := fail_if (bool_decide (name = [])) EmptyName in
  fail_if
    ((127 <? zlen name)
     || existsb (fun b => (u8 b <? 32) || Byte.eqb b x7f || contains b FORBIDDEN) name
     || negb (is_utf8 name)
     || bool_decide (head name = Some x20)
     || ends_with [x20] name
     || ends_with [x2e] name
     || existsb (fun prefix => has_prefix_ignore_case prefix name)
          [lit "user."; lit "com.apple."; lit "$"]
     || eq_ignore_ascii_case name (lit "zone.identifier"))
    InvalidLogicalName.

Definition validate_xattr_name (class : XattrClass.XattrClass) (name : bytes) : result Error unit :=
  let? _ := fail_if (is_transport_name name) ReservedTransportName in
  let? _ := fail_if (bool_decide (name = [])) EmptyName in
  match class with
  | XattrClass.Logical => validate_logical_name name
  | XattrClass.Raw =>
      fail_if
        ((255 <? zlen name)
         || existsb (fun b => Byte.eqb b x00 || Byte.eqb b x2f || Byte.eqb b x5c) name)
        InvalidRawName
  end.

(** [path.len() >= 2 && path[0].is_ascii_alphabetic() && path[1] == b':'] *)
Definition has_drive_prefix (path : bytes) : bool :=
  match path with
  | a :: c :: _ => is_ascii_alphabetic a && Byte.eqb c x3a
  | _ => false
  end.

(** A component that no portable path may have. *)
Definition bad_component (part : bytes) : bool :=
  bool_decide (part = []) || bool_decide (part = lit ".") || bool_decide (part = lit "..").

Definition validate_hardlink (path : bytes) : result Error unit :=
  fail_if
    (bool_decide (path = [])
     || (4096 <? zlen path)
     || negb (is_utf8 path)
     || starts_with (lit "/") path
     || contains x5c path
     || contains x00 path
     || has_drive_prefix path
     || existsb bad_component (split_on x2f path))
    InvalidHardlink.

Definition validate_ace_name (tag : AceTag.AceTag) (name : bytes) : result Error unit :=
  let valid :=
    match tag with
    | AceTag.NamedUser | AceTag.NamedGroup =>
        negb (bool_decide (name = [])) && is_utf8 name && negb (contains x2f name)
        && negb (contains x00 name)
    | AceTag.Owner | AceTag.Group | AceTag.Everyone | AceTag.Mask => bool_decide (name = [])
    end in
  fail_if (negb valid) InvalidAceName.

Definition raw_accepted (os : Os.Os) (name : bytes) : bool :=
  match os with
  | Os.Linux =>
      existsb (fun prefix => starts_with prefix name && (zlen prefix <? zlen name))
        [lit "user."; lit "system."; lit "security."; lit "trusted."]
  | Os.Macos =>
      negb (bool_decide (name = [])) && (zlen name <=? 127) && negb (contains x2f name)
  | Os.Mswin =>
      negb (bool_decide (name = [])) && (zlen name <=? 255)
      && negb (existsb (fun b => contains b FORBIDDEN) name)
  end.

(** ** The omission mask *)

Module Omit.
(** [struct Omit(u32)] *)
Record Omit : Type := MkOmit { bits : Z }.

#[global] Instance Omit_eq_dec : EqDecision Omit.
Proof. solve_decision. Defined.

Definition default : Omit := MkOmit 0.

(** [bits & !Family::MASK != 0], on [u32]. *)
Definition from_bits (bits : Z) : result Error Omit :=
  let? _ := fail_if (negb (Z.land bits (Z.lxor u32_max Family.MASK) =? 0)) InvalidOmitMask in
  Ok (MkOmit bits).

Definition contains (omit : Omit) (family : Family.Family) : bool :=
  negb (Z.land (bits omit) (Family.bit family) =? 0).

(** [while let Some(tail) = name.strip_prefix(b" ")] *)
Fixpoint trim_start (name : bytes) : bytes :=
  match name with
  | x20 :: tail => trim_start tail
  | _ => name
  end.
(** [while let Some(head) = name.strip_suffix(b" ")]; each turn drops a byte. *)
Fixpoint trim_end_fuel (fuel : nat) (name : bytes) : bytes :=
  match fuel with
  | O => name
  | S fuel =>
      match strip_suffix [x20] name with
      | Some head => trim_end_fuel fuel head
      | None => name
      end
  end.
Definition trim_end (name : bytes) : bytes := trim_end_fuel (length name) name.

(** One turn of the loop over the comma-separated names. *)
Definition parse_family (omit : Omit) (name : bytes) : result Error Omit :=
  let name := trim_end (trim_start name) in
  let? _ := fail_if (bool_decide (name = [])) EmptyFamily in
  let? family :=
    ok_or UnknownFamily (find (fun f => bool_decide (Family.name f = name)) Family.ALL) in
  let? _ := fail_if (contains omit family) DuplicateFamily in
  Ok (MkOmit (Z.lor (bits omit) (Family.bit family))).

Definition parse (text : bytes) : result Error Omit :=
  if bool_decide (text = []) then Ok default
  else foldM parse_family default (split_on x2c text).
End Omit.

(** The mask has the six family bits. *)
Lemma omit_from_bits_Ok bits o :
  is_u32 bits -> Omit.from_bits bits = Ok o <-> bits < 64 /\ o = Omit.MkOmit bits.
Proof.
  intros Hb. unfold Omit.from_bits.
  change (Z.lxor u32_max Family.MASK) with (Z.shiftl (Z.ones (32 - 6)) 6).
  destruct (Z.eqb_spec (Z.land bits (Z.shiftl (Z.ones (32 - 6)) 6)) 0) as [E | E];
    rewrite high_bits_zero in E by (done || lia); simpl.
  - change (2 ^ 6) with 64 in E. naive_solver.
  - change (2 ^ 6) with 64 in E. split; [done |]. naive_solver lia.
Qed.

(** ** Timestamps *)

Record Time : Type := MkTime { sec : Z; nsec : Z }.

#[export] Instance Time_eq_dec : EqDecision Time.
Proof. solve_decision. Defined.

Definition NSEC_LIMIT : Z := 1000000000.

Definition time_encode (t : Time) : result Error bytes :=
  let? _ := fail_if (NSEC_LIMIT <=? nsec t) InvalidNsec in
  let buf := zeros 12 in
  let buf := write_at 0 (le64 (sec t)) buf in
  let buf := write_at 8 (le32 (nsec t)) buf in
  Ok buf.

Definition time_decode (s : bytes) : result Error Time :=
  let? _ := fail_if (negb (zlen s =? 12)) BadMetadata in
  let sec := of_le_i64 (ztake 8 s) in
  let nsec := of_le (zdrop 8 s) in
  let? _ := fail_if (NSEC_LIMIT <=? nsec) InvalidNsec in
  Ok (MkTime sec nsec).

Record ModificationOverride : Type :=
  MkModificationOverride { original : option Time; observed : Time }.

#[export] Instance ModificationOverride_eq_dec : EqDecision ModificationOverride.
Proof. solve_decision. Defined.

(** [InlineBytes<N>]: a fixed buffer of which the first [ilength] bytes count. *)
Record InlineBytes : Type := MkInlineBytes { ibytes : bytes; ilength : Z }.

Definition as_bytes (b : InlineBytes) : bytes := ztake (ilength b) (ibytes b).

Definition encode_time_override (value : option Time) : result Error InlineBytes :=
  match value with
  | None => Ok (MkInlineBytes (zeros 13) 1)
  | Some time =>
      let buf := write_at 0 [x01] (zeros 13) in
      let? t := time_encode time in
      Ok (MkInlineBytes (write_at 1 t buf) 13)
  end.

Definition decode_time_override (s : bytes) : result Error (option Time) :=
  if bool_decide (s = [x00]) then Ok None
  else
    let? _ := fail_if (negb (zlen s =? 13) || negb (bool_decide (head s = Some x01))) BadMetadata in
    let? t := time_decode (zdrop 1 s) in
    Ok (Some t).

Definition encode_modification_override (value : ModificationOverride) : result Error InlineBytes :=
  let? orig := encode_time_override (original value) in
  let? obs := time_encode (observed value) in
  let prefix := zlen (as_bytes orig) in
  let len := prefix + zlen obs in
  let buf := write_at 0 (as_bytes orig) (zeros 25) in
  let buf := write_at prefix obs buf in
  Ok (MkInlineBytes buf len).

Definition decode_modification_override (s : bytes) : result Error ModificationOverride :=
  let? _ := fail_if (negb (zlen s =? 13) && negb (zlen s =? 25)) BadMetadata in
  let prefix := zlen s - 12 in
  let? orig := decode_time_override (ztake prefix s) in
  let? obs := time_decode (zdrop prefix s) in
  Ok (MkModificationOverride orig obs).

(** ** Tags *)

Lemma os_try_from_tag o : Os.try_from (Os.tag o) = Ok o.
Proof. by destruct o. Qed.
Lemma os_try_from_Ok b o : Os.try_from b = Ok o -> b = Os.tag o.
Proof. destruct b; simpl; try done; by intros [= <-]. Qed.
Lemma class_try_from_tag c : XattrClass.try_from (XattrClass.tag c) = Ok c.
Proof. by destruct c. Qed.
Lemma class_try_from_Ok b c : XattrClass.try_from b = Ok c -> b = XattrClass.tag c.
Proof. destruct b; simpl; try done; by intros [= <-]. Qed.
Lemma ace_try_from_tag t : AceTag.try_from (AceTag.tag t) = Ok t.
Proof. by destruct t. Qed.
Lemma ace_try_from_Ok b t : AceTag.try_from b = Ok t -> b = AceTag.tag t.
Proof. destruct b; simpl; try done; by intros [= <-]. Qed.

Create Rewrite HintDb tags.
#[export] Hint Rewrite os_try_from_tag class_try_from_tag ace_try_from_tag : tags.

Lemma class_tag_inj c1 c2 : XattrClass.tag c1 = XattrClass.tag c2 -> c1 = c2.
Proof. by destruct c1, c2. Qed.
Lemma ace_tag_inj t1 t2 : AceTag.tag t1 = AceTag.tag t2 -> t1 = t2.
Proof. by destruct t1, t2. Qed.

(** ** Timestamps on the wire *)

(** What the field types allow, and what the codecs accept. *)
Definition time_typed (t : Time) : Prop := is_i64 (sec t) /\ is_u32 (nsec t).
Definition time_valid (t : Time) : Prop := is_i64 (sec t) /\ 0 <= nsec t < NSEC_LIMIT.

Definition time_wire (t : Time) : bytes := le64 (sec t) ++ le32 (nsec t).

Lemma zlen_time_wire t : zlen (time_wire t) = 12.
Proof. unfold time_wire. by autorewrite with zlen. Qed.

Lemma time_encode_eq t :
  time_encode t = if NSEC_LIMIT <=? nsec t then Err InvalidNsec else Ok (time_wire t).
Proof.
  unfold time_encode. destruct (NSEC_LIMIT <=? nsec t); reflexivity.
Qed.

Lemma time_decode_wire t : time_valid t -> time_decode (time_wire t) = Ok t.
Proof.
  intros [Hs Hn]. unfold time_decode. rewrite zlen_time_wire. simpl. unfold time_wire.
  rewrite ztake_app_exact, zdrop_app_exact by (by autorewrite with zlen).
  rewrite of_le_i64_le64 by done.
  rewrite of_le_le32 by (unfold is_u32, NSEC_LIMIT in *; lia).
  destruct (Z.leb_spec NSEC_LIMIT (nsec t)); [lia |]. by destruct t.
Qed.

Lemma time_decode_Ok s t : time_decode s = Ok t -> s = time_wire t /\ time_valid t.
Proof.
  unfold time_decode. intros H. inv_ok. zbool. simpl.
  assert (zlen (ztake 8 s) = 8) by (apply zlen_ztake; lia).
  assert (zlen (zdrop 8 s) = 4) by (rewrite zlen_zdrop; lia).
  unfold time_wire, time_valid. cbn [sec nsec].
  rewrite le64_of_le_i64, le32_of_le, ztake_zdrop by done.
  pose proof (of_le_u32 _ H2). unfold is_u32 in *.
  split_and!; [done | by apply of_le_i64_range | lia | done].
Qed.

Lemma time_decode_length s t : time_decode s = Ok t -> zlen s = 12.
Proof. intros [-> _]%time_decode_Ok. apply zlen_time_wire. Qed.

(** ** Overrides on the wire *)

Definition override_wire (value : option Time) : bytes :=
  match value with
  | None => [x00]
  | Some t => x01 :: time_wire t
  end.

Definition option_time_valid (value : option Time) : Prop :=
  match value with
  | None => True
  | Some t => time_valid t
  end.
Definition option_time_typed (value : option Time) : Prop :=
  match value with
  | None => True
  | Some t => time_typed t
  end.

Lemma time_typed_valid t : time_typed t -> nsec t < NSEC_LIMIT -> time_valid t.
Proof. unfold time_typed, time_valid, is_u32. naive_solver lia. Qed.

Lemma encode_time_override_Ok value b :
  option_time_typed value -> encode_time_override value = Ok b <->
  option_time_valid value /\ b = MkInlineBytes (override_wire value ++ zeros (12 - length (tail (override_wire value))))
    (zlen (override_wire value)).
Proof.
  destruct value as [t |]; cbn [encode_time_override option_time_typed option_time_valid override_wire].
  - intros Ht. rewrite time_encode_eq. assert (length (tail (x01 :: time_wire t)) = 12%nat) as ->.
    { apply Nat2Z.inj. exact (zlen_time_wire t). }
    rewrite app_nil_r, zlen_cons, zlen_time_wire.
    assert (write_at 1 (time_wire t) (write_at 0 [x01] (zeros 13)) = x01 :: time_wire t) as Hw.
    { change (write_at 0 [x01] (zeros 13)) with ([x01] ++ zeros 12).
      rewrite (write_next 12 0) by (rewrite ?zlen_time_wire; done). by rewrite app_nil_r. }
    destruct (Z.leb_spec NSEC_LIMIT (nsec t)) as [Hl | Hl]; cbn [rbind].
    + split; [done |]. intros [[_ Hv] _]. lia.
    + rewrite Hw. split; [intros [= <-]; split; [by apply time_typed_valid | done] | by intros [_ ->]].
  - intros _. split; [by intros [= <-] | by intros [_ ->]].
Qed.

Lemma as_bytes_override value b :
  option_time_typed value -> encode_time_override value = Ok b -> as_bytes b = override_wire value.
Proof.
  intros Ht [_ ->]%encode_time_override_Ok; [| done]. unfold as_bytes. cbn [ilength ibytes].
  by apply ztake_app_exact.
Qed.

Lemma decode_time_override_Ok s value :
  decode_time_override s = Ok value <-> option_time_valid value /\ s = override_wire value.
Proof.
  unfold decode_time_override. case_bool_decide as Hs.
  - subst s. split; [by intros [= <-] |]. by intros [Hv Hw]; destruct value.
  - split.
    + intros (? & [_ Hh%negb_false_iff]%fail_if_Ok%orb_false_iff & Hd)%rbind_Ok.
      apply bool_decide_eq_true in Hh. destruct s as [| b s]; [done |].
      assert (b = x01) as -> by (cbn in Hh; congruence).
      apply rbind_Ok in Hd as (t & [Hw Hv]%time_decode_Ok & [= <-]).
      change (zdrop 1 (x01 :: s)) with s in Hw. by subst s.
    + intros [Hv ->]. destruct value as [t |]; [| done]. cbn [override_wire option_time_valid] in *.
      rewrite zlen_cons, zlen_time_wire, bool_decide_eq_true_2 by done. cbn [negb orb Z.eqb Z.add Pos.add Pos.eqb fail_if rbind].
      change (zdrop 1 (x01 :: time_wire t)) with (time_wire t). by rewrite time_decode_wire.
Qed.

Definition modification_wire (v : ModificationOverride) : bytes :=
  override_wire (original v) ++ time_wire (observed v).
Definition modification_valid (v : ModificationOverride) : Prop :=
  option_time_valid (original v) /\ time_valid (observed v).
Definition modification_typed (v : ModificationOverride) : Prop :=
  option_time_typed (original v) /\ time_typed (observed v).

Lemma zlen_override_wire value : zlen (override_wire value) = 1 \/ zlen (override_wire value) = 13.
Proof. destruct value; cbn; [right; by rewrite zlen_cons, zlen_time_wire | by left]. Qed.

Lemma decode_modification_override_Ok s v :
  decode_modification_override s = Ok v <-> modification_valid v /\ s = modification_wire v.
Proof.
  unfold decode_modification_override, modification_valid, modification_wire. split.
  - intros Hd. inv_ok. cbn [original observed].
    match goal with Ho : decode_time_override _ = Ok _ |- _ => apply decode_time_override_Ok in Ho as [Hv Hs] end.
    match goal with Ho : time_decode _ = Ok _ |- _ => apply time_decode_Ok in Ho as [Ht Htv] end.
    split; [done |]. by rewrite <- Hs, <- Ht, ztake_zdrop.
  - intros [[Hv Ht] ->]. rewrite zlen_app, zlen_time_wire.
    assert (negb (zlen (override_wire (original v)) + 12 =? 13)
      && negb (zlen (override_wire (original v)) + 12 =? 25) = false) as ->.
    { destruct (zlen_override_wire (original v)) as [-> | ->]; done. }
    cbn [fail_if rbind].
    replace (zlen (override_wire (original v)) + 12 - 12) with (zlen (override_wire (original v))) by lia.
    rewrite ztake_app_exact, zdrop_app_exact by done.
    rewrite (proj2 (decode_time_override_Ok _ (original v))) by done. cbn [rbind].
    rewrite time_decode_wire by done. by destruct v.
Qed.

Lemma encode_modification_override_Ok v :
  modification_typed v ->
  (exists b, encode_modification_override v = Ok b) <-> modification_valid v.
Proof.
  intros [Ho Ht]. unfold encode_modification_override, modification_valid. rewrite time_encode_eq. split.
  - intros [b Hb]. inv_ok.
    match goal with He : encode_time_override _ = Ok _ |- _ => apply encode_time_override_Ok in He as [Hv _];
      [| done] end.
    split; [done |]. destruct (Z.leb_spec NSEC_LIMIT (nsec (observed v))); [done |].
    by apply time_typed_valid.
  - intros [Hv [_ Hn]]. rewrite (proj2 (encode_time_override_Ok (original v) _ Ho) (conj Hv eq_refl)).
    cbn [rbind]. rewrite (proj2 (Z.leb_gt _ _)) by lia. cbn [rbind]. eauto.
Qed.

Lemma as_bytes_modification v b :
  modification_typed v -> encode_modification_override v = Ok b -> as_bytes b = modification_wire v.
Proof.
  intros [Ho Ht]. unfold encode_modification_override. rewrite time_encode_eq. intros Hb.
  apply rbind_Ok in Hb as (o & He & Hb). apply as_bytes_override in He; [| done]. rewrite He in Hb.
  apply rbind_Ok in Hb as (t & Hte & [= <-]).
  destruct (_ <=? _); [done |]. injection Hte as <-. rewrite zlen_time_wire.
  unfold as_bytes. cbn [ilength ibytes]. unfold modification_wire.
  change (zeros 25) with ([] ++ zeros 25).
  destruct (zlen_override_wire (original v)) as [E | E]; rewrite E.
  - rewrite (write_next 25 24) by (rewrite ?E; done). rewrite app_nil_l.
    rewrite (write_next 24 12) by (rewrite ?E, ?zlen_time_wire; done).
    apply ztake_app_exact. by rewrite zlen_app, E, zlen_time_wire.
  - rewrite (write_next 25 12) by (rewrite ?E; done). rewrite app_nil_l.
    rewrite (write_next 12 0) by (rewrite ?E, ?zlen_time_wire; done).
    apply ztake_app_exact. by rewrite zlen_app, E, zlen_time_wire.
Qed.

(** ** The properties of overrides *)

(** A birth-time override that is encoded is one or thirteen bytes and
    decodes to itself; only a time with a billion nanoseconds or more is not
    encoded; and whatever decodes is the encoding of the value it decodes to. *)
Lemma time_override_codec value :
  option_time_typed value ->
  match encode_time_override value with
  | Ok b =>
      decode_time_override (as_bytes b) = Ok value
      /\ (zlen (as_bytes b) = 1 \/ zlen (as_bytes b) = 13)
      /\ forall s, decode_time_override s = Ok value -> s = as_bytes b
  | Err e => e = InvalidNsec /\ exists t, value = Some t /\ NSEC_LIMIT <= nsec t
  end.
Proof.
  intros Ht. destruct (encode_time_override value) as [b | e] eqn:E.
  - rewrite (as_bytes_override value b Ht E). apply encode_time_override_Ok in E as [Hv _]; [| done].
    split_and!; [by apply decode_time_override_Ok | apply zlen_override_wire |].
    by intros s [_ ->]%decode_time_override_Ok.
  - destruct value as [t |]; [| done]. cbn [encode_time_override] in E. rewrite time_encode_eq in E.
    destruct (Z.leb_spec NSEC_LIMIT (nsec t)) as [Hl |]; [| done]. cbn [rbind] in E.
    injection E as <-. eauto.
Qed.

Lemma time_override_codec_witness :
  exists b, encode_time_override (Some (MkTime (-5) 7)) = Ok b
    /\ decode_time_override (as_bytes b) = Ok (Some (MkTime (-5) 7)).
Proof.
  assert (option_time_typed (Some (MkTime (-5) 7))) as Ht
    by (vm_compute; repeat split; discriminate || reflexivity).
  pose proof (time_override_codec (Some (MkTime (-5) 7)) Ht) as H.
  destruct (encode_time_override (Some (MkTime (-5) 7))) as [b | e] eqn:E.
  - exists b. exact (conj eq_refl (proj1 H)).
  - discriminate E.
Defined.

(** A modification-time override is encoded exactly when both of its times
    are valid; the encoding decodes to it and to nothing else, and whatever
    decodes is the encoding of a valid override. *)
Lemma modification_override_codec v s :
  modification_typed v ->
  decode_modification_override s = Ok v <->
  exists b, encode_modification_override v = Ok b /\ as_bytes b = s.
Proof.
  intros Ht. rewrite decode_modification_override_Ok. split.
  - intros [Hv ->]. apply encode_modification_override_Ok in Hv as [b Hb]; [| done].
    exists b. split; [done |]. by apply as_bytes_modification.
  - intros (b & Hb & <-). rewrite (as_bytes_modification v b Ht Hb). split; [| done].
    apply encode_modification_override_Ok; eauto.
Qed.

Lemma modification_override_codec_witness :
  exists b, encode_modification_override (MkModificationOverride None (MkTime 9 1)) = Ok b
    /\ decode_modification_override (as_bytes b) = Ok (MkModificationOverride None (MkTime 9 1)).
Proof.
  set (v := MkModificationOverride None (MkTime 9 1)).
  assert (modification_typed v) as Ht by (vm_compute; repeat split; discriminate || reflexivity).
  assert (exists b, encode_modification_override v = Ok b) as [b Hb] by (eexists; vm_compute; reflexivity).
  exists b. split; [exact Hb |].
  apply (modification_override_codec v (as_bytes b) Ht). exists b. exact (conj Hb eq_refl).
Defined.
