(* ===== verification/OmitText.v ===== *)
(** * The omission list ([Omit::parse] of [rust/src/metadata.rs])

    The text grammar of [--omit]: comma-separated family names, each once, spaces
    around them ignored. The mask that results holds exactly the named families. *)

From S2P Require Export Metadata.

Module OmitText.
Import Omit.

(** The mask of a list of families. *)
Definition mask_of (fs : list Family.Family) : Z :=
  foldl (fun mask f => Z.lor mask (Family.bit f)) 0 fs.

(** A name as the text writes it: spaces around it. *)
Definition padded (f : Family.Family) (s : bytes) : Prop :=
  exists i j, s = replicate i x20 ++ Family.name f ++ replicate j x20.

(** ** Masks *)

Lemma contains_testbit o f : contains o f = Z.testbit (bits o) (Family.tag f - 1).
Proof.
  unfold contains, Family.bit. assert (0 <= Family.tag f - 1) as Hk by (destruct f; done).
  destruct (Z.testbit (bits o) (Family.tag f - 1)) eqn:E.
  - apply negb_true_iff, Z.eqb_neq. intros H.
    assert (Z.testbit (Z.land (bits o) (Z.shiftl 1 (Family.tag f - 1))) (Family.tag f - 1) = true) as Ht.
    { rewrite Z.land_spec, E, Z.shiftl_spec, Z.sub_diag by done. done. }
    by rewrite H, Z.bits_0 in Ht.
  - apply negb_false_iff, Z.eqb_eq. apply Z.bits_inj'. intros n Hn.
    rewrite Z.land_spec, Z.bits_0, Z.shiftl_spec by done.
    destruct (decide (n = Family.tag f - 1)) as [-> | Hne]; [by rewrite E |].
    replace (Z.testbit 1 (n - (Family.tag f - 1))) with false; [by rewrite andb_false_r |].
    symmetry. destruct (decide (n < Family.tag f - 1)); [apply Z.testbit_neg_r; lia |].
    apply Z.bits_above_log2; simpl; lia.
Qed.

Lemma tag_inj f g : Family.tag f = Family.tag g -> f = g.
Proof. by destruct f, g. Qed.
Lemma name_inj f g : Family.name f = Family.name g -> f = g.
Proof. by destruct f, g. Qed.

Lemma contains_add o f g :
  contains (MkOmit (Z.lor (bits o) (Family.bit f))) g = contains o g || bool_decide (f = g).
Proof.
  rewrite !contains_testbit. cbn [bits]. rewrite Z.lor_spec. f_equal.
  change (Z.testbit (Family.bit f) (Family.tag g - 1)) with
    (Z.testbit (bits (MkOmit (Family.bit f))) (Family.tag g - 1)).
  rewrite <- contains_testbit. by destruct f, g.
Qed.

Lemma contains_mask_from fs m g :
  contains (MkOmit (foldl (fun mask f => Z.lor mask (Family.bit f)) m fs)) g
  = contains (MkOmit m) g || bool_decide (g ∈ fs).
Proof.
  revert m. induction fs as [| f fs IH]; intros m; cbn [foldl].
  - rewrite bool_decide_eq_false_2 by set_solver. by rewrite orb_false_r.
  - rewrite IH, (contains_add (MkOmit m)), <- orb_assoc. f_equal.
    apply eq_true_iff_eq. rewrite orb_true_iff, !bool_decide_eq_true. set_solver.
Qed.

Lemma contains_mask fs g : contains (MkOmit (mask_of fs)) g = bool_decide (g ∈ fs).
Proof. unfold mask_of. rewrite contains_mask_from. by destruct g. Qed.

(** ** Trimming *)

Lemma trim_start_spec s :
  exists i, s = replicate i x20 ++ trim_start s /\ list.head (trim_start s) <> Some x20.
Proof.
  induction s as [| b s (i & Hs & Hh)]; [by exists 0%nat |].
  destruct (decide (b = x20)) as [-> | Hb].
  - exists (S i). simpl. by rewrite <- Hs.
  - exists 0%nat. simpl. destruct b; simpl; try done.
Qed.

Lemma trim_end_spec s :
  exists j, s = trim_end s ++ replicate j x20 /\ list.last (trim_end s) <> Some x20.
Proof.
  unfold trim_end. remember (length s) as n eqn:Hn. revert s Hn.
  induction n as [| n IH]; intros s Hn; simpl.
  - exists 0%nat. destruct s; done.
  - destruct (strip_suffix [x20] s) as [head |] eqn:E.
    + apply strip_suffix_Some in E as ->. rewrite length_app in Hn. simpl in Hn.
      destruct (IH head) as (j & Hj & Hl); [lia |]. exists (S j).
      split; [| done]. rewrite Hj at 1. rewrite <- app_assoc. f_equal.
      change [x20] with (replicate 1 x20). by rewrite <- replicate_add, Nat.add_comm.
    + exists 0%nat. rewrite app_nil_r. split; [done |]. intros Hl.
      apply last_Some in Hl as [l ->].
      assert (strip_suffix [x20] (l ++ [x20]) = Some l) as Hs by by apply strip_suffix_Some.
      congruence.
Qed.

Definition bare (s : bytes) : Prop := s <> [] /\ head s <> Some x20 /\ list.last s <> Some x20.

Lemma family_name_bare f : bare (Family.name f).
Proof. by destruct f. Qed.

Lemma trim_start_pad i s : list.head s <> Some x20 -> trim_start (replicate i x20 ++ s) = s.
Proof.
  intros Hs. induction i as [| i IH]; [| done]. simpl. destruct s as [| b s]; [done |].
  by destruct b.
Qed.

Lemma trim_end_fuel_pad n j s :
  (j <= n)%nat -> list.last s <> Some x20 -> trim_end_fuel n (s ++ replicate j x20) = s.
Proof.
  revert j. induction n as [| n IH]; intros j Hj Hs.
  - destruct j; [by rewrite app_nil_r | lia].
  - simpl. destruct j as [| j].
    + rewrite app_nil_r. destruct (strip_suffix [x20] s) as [t |] eqn:E; [| done].
      apply strip_suffix_Some in E as ->. by rewrite last_snoc in Hs.
    + assert (strip_suffix [x20] (s ++ replicate (S j) x20) = Some (s ++ replicate j x20)) as ->.
      { apply strip_suffix_Some. rewrite <- app_assoc. f_equal.
        by rewrite replicate_S_end. }
      apply IH; [lia | done].
Qed.

Lemma trim_padded i j s :
  bare s -> trim_end (trim_start (replicate i x20 ++ s ++ replicate j x20)) = s.
Proof.
  intros (Hn & Hh & Hl). rewrite trim_start_pad by (destruct s; done).
  unfold trim_end. apply trim_end_fuel_pad; [| done].
  rewrite length_app, length_replicate. lia.
Qed.

Lemma trim_is s t : bare t -> trim_end (trim_start s) = t <->
  exists i j, s = replicate i x20 ++ t ++ replicate j x20.
Proof.
  intros Ht. split; [| intros (i & j & ->); by apply trim_padded].
  intros <-. destruct (trim_start_spec s) as (i & Hi & _).
  destruct (trim_end_spec (trim_start s)) as (j & Hj & _).
  exists i, j. by rewrite <- Hj.
Qed.

(** ** One name, then all *)

Lemma find_family name f :
  find (fun f => bool_decide (Family.name f = name)) Family.ALL = Some f <-> Family.name f = name.
Proof.
  split.
  - intros [_ Hf]%find_some. by apply bool_decide_eq_true in Hf.
  - intros <-. by destruct f.
Qed.

Lemma parse_family_Ok o s o' :
  parse_family o s = Ok o' <->
  exists f, padded f s /\ contains o f = false /\ o' = MkOmit (Z.lor (bits o) (Family.bit f)).
Proof.
  unfold parse_family, padded. split.
  - intros Hp. apply rbind_Ok in Hp as (? & _ & Hp). apply rbind_Ok in Hp as (f & Hf & Hp).
    apply ok_or_Ok, find_family in Hf. apply rbind_Ok in Hp as (? & Hc%fail_if_Ok & [= <-]).
    exists f. split_and!; [| done | done]. symmetry in Hf.
    by apply trim_is in Hf; [| apply family_name_bare].
  - intros (f & Hs & Hc & ->). apply trim_is in Hs; [| apply family_name_bare]. rewrite Hs.
    assert (bool_decide (Family.name f = []) = false) as -> by by destruct f.
    cbn [fail_if rbind]. rewrite (proj2 (find_family _ f) eq_refl). cbn [ok_or rbind].
    by rewrite Hc.
Qed.

Lemma parse_families_Ok names o o' :
  foldM parse_family o names = Ok o' <->
  exists fs, Forall2 padded fs names /\ NoDup fs /\ Forall (fun f => contains o f = false) fs /\
    o' = MkOmit (foldl (fun mask f => Z.lor mask (Family.bit f)) (bits o) fs).
Proof.
  revert o. induction names as [| s names IH]; intros o; cbn [foldM].
  - split.
    + intros [= <-]. exists []. split_and!; try constructor. by destruct o.
    + intros (fs & Hfs & _ & _ & ->). apply Forall2_nil_inv_r in Hfs as ->. by destruct o.
  - rewrite rbind_Ok. setoid_rewrite parse_family_Ok. setoid_rewrite IH. split.
    + intros (? & (f & Hs & Hc & ->) & fs & Hfs & Hd & Hn & ->).
      assert (forall g, g ∈ fs -> contains o g = false /\ f <> g) as Hg.
      { intros g Hg. rewrite list.Forall_forall in Hn. apply Hn in Hg. rewrite contains_add in Hg.
        by apply orb_false_iff in Hg as [? ?%bool_decide_eq_false]. }
      exists (f :: fs). split_and!; [by constructor | | | done].
      * apply list.NoDup_cons. split; [| done]. intros Hin. by apply (Hg f).
      * constructor; [done |]. apply list.Forall_forall. naive_solver.
    + intros (fs & Hfs & Hd & Hn & ->). apply Forall2_cons_inv_r in Hfs as (f & fs' & Hs & Hfs & ->).
      apply list.NoDup_cons in Hd as [Hnin Hd]. apply list.Forall_cons in Hn as [Hc Hn].
      eexists. split; [eauto |]. exists fs'. split_and!; [done | done | | done].
      rewrite list.Forall_forall in Hn |- *. intros g Hg. rewrite contains_add, Hn by done.
      apply bool_decide_eq_false. intros ->. done.
Qed.

Lemma parse_Ok text o :
  parse text = Ok o <->
  exists fs, NoDup fs /\ o = MkOmit (mask_of fs) /\
    (if bool_decide (text = []) then fs = [] else Forall2 padded fs (split_on x2c text)).
Proof.
  unfold parse, mask_of. case_bool_decide.
  - split; [intros [= <-]; exists []; split_and!; [constructor | done | done] |].
    intros (fs & _ & -> & ->). done.
  - rewrite parse_families_Ok. split.
    + intros (fs & Hf & Hd & _ & ->). eauto.
    + intros (fs & Hd & -> & Hf). exists fs. split_and!; try done.
      apply list.Forall_forall. intros f _. by destruct f.
Qed.

(** An omission list parses exactly when it is empty or names families,
    separated by commas and with spaces around them ignored, each at most once;
    the mask that results contains those families and no others. *)
Lemma omit_parse_names text o :
  parse text = Ok o <->
  exists fs, NoDup fs /\ o = MkOmit (mask_of fs)
    /\ (forall f, contains o f = bool_decide (f ∈ fs))
    /\ (if bool_decide (text = []) then fs = [] else Forall2 padded fs (split_on x2c text)).
Proof.
  rewrite parse_Ok. split.
  - intros (fs & Hd & -> & Hf). exists fs. split_and!; [done | done | apply contains_mask | done].
  - intros (fs & Hd & Ho & _ & Hf). eauto.
Qed.
End OmitText.
