(* ===== verification/MetadataRecord.v ===== *)
(** * Metadata records ([rust/src/metadata_record.rs])

    The unvalidated metadata of one entry. [Cow<[u8]>] fields compare by their
    bytes, so they are byte strings here; derived equality is equality. *)

From S2P Require Export Metadata.

(** [struct Permissions(u8)] *)
Record Permissions : Type := MkPermissions { pbits : byte }.

#[export] Instance Permissions_eq_dec : EqDecision Permissions.
Proof. solve_decision. Defined.

Definition READ : Permissions := MkPermissions x01.
Definition WRITE : Permissions := MkPermissions x02.
Definition EXECUTE : Permissions := MkPermissions x04.

(** [bits & !known != 0], on [u8]. *)
Definition permissions_from_bits (bits : byte) : result Error Permissions :=
  let known := Z.lor (Z.lor (u8 (pbits READ)) (u8 (pbits WRITE))) (u8 (pbits EXECUTE)) in
  let? _ := fail_if (negb (Z.land (u8 bits) (Z.lxor 255 known) =? 0)) BadMetadata in
  Ok (MkPermissions bits).

Definition permissions_contains (p permission : Permissions) : bool :=
  Z.land (u8 (pbits p)) (u8 (pbits permission)) =? u8 (pbits permission).

Record Xattr : Type := MkXattr { xclass : XattrClass.XattrClass; xname : bytes; xvalue : bytes }.
Record Ace : Type := MkAce { atag : AceTag.AceTag; apermissions : Permissions; aname : bytes }.
Record NativeAcl : Type := MkNativeAcl { norigin : Os.Os; nbytes : bytes }.
Record Times : Type := MkTimes { mtime : option Time; atime : option Time; btime : option Time }.
Record Hole : Type := MkHole { hoffset : Z; hlength : Z }.

#[export] Instance Xattr_eq_dec : EqDecision Xattr.
Proof. solve_decision. Defined.
#[export] Instance Ace_eq_dec : EqDecision Ace.
Proof. solve_decision. Defined.
#[export] Instance NativeAcl_eq_dec : EqDecision NativeAcl.
Proof. solve_decision. Defined.
#[export] Instance Times_eq_dec : EqDecision Times.
Proof. solve_decision. Defined.
#[export] Instance Hole_eq_dec : EqDecision Hole.
Proof. solve_decision. Defined.

(** [Times::default()] *)
Definition times_default : Times := MkTimes None None None.

Record Metadata : Type := MkMetadata {
  xattrs : list Xattr;
  aces : list Ace;
  native_acl : option NativeAcl;
  times : Times;
  finder_flags : Z;
  finder_info : option bytes;
  holes : list Hole;
  hardlink_to : option bytes
}.

#[export] Instance Metadata_eq_dec : EqDecision Metadata.
Proof. solve_decision. Defined.

(** [Metadata::default()] *)
Definition metadata_default : Metadata :=
  MkMetadata [] [] None times_default 0 None [] None.

(** [Metadata::is_empty] *)
Definition is_empty (m : Metadata) : bool :=
  bool_decide (xattrs m = []) && bool_decide (aces m = []) && bool_decide (native_acl m = None)
  && bool_decide (times m = times_default) && (finder_flags m =? 0)
  && bool_decide (finder_info m = None) && bool_decide (holes m = [])
  && bool_decide (hardlink_to m = None).

Lemma is_empty_default m : is_empty m = true <-> m = metadata_default.
Proof.
  unfold is_empty. rewrite !andb_true_iff, !bool_decide_eq_true, Z.eqb_eq.
  destruct m. unfold metadata_default. simpl. split.
  - intros. destruct_and!. by subst.
  - intros [= -> -> -> -> -> -> -> ->]. done.
Qed.

(** ** Machine-level ranges

    The values a record can hold by its field types. *)

Definition option_typed {A} (P : A -> Prop) (o : option A) : Prop :=
  match o with
  | Some a => P a
  | None => True
  end.
Definition hole_typed (h : Hole) : Prop := is_u64 (hoffset h) /\ is_u64 (hlength h).
Definition permissions_typed (p : Permissions) : Prop :=
  permissions_from_bits (pbits p) = Ok p.

Record metadata_typed (m : Metadata) : Prop := {
  typed_perms : Forall (fun a => permissions_typed (apermissions a)) (aces m);
  typed_mtime : option_typed time_typed (mtime (times m));
  typed_atime : option_typed time_typed (atime (times m));
  typed_btime : option_typed time_typed (btime (times m));
  typed_flags : is_u32 (finder_flags m);
  typed_info : option_typed (fun i => zlen i = 32) (finder_info m);
  typed_holes : Forall hole_typed (holes m)
}.

#[export] Instance option_typed_dec {A} (P : A -> Prop) `{forall a, Decision (P a)} o :
  Decision (option_typed P o).
Proof. destruct o; simpl; apply _. Defined.
#[export] Instance time_typed_dec t : Decision (time_typed t).
Proof. unfold time_typed. apply _. Defined.
#[export] Instance hole_typed_dec h : Decision (hole_typed h).
Proof. unfold hole_typed. apply _. Defined.
#[export] Instance permissions_typed_dec p : Decision (permissions_typed p).
Proof. unfold permissions_typed. apply _. Defined.

#[export] Instance metadata_typed_dec m : Decision (metadata_typed m).
Proof.
  refine (cast_if (decide (Forall (fun a => permissions_typed (apermissions a)) (aces m)
    /\ (option_typed time_typed (mtime (times m)) /\ option_typed time_typed (atime (times m)))
    /\ option_typed time_typed (btime (times m)) /\ is_u32 (finder_flags m)
    /\ option_typed (fun i => zlen i = 32) (finder_info m) /\ Forall hole_typed (holes m))));
    [destruct_and!; by constructor | by intros []; auto 10].
Defined.
