(* ===== verification/MetadataCanonical.v ===== *)
(** * Canonical metadata ([rust/src/metadata_canonical.rs])

    Validation, normalisation, the field writer and the three functions built
    on it: length, encoding and hash. *)

From S2P Require Export MetadataRecord.

(** [u32::try_from(length)] *)
Definition wire_length (length : Z) : result Error unit :=
  fail_if (negb (length <=? u32_max)) BadMetadata.

(** The tuple comparison of [(class, name)] and [(tag, name)] keys. *)
Definition key_cmp (tag1 tag2 : byte) (name1 name2 : bytes) : comparison :=
  match u8 tag1 ?= u8 tag2 with
  | Eq => bytes_cmp name1 name2
  | c => c
  end.
Definition xattr_cmp (a b : Xattr) : comparison :=
  key_cmp (XattrClass.tag (xclass a)) (XattrClass.tag (xclass b)) (xname a) (xname b).
Definition ace_cmp (a b : Ace) : comparison :=
  key_cmp (AceTag.tag (atag a)) (AceTag.tag (atag b)) (aname a) (aname b).

(** ** Validation *)

Definition validate_xattr_at (previous : option Xattr) (x : Xattr) : result Error (option Xattr) :=
  let? _ := validate_xattr_name (xclass x) (xname x) in
  let? _ := wire_length (zlen (xvalue x)) in
  let? _ :=
    match previous with
    | None => Ok tt
    | Some p =>
        let? _ := fail_if (bool_decide (xclass p = xclass x) && bool_decide (xname p = xname x))
                    DuplicateXattr in
        fail_if (match xattr_cmp p x with Lt => false | _ => true end) BadMetadata
    end in
  Ok (Some x).

Definition validate_ace_at (previous : option Ace) (a : Ace) : result Error (option Ace) :=
  let? _ := validate_ace_name (atag a) (aname a) in
  let? _ := wire_length (zlen (aname a)) in
  let? _ :=
    match previous with
    | None => Ok tt
    | Some p =>
        let? _ := fail_if (bool_decide (atag p = atag a) && bool_decide (aname p = aname a))
                    DuplicateAce in
        fail_if (match ace_cmp p a with Lt => false | _ => true end) BadMetadata
    end in
  Ok (Some a).

Definition validate_native_acl (acl : option NativeAcl) : result Error unit :=
  match acl with
  | None => Ok tt
  | Some acl =>
      let? _ := fail_if (bool_decide (nbytes acl = [])) EmptyNativeAcl in
      wire_length (zlen (nbytes acl))
  end.

(** [[mtime, atime, btime].into_iter().flatten()] *)
Definition present_times (t : Times) : list Time :=
  omap id [mtime t; atime t; btime t].

Definition validate_times (t : Times) : result Error unit :=
  iterM (fun value => fail_if (NSEC_LIMIT <=? nsec value) InvalidNsec) (present_times t).

Definition validate_hole_at (previous_end : option Z) (h : Hole) : result Error (option Z) :=
  let? _ := fail_if (hlength h =? 0) ZeroLengthHole in
  let? end_ := ok_or HoleOverflow (checked_add (hoffset h) (hlength h)) in
  let? _ := fail_if (match previous_end with Some e => hoffset h <=? e | None => false end)
              BadMetadata in
  Ok (Some end_).

Definition validate (m : Metadata) : result Error unit :=
  let? _ := wire_length (zlen (xattrs m)) in
  let? _ := foldM validate_xattr_at None (xattrs m) in
  let? _ := wire_length (zlen (aces m)) in
  let? _ := foldM validate_ace_at None (aces m) in
  let? _ := validate_native_acl (native_acl m) in
  let? _ := validate_times (times m) in
  let? _ := wire_length (zlen (holes m)) in
  let? _ := foldM validate_hole_at None (holes m) in
  match hardlink_to m with
  | Some path => validate_hardlink path
  | None => Ok tt
  end.

(** [struct CanonicalMetadata(Metadata)]: the field is private, so every value
    comes out of [new] or is the default. *)
Record CanonicalMetadata : Type := MkCanonicalMetadata { metadata : Metadata }.

#[export] Instance CanonicalMetadata_eq_dec : EqDecision CanonicalMetadata.
Proof. solve_decision. Defined.

Definition canonical_default : CanonicalMetadata := MkCanonicalMetadata metadata_default.

(** [CanonicalMetadata::new] *)
Definition new (m : Metadata) : result Error CanonicalMetadata :=
  let? _ := validate m in
  Ok (MkCanonicalMetadata m).

(** ** Normalisation *)

Definition clear_family (m : Metadata) (family : Family.Family) : Metadata :=
  let 'MkMetadata xattrs aces native_acl times finder_flags finder_info holes hardlink_to := m in
  match family with
  | Family.Xattr =>
      MkMetadata [] aces native_acl times finder_flags finder_info holes hardlink_to
  | Family.Acl =>
      MkMetadata xattrs [] None times finder_flags finder_info holes hardlink_to
  | Family.Timestamps =>
      MkMetadata xattrs aces native_acl times_default finder_flags finder_info holes hardlink_to
  | Family.Finder => MkMetadata xattrs aces native_acl times 0 None holes hardlink_to
  | Family.Sparse =>
      MkMetadata xattrs aces native_acl times finder_flags finder_info [] hardlink_to
  | Family.Hardlink =>
      MkMetadata xattrs aces native_acl times finder_flags finder_info holes None
  end.

Definition omit_families (omit : Omit.Omit) (m : Metadata) : Metadata :=
  foldl (fun m family => if Omit.contains omit family then clear_family m family else m)
    m Family.ALL.

(** [sort_unstable_by] as a stable merge sort; [normalize_sort_independent] in
    [MetadataNormalize] shows the choice cannot be observed. *)
Definition sort_by {A} (cmp : A -> A -> comparison) (l : list A) : list A :=
  merge_sort (fun a b => cmp a b <> Gt) l.

(** [for pair in xattrs.windows(2)] *)
Fixpoint check_windows {A} (same : A -> A -> bool) (e : Error) (l : list A) : result Error unit :=
  match l with
  | x :: ((y :: _) as rest) =>
      let? _ := fail_if (same x y) e in
      check_windows same e rest
  | _ => Ok tt
  end.

Definition same_xattr (a b : Xattr) : bool :=
  bool_decide (xclass a = xclass b) && bool_decide (xname a = xname b).
Definition same_ace (a b : Ace) : bool :=
  bool_decide (atag a = atag b) && bool_decide (aname a = aname b).

Definition hole_end (h : Hole) : Z := hoffset h + hlength h.

(** One turn of the in-place merge: [merged] is [holes[..count]], last first. *)
Definition merge_hole (merged : list Hole) (hole : Hole) : list Hole :=
  match merged with
  | previous :: before =>
      if hoffset hole <=? hole_end previous then
        MkHole (hoffset previous) (Z.max (hole_end previous) (hole_end hole) - hoffset previous)
          :: before
      else hole :: merged
  | [] => [hole]
  end.
Definition merge_holes (l : list Hole) : list Hole := reverse (foldl merge_hole [] l).

Definition hole_cmp (a b : Hole) : comparison := hoffset a ?= hoffset b.

Definition normalize (m : Metadata) (omit : Omit.Omit) : result Error CanonicalMetadata :=
  let m := omit_families omit m in
  let? _ := wire_length (zlen (xattrs m)) in
  let? _ := iterM (fun x => let? _ := validate_xattr_name (xclass x) (xname x) in
                            wire_length (zlen (xvalue x))) (xattrs m) in
  let xs := sort_by xattr_cmp (xattrs m) in
  let? _ := check_windows same_xattr DuplicateXattr xs in
  let? _ := wire_length (zlen (aces m)) in
  let? _ := iterM (fun a => let? _ := validate_ace_name (atag a) (aname a) in
                            wire_length (zlen (aname a))) (aces m) in
  let as_ := sort_by ace_cmp (aces m) in
  let? _ := check_windows same_ace DuplicateAce as_ in
  let? _ := validate_native_acl (native_acl m) in
  let? _ := validate_times (times m) in
  let? _ := wire_length (zlen (holes m)) in
  let? _ := iterM (fun h => let? _ := fail_if (hlength h =? 0) ZeroLengthHole in
                            let? _ := ok_or HoleOverflow (checked_add (hoffset h) (hlength h)) in
                            Ok tt) (holes m) in
  let hs := merge_holes (sort_by hole_cmp (holes m)) in
  new (MkMetadata xs as_ (native_acl m) (times m) (finder_flags m) (finder_info m) hs
         (hardlink_to m)).

(** ** The field writer

    [write] calls [put] on each chunk in turn; here it is the list of chunks,
    and its three callers fold over it. *)

Definition write_xattr (x : Xattr) : list bytes :=
  [ [XattrClass.tag (xclass x)];
    le32 (zlen (xname x)); xname x;
    le32 (zlen (xvalue x)); xvalue x ].
Definition write_ace (a : Ace) : list bytes :=
  [ [AceTag.tag (atag a); pbits (apermissions a)]; le32 (zlen (aname a)); aname a ].
Definition write_native_acl (acl : option NativeAcl) : list bytes :=
  match acl with
  | None => [[x00]]
  | Some acl => [ [Os.tag (norigin acl)]; le32 (zlen (nbytes acl)); nbytes acl ]
  end.
(** [values.iter().enumerate().fold(0, |bits, (i, t)| bits | (is_some(t) << i))] *)
Definition time_flags (t : Times) : Z :=
  foldl (fun bits '(index, time) =>
           Z.lor bits (Z.shiftl (if time : option Time is Some _ then 1 else 0) index)) 0
    [(0, mtime t); (1, atime t); (2, btime t)].
Definition write_time (t : Time) : list bytes := [le64 (sec t); le32 (nsec t)].
Definition write_finder_info (info : option bytes) : list bytes :=
  match info with
  | None => [[x00]]
  | Some s => [[x01]; s]
  end.
Definition write_hole (h : Hole) : list bytes := [le64 (hoffset h); le64 (hlength h)].
Definition write_hardlink (path : option bytes) : list bytes :=
  match path with
  | None => [[x00]]
  | Some path => [[x01]; le32 (zlen path); path]
  end.

Definition write (c : CanonicalMetadata) : list bytes :=
  let m := metadata c in
  le32 (zlen (xattrs m)) :: (xattrs m ≫= write_xattr)
  ++ le32 (zlen (aces m)) :: (aces m ≫= write_ace)
  ++ write_native_acl (native_acl m)
  ++ [as_u8 (time_flags (times m))] :: (present_times (times m) ≫= write_time)
  ++ le32 (finder_flags m) :: write_finder_info (finder_info m)
  ++ le32 (zlen (holes m)) :: (holes m ≫= write_hole)
  ++ write_hardlink (hardlink_to m).

Definition encoded_len (c : CanonicalMetadata) : result Error Z :=
  foldM (fun length chunk => ok_or BadMetadata (checked_add length (zlen chunk))) 0 (write c).

Definition encode `{Allocator} (c : CanonicalMetadata) : result Error bytes :=
  let? length := encoded_len c in
  let? _ := reserve OutOfMemory 0 0 length in
  foldM (fun output chunk => Ok (output ++ chunk)) [] (write c).

Definition hash `{Blake3} (c : CanonicalMetadata) : bytes :=
  hasher_finalize
    (foldl hasher_update (hasher_update hasher_new (lit "DIFZMETA" ++ [x01])) (write c)).
