(* ===== verification/MetadataDecode.v ===== *)
(** * Decoding canonical metadata ([rust/src/metadata_decode.rs])

    The cursor and its typed reads, [CanonicalMetadata::decode], and the wire
    contract of every record reader; [MetadataValid] draws the two directions
    for whole records from it. *)

From S2P Require Export MetadataCanonical Cursor Search.

(** ** The cursor *)

Definition cursor_take (c : cursor) (length : Z) : result Error (bytes * cursor) :=
  take_raw TruncatedMetadata c length.
Definition cursor_array (n : Z) (c : cursor) : result Error (bytes * cursor) :=
  take_raw TruncatedMetadata c n.
Definition cursor_byte : cursor -> result Error (byte * cursor) := get_byte TruncatedMetadata.
Definition cursor_u32 : cursor -> result Error (Z * cursor) := get_uint TruncatedMetadata 4.
Definition cursor_u64 : cursor -> result Error (Z * cursor) := get_uint TruncatedMetadata 8.
(** [usize::try_from(self.u32()?)] cannot fail on a 64-bit target. *)
Definition cursor_blob : cursor -> result Error (bytes * cursor) := get_blob TruncatedMetadata.

Definition cursor_vector `{Allocator} (minimum_record_bytes : Z) (c : cursor) :
    result Error (Z * cursor) :=
  let? (count, c) := cursor_u32 c in
  let? _ := fail_if ((zlen (cbytes c) - offset c) / minimum_record_bytes <? count)
              TruncatedMetadata in
  let? _ := reserve OutOfMemory (offset c) 0 count in
  Ok (count, c).

Definition cursor_time (c : cursor) : result Error (Time * cursor) :=
  let? (s, c) := cursor_take c 12 in
  let? t := time_decode s in
  Ok (t, c).

(** ** Records *)

Definition read_xattr (c : cursor) : result Error (Xattr * cursor) :=
  let? (tag, c) := cursor_byte c in
  let? class := XattrClass.try_from tag in
  let? (name, c) := cursor_blob c in
  let? (value, c) := cursor_blob c in
  Ok (MkXattr class name value, c).

Definition read_ace (c : cursor) : result Error (Ace * cursor) :=
  let? (tag, c) := cursor_byte c in
  let? tag := AceTag.try_from tag in
  let? (bits, c) := cursor_byte c in
  let? permissions := permissions_from_bits bits in
  let? (name, c) := cursor_blob c in
  Ok (MkAce tag permissions name, c).

Definition read_native_acl (c : cursor) : result Error (option NativeAcl * cursor) :=
  let? (origin, c) := cursor_byte c in
  if bool_decide (origin = x00) then Ok (None, c)
  else
    let? origin := Os.try_from origin in
    let? (s, c) := cursor_blob c in
    Ok (Some (MkNativeAcl origin s), c).

(** [if flags & bit != 0 { Some(cursor.time()?) } else { None }] *)
Definition read_time_if (present : bool) (c : cursor) : result Error (option Time * cursor) :=
  if present then
    let? (t, c) := cursor_time c in Ok (Some t, c)
  else Ok (None, c).

Definition read_times (c : cursor) : result Error (Times * cursor) :=
  let? (flags, c) := cursor_byte c in
  (* [flags & !7 != 0], on [u8] *)
  let? _ := fail_if (negb (Z.land (u8 flags) 248 =? 0)) BadMetadata in
  let? (m, c) := read_time_if (negb (Z.land (u8 flags) 1 =? 0)) c in
  let? (a, c) := read_time_if (negb (Z.land (u8 flags) 2 =? 0)) c in
  let? (b, c) := read_time_if (negb (Z.land (u8 flags) 4 =? 0)) c in
  Ok (MkTimes m a b, c).

Definition read_finder_info (c : cursor) : result Error (option bytes * cursor) :=
  let? (tag, c) := cursor_byte c in
  match tag with
  | x00 => Ok (None, c)
  | x01 => let? (s, c) := cursor_array 32 c in Ok (Some s, c)
  | _ => Err BadMetadata
  end.

Definition read_hole (c : cursor) : result Error (Hole * cursor) :=
  let? (offset, c) := cursor_u64 c in
  let? (length, c) := cursor_u64 c in
  Ok (MkHole offset length, c).

Definition read_hardlink (c : cursor) : result Error (option bytes * cursor) :=
  let? (tag, c) := cursor_byte c in
  match tag with
  | x00 => Ok (None, c)
  | x01 => let? (s, c) := cursor_blob c in Ok (Some s, c)
  | _ => Err BadMetadata
  end.

(** [cursor.vector(min)?] and the loop that fills the vector *)
Definition read_vector `{Allocator} {A} (minimum : Z) (read : cursor -> result Error (A * cursor))
    (c : cursor) : result Error (list A * cursor) :=
  let? (count, c) := cursor_vector minimum c in
  read_many read (Z.to_nat count) c.

Definition read_metadata `{Allocator} (c : cursor) : result Error (Metadata * cursor) :=
  let? (xattrs, c) := read_vector 9 read_xattr c in
  let? (aces, c) := read_vector 6 read_ace c in
  let? (native_acl, c) := read_native_acl c in
  let? (times, c) := read_times c in
  let? (finder_flags, c) := cursor_u32 c in
  let? (finder_info, c) := read_finder_info c in
  let? (holes, c) := read_vector 16 read_hole c in
  let? (hardlink_to, c) := read_hardlink c in
  Ok (MkMetadata xattrs aces native_acl times finder_flags finder_info holes hardlink_to, c).

(** [CanonicalMetadata::decode] *)
Definition decode `{Allocator} (s : bytes) : result Error CanonicalMetadata :=
  let? (m, c) := read_metadata (Cursor s 0) in
  let? _ := fail_if (negb (offset c =? zlen s)) TrailingMetadata in
  new m.

(** ** Wire contracts of the record readers *)

Definition xattr_wf (x : Xattr) : Prop := zlen (xname x) <= u32_max /\ zlen (xvalue x) <= u32_max.
Definition ace_wf (a : Ace) : Prop :=
  permissions_typed (apermissions a) /\ zlen (aname a) <= u32_max.
Definition acl_wf (o : option NativeAcl) : Prop :=
  option_typed (fun a => zlen (nbytes a) <= u32_max) o.
Definition times_wf (t : Times) : Prop :=
  option_typed time_valid (mtime t) /\ option_typed time_valid (atime t)
  /\ option_typed time_valid (btime t).
Definition blob_wf (o : option bytes) : Prop := option_typed (fun s => zlen s <= u32_max) o.
Definition info_wf (o : option bytes) : Prop := option_typed (fun s => zlen s = 32) o.

Lemma wire_cursor_take n :
  0 <= n -> Wire (fun c => cursor_take c n) id (fun s => zlen s = n).
Proof. apply wire_take. Qed.
Lemma wire_cursor_array n : 0 <= n -> Wire (cursor_array n) id (fun s => zlen s = n).
Proof. apply wire_take. Qed.
#[export] Instance wire_cursor_byte : Wire cursor_byte (fun b => [b]) (fun _ => True).
Proof. apply wire_byte. Qed.
#[export] Instance wire_cursor_u32 : Wire cursor_u32 le32 is_u32.
Proof. apply wire_u32. Qed.
#[export] Instance wire_cursor_u64 : Wire cursor_u64 le64 is_u64.
Proof. apply wire_u64. Qed.
#[export] Instance wire_cursor_blob :
  Wire cursor_blob (fun s => le32 (zlen s) ++ s) (fun s => zlen s <= u32_max).
Proof. apply wire_blob. Qed.

#[export] Instance wire_time : Wire cursor_time time_wire time_valid.
Proof.
  wire_start.
  - intros t c pre rest Ht Hc. unfold cursor_time.
    wire_read (wire_cursor_take 12 ltac:(lia)) (time_wire t); [apply zlen_time_wire |].
    rewrite time_decode_wire by done. simpl. eauto.
  - intros t c c' pre rest Hc H. unfold cursor_time in H. inv_ok.
    apply time_decode_Ok in H1 as [-> Ht].
    destruct (wire_sound (WireSound := wire_to_sound (Wire := wire_cursor_take 12 ltac:(lia))) _ _ _ _ _ Hc H0)
      as (r & -> & _ & Hr). eauto.
Qed.

#[export] Instance wire_xattr : Wire read_xattr (fun x => concat (write_xattr x)) xattr_wf.
Proof.
  wire_start.
  - intros [k n v] c pre rest [Hn Hv] Hc. unfold read_xattr. simpl in *.
    wire_read wire_cursor_byte (XattrClass.tag k); [done |].
    rewrite class_try_from_tag. cbn [rbind].
    wire_read wire_cursor_blob n; [done |].
    wire_read wire_cursor_blob v; [done |]. wire_done.
  - intros x c c' pre rest Hc H. unfold read_xattr in H. inv_ok.
    apply class_try_from_Ok in H1 as ->. wire_inv. simpl. wire_split. done.
Qed.

Lemma permissions_from_bits_Ok b p :
  permissions_from_bits b = Ok p -> p = MkPermissions b /\ permissions_typed p.
Proof.
  unfold permissions_typed. intros H. pose proof H as H'. unfold permissions_from_bits in H. inv_ok.
  auto.
Qed.

#[export] Instance wire_ace : Wire read_ace (fun a => concat (write_ace a)) ace_wf.
Proof.
  wire_start.
  - intros [t p n] c pre rest [Hp Hn] Hc. unfold read_ace. simpl in *.
    wire_read wire_cursor_byte (AceTag.tag t); [done |].
    rewrite ace_try_from_tag. cbn [rbind].
    wire_read wire_cursor_byte (pbits p); [done |].
    rewrite Hp. cbn [rbind].
    wire_read wire_cursor_blob n; [done |]. wire_done.
  - intros x c c' pre rest Hc H. unfold read_ace in H. inv_ok.
    apply ace_try_from_Ok in H1 as ->. apply permissions_from_bits_Ok in H3 as [-> Hp].
    wire_inv. simpl. wire_split. done.
Qed.

#[export] Instance wire_native_acl :
  Wire read_native_acl (fun o => concat (write_native_acl o)) acl_wf.
Proof.
  wire_start.
  - intros [[o s] |] c pre rest Hn Hc; unfold read_native_acl; simpl in *.
    + wire_read wire_cursor_byte (Os.tag o); [done |].
      rewrite bool_decide_eq_false_2 by by destruct o. rewrite os_try_from_tag. cbn [rbind].
      wire_read wire_cursor_blob s; [done |]. wire_done.
    + wire_read wire_cursor_byte x00; [done |]. simpl. wire_done.
  - intros x c c' pre rest Hc H. unfold read_native_acl in H. inv_ok.
    case_bool_decide; inv_ok.
    + wire_inv. simpl. wire_split. done.
    + apply os_try_from_Ok in H2 as ->. wire_inv. simpl. wire_split. done.
Qed.

#[export] Instance wire_finder_info :
  Wire read_finder_info (fun o => concat (write_finder_info o)) info_wf.
Proof.
  wire_start.
  - intros [s |] c pre rest Hn Hc; unfold read_finder_info; simpl in *.
    + wire_read wire_cursor_byte x01; [done |].
      wire_read (wire_cursor_array 32 ltac:(lia)) s; [done |]. wire_done.
    + wire_read wire_cursor_byte x00; [done |]. wire_done.
  - pose proof (wire_cursor_array 32 ltac:(lia)) as W.
    intros x c c' pre rest Hc H. unfold read_finder_info in H. inv_ok.
    destruct x0; try discriminate; inv_ok; wire_inv; simpl; wire_split; done.
Qed.

#[export] Instance wire_hole : Wire read_hole (fun h => concat (write_hole h)) hole_typed.
Proof.
  wire_start.
  - intros [o l] c pre rest [Ho Hl] Hc. unfold read_hole. simpl in *.
    wire_read wire_cursor_u64 o; [done |]. wire_read wire_cursor_u64 l; [done |]. wire_done.
  - intros x c c' pre rest Hc H. unfold read_hole in H. inv_ok. wire_inv. simpl. wire_split. done.
Qed.

#[export] Instance wire_hardlink :
  Wire read_hardlink (fun o => concat (write_hardlink o)) blob_wf.
Proof.
  wire_start.
  - intros [s |] c pre rest Hn Hc; unfold read_hardlink; simpl in *.
    + wire_read wire_cursor_byte x01; [done |].
      wire_read wire_cursor_blob s; [done |]. wire_done.
    + wire_read wire_cursor_byte x00; [done |]. wire_done.
  - intros x c c' pre rest Hc H. unfold read_hardlink in H. inv_ok.
    destruct x0; try discriminate; inv_ok; wire_inv; simpl; wire_split; done.
Qed.

(** The presence flags come first, then the stamps that are present. *)
Definition times_wire (t : Times) : bytes :=
  as_u8 (time_flags t) :: concat (present_times t ≫= write_time).
Definition time_if_wire (o : option Time) : bytes := from_option time_wire [] o.

Lemma times_wire_eq t :
  times_wire t =
    as_u8 (time_flags t) :: time_if_wire (mtime t) ++ time_if_wire (atime t) ++ time_if_wire (btime t).
Proof.
  destruct t as [[m |] [a |] [b |]]; unfold times_wire, present_times; simpl; f_equal;
    unfold time_wire; by rewrite ?app_nil_r, <- ?app_assoc.
Qed.

#[export] Instance wire_time_if present :
  Wire (read_time_if present) time_if_wire
    (fun o => present = bool_decide (is_Some o) /\ option_typed time_valid o).
Proof.
  wire_start.
  - intros [t |] c pre rest [-> Ht] Hc; unfold read_time_if; simpl in *.
    + wire_read wire_time t; [done |]. wire_done.
    + eexists. by rewrite app_nil_r.
  - intros x c c' pre rest Hc H. unfold read_time_if in H. destruct present; inv_ok.
    + wire_inv. simpl. wire_split. done.
    + exists rest. rewrite app_nil_r. done.
Qed.

Lemma time_flags_bits t :
  let flags := u8 (as_u8 (time_flags t)) in
  Z.land flags 248 = 0
  /\ negb (Z.land flags 1 =? 0) = bool_decide (is_Some (mtime t))
  /\ negb (Z.land flags 2 =? 0) = bool_decide (is_Some (atime t))
  /\ negb (Z.land flags 4 =? 0) = bool_decide (is_Some (btime t)).
Proof. by destruct t as [[] [] []]. Qed.

Lemma time_flags_unique b t :
  Z.land (u8 b) 248 = 0 ->
  negb (Z.land (u8 b) 1 =? 0) = bool_decide (is_Some (mtime t)) ->
  negb (Z.land (u8 b) 2 =? 0) = bool_decide (is_Some (atime t)) ->
  negb (Z.land (u8 b) 4 =? 0) = bool_decide (is_Some (btime t)) ->
  b = as_u8 (time_flags t).
Proof.
  destruct t as [m a t]. simpl mtime. simpl atime. simpl btime.
  destruct b; intros H; vm_compute in H; try discriminate H; clear H;
    destruct m, a, t; intros H1 H2 H3; first [discriminate H1 | discriminate H2 | discriminate H3 | done].
Qed.

#[export] Instance wire_times : Wire read_times times_wire times_wf.
Proof.
  wire_start.
  - intros t c pre rest (Hm & Ha & Hb) Hc. rewrite times_wire_eq in *. unfold read_times.
    destruct (time_flags_bits t) as (H0 & H1 & H2 & H4).
    wire_read wire_cursor_byte (as_u8 (time_flags t)); [done |].
    rewrite H0, H1, H2, H4. cbn [Z.eqb negb fail_if rbind].
    wire_read (wire_time_if (bool_decide (is_Some (mtime t)))) (mtime t); [done |].
    wire_read (wire_time_if (bool_decide (is_Some (atime t)))) (atime t); [done |].
    wire_read (wire_time_if (bool_decide (is_Some (btime t)))) (btime t); [done |].
    destruct t. wire_done.
  - intros x c c' pre rest Hc H. unfold read_times in H. inv_ok. zbool. wire_inv.
    repeat match goal with H : _ = bool_decide _ /\ _ |- _ => destruct H end.
    match goal with |- context [MkTimes ?m ?a ?t] =>
      assert (x0 = as_u8 (time_flags (MkTimes m a t))) as -> by (apply time_flags_unique; done) end.
    rewrite times_wire_eq. simpl mtime. simpl atime. simpl btime. wire_split. done.
Qed.

(** ** Vectors *)

Lemma zlen_bind_ge {A} (w : A -> bytes) (n : Z) (l : list A) :
  (forall x, n <= zlen (w x)) -> n * zlen l <= zlen (l ≫= w).
Proof.
  intros Hw. induction l as [| x l IH].
  - simpl. zlen_nil. lia.
  - rewrite bind_cons. autorewrite with zlen. specialize (Hw x). lia.
Qed.

Lemma zlen_bind_min {A} (w : A -> bytes) (P : A -> Prop) n l :
  (forall x, P x -> n <= zlen (w x)) -> Forall P l -> n * zlen l <= zlen (l ≫= w).
Proof.
  intros Hw. induction 1 as [| x l Hx Hl IH].
  - simpl. zlen_nil. lia.
  - rewrite bind_cons, zlen_cons, zlen_app. specialize (Hw x Hx). lia.
Qed.

Section Vectors.
Context `{Allocator} {A : Type} (minimum : Z) (read : cursor -> result Error (A * cursor)).
Context (w : A -> bytes) (wf : A -> Prop).

Definition vector_wire (l : list A) : bytes := le32 (zlen l) ++ (l ≫= w).
Definition vector_wf (l : list A) : Prop := zlen l <= u32_max /\ Forall wf l.

#[export] Instance wire_vector_sound `{!WireSound read w wf} :
  WireSound (read_vector minimum read) vector_wire vector_wf.
Proof.
  split. intros l c c' pre rest Hc Hr. unfold read_vector, cursor_vector in Hr. inv_ok.
  wire_inv. destruct Hw0 as [Hlen Hf]. unfold is_u32 in Hw.
  assert (x = zlen l) as -> by (unfold zlen; lia).
  unfold vector_wire, vector_wf, u32_max. wire_split. split; [lia | done].
Qed.

Lemma wire_vector `{!AllocatorTotal} `{!Wire read w wf} :
  0 < minimum -> (forall x, minimum <= zlen (w x)) ->
  Wire (read_vector minimum read) vector_wire vector_wf.
Proof.
  intros Hpos Hminimum. split; [| apply _].
  intros l c pre rest [Hlen Hf] Hc. unfold vector_wire in *. unfold read_vector, cursor_vector.
  wire_read wire_cursor_u32 (zlen l); [unfold is_u32, u32_max in *; zlens |].
  rewrite (at_rest_left _ _ _ Hc0), (zlen_app (l ≫= w)).
  pose proof (zlen_bind_ge w minimum l Hminimum) as Hmin.
  assert (zlen l <= (zlen (l ≫= w) + zlen rest) / minimum) as Hle.
  { apply Z.div_le_lower_bound; [done |]. zlens. }
  destruct (Z.ltb_spec ((zlen (l ≫= w) + zlen rest) / minimum) (zlen l)); [lia |].
  cbn [fail_if rbind]. rewrite reserve_total. cbn [rbind].
  wire_read (wire_many read w wf (Z.to_nat (zlen l))) l.
  - split; [unfold zlen; lia | done].
  - wire_done.
Qed.
End Vectors.

(** ** The whole record *)

Lemma concat_bind {A} (f : A -> list bytes) (l : list A) :
  concat (l ≫= f) = l ≫= (fun x => concat (f x)).
Proof.
  induction l as [| x l IH]; [done |]. by rewrite !bind_cons, concat_app, IH.
Qed.

Definition metadata_wire (m : Metadata) : bytes := concat (write (MkCanonicalMetadata m)).

Lemma metadata_wire_eq m :
  metadata_wire m =
    vector_wire (fun x => concat (write_xattr x)) (xattrs m)
    ++ vector_wire (fun a => concat (write_ace a)) (aces m)
    ++ concat (write_native_acl (native_acl m))
    ++ times_wire (times m)
    ++ le32 (finder_flags m)
    ++ concat (write_finder_info (finder_info m))
    ++ vector_wire (fun h => concat (write_hole h)) (holes m)
    ++ concat (write_hardlink (hardlink_to m)).
Proof.
  unfold metadata_wire, write, vector_wire, times_wire. cbn [metadata].
  repeat (rewrite concat_app || rewrite concat_bind || (progress cbn [concat app])).
  by flat_goal.
Qed.

Record metadata_wf (m : Metadata) : Prop := {
  wf_xattrs : vector_wf xattr_wf (xattrs m);
  wf_aces : vector_wf ace_wf (aces m);
  wf_acl : acl_wf (native_acl m);
  wf_times : times_wf (times m);
  wf_flags : is_u32 (finder_flags m);
  wf_info : info_wf (finder_info m);
  wf_holes : vector_wf hole_typed (holes m);
  wf_hardlink : blob_wf (hardlink_to m)
}.

Lemma xattr_minimum x : 9 <= zlen (concat (write_xattr x)).
Proof. simpl. autorewrite with zlen. zlens. Qed.
Lemma ace_minimum a : 6 <= zlen (concat (write_ace a)).
Proof. simpl. autorewrite with zlen. zlens. Qed.
Lemma hole_minimum h : 16 <= zlen (concat (write_hole h)).
Proof. simpl. autorewrite with zlen. zlens. Qed.

Lemma metadata_wire_minimum m : 20 <= zlen (metadata_wire m).
Proof.
  rewrite metadata_wire_eq. unfold vector_wire, times_wire. autorewrite with zlen.
  assert (1 <= zlen (concat (write_native_acl (native_acl m)))) by
    (destruct (native_acl m); simpl; autorewrite with zlen; zlens).
  assert (1 <= zlen (concat (write_finder_info (finder_info m)))) by
    (destruct (finder_info m); simpl; autorewrite with zlen; zlens).
  assert (1 <= zlen (concat (write_hardlink (hardlink_to m)))) by
    (destruct (hardlink_to m); simpl; autorewrite with zlen; zlens).
  zlens.
Qed.

Section WholeRecord.
Context `{Allocator}.

#[export] Instance wire_metadata_sound : WireSound read_metadata metadata_wire metadata_wf.
Proof.
  split. intros m c c' pre rest Hc Hr. unfold read_metadata in Hr. inv_ok. wire_inv.
  rewrite metadata_wire_eq. simpl. wire_split. by constructor.
Qed.

#[export] Instance wire_metadata `{!AllocatorTotal} : Wire read_metadata metadata_wire metadata_wf.
Proof.
  split; [| apply _]. intros m c pre rest [] Hc. rewrite metadata_wire_eq in *. unfold read_metadata.
  wire_read (wire_vector 9 read_xattr _ xattr_wf eq_refl xattr_minimum) (xattrs m); [done |].
  wire_read (wire_vector 6 read_ace _ ace_wf eq_refl ace_minimum) (aces m); [done |].
  wire_read wire_native_acl (native_acl m); [done |].
  wire_read wire_times (times m); [done |].
  wire_read wire_cursor_u32 (finder_flags m); [done |].
  wire_read wire_finder_info (finder_info m); [done |].
  wire_read (wire_vector 16 read_hole _ hole_typed eq_refl hole_minimum) (holes m); [done |].
  wire_read wire_hardlink (hardlink_to m); [done |].
  destruct m. wire_done.
Qed.
End WholeRecord.
