(* ===== verification/MetadataValid.v ===== *)
(** * What validation guarantees

    The declarative meaning of [validate] of [MetadataCanonical], the bounds it
    implies for every length the writer emits, and the facts about encodings
    that clients use. *)

From S2P Require Export MetadataDecode.

Definition xattr_key (x : Xattr) : bytes := XattrClass.tag (xclass x) :: xname x.
Definition ace_key (a : Ace) : bytes := AceTag.tag (atag a) :: aname a.

Lemma xattr_cmp_key a b : xattr_cmp a b = bytes_cmp (xattr_key a) (xattr_key b).
Proof. done. Qed.
Lemma ace_cmp_key a b : ace_cmp a b = bytes_cmp (ace_key a) (ace_key b).
Proof. done. Qed.

Lemma same_xattr_key a b : same_xattr a b = true <-> xattr_key a = xattr_key b.
Proof.
  unfold same_xattr, xattr_key. rewrite andb_true_iff, !bool_decide_eq_true. split.
  - by intros [-> ->].
  - intros [= Ht Hn]. by apply class_tag_inj in Ht.
Qed.
Lemma same_ace_key a b : same_ace a b = true <-> ace_key a = ace_key b.
Proof.
  unfold same_ace, ace_key. rewrite andb_true_iff, !bool_decide_eq_true. split.
  - by intros [-> ->].
  - intros [= Ht Hn]. by apply ace_tag_inj in Ht.
Qed.

Definition xattr_ok (x : Xattr) : Prop :=
  validate_xattr_name (xclass x) (xname x) = Ok tt /\ zlen (xvalue x) <= u32_max.
Definition ace_ok (a : Ace) : Prop :=
  validate_ace_name (atag a) (aname a) = Ok tt /\ zlen (aname a) <= u32_max.
Definition acl_ok (o : option NativeAcl) : Prop :=
  option_typed (fun a => nbytes a <> [] /\ zlen (nbytes a) <= u32_max) o.
Definition times_ok (t : Times) : Prop :=
  option_typed (fun t => nsec t < NSEC_LIMIT) (mtime t)
  /\ option_typed (fun t => nsec t < NSEC_LIMIT) (atime t)
  /\ option_typed (fun t => nsec t < NSEC_LIMIT) (btime t).
Definition hole_ok (h : Hole) : Prop := hlength h <> 0 /\ hole_end h <= u64_max.
(** Extents that neither overlap nor touch. *)
Definition hole_before (a b : Hole) : Prop := hole_end a < hoffset b.
Definition hardlink_ok (o : option bytes) : Prop :=
  option_typed (fun p => validate_hardlink p = Ok tt) o.

Record canonical (m : Metadata) : Prop := {
  can_xattrs_len : zlen (xattrs m) <= u32_max;
  can_xattrs : Forall xattr_ok (xattrs m);
  can_xattrs_sorted : StronglySorted (key_lt xattr_key) (xattrs m);
  can_aces_len : zlen (aces m) <= u32_max;
  can_aces : Forall ace_ok (aces m);
  can_aces_sorted : StronglySorted (key_lt ace_key) (aces m);
  can_acl : acl_ok (native_acl m);
  can_times : times_ok (times m);
  can_holes_len : zlen (holes m) <= u32_max;
  can_holes : Forall hole_ok (holes m);
  can_holes_sorted : Sorted hole_before (holes m);
  can_hardlink : hardlink_ok (hardlink_to m)
}.

(** ** Each check, declaratively *)

Lemma unit_ok {E} (r : result E unit) : r = Ok tt <-> is_ok r = true.
Proof. by destruct r as [[] |]. Qed.
Lemma rbind_unit_ok {E A} (r : result E A) (k : A -> result E unit) :
  rbind r k = Ok tt <-> exists a, r = Ok a /\ k a = Ok tt.
Proof. apply rbind_Ok. Qed.
Lemma seq_ok {E A} (r : result E A) (k : result E unit) :
  (let? _ := r in k) = Ok tt <-> is_ok r = true /\ k = Ok tt.
Proof. rewrite rbind_Ok, is_ok_Ok. naive_solver. Qed.

Lemma wire_length_ok n : wire_length n = Ok tt <-> n <= u32_max.
Proof. unfold wire_length. rewrite fail_if_Ok. zbool. done. Qed.

Lemma validate_xattr_at_ok p x r :
  validate_xattr_at p x = Ok r <->
  xattr_ok x /\ (forall q, p = Some q -> key_lt xattr_key q x) /\ r = Some x.
Proof.
  unfold validate_xattr_at, xattr_ok. rewrite <- wire_length_ok. split.
  - intros H. inv_ok. split_and!; [done | done | | done]. intros q ->. inv_ok.
    unfold key_lt, bytes_lt. rewrite <- xattr_cmp_key. by destruct (xattr_cmp q x).
  - intros ([-> ->] & Hq & ->). simpl. destruct p as [q |]; [| done].
    specialize (Hq q eq_refl). unfold key_lt, bytes_lt in Hq. rewrite xattr_cmp_key, Hq.
    replace (_ && _) with false; [done |]. symmetry. apply not_true_is_false.
    change (same_xattr q x <> true). rewrite same_xattr_key. intros Hk.
    rewrite Hk, bytes_cmp_refl in Hq. done.
Qed.

Lemma validate_ace_at_ok p a r :
  validate_ace_at p a = Ok r <->
  ace_ok a /\ (forall q, p = Some q -> key_lt ace_key q a) /\ r = Some a.
Proof.
  unfold validate_ace_at, ace_ok. rewrite <- wire_length_ok. split.
  - intros H. inv_ok. split_and!; [done | done | | done]. intros q ->. inv_ok.
    unfold key_lt, bytes_lt. rewrite <- ace_cmp_key. by destruct (ace_cmp q a).
  - intros ([-> ->] & Hq & ->). simpl. destruct p as [q |]; [| done].
    specialize (Hq q eq_refl). unfold key_lt, bytes_lt in Hq. rewrite ace_cmp_key, Hq.
    replace (_ && _) with false; [done |]. symmetry. apply not_true_is_false.
    change (same_ace q a <> true). rewrite same_ace_key. intros Hk.
    rewrite Hk, bytes_cmp_refl in Hq. done.
Qed.

Lemma validate_hole_at_ok p h r :
  validate_hole_at p h = Ok r <->
  hole_ok h /\ (forall e, p = Some e -> e < hoffset h) /\ r = Some (hole_end h).
Proof.
  unfold validate_hole_at, hole_ok, hole_end. split.
  - intros H. inv_ok. apply checked_add_Some in H1 as [-> Hm]. zbool. split_and!; auto.
    intros e ->. zbool. lia.
  - intros ([Hl He] & Hp & ->). rewrite (proj2 (Z.eqb_neq _ _) Hl). simpl.
    rewrite (proj2 (checked_add_Some _ _ _) (conj eq_refl He)). simpl.
    destruct p as [e |]; [| done]. specialize (Hp e eq_refl).
    by rewrite (proj2 (Z.leb_gt _ _) Hp).
Qed.

Lemma validate_native_acl_ok o : validate_native_acl o = Ok tt <-> acl_ok o.
Proof.
  destruct o as [[o s] |]; simpl; [| done]. rewrite <- wire_length_ok.
  case_bool_decide; simpl; naive_solver.
Qed.

Lemma validate_times_ok t : validate_times t = Ok tt <-> times_ok t.
Proof.
  unfold validate_times, times_ok. rewrite iterM_Ok.
  assert (forall v : Time, fail_if (NSEC_LIMIT <=? nsec v) InvalidNsec = Ok tt <-> nsec v < NSEC_LIMIT)
    as Hv.
  { intros v. rewrite fail_if_Ok. zbool. done. }
  destruct t as [[] [] []]; unfold present_times; simpl;
    rewrite ?Forall_cons_iff, ?Forall_nil_iff, ?Hv; naive_solver.
Qed.

#[export] Instance key_lt_transitive {A} (key : A -> bytes) : Transitive (key_lt key).
Proof. intros a b c. unfold key_lt. apply bytes_lt_trans. Qed.

Lemma Sorted_key_lt {A} (key : A -> bytes) l :
  Sorted (key_lt key) l <-> StronglySorted (key_lt key) l.
Proof.
  split; [| apply StronglySorted_Sorted].
  apply Sorted_StronglySorted. intros a b c. apply bytes_lt_trans.
Qed.

Lemma validate_canonical m : validate m = Ok tt <-> canonical m.
Proof.
  unfold validate. rewrite !seq_ok, <- !unit_ok, !wire_length_ok.
  rewrite (foldM_adjacent id validate_xattr_at xattr_ok (key_lt xattr_key)) by apply validate_xattr_at_ok.
  rewrite (foldM_adjacent id validate_ace_at ace_ok (key_lt ace_key)) by apply validate_ace_at_ok.
  rewrite (foldM_adjacent hole_end validate_hole_at hole_ok (fun e h => e < hoffset h))
    by apply validate_hole_at_ok.
  rewrite validate_native_acl_ok, validate_times_ok.
  unfold adjacent, id. fold (key_lt xattr_key) (key_lt ace_key) hole_before.
  change (Sorted (fun a b => key_lt xattr_key a b)) with (Sorted (key_lt xattr_key)).
  change (Sorted (fun a b => key_lt ace_key a b)) with (Sorted (key_lt ace_key)).
  rewrite !Sorted_key_lt. split.
  - intros. destruct_and!. constructor; try done. by destruct (hardlink_to m).
  - intros []. split_and!; try done. by destruct (hardlink_to m).
Qed.

#[export] Instance canonical_dec m : Decision (canonical m).
Proof.
  refine (cast_if (decide (validate m = Ok tt))); by rewrite <- validate_canonical.
Defined.

(** ** Lengths *)

Lemma validate_xattr_name_length class name :
  validate_xattr_name class name = Ok tt -> zlen name <= 255.
Proof.
  unfold validate_xattr_name, validate_logical_name. intros H. inv_ok.
  destruct class; inv_ok; repeat (apply orb_false_iff in H as [H ?]); zbool; lia.
Qed.

Lemma validate_hardlink_length path : validate_hardlink path = Ok tt -> zlen path <= 4096.
Proof.
  unfold validate_hardlink. intros H. inv_ok.
  repeat (apply orb_false_iff in H as [H ?]). zbool. lia.
Qed.

Lemma option_typed_impl {A} (P Q : A -> Prop) o :
  (forall a, P a -> Q a) -> option_typed P o -> option_typed Q o.
Proof. destruct o; simpl; auto. Qed.
Lemma option_typed_and {A} (P Q : A -> Prop) o :
  option_typed P o -> option_typed Q o -> option_typed (fun a => P a /\ Q a) o.
Proof. destruct o; simpl; auto. Qed.

Lemma time_ok_valid o :
  option_typed time_typed o -> option_typed (fun t => nsec t < NSEC_LIMIT) o ->
  option_typed time_valid o.
Proof.
  destruct o as [t |]; simpl; [| done]. unfold time_typed, time_valid, is_u32. naive_solver lia.
Qed.

(** Canonical records fit the wire format. *)
Lemma canonical_wf m : metadata_typed m -> canonical m -> metadata_wf m.
Proof.
  intros [] []. constructor; try done.
  - split; [done |]. eapply Forall_impl; [| done]. intros x [Hn Hv]. split; [| done].
    apply validate_xattr_name_length in Hn. unfold u32_max. lia.
  - split; [done |]. unfold ace_wf. rewrite Forall_forall in *.
    intros a Ha. split; [by apply typed_perms | by apply can_aces0].
  - unfold acl_wf. eapply option_typed_impl; [| done]. naive_solver.
  - unfold times_wf. unfold times_ok in *. destruct_and!. split_and!; by apply time_ok_valid.
  - eapply option_typed_impl; [| done]. intros p Hp%validate_hardlink_length. unfold u32_max. lia.
Qed.

(** What a decoder establishes of the field types. *)
Lemma time_valid_typed o : option_typed time_valid o -> option_typed time_typed o.
Proof.
  apply option_typed_impl. unfold time_typed, time_valid, is_u32, NSEC_LIMIT. naive_solver lia.
Qed.

Lemma wf_typed m : metadata_wf m -> metadata_typed m.
Proof.
  intros Hwf. destruct (wf_times m Hwf) as (? & ? & ?).
  constructor; try (by apply time_valid_typed); try (by destruct Hwf).
  - destruct (wf_aces m Hwf) as [_ Hf]. eapply Forall_impl; [| done]. by intros a [].
  - by destruct (wf_holes m Hwf).
Qed.

(** ** The writer's callers *)

Lemma encoded_len_from (chunks : list bytes) n :
  0 <= n ->
  foldM (fun length chunk => ok_or BadMetadata (checked_add length (zlen chunk))) n chunks =
    if (n + zlen (concat chunks) <=? u64_max) || bool_decide (chunks = [])
    then Ok (n + zlen (concat chunks)) else Err BadMetadata.
Proof.
  revert n. induction chunks as [| s chunks IH]; intros n Hn; cbn [foldM concat].
  - rewrite bool_decide_eq_true_2, orb_true_r by done. zlen_nil. by rewrite Z.add_0_r.
  - rewrite (bool_decide_eq_false_2 (s :: chunks = [])), orb_false_r by done.
    autorewrite with zlen. rewrite Z.add_assoc.
    destruct (checked_add n (zlen s)) as [m |] eqn:Hc; simpl.
    + apply checked_add_Some in Hc as [-> Hm]. rewrite IH by zlens.
      case_bool_decide as Hnil; [| by rewrite orb_false_r]. subst chunks. simpl. zlen_nil.
      rewrite orb_true_r, Z.add_0_r. by rewrite (proj2 (Z.leb_le _ _) Hm).
    + assert (u64_max < n + zlen s).
      { destruct (Z.le_gt_cases (n + zlen s) u64_max) as [Hle | Hgt]; [| lia].
        rewrite (proj2 (checked_add_Some _ _ _) (conj eq_refl Hle)) in Hc. done. }
      destruct (Z.leb_spec (n + zlen s + zlen (concat chunks)) u64_max); [zlens | done].
Qed.

Lemma write_not_nil c : write c <> [].
Proof. done. Qed.

Lemma encoded_len_eq c :
  encoded_len c =
    if zlen (metadata_wire (metadata c)) <=? u64_max
    then Ok (zlen (metadata_wire (metadata c))) else Err BadMetadata.
Proof.
  unfold encoded_len, metadata_wire. rewrite encoded_len_from by done.
  destruct c as [m]. cbn [metadata].
  rewrite (bool_decide_eq_false_2 (write _ = [])), orb_false_r by done.
  by rewrite Z.add_0_l.
Qed.

Lemma foldM_append {E} (chunks : list bytes) (s : bytes) :
  foldM (E := E) (fun output chunk => Ok (output ++ chunk)) s chunks = Ok (s ++ concat chunks).
Proof.
  revert s. induction chunks as [| x chunks IH]; intros s; cbn [foldM concat].
  - by rewrite app_nil_r.
  - cbn [rbind]. by rewrite IH, <- app_assoc.
Qed.

Lemma foldl_update (chunks : list bytes) (h : Hasher) :
  foldl hasher_update h chunks = h ++ concat chunks.
Proof.
  revert h. induction chunks as [| x chunks IH]; intros h; cbn [foldl concat].
  - by rewrite app_nil_r.
  - unfold hasher_update at 2. by rewrite IH, <- app_assoc.
Qed.

Section Callers.
Context `{Allocator}.

Lemma encode_eq c :
  encode c =
    if zlen (metadata_wire (metadata c)) <=? u64_max then
      let? _ := reserve OutOfMemory 0 0 (zlen (metadata_wire (metadata c))) in
      Ok (metadata_wire (metadata c))
    else Err BadMetadata.
Proof.
  unfold encode. rewrite encoded_len_eq. destruct (_ <=? _); [| done]. cbn [rbind].
  destruct (reserve _ _ _ _); [| done]. cbn [rbind]. rewrite foldM_append. by destruct c.
Qed.

Lemma metadata_encode_Ok c s : encode c = Ok s -> s = metadata_wire (metadata c) /\ zlen s <= u64_max.
Proof.
  rewrite encode_eq. destruct (_ <=? _) eqn:Hl; [| done]. intros Hs. inv_ok. zbool. done.
Qed.

Lemma encode_total `{!AllocatorTotal} c :
  zlen (metadata_wire (metadata c)) <= u64_max -> encode c = Ok (metadata_wire (metadata c)).
Proof.
  intros Hl. rewrite encode_eq, reserve_total. by rewrite (proj2 (Z.leb_le _ _) Hl).
Qed.

(** ** Decoding inverts encoding, and only encodings decode *)

Lemma metadata_decode_Ok s c :
  zlen s <= usize_max -> decode s = Ok c ->
  s = metadata_wire (metadata c) /\ metadata_typed (metadata c) /\ canonical (metadata c).
Proof.
  intros Hs Hd. unfold decode in Hd. inv_ok.
  pose proof (at_rest_start s Hs) as Hc. wire_inv. unfold new in Hd. inv_ok.
  match goal with Hv : validate _ = Ok tt |- _ => apply validate_canonical in Hv end.
  zbool.
  match goal with Hr : at_rest _ _ ?rest |- _ =>
    assert (rest = []) as -> by
      (apply (at_rest_end _ _ _ Hr); rewrite (at_rest_pre _ _ _ Hr); done) end.
  rewrite app_nil_r. cbn [metadata]. split_and!; [done | by apply wf_typed | done].
Qed.

Lemma metadata_decode_wire `{!AllocatorTotal} m :
  metadata_typed m -> canonical m -> zlen (metadata_wire m) <= usize_max ->
  decode (metadata_wire m) = Ok (MkCanonicalMetadata m).
Proof.
  intros Ht Hcan Hl. unfold decode.
  pose proof (at_rest_start (metadata_wire m) Hl) as Hc.
  rewrite <- (app_nil_r (metadata_wire m)) in Hc at 2.
  edestruct (wire_complete (Wire := wire_metadata) m) as (c' & E & Hc');
    [by apply canonical_wf | exact Hc |].
  rewrite E. cbn [rbind].
  assert (offset c' = zlen (metadata_wire m)) as ->.
  { destruct Hc' as (_ & -> & _). done. }
  rewrite Z.eqb_refl. cbn [negb fail_if rbind]. unfold new.
  by rewrite (proj2 (validate_canonical m) Hcan).
Qed.

End Callers.

(** Distinct records have distinct encodings, so distinct hash inputs. *)
Lemma metadata_wire_inj m1 m2 :
  metadata_typed m1 -> canonical m1 -> metadata_typed m2 -> canonical m2 ->
  zlen (metadata_wire m1) <= usize_max -> metadata_wire m1 = metadata_wire m2 -> m1 = m2.
Proof.
  intros Ht1 Hc1 Ht2 Hc2 Hl Heq.
  pose proof (metadata_decode_wire (H := plentiful) m1 Ht1 Hc1 Hl) as H1.
  rewrite Heq in Hl, H1. rewrite (metadata_decode_wire (H := plentiful) m2 Ht2 Hc2 Hl) in H1.
  by injection H1.
Qed.

(** ** The properties of the record format *)

(** [CanonicalMetadata::new] accepts exactly the canonical records: every
    name and length valid, attributes and access entries strictly sorted, extents
    sorted and separated; and it keeps the record. *)
Lemma canonical_metadata_new m c :
  new m = Ok c <-> canonical m /\ metadata c = m.
Proof.
  unfold new. rewrite <- validate_canonical. destruct (validate m) as [[] | e]; cbn [rbind].
  - split; [by intros [= <-] | intros [_ <-]; by destruct c].
  - split; [done | by intros [[=] _]].
Qed.

(** C9: [CanonicalMetadata::decode] accepts exactly what
    [CanonicalMetadata::encode] writes for a canonical record, and returns that
    record: decoding inverts encoding, and a record has one encoding. *)
Theorem metadata_decode_iff_encode `{AllocatorTotal} s c :
  zlen s <= usize_max ->
  decode s = Ok c <->
  metadata_typed (metadata c) /\ canonical (metadata c) /\ encode c = Ok s.
Proof.
  intros Hs. split.
  - intros (-> & Ht & Hc)%metadata_decode_Ok; [| done]. split_and!; [done | done |].
    by apply encode_total.
  - intros (Ht & Hc & [-> _]%metadata_encode_Ok). destruct c as [m].
    by apply metadata_decode_wire.
Qed.

(** The identity of a record is the hash of a tag and its encoding, and
    records that differ have different encodings. *)
Lemma metadata_hash_input `{Allocator, Blake3} c1 c2 s1 s2 :
  metadata_typed (metadata c1) -> canonical (metadata c1) ->
  metadata_typed (metadata c2) -> canonical (metadata c2) ->
  encode c1 = Ok s1 -> encode c2 = Ok s2 ->
  hash c1 = blake3 (lit "DIFZMETA" ++ [x01] ++ s1)
  /\ hash c2 = blake3 (lit "DIFZMETA" ++ [x01] ++ s2)
  /\ (s1 = s2 <-> c1 = c2).
Proof.
  intros Ht1 Hc1 Ht2 Hc2 [-> Hl]%metadata_encode_Ok [-> _]%metadata_encode_Ok.
  unfold hash, hasher_finalize. rewrite !foldl_update.
  destruct c1 as [m1], c2 as [m2]. split_and!; [done | done |].
  split; [| by intros [= ->]]. intros E. f_equal. by apply metadata_wire_inj.
Qed.

Definition small_record : Metadata :=
  MkMetadata [MkXattr XattrClass.Logical (lit "note") (lit "hi")] [] (Some (MkNativeAcl Os.Linux [x02]))
    (MkTimes (Some (MkTime (-1) 999999999)) None None) 3 None [MkHole 4 8] (Some (lit "a/b")).

Lemma small_record_ok : metadata_typed small_record /\ canonical small_record.
Proof. split; apply (bool_decide_unpack _); vm_compute; exact I. Qed.

Lemma metadata_decode_iff_encode_witness :
  exists s, @encode plentiful (MkCanonicalMetadata small_record) = Ok s
    /\ @decode plentiful s = Ok (MkCanonicalMetadata small_record).
Proof.
  exists (metadata_wire small_record).
  assert (@encode plentiful (MkCanonicalMetadata small_record) = Ok (metadata_wire small_record)) as He
    by (vm_compute; reflexivity).
  assert (zlen (metadata_wire small_record) <= usize_max) as Hl by (vm_compute; discriminate).
  split; [exact He |].
  apply (@metadata_decode_iff_encode plentiful plentiful_total _ (MkCanonicalMetadata small_record) Hl).
  exact (conj (proj1 small_record_ok) (conj (proj2 small_record_ok) He)).
Defined.

Lemma metadata_hash_input_witness :
  @hash toy_blake3 (MkCanonicalMetadata small_record)
    = @blake3 toy_blake3 (lit "DIFZMETA" ++ [x01] ++ metadata_wire small_record)
  /\ (metadata_wire small_record = metadata_wire metadata_default
      <-> MkCanonicalMetadata small_record = canonical_default).
Proof.
  assert (metadata_typed metadata_default /\ canonical metadata_default) as [Ht Hc]
    by (split; apply (bool_decide_unpack _); vm_compute; exact I).
  assert (@encode plentiful (MkCanonicalMetadata small_record) = Ok (metadata_wire small_record)) as H1
    by (vm_compute; reflexivity).
  assert (@encode plentiful canonical_default = Ok (metadata_wire metadata_default)) as H2
    by (vm_compute; reflexivity).
  destruct (@metadata_hash_input plentiful toy_blake3 (MkCanonicalMetadata small_record)
    canonical_default _ _
    (proj1 small_record_ok) (proj2 small_record_ok) Ht Hc H1 H2) as (E & _ & I).
  exact (conj E I).
Defined.
