(* ===== verification/MetadataNormalize.v ===== *)
(** * Normalisation

    What [CanonicalMetadata::normalize] computes: omission, sorting by key with
    duplicates rejected, and merging of sparse extents. The result is the unique
    canonical record with the input's attributes and coverage. *)

From S2P Require Export MetadataValid.

(** ** Sorting by a byte-string key *)

Section KeySort.
Context {A : Type} (key : A -> bytes) (cmp : A -> A -> comparison).
Context (cmp_key : forall a b, cmp a b = bytes_cmp (key a) (key b)).

Definition key_le (a b : A) : Prop := cmp a b <> Gt.

#[local] Instance key_le_total : Total key_le.
Proof using cmp_key.
  intros a b. unfold key_le. rewrite !cmp_key, (bytes_cmp_antisym (key a) (key b)).
  destruct (bytes_cmp (key a) (key b)); simpl; auto.
Qed.

Lemma key_le_iff a b : key_le a b <-> key a = key b \/ bytes_lt (key a) (key b).
Proof using cmp_key.
  unfold key_le, bytes_lt. rewrite cmp_key, <- bytes_cmp_eq.
  destruct (bytes_cmp (key a) (key b)); naive_solver.
Qed.

#[local] Instance key_le_trans : Transitive key_le.
Proof using cmp_key.
  intros a b c. rewrite !key_le_iff. intros [Hab | Hab] [Hbc | Hbc].
  - left. congruence.
  - right. by rewrite Hab.
  - right. by rewrite <- Hbc.
  - right. by apply (bytes_lt_trans _ (key b)).
Qed.

Lemma sort_by_perm l : sort_by cmp l ≡ₚ l.
Proof. apply merge_sort_Permutation. Qed.

Lemma sort_by_sorted l : StronglySorted key_le (sort_by cmp l).
Proof using cmp_key. apply (StronglySorted_merge_sort key_le). Qed.

Lemma check_windows_strict same e l :
  (forall a b, same a b = true <-> key a = key b) ->
  StronglySorted key_le l ->
  check_windows same e l = Ok tt <-> StronglySorted (key_lt key) l.
Proof using cmp_key.
  intros Hsame Hs. rewrite <- Sorted_key_lt.
  induction Hs as [| x l Hs IH Hx]; [by split; constructor |].
  destruct l as [| y l]; [by split; repeat constructor |].
  cbn [check_windows]. rewrite seq_ok, <- unit_ok, IH, fail_if_Ok.
  apply Forall_cons_iff in Hx as [Hxy _]. split.
  - intros [Hn Hl]. constructor; [done |]. constructor.
    apply key_le_iff in Hxy as [Heq | ?]; [| done]. apply Hsame in Heq. congruence.
  - intros Hl. apply Sorted_inv in Hl as [Hl Hd]. split; [| done].
    apply not_true_is_false. rewrite Hsame. intros Heq. inversion Hd; subst.
    unfold key_lt in *. rewrite Heq in *. by eapply bytes_lt_irrefl.
Qed.

(** A strictly sorted list is the only sorted arrangement of its elements. *)
Lemma strict_sorted_unique l1 l2 :
  StronglySorted (key_lt key) l1 -> StronglySorted key_le l2 -> l1 ≡ₚ l2 -> l1 = l2.
Proof using cmp_key.
  intros H1 H2 Hp. assert (StronglySorted key_le l1) as H1'.
  { eapply strongly_sorted_impl; [| exact H1]. intros a b Hab. apply key_le_iff. by right. }
  apply (StronglySorted_unique_strong key_le); [| done | done | done].
  intros a b Ha Hb Hab Hba. apply list_elem_of_lookup in Ha as [i Hi].
  rewrite <- Hp in Hb. apply list_elem_of_lookup in Hb as [j Hj].
  apply key_le_iff in Hab, Hba.
  destruct (Nat.lt_trichotomy i j) as [Hlt | [-> | Hlt]]; [| congruence |].
  - pose proof (sorted_lookup_lt key _ _ _ _ _ H1 Hlt Hi Hj) as H.
    destruct Hba as [E | Hba]; [rewrite E in H; by apply bytes_lt_irrefl in H |].
    by apply (bytes_lt_trans _ _ _ H), bytes_lt_irrefl in Hba.
  - pose proof (sorted_lookup_lt key _ _ _ _ _ H1 Hlt Hj Hi) as H.
    destruct Hab as [E | Hab]; [rewrite E in H; by apply bytes_lt_irrefl in H |].
    by apply (bytes_lt_trans _ _ _ H), bytes_lt_irrefl in Hab.
Qed.

Lemma sort_by_strict l : StronglySorted (key_lt key) l -> sort_by cmp l = l.
Proof using cmp_key.
  intros Hs. symmetry. apply strict_sorted_unique; [done | apply sort_by_sorted |].
  symmetry. apply sort_by_perm.
Qed.

(** Without duplicate keys the input order does not matter. *)
Lemma sort_by_order l1 l2 :
  l1 ≡ₚ l2 -> StronglySorted (key_lt key) (sort_by cmp l1) -> sort_by cmp l2 = sort_by cmp l1.
Proof using cmp_key.
  intros Hp Hs. symmetry. apply strict_sorted_unique; [done | apply sort_by_sorted |].
  by rewrite !sort_by_perm.
Qed.
End KeySort.

(** ** Sparse extents *)

Definition covers (h : Hole) (x : Z) : Prop := hoffset h <= x < hole_end h.
Definition covered (l : list Hole) (x : Z) : Prop := exists h, h ∈ l /\ covers h x.

(** Positive extents within the 64-bit range. *)
Definition hole_sound (h : Hole) : Prop :=
  0 <= hoffset h /\ 0 < hlength h /\ hole_end h <= u64_max.

Lemma hole_sound_iff h : hole_typed h -> hole_ok h <-> hole_sound h.
Proof. unfold hole_typed, hole_ok, hole_sound, is_u64. lia. Qed.

Lemma hole_sound_typed h : hole_sound h -> hole_typed h.
Proof. unfold hole_typed, hole_sound, is_u64, hole_end, u64_max. lia. Qed.

Lemma covered_cons h l x : covered (h :: l) x <-> covers h x \/ covered l x.
Proof. unfold covered. set_solver. Qed.
Lemma covered_nil x : covered [] x <-> False.
Proof. unfold covered. set_solver. Qed.
Lemma covered_perm l1 l2 x : l1 ≡ₚ l2 -> covered l1 x <-> covered l2 x.
Proof. intros Hp. unfold covered. by setoid_rewrite Hp. Qed.

Definition hole_after (a b : Hole) : Prop := hole_before b a.

Lemma merge_hole_step merged h :
  Sorted hole_after merged -> Forall hole_sound merged -> hole_sound h ->
  (forall p, head merged = Some p -> hoffset p <= hoffset h) ->
  Sorted hole_after (merge_hole merged h) /\ Forall hole_sound (merge_hole merged h)
  /\ (forall x, covered (merge_hole merged h) x <-> covered (h :: merged) x)
  /\ (forall p, head (merge_hole merged h) = Some p -> hoffset p <= hoffset h).
Proof.
  intros Hs Hf Hh Hp. unfold merge_hole. destruct merged as [| p before].
  - split_and!; [repeat constructor | by constructor | done | naive_solver].
  - specialize (Hp p eq_refl). apply Forall_cons_iff in Hf as [Hsp Hf].
    apply Sorted_inv in Hs as [Hs Hd].
    unfold hole_sound, hole_end in *.
    destruct (Z.leb_spec (hoffset h) (hoffset p + hlength p)) as [Hle | Hgt]; split_and!.
    + constructor; [done |]. destruct Hd as [| q before Hq]; constructor. done.
    + constructor; [simpl; lia | done].
    + intros x. rewrite !covered_cons. unfold covers, hole_end. cbn [hoffset hlength].
      destruct (Z.lt_ge_cases x (hoffset p + hlength p)); intuition lia.
    + simpl. intros q [= <-]. done.
    + constructor; [by constructor |]. constructor. unfold hole_after, hole_before, hole_end. lia.
    + constructor; [done |]. by constructor.
    + done.
    + simpl. intros q [= <-]. lia.
Qed.

Lemma merge_fold merged l :
  Sorted hole_after merged -> Forall hole_sound merged -> Forall hole_sound l ->
  StronglySorted (fun a b => hoffset a <= hoffset b) l ->
  (forall p h, head merged = Some p -> head l = Some h -> hoffset p <= hoffset h) ->
  Sorted hole_after (foldl merge_hole merged l) /\ Forall hole_sound (foldl merge_hole merged l)
  /\ (forall x, covered (foldl merge_hole merged l) x <-> covered (merged ++ l) x).
Proof.
  revert merged. induction l as [| h l IH]; intros merged Hs Hf Hl Hsort Hp; cbn [foldl].
  - rewrite app_nil_r. done.
  - apply Forall_cons_iff in Hl as [Hh Hl]. apply StronglySorted_inv in Hsort as [Hsort Hge].
    destruct (merge_hole_step merged h Hs Hf Hh) as (Hs' & Hf' & Hc' & Hp'); [eauto |].
    destruct (IH (merge_hole merged h) Hs' Hf' Hl Hsort) as (Hs'' & Hf'' & Hc'').
    { intros p q Hpp Hq. specialize (Hp' p Hpp). destruct l as [| q' l]; [done |].
      injection Hq as ->. apply Forall_cons_iff in Hge as [? _]. lia. }
    split_and!; [done | done |]. intros x. rewrite Hc''. unfold covered.
    setoid_rewrite elem_of_app. specialize (Hc' x). unfold covered in Hc'.
    setoid_rewrite elem_of_cons in Hc'. setoid_rewrite elem_of_cons. naive_solver.
Qed.

#[local] Instance hole_le_total : Total (fun a b : Hole => hole_cmp a b <> Gt).
Proof. intros a b. change (hoffset a <= hoffset b \/ hoffset b <= hoffset a). lia. Qed.
#[local] Instance hole_le_trans : Transitive (fun a b : Hole => hole_cmp a b <> Gt).
Proof.
  intros a b c. change (hoffset a <= hoffset b -> hoffset b <= hoffset c -> hoffset a <= hoffset c).
  lia.
Qed.

Lemma merge_holes_spec l :
  Forall hole_sound l ->
  Sorted hole_before (merge_holes (sort_by hole_cmp l))
  /\ Forall hole_sound (merge_holes (sort_by hole_cmp l))
  /\ (forall x, covered (merge_holes (sort_by hole_cmp l)) x <-> covered l x).
Proof.
  intros Hl. assert (sort_by hole_cmp l ≡ₚ l) as Hp by apply merge_sort_Permutation.
  assert (StronglySorted (fun a b => hoffset a <= hoffset b) (sort_by hole_cmp l)) as Hs.
  { eapply strongly_sorted_impl; [| apply (StronglySorted_merge_sort (fun a b => hole_cmp a b <> Gt))].
    intros a b H. by apply Z.compare_le_iff. }
  destruct (merge_fold [] (sort_by hole_cmp l)) as (H1 & H2 & H3); try done.
  { by rewrite Hp. }
  unfold merge_holes. split_and!.
  - apply Sorted_reverse in H1. done.
  - by rewrite reverse_Permutation.
  - intros x. rewrite (covered_perm _ _ x (reverse_Permutation _)), H3. by apply covered_perm.
Qed.

Lemma length_merge_fold merged l :
  (length (foldl merge_hole merged l) <= length merged + length l)%nat.
Proof.
  revert merged. induction l as [| h l IH]; intros merged; cbn [foldl length]; [lia |].
  specialize (IH (merge_hole merged h)).
  assert (length (merge_hole merged h) <= S (length merged))%nat; [| lia].
  unfold merge_hole. destruct merged; [done |]. destruct (_ <=? _); simpl; lia.
Qed.

Lemma zlen_merge_holes l : zlen (merge_holes (sort_by hole_cmp l)) <= zlen l.
Proof.
  unfold zlen, merge_holes. rewrite length_reverse.
  pose proof (length_merge_fold [] (sort_by hole_cmp l)) as H.
  assert (sort_by hole_cmp l ≡ₚ l) as Hp by apply merge_sort_Permutation.
  rewrite Hp in H at 2. simpl in H. lia.
Qed.

(** Separated extents are ordered throughout, not just pairwise. *)
Lemma holes_strongly_sorted l :
  Forall hole_sound l -> Sorted hole_before l -> StronglySorted hole_before l.
Proof.
  intros Hf Hs. induction Hs as [| h l Hs IH Hd]; [constructor |].
  apply Forall_cons_iff in Hf as [Hh Hf]. constructor; [auto |].
  specialize (IH Hf). destruct Hd as [| k l Hk]; [constructor |].
  constructor; [done |]. apply StronglySorted_inv in IH as [_ IH].
  eapply List.Forall_impl; [| exact IH]. intros j Hj.
  apply Forall_cons_iff in Hf as [Hks _]. unfold hole_before, hole_sound, hole_end in *. lia.
Qed.

(** The first extent holds the least covered offset and reaches exactly the
    first uncovered one after it. *)
Lemma covered_tail h l x :
  StronglySorted hole_before (h :: l) -> Forall hole_sound (h :: l) ->
  covered l x <-> covered (h :: l) x /\ hole_end h < x.
Proof.
  intros Hs Hf. apply StronglySorted_inv in Hs as [_ Hs]. rewrite Forall_forall in Hs.
  apply Forall_cons_iff in Hf as [Hh _]. rewrite covered_cons. split.
  - intros (k & Hk & Hx). split; [right; by exists k |].
    specialize (Hs k (proj1 (list_elem_of_In _ _) Hk)).
    unfold covers, hole_before in *. lia.
  - intros [[Hx | Hx] Hlt]; [| done]. unfold covers in Hx. lia.
Qed.

Lemma not_covered_before h l x :
  StronglySorted hole_before (h :: l) -> Forall hole_sound (h :: l) ->
  x < hoffset h \/ x = hole_end h -> ~ covered (h :: l) x.
Proof.
  intros Hs Hf Hx. rewrite covered_cons, covered_tail by done.
  apply Forall_cons_iff in Hf as [Hh _]. unfold covers, hole_sound in *.
  intros [? | [_ ?]]; unfold hole_end in *; lia.
Qed.

(** A separated list of extents is determined by what it covers. *)
Lemma holes_unique l1 l2 :
  Forall hole_sound l1 -> Forall hole_sound l2 ->
  Sorted hole_before l1 -> Sorted hole_before l2 ->
  (forall x, covered l1 x <-> covered l2 x) -> l1 = l2.
Proof.
  intros Hf1 Hf2 Hs1%holes_strongly_sorted Hs2%holes_strongly_sorted Hc; try done.
  revert l2 Hf2 Hs2 Hc.
  induction l1 as [| a l1 IH]; intros [| b l2] Hf2 Hs2 Hc.
  - done.
  - destruct (covered_nil (hoffset b)) as [H _]. exfalso. apply H, Hc, covered_cons. left.
    apply Forall_cons_iff in Hf2 as [Hb _]. unfold covers, hole_sound, hole_end in *. lia.
  - destruct (covered_nil (hoffset a)) as [H _]. exfalso. apply H, Hc, covered_cons. left.
    apply Forall_cons_iff in Hf1 as [Ha _]. unfold covers, hole_sound, hole_end in *. lia.
  - pose proof (Forall_inv Hf1) as Ha. pose proof (Forall_inv Hf2) as Hb.
    assert (covers a (hoffset a) /\ covers b (hoffset b)) as [Ca Cb].
    { unfold covers, hole_sound, hole_end in *. lia. }
    assert (hoffset a = hoffset b) as Ho.
    { destruct (Z.lt_trichotomy (hoffset a) (hoffset b)) as [H | [H | H]]; [| done |]; exfalso.
      - eapply (not_covered_before b l2 (hoffset a)); [done | done | auto |].
        apply Hc, covered_cons. by left.
      - eapply (not_covered_before a l1 (hoffset b)); [done | done | auto |].
        apply Hc, covered_cons. by left. }
    assert (hole_end a = hole_end b) as He.
    { destruct (Z.lt_trichotomy (hole_end a) (hole_end b)) as [H | [H | H]]; [| done |]; exfalso.
      - eapply (not_covered_before a l1 (hole_end a)); [done | done | auto |].
        apply Hc, covered_cons. left. unfold covers, hole_sound, hole_end in *. lia.
      - eapply (not_covered_before b l2 (hole_end b)); [done | done | auto |].
        apply Hc, covered_cons. left. unfold covers, hole_sound, hole_end in *. lia. }
    assert (a = b) as -> by (destruct a, b; unfold hole_end in *; simpl in *; f_equal; lia).
    f_equal. apply IH.
    + by inversion Hf1.
    + by inversion Hs1.
    + by inversion Hf2.
    + by inversion Hs2.
    + intros x. by rewrite (covered_tail b l1), (covered_tail b l2), Hc by done.
Qed.

(** ** Omission *)

Definition omitted {A} (omit : Omit.Omit) (f : Family.Family) (none some : A) : A :=
  if Omit.contains omit f then none else some.

Lemma omit_families_eq omit m :
  omit_families omit m =
    MkMetadata
      (omitted omit Family.Xattr [] (xattrs m))
      (omitted omit Family.Acl [] (aces m))
      (omitted omit Family.Acl None (native_acl m))
      (omitted omit Family.Timestamps times_default (times m))
      (omitted omit Family.Finder 0 (finder_flags m))
      (omitted omit Family.Finder None (finder_info m))
      (omitted omit Family.Sparse [] (holes m))
      (omitted omit Family.Hardlink None (hardlink_to m)).
Proof.
  unfold omit_families, omitted, Family.ALL. cbn [foldl]. destruct m.
  repeat case_match; reflexivity.
Qed.

Lemma omit_none m : omit_families Omit.default m = m.
Proof. rewrite omit_families_eq. by destruct m. Qed.

#[global] Arguments omit_families : simpl never.

(** Omission keeps a record canonical and typed. *)
Lemma omit_canonical omit m : canonical m -> canonical (omit_families omit m).
Proof.
  intros []. rewrite omit_families_eq. unfold omitted.
  constructor; cbn [xattrs aces native_acl times holes hardlink_to]; case_match; try done;
    constructor.
Qed.

Lemma omit_typed omit m : metadata_typed m -> metadata_typed (omit_families omit m).
Proof.
  intros []. rewrite omit_families_eq. unfold omitted.
  constructor; cbn; case_match; try done; constructor.
Qed.

(** ** The result of [normalize] *)

Definition normal_form (m : Metadata) : Metadata :=
  MkMetadata (sort_by xattr_cmp (xattrs m)) (sort_by ace_cmp (aces m)) (native_acl m) (times m)
    (finder_flags m) (finder_info m) (merge_holes (sort_by hole_cmp (holes m))) (hardlink_to m).

(** What normalisation asks of its input, in any order. *)
Record normalizable (m : Metadata) : Prop := {
  nor_xattrs_len : zlen (xattrs m) <= u32_max;
  nor_xattrs : Forall xattr_ok (xattrs m);
  nor_xattrs_unique : NoDup (xattr_key <$> xattrs m);
  nor_aces_len : zlen (aces m) <= u32_max;
  nor_aces : Forall ace_ok (aces m);
  nor_aces_unique : NoDup (ace_key <$> aces m);
  nor_acl : acl_ok (native_acl m);
  nor_times : times_ok (times m);
  nor_holes_len : zlen (holes m) <= u32_max;
  nor_holes : Forall hole_ok (holes m);
  nor_hardlink : hardlink_ok (hardlink_to m)
}.

Lemma strict_NoDup {A} (key : A -> bytes) l :
  StronglySorted (key_lt key) l -> NoDup (key <$> l).
Proof.
  induction 1 as [| x l Hs IH Hx]; [constructor |]. rewrite fmap_cons, list.NoDup_cons. split; [| done].
  rewrite list_elem_of_fmap. intros (y & Hk & Hy). rewrite Forall_forall in Hx.
  specialize (Hx y (proj1 (list_elem_of_In _ _) Hy)). unfold key_lt in Hx. rewrite Hk in Hx.
  by eapply bytes_lt_irrefl.
Qed.

Section StrictSort.
Context {A : Type} (key : A -> bytes) (cmp : A -> A -> comparison).
Context (cmp_key : forall a b, cmp a b = bytes_cmp (key a) (key b)).

Lemma sorted_NoDup_strict l :
  StronglySorted (key_le cmp) l -> NoDup (key <$> l) -> StronglySorted (key_lt key) l.
Proof using cmp_key.
  induction 1 as [| x l Hs IH Hx]; [constructor |].
  rewrite fmap_cons, list.NoDup_cons. intros [Hn Hnd]. constructor; [auto |].
  rewrite Forall_forall in *. intros y Hy. specialize (Hx y Hy).
  apply (key_le_iff key cmp cmp_key) in Hx as [Hk | Hlt]; [| done]. exfalso. apply Hn.
  rewrite Hk. apply list_elem_of_fmap_2. by apply list_elem_of_In.
Qed.

Lemma sort_by_strict_iff l :
  StronglySorted (key_lt key) (sort_by cmp l) <-> NoDup (key <$> l).
Proof using cmp_key.
  split.
  - intros Hs%strict_NoDup. by rewrite (sort_by_perm cmp l) in Hs.
  - intros Hn. apply sorted_NoDup_strict; [by apply (sort_by_sorted key) |].
    by rewrite (sort_by_perm cmp l).
Qed.
End StrictSort.

(** ** The specification *)

Lemma rbind_seq_Ok {E A} (r : result E unit) (k : result E A) a :
  (let? _ := r in k) = Ok a <-> r = Ok tt /\ k = Ok a.
Proof. destruct r as [[] |]; simpl; naive_solver. Qed.

Lemma xattr_checks_ok l :
  iterM (fun x => let? _ := validate_xattr_name (xclass x) (xname x) in
                  wire_length (zlen (xvalue x))) l = Ok tt <-> Forall xattr_ok l.
Proof.
  rewrite iterM_Ok. apply Forall_iff. intros x.
  by rewrite rbind_seq_Ok, wire_length_ok.
Qed.
Lemma ace_checks_ok l :
  iterM (fun a => let? _ := validate_ace_name (atag a) (aname a) in
                  wire_length (zlen (aname a))) l = Ok tt <-> Forall ace_ok l.
Proof.
  rewrite iterM_Ok. apply Forall_iff. intros a.
  by rewrite rbind_seq_Ok, wire_length_ok.
Qed.
Lemma hole_checks_ok l :
  iterM (fun h => let? _ := fail_if (hlength h =? 0) ZeroLengthHole in
                  let? _ := ok_or HoleOverflow (checked_add (hoffset h) (hlength h)) in
                  Ok tt) l = Ok tt <-> Forall hole_ok l.
Proof.
  rewrite iterM_Ok. apply Forall_iff. intros h. rewrite rbind_seq_Ok, fail_if_Ok.
  unfold hole_ok, hole_end. rewrite Z.eqb_neq, rbind_Ok. setoid_rewrite ok_or_Ok.
  setoid_rewrite checked_add_Some. naive_solver.
Qed.

Lemma xattr_windows_ok l :
  check_windows same_xattr DuplicateXattr (sort_by xattr_cmp l) = Ok tt <->
  NoDup (xattr_key <$> l).
Proof.
  rewrite (check_windows_strict xattr_key xattr_cmp xattr_cmp_key).
  - apply (sort_by_strict_iff _ _ xattr_cmp_key).
  - apply same_xattr_key.
  - apply (sort_by_sorted _ _ xattr_cmp_key).
Qed.
Lemma ace_windows_ok l :
  check_windows same_ace DuplicateAce (sort_by ace_cmp l) = Ok tt <-> NoDup (ace_key <$> l).
Proof.
  rewrite (check_windows_strict ace_key ace_cmp ace_cmp_key).
  - apply (sort_by_strict_iff _ _ ace_cmp_key).
  - apply same_ace_key.
  - apply (sort_by_sorted _ _ ace_cmp_key).
Qed.

Lemma holes_typed_sound l :
  Forall hole_typed l -> Forall hole_ok l -> Forall hole_sound l.
Proof.
  rewrite !Forall_forall. intros Ht Ho h Hh. apply hole_sound_iff; auto.
Qed.

(** The normal form of an acceptable record is canonical. *)
Lemma normal_form_canonical m :
  Forall hole_typed (holes m) -> normalizable m -> canonical (normal_form m).
Proof.
  intros Ht [].
  destruct (merge_holes_spec (holes m)) as (Hs & Hf & _); [by apply holes_typed_sound |].
  assert (sort_by xattr_cmp (xattrs m) ≡ₚ xattrs m) as Hx by apply sort_by_perm.
  assert (sort_by ace_cmp (aces m) ≡ₚ aces m) as Ha by apply sort_by_perm.
  constructor; cbn [xattrs aces native_acl times holes hardlink_to normal_form]; try done.
  - unfold zlen. by rewrite Hx.
  - by rewrite Hx.
  - by apply (sort_by_strict_iff _ _ xattr_cmp_key).
  - unfold zlen. by rewrite Ha.
  - by rewrite Ha.
  - by apply (sort_by_strict_iff _ _ ace_cmp_key).
  - pose proof (zlen_merge_holes (holes m)). lia.
  - eapply Forall_impl; [| exact Hf]. intros h Hh'. apply hole_sound_iff; [| done].
    by apply hole_sound_typed.
Qed.

(** [normalize] accepts exactly the acceptable records, and computes their
    normal form. *)
Lemma normalize_iff m omit c :
  metadata_typed m ->
  normalize m omit = Ok c <->
  normalizable (omit_families omit m) /\ c = MkCanonicalMetadata (normal_form (omit_families omit m)).
Proof.
  intros Ht. apply (omit_typed omit) in Ht. unfold normalize.
  remember (omit_families omit m) as m' eqn:E. clear E. cbv zeta.
  rewrite !rbind_seq_Ok, !wire_length_ok, xattr_checks_ok, ace_checks_ok, hole_checks_ok,
    xattr_windows_ok, ace_windows_ok, validate_native_acl_ok, validate_times_ok.
  fold (normal_form m'). unfold new. rewrite rbind_seq_Ok, validate_canonical. split.
  - intros. destruct_and!. inv_ok. split; [| done]. constructor; try done.
    by match goal with Hc : canonical _ |- _ => destruct Hc end.
  - intros [Hn ->]. pose proof (nor_hardlink _ Hn).
    assert (Forall hole_typed (holes m')) by by destruct Ht.
    pose proof (normal_form_canonical m' ltac:(done) Hn). destruct Hn. done.
Qed.

(** Canonical records are their own normal form. *)
Lemma canonical_normalizable m :
  canonical m -> normalizable m.
Proof.
  intros []. constructor; try done; by apply strict_NoDup.
Qed.

Lemma normal_form_fixed m : metadata_typed m -> canonical m -> normal_form m = m.
Proof.
  intros Ht Hc.
  destruct (merge_holes_spec (holes m)) as (Hs & Hf & Hcov).
  { apply holes_typed_sound; [by apply typed_holes | by apply can_holes]. }
  destruct Hc. unfold normal_form.
  rewrite (sort_by_strict _ _ xattr_cmp_key), (sort_by_strict _ _ ace_cmp_key) by done.
  rewrite (holes_unique (merge_holes _) (holes m)); try done; [by destruct m |].
  apply holes_typed_sound; [by destruct Ht | done].
Qed.

(** What the capture order can change: the order of attributes and entries, and
    the order and division of the extents. *)
Record same_content (m1 m2 : Metadata) : Prop := {
  same_xattrs : xattrs m1 ≡ₚ xattrs m2;
  same_aces : aces m1 ≡ₚ aces m2;
  same_acl : native_acl m1 = native_acl m2;
  same_times : times m1 = times m2;
  same_flags : finder_flags m1 = finder_flags m2;
  same_info : finder_info m1 = finder_info m2;
  same_coverage : forall x, covered (holes m1) x <-> covered (holes m2) x;
  same_hardlink : hardlink_to m1 = hardlink_to m2
}.

Lemma normal_form_unique m1 m2 :
  metadata_typed m1 -> metadata_typed m2 -> normalizable m1 -> normalizable m2 ->
  same_content m1 m2 -> normal_form m1 = normal_form m2.
Proof.
  intros [] [] [] [] []. unfold normal_form.
  rewrite (sort_by_order _ _ xattr_cmp_key (xattrs m2) (xattrs m1)),
    (sort_by_order _ _ ace_cmp_key (aces m2) (aces m1))
    by (done || by apply (sort_by_strict_iff _ _ xattr_cmp_key)
             || by apply (sort_by_strict_iff _ _ ace_cmp_key)).
  f_equal; try done.
  destruct (merge_holes_spec (holes m1)) as (? & ? & Hc1); [by apply holes_typed_sound |].
  destruct (merge_holes_spec (holes m2)) as (? & ? & Hc2); [by apply holes_typed_sound |].
  apply holes_unique; try done. intros x. by rewrite Hc1, Hc2.
Qed.

Lemma normal_form_content m :
  metadata_typed m -> normalizable m -> same_content (normal_form m) m.
Proof.
  intros [] []. constructor; try done; try apply sort_by_perm.
  destruct (merge_holes_spec (holes m)) as (? & ? & Hc); [by apply holes_typed_sound | done].
Qed.

(** [sort_unstable_by] may leave equal keys in any order: whatever arrangement
    it produces, a run that passes the duplicate check computes the same lists. *)
Lemma normalize_sort_independent (xs : list Xattr) (hs : list Hole) (xs' : list Xattr) (hs' : list Hole) :
  xs' ≡ₚ xs -> StronglySorted (key_le xattr_cmp) xs' -> NoDup (xattr_key <$> xs) ->
  hs' ≡ₚ hs -> StronglySorted (fun a b => hoffset a <= hoffset b) hs' -> Forall hole_sound hs ->
  xs' = sort_by xattr_cmp xs /\ merge_holes hs' = merge_holes (sort_by hole_cmp hs).
Proof.
  intros Hx Hxs Hn Hh Hhs Hf. split.
  - symmetry. apply (strict_sorted_unique _ _ xattr_cmp_key); [| done |].
    + by apply (sort_by_strict_iff _ _ xattr_cmp_key).
    + by rewrite (sort_by_perm xattr_cmp xs), Hx.
  - destruct (merge_holes_spec hs Hf) as (Hs1 & Hf1 & Hc1).
    destruct (merge_fold [] hs') as (Hs2 & Hf2 & Hc2); try done; [by rewrite Hh |].
    apply holes_unique; try done.
    + unfold merge_holes. by rewrite reverse_Permutation.
    + unfold merge_holes. apply Sorted_reverse in Hs2. done.
    + intros x. rewrite Hc1. unfold merge_holes.
      rewrite (covered_perm _ _ x (reverse_Permutation _)), Hc2. by apply covered_perm.
Qed.

(** ** The properties of normalization *)

Lemma same_content_omit omit m1 m2 :
  same_content m1 m2 -> same_content (omit_families omit m1) (omit_families omit m2).
Proof.
  intros []. rewrite !omit_families_eq. constructor; cbn; unfold omitted; try (by case_match).
Qed.

(** C7: [CanonicalMetadata::normalize] succeeds exactly on the records whose
    retained families are acceptable (valid and distinct names, lengths that fit,
    extents neither empty nor overflowing). What it returns is the one canonical
    record with the content of the retained families: the same attributes and
    access entries, extents covering the same bytes, the other fields unchanged. *)
Theorem normalize_spec m omit :
  metadata_typed m ->
  ((exists c, normalize m omit = Ok c) <-> normalizable (omit_families omit m))
  /\ forall c, normalize m omit = Ok c ->
       canonical (metadata c) /\ same_content (metadata c) (omit_families omit m)
       /\ forall m', metadata_typed m' -> canonical m' ->
            same_content m' (omit_families omit m) -> m' = metadata c.
Proof.
  intros Ht. pose proof (omit_typed omit m Ht) as Ht'. split.
  - split; [intros [c Hc]; by apply normalize_iff in Hc as [? _] |].
    intros Hn. eexists. by apply normalize_iff.
  - intros c [Hn ->]%normalize_iff; [| done]. cbn [metadata].
    assert (canonical (normal_form (omit_families omit m))) as Hc
      by (apply normal_form_canonical; [by destruct Ht' | done]).
    pose proof (normal_form_content _ Ht' Hn) as Hs.
    split_and!; [done | done |]. intros m' Htm Hcm Hsm.
    rewrite <- (normal_form_fixed m') by done.
    apply normal_form_unique; try done. by apply canonical_normalizable.
Qed.

(** C8: The order in which attributes, access entries and extents were captured,
    and the way the extents were divided, do not show: two captures with the same
    content that both normalize give the same record. *)
Theorem normalize_capture_order m1 m2 omit c1 c2 :
  metadata_typed m1 -> metadata_typed m2 -> same_content m1 m2 ->
  normalize m1 omit = Ok c1 -> normalize m2 omit = Ok c2 -> c1 = c2.
Proof.
  intros Ht1 Ht2 Hs [Hn1 ->]%normalize_iff [Hn2 ->]%normalize_iff; [| done | done]. f_equal.
  apply normal_form_unique; try done; try by apply omit_typed. by apply same_content_omit.
Qed.

(** A canonical record is left as it is. *)
Lemma normalize_canonical m :
  metadata_typed m -> canonical m -> normalize m Omit.default = Ok (MkCanonicalMetadata m).
Proof.
  intros Ht Hc. apply normalize_iff; [done |]. rewrite omit_none.
  split; [by apply canonical_normalizable | by rewrite normal_form_fixed].
Qed.

(** Two captures of one file, in different orders. *)
Definition capture_1 : Metadata :=
  MkMetadata [MkXattr XattrClass.Raw (lit "user.b") (lit "2"); MkXattr XattrClass.Logical (lit "a") (lit "1")]
    [] None times_default 7 None [MkHole 10 5; MkHole 0 3; MkHole 2 4] None.
Definition capture_2 : Metadata :=
  MkMetadata [MkXattr XattrClass.Logical (lit "a") (lit "1"); MkXattr XattrClass.Raw (lit "user.b") (lit "2")]
    [] None times_default 7 None [MkHole 0 6; MkHole 10 5] None.

Lemma capture_typed : metadata_typed capture_1 /\ metadata_typed capture_2.
Proof. split; apply (bool_decide_unpack _); vm_compute; exact I. Qed.

Lemma capture_same : same_content capture_1 capture_2.
Proof.
  constructor; try done; cbn; [by constructor |]. intros x.
  repeat setoid_rewrite covered_cons. setoid_rewrite covered_nil. unfold covers, hole_end. cbn. lia.
Qed.

Lemma normalize_spec_witness :
  exists c, normalize capture_1 Omit.default = Ok c /\ canonical (metadata c)
    /\ holes (metadata c) = [MkHole 0 6; MkHole 10 5].
Proof.
  assert (normalize capture_1 Omit.default = Ok (MkCanonicalMetadata capture_2)) as Hn
    by (vm_compute; reflexivity).
  exists (MkCanonicalMetadata capture_2). split; [exact Hn |]. split; [| reflexivity].
  exact (proj1 (proj2 (normalize_spec capture_1 Omit.default (proj1 capture_typed)) _ Hn)).
Defined.

Lemma normalize_capture_order_witness :
  exists c, normalize capture_1 (Omit.MkOmit 4) = Ok c /\ normalize capture_2 (Omit.MkOmit 4) = Ok c.
Proof.
  assert (exists c, normalize capture_1 (Omit.MkOmit 4) = Ok c) as [c1 H1]
    by (eexists; vm_compute; reflexivity).
  assert (exists c, normalize capture_2 (Omit.MkOmit 4) = Ok c) as [c2 H2]
    by (eexists; vm_compute; reflexivity).
  exists c1. split; [exact H1 |].
  rewrite (normalize_capture_order capture_1 capture_2 (Omit.MkOmit 4) c1 c2
    (proj1 capture_typed) (proj2 capture_typed) capture_same H1 H2).
  exact H2.
Defined.

Lemma normalize_canonical_witness :
  normalize capture_2 Omit.default = Ok (MkCanonicalMetadata capture_2).
Proof.
  apply (normalize_canonical capture_2).
  - apply capture_typed.
  - apply (bool_decide_unpack _). vm_compute. exact I.
Defined.
