(* ===== verification/MetadataBorrow.v ===== *)
(** * Borrowed metadata ([rust/src/metadata_borrow.rs])

    The copy of a canonical record that keeps only the retained families. *)

From S2P Require Export MetadataNormalize.

Section Borrow.
Context `{Allocator}.

(** One turn of the loop over the families: a family that is not omitted is
    copied from [source] into [value], its descriptor vector reserved first.
    Byte buffers are borrowed, so the descriptors are copied as they are. *)
Definition borrow_family (source : Metadata) (omit : Omit.Omit) (value : Metadata)
    (family : Family.Family) : result Error Metadata :=
  if Omit.contains omit family then Ok value
  else
    let 'MkMetadata xs as_ acl ts flags info hs link := value in
    match family with
    | Family.Xattr =>
        let? _ := reserve OutOfMemory 0 (zlen xs) (zlen (xattrs source)) in
        Ok (MkMetadata (xs ++ map (fun x => MkXattr (xclass x) (xname x) (xvalue x))
                                (xattrs source)) as_ acl ts flags info hs link)
    | Family.Acl =>
        let? _ := reserve OutOfMemory 1 (zlen as_) (zlen (aces source)) in
        Ok (MkMetadata xs
              (as_ ++ map (fun a => MkAce (atag a) (apermissions a) (aname a)) (aces source))
              ((fun a => MkNativeAcl (norigin a) (nbytes a)) <$> native_acl source)
              ts flags info hs link)
    | Family.Timestamps =>
        Ok (MkMetadata xs as_ acl
              (MkTimes (mtime (times source)) (atime (times source)) (btime (times source)))
              flags info hs link)
    | Family.Finder =>
        Ok (MkMetadata xs as_ acl ts (finder_flags source) (finder_info source) hs link)
    | Family.Sparse =>
        let? _ := reserve OutOfMemory 2 (zlen hs) (zlen (holes source)) in
        Ok (MkMetadata xs as_ acl ts flags info (hs ++ holes source) link)
    | Family.Hardlink =>
        Ok (MkMetadata xs as_ acl ts flags info hs (hardlink_to source))
    end.

(** [CanonicalMetadata::borrowing_omitting] *)
Definition borrowing_omitting (c : CanonicalMetadata) (omit : Omit.Omit) :
    result Error CanonicalMetadata :=
  let? value := foldM (borrow_family (metadata c) omit) metadata_default Family.ALL in
  new value.

Lemma map_xattr_id l : map (fun x => MkXattr (xclass x) (xname x) (xvalue x)) l = l.
Proof. induction l as [| [] l IH]; simpl; congruence. Qed.
Lemma map_ace_id l : map (fun a => MkAce (atag a) (apermissions a) (aname a)) l = l.
Proof. induction l as [| [] l IH]; simpl; congruence. Qed.
Lemma fmap_acl_id (o : option NativeAcl) : (fun a => MkNativeAcl (norigin a) (nbytes a)) <$> o = o.
Proof. by destruct o as [[]|]. Qed.
Lemma times_eta t : MkTimes (mtime t) (atime t) (btime t) = t.
Proof. by destruct t. Qed.

(** Whatever memory grants, the copied record is the omission of the source. *)
Lemma borrow_fold_Ok source omit m :
  foldM (borrow_family source omit) metadata_default Family.ALL = Ok m ->
  m = omit_families omit source.
Proof.
  rewrite omit_families_eq. unfold Family.ALL, metadata_default, omitted. cbn [foldM].
  unfold borrow_family. intros Hb.
  repeat (case_match; cbn [rbind] in Hb); inv_ok;
    by rewrite ?map_xattr_id, ?map_ace_id, ?fmap_acl_id, ?times_eta.
Qed.

Lemma borrowing_omitting_Ok c omit c' :
  borrowing_omitting c omit = Ok c' -> metadata c' = omit_families omit (metadata c).
Proof.
  unfold borrowing_omitting, new. intros Hb. inv_ok. by apply borrow_fold_Ok.
Qed.

Lemma borrow_fold_total `{!AllocatorTotal} source omit :
  foldM (borrow_family source omit) metadata_default Family.ALL =
    Ok (omit_families omit source).
Proof.
  rewrite omit_families_eq. unfold Family.ALL, metadata_default, omitted. cbn [foldM].
  unfold borrow_family. rewrite ?reserve_total. cbn [rbind].
  repeat (case_match; rewrite ?reserve_total; cbn [rbind]);
    by rewrite ?map_xattr_id, ?map_ace_id, ?fmap_acl_id, ?times_eta.
Qed.

Lemma borrowing_omitting_total `{!AllocatorTotal} c omit :
  canonical (metadata c) ->
  borrowing_omitting c omit = Ok (MkCanonicalMetadata (omit_families omit (metadata c))).
Proof.
  intros Hc. unfold borrowing_omitting. rewrite borrow_fold_total. cbn [rbind]. unfold new.
  by rewrite (proj2 (validate_canonical _) (omit_canonical omit _ Hc)).
Qed.
End Borrow.
