(* ===== verification/MetadataRestore.v ===== *)
(** * Restore planning ([rust/src/metadata_restore.rs])

    Which families a filesystem restores natively, which go to a sidecar, and the
    compromises reported. *)

From S2P Require Export MetadataNormalize.

Inductive RestoreError : Type := PlanImpossible.

Module Capabilities.
Record Capabilities : Type := MkCapabilities {
  os : Os.Os;
  set_btime : bool;
  punch_holes : bool;
  hardlink : bool;
  portable_acl : bool;
  native_acl : bool;
  bsd_flags : bool;
  finder_info : bool;
  logical_xattr : bool
}.

Definition for_os (os : Os.Os) : Capabilities :=
  match os with
  | Os.Linux =>
      {| os := os; set_btime := false; punch_holes := true; hardlink := true;
         portable_acl := true; native_acl := true; bsd_flags := false;
         finder_info := false; logical_xattr := true |}
  | Os.Macos =>
      {| os := os; set_btime := true; punch_holes := true; hardlink := true;
         portable_acl := true; native_acl := true; bsd_flags := true;
         finder_info := true; logical_xattr := true |}
  | Os.Mswin =>
      {| os := os; set_btime := true; punch_holes := false; hardlink := true;
         portable_acl := false; native_acl := true; bsd_flags := false;
         finder_info := false; logical_xattr := true |}
  end.
End Capabilities.

Module RestoreActions.
Record RestoreActions : Type := MkRestoreActions {
  logical_xattr : bool;
  raw_xattr : bool;
  raw_xattr_sidecar : bool;
  portable_acl : bool;
  portable_acl_sidecar : bool;
  native_acl : bool;
  native_acl_sidecar : bool;
  mtime_atime : bool;
  btime : bool;
  btime_sidecar : bool;
  bsd_flags : bool;
  bsd_flags_sidecar : bool;
  finder_info : bool;
  finder_info_sidecar : bool;
  punch_holes : bool;
  sparse_sidecar : bool;
  hardlink : bool;
  hardlink_copy : bool
}.

Definition default : RestoreActions :=
  MkRestoreActions false false false false false false false false false
    false false false false false false false false false.

(** Assignments to one field. *)
Definition set_logical_xattr (b : bool) (r : RestoreActions) : RestoreActions :=
  MkRestoreActions b (raw_xattr r) (raw_xattr_sidecar r) (portable_acl r)
    (portable_acl_sidecar r) (native_acl r) (native_acl_sidecar r) (mtime_atime r) (btime r)
    (btime_sidecar r) (bsd_flags r) (bsd_flags_sidecar r) (finder_info r)
    (finder_info_sidecar r) (punch_holes r) (sparse_sidecar r) (hardlink r) (hardlink_copy r).
Definition set_raw_xattr (b : bool) (r : RestoreActions) : RestoreActions :=
  MkRestoreActions (logical_xattr r) b (raw_xattr_sidecar r) (portable_acl r)
    (portable_acl_sidecar r) (native_acl r) (native_acl_sidecar r) (mtime_atime r) (btime r)
    (btime_sidecar r) (bsd_flags r) (bsd_flags_sidecar r) (finder_info r)
    (finder_info_sidecar r) (punch_holes r) (sparse_sidecar r) (hardlink r) (hardlink_copy r).
Definition set_raw_xattr_sidecar (b : bool) (r : RestoreActions) : RestoreActions :=
  MkRestoreActions (logical_xattr r) (raw_xattr r) b (portable_acl r) (portable_acl_sidecar r)
    (native_acl r) (native_acl_sidecar r) (mtime_atime r) (btime r) (btime_sidecar r)
    (bsd_flags r) (bsd_flags_sidecar r) (finder_info r) (finder_info_sidecar r)
    (punch_holes r) (sparse_sidecar r) (hardlink r) (hardlink_copy r).
Definition set_portable_acl (b : bool) (r : RestoreActions) : RestoreActions :=
  MkRestoreActions (logical_xattr r) (raw_xattr r) (raw_xattr_sidecar r) b
    (portable_acl_sidecar r) (native_acl r) (native_acl_sidecar r) (mtime_atime r) (btime r)
    (btime_sidecar r) (bsd_flags r) (bsd_flags_sidecar r) (finder_info r)
    (finder_info_sidecar r) (punch_holes r) (sparse_sidecar r) (hardlink r) (hardlink_copy r).
Definition set_portable_acl_sidecar (b : bool) (r : RestoreActions) : RestoreActions :=
  MkRestoreActions (logical_xattr r) (raw_xattr r) (raw_xattr_sidecar r) (portable_acl r) b
    (native_acl r) (native_acl_sidecar r) (mtime_atime r) (btime r) (btime_sidecar r)
    (bsd_flags r) (bsd_flags_sidecar r) (finder_info r) (finder_info_sidecar r)
    (punch_holes r) (sparse_sidecar r) (hardlink r) (hardlink_copy r).
Definition set_native_acl (b : bool) (r : RestoreActions) : RestoreActions :=
  MkRestoreActions (logical_xattr r) (raw_xattr r) (raw_xattr_sidecar r) (portable_acl r)
    (portable_acl_sidecar r) b (native_acl_sidecar r) (mtime_atime r) (btime r)
    (btime_sidecar r) (bsd_flags r) (bsd_flags_sidecar r) (finder_info r)
    (finder_info_sidecar r) (punch_holes r) (sparse_sidecar r) (hardlink r) (hardlink_copy r).
Definition set_native_acl_sidecar (b : bool) (r : RestoreActions) : RestoreActions :=
  MkRestoreActions (logical_xattr r) (raw_xattr r) (raw_xattr_sidecar r) (portable_acl r)
    (portable_acl_sidecar r) (native_acl r) b (mtime_atime r) (btime r) (btime_sidecar r)
    (bsd_flags r) (bsd_flags_sidecar r) (finder_info r) (finder_info_sidecar r)
    (punch_holes r) (sparse_sidecar r) (hardlink r) (hardlink_copy r).
Definition set_mtime_atime (b : bool) (r : RestoreActions) : RestoreActions :=
  MkRestoreActions (logical_xattr r) (raw_xattr r) (raw_xattr_sidecar r) (portable_acl r)
    (portable_acl_sidecar r) (native_acl r) (native_acl_sidecar r) b (btime r)
    (btime_sidecar r) (bsd_flags r) (bsd_flags_sidecar r) (finder_info r)
    (finder_info_sidecar r) (punch_holes r) (sparse_sidecar r) (hardlink r) (hardlink_copy r).
Definition set_btime (b : bool) (r : RestoreActions) : RestoreActions :=
  MkRestoreActions (logical_xattr r) (raw_xattr r) (raw_xattr_sidecar r) (portable_acl r)
    (portable_acl_sidecar r) (native_acl r) (native_acl_sidecar r) (mtime_atime r) b
    (btime_sidecar r) (bsd_flags r) (bsd_flags_sidecar r) (finder_info r)
    (finder_info_sidecar r) (punch_holes r) (sparse_sidecar r) (hardlink r) (hardlink_copy r).
Definition set_btime_sidecar (b : bool) (r : RestoreActions) : RestoreActions :=
  MkRestoreActions (logical_xattr r) (raw_xattr r) (raw_xattr_sidecar r) (portable_acl r)
    (portable_acl_sidecar r) (native_acl r) (native_acl_sidecar r) (mtime_atime r) (btime r) b
    (bsd_flags r) (bsd_flags_sidecar r) (finder_info r) (finder_info_sidecar r)
    (punch_holes r) (sparse_sidecar r) (hardlink r) (hardlink_copy r).
Definition set_bsd_flags (b : bool) (r : RestoreActions) : RestoreActions :=
  MkRestoreActions (logical_xattr r) (raw_xattr r) (raw_xattr_sidecar r) (portable_acl r)
    (portable_acl_sidecar r) (native_acl r) (native_acl_sidecar r) (mtime_atime r) (btime r)
    (btime_sidecar r) b (bsd_flags_sidecar r) (finder_info r) (finder_info_sidecar r)
    (punch_holes r) (sparse_sidecar r) (hardlink r) (hardlink_copy r).
Definition set_bsd_flags_sidecar (b : bool) (r : RestoreActions) : RestoreActions :=
  MkRestoreActions (logical_xattr r) (raw_xattr r) (raw_xattr_sidecar r) (portable_acl r)
    (portable_acl_sidecar r) (native_acl r) (native_acl_sidecar r) (mtime_atime r) (btime r)
    (btime_sidecar r) (bsd_flags r) b (finder_info r) (finder_info_sidecar r) (punch_holes r)
    (sparse_sidecar r) (hardlink r) (hardlink_copy r).
Definition set_finder_info (b : bool) (r : RestoreActions) : RestoreActions :=
  MkRestoreActions (logical_xattr r) (raw_xattr r) (raw_xattr_sidecar r) (portable_acl r)
    (portable_acl_sidecar r) (native_acl r) (native_acl_sidecar r) (mtime_atime r) (btime r)
    (btime_sidecar r) (bsd_flags r) (bsd_flags_sidecar r) b (finder_info_sidecar r)
    (punch_holes r) (sparse_sidecar r) (hardlink r) (hardlink_copy r).
Definition set_finder_info_sidecar (b : bool) (r : RestoreActions) : RestoreActions :=
  MkRestoreActions (logical_xattr r) (raw_xattr r) (raw_xattr_sidecar r) (portable_acl r)
    (portable_acl_sidecar r) (native_acl r) (native_acl_sidecar r) (mtime_atime r) (btime r)
    (btime_sidecar r) (bsd_flags r) (bsd_flags_sidecar r) (finder_info r) b (punch_holes r)
    (sparse_sidecar r) (hardlink r) (hardlink_copy r).
Definition set_punch_holes (b : bool) (r : RestoreActions) : RestoreActions :=
  MkRestoreActions (logical_xattr r) (raw_xattr r) (raw_xattr_sidecar r) (portable_acl r)
    (portable_acl_sidecar r) (native_acl r) (native_acl_sidecar r) (mtime_atime r) (btime r)
    (btime_sidecar r) (bsd_flags r) (bsd_flags_sidecar r) (finder_info r)
    (finder_info_sidecar r) b (sparse_sidecar r) (hardlink r) (hardlink_copy r).
Definition set_sparse_sidecar (b : bool) (r : RestoreActions) : RestoreActions :=
  MkRestoreActions (logical_xattr r) (raw_xattr r) (raw_xattr_sidecar r) (portable_acl r)
    (portable_acl_sidecar r) (native_acl r) (native_acl_sidecar r) (mtime_atime r) (btime r)
    (btime_sidecar r) (bsd_flags r) (bsd_flags_sidecar r) (finder_info r)
    (finder_info_sidecar r) (punch_holes r) b (hardlink r) (hardlink_copy r).
Definition set_hardlink (b : bool) (r : RestoreActions) : RestoreActions :=
  MkRestoreActions (logical_xattr r) (raw_xattr r) (raw_xattr_sidecar r) (portable_acl r)
    (portable_acl_sidecar r) (native_acl r) (native_acl_sidecar r) (mtime_atime r) (btime r)
    (btime_sidecar r) (bsd_flags r) (bsd_flags_sidecar r) (finder_info r)
    (finder_info_sidecar r) (punch_holes r) (sparse_sidecar r) b (hardlink_copy r).
Definition set_hardlink_copy (b : bool) (r : RestoreActions) : RestoreActions :=
  MkRestoreActions (logical_xattr r) (raw_xattr r) (raw_xattr_sidecar r) (portable_acl r)
    (portable_acl_sidecar r) (native_acl r) (native_acl_sidecar r) (mtime_atime r) (btime r)
    (btime_sidecar r) (bsd_flags r) (bsd_flags_sidecar r) (finder_info r)
    (finder_info_sidecar r) (punch_holes r) (sparse_sidecar r) (hardlink r) b.
End RestoreActions.

Module CompromiseCode.
Inductive CompromiseCode : Type :=
| NativeAclPreserved | PortableAclPreserved | FinderFlagsPreserved | FinderInfoPreserved
| BirthTimePreserved | SparsePreserved | HardlinkCopied | RawXattrPreserved
| SymlinkMetadataPreserved | ModificationTimePreserved.

#[global] Instance CompromiseCode_eq_dec : EqDecision CompromiseCode.
Proof. solve_decision. Defined.

Definition ALL : list CompromiseCode :=
  [ NativeAclPreserved; PortableAclPreserved; FinderFlagsPreserved; FinderInfoPreserved;
    BirthTimePreserved; SparsePreserved; HardlinkCopied; RawXattrPreserved;
    SymlinkMetadataPreserved; ModificationTimePreserved ].

Definition tag (c : CompromiseCode) : Z :=
  match c with
  | NativeAclPreserved => 1
  | PortableAclPreserved => 2
  | FinderFlagsPreserved => 3
  | FinderInfoPreserved => 4
  | BirthTimePreserved => 5
  | SparsePreserved => 6
  | HardlinkCopied => 7
  | RawXattrPreserved => 8
  | SymlinkMetadataPreserved => 9
  | ModificationTimePreserved => 10
  end.
End CompromiseCode.

Module Compromise.
Inductive Compromise : Type :=
| NativeAclPreserved (origin : Os.Os) (portable_acl_applied : bool)
| PortableAclPreserved | FinderFlagsPreserved | FinderInfoPreserved
| BirthTimePreserved | SparsePreserved | HardlinkCopied | RawXattrPreserved.

Definition code (c : Compromise) : CompromiseCode.CompromiseCode :=
  match c with
  | NativeAclPreserved _ _ => CompromiseCode.NativeAclPreserved
  | PortableAclPreserved => CompromiseCode.PortableAclPreserved
  | FinderFlagsPreserved => CompromiseCode.FinderFlagsPreserved
  | FinderInfoPreserved => CompromiseCode.FinderInfoPreserved
  | BirthTimePreserved => CompromiseCode.BirthTimePreserved
  | SparsePreserved => CompromiseCode.SparsePreserved
  | HardlinkCopied => CompromiseCode.HardlinkCopied
  | RawXattrPreserved => CompromiseCode.RawXattrPreserved
  end.

Definition family (c : Compromise) : Family.Family :=
  match c with
  | NativeAclPreserved _ _ | PortableAclPreserved => Family.Acl
  | FinderFlagsPreserved | FinderInfoPreserved => Family.Finder
  | BirthTimePreserved => Family.Timestamps
  | SparsePreserved => Family.Sparse
  | HardlinkCopied => Family.Hardlink
  | RawXattrPreserved => Family.Xattr
  end.
End Compromise.

(** [struct RestoreReport(u32)] *)
Module RestoreReport.
Record RestoreReport : Type := MkRestoreReport { bits : Z }.

Definition default : RestoreReport := MkRestoreReport 0.

Definition add (code : CompromiseCode.CompromiseCode) (r : RestoreReport) : RestoreReport :=
  MkRestoreReport (Z.lor (bits r) (Z.shiftl 1 (CompromiseCode.tag code - 1))).
End RestoreReport.

(** The array is full of a placeholder; the first [length] elements count. *)
Record RestorePlan : Type := MkRestorePlan {
  actions : RestoreActions.RestoreActions;
  compromise_slots : list Compromise.Compromise;
  plan_length : Z
}.

Definition compromises (p : RestorePlan) : list Compromise.Compromise :=
  ztake (plan_length p) (compromise_slots p).

Definition plan_start : RestorePlan :=
  MkRestorePlan RestoreActions.default
    (replicate (length CompromiseCode.ALL) Compromise.PortableAclPreserved) 0.

Definition set_action (f : RestoreActions.RestoreActions -> RestoreActions.RestoreActions)
    (p : RestorePlan) : RestorePlan :=
  MkRestorePlan (f (actions p)) (compromise_slots p) (plan_length p).

(** [RestorePlan::push] *)
Definition push (c : Compromise.Compromise) (p : RestorePlan) : result RestoreError RestorePlan :=
  match compromise_slots p !! Z.to_nat (plan_length p) with
  | None => Err PlanImpossible
  | Some _ =>
      Ok (MkRestorePlan (actions p) (<[Z.to_nat (plan_length p) := c]> (compromise_slots p))
            (plan_length p + 1))
  end.

Section Plan.
Context (m : Metadata) (caps : Capabilities.Capabilities).

Definition require_transport : result RestoreError unit :=
  if Capabilities.logical_xattr caps then Ok tt else Err PlanImpossible.

Definition plan_xattr (a : RestoreActions.RestoreActions) (x : Xattr) :
    RestoreActions.RestoreActions :=
  match xclass x with
  | XattrClass.Logical => RestoreActions.set_logical_xattr true a
  | XattrClass.Raw =>
      if raw_accepted (Capabilities.os caps) (xname x)
      then RestoreActions.set_raw_xattr true a
      else RestoreActions.set_raw_xattr_sidecar true a
  end.

Definition plan_xattrs (p : RestorePlan) : result RestoreError RestorePlan :=
  let p := set_action (fun a => foldl plan_xattr a (xattrs m)) p in
  let? _ := if RestoreActions.logical_xattr (actions p)
               || RestoreActions.raw_xattr_sidecar (actions p)
            then require_transport else Ok tt in
  if RestoreActions.raw_xattr_sidecar (actions p)
  then push Compromise.RawXattrPreserved p else Ok p.

Definition plan_acl (p : RestorePlan) : result RestoreError RestorePlan :=
  let some_aces := negb (bool_decide (aces m = [])) in
  let portable := Capabilities.portable_acl caps in
  match native_acl m with
  | Some acl =>
      if Capabilities.native_acl caps && bool_decide (norigin acl = Capabilities.os caps)
      then Ok (set_action (RestoreActions.set_native_acl true) p)
      else
        let? _ := require_transport in
        let p := set_action (RestoreActions.set_native_acl_sidecar true) p in
        let applied := some_aces && portable in
        let p := set_action (RestoreActions.set_portable_acl applied) p in
        let p := set_action
          (RestoreActions.set_portable_acl_sidecar (some_aces && negb portable)) p in
        let? p := push (Compromise.NativeAclPreserved (norigin acl) applied) p in
        if RestoreActions.portable_acl_sidecar (actions p)
        then push Compromise.PortableAclPreserved p else Ok p
  | None =>
      if some_aces then
        if portable then Ok (set_action (RestoreActions.set_portable_acl true) p)
        else
          let? _ := require_transport in
          push Compromise.PortableAclPreserved
            (set_action (RestoreActions.set_portable_acl_sidecar true) p)
      else Ok p
  end.

(** The shape the remaining families share: nothing to do, a native action, or
    a sidecar action with its compromise. *)
Definition plan_family (present capable : bool)
    (native sidecar : RestoreActions.RestoreActions -> RestoreActions.RestoreActions)
    (c : Compromise.Compromise) (p : RestorePlan) : result RestoreError RestorePlan :=
  if present then
    if capable then Ok (set_action native p)
    else
      let? _ := require_transport in
      push c (set_action sidecar p)
  else Ok p.

(** [RestorePlan::new] *)
Definition plan_new : result RestoreError RestorePlan :=
  let? p := plan_xattrs plan_start in
  let? p := plan_acl p in
  let p := set_action (RestoreActions.set_mtime_atime
    (bool_decide (is_Some (mtime (times m))) || bool_decide (is_Some (atime (times m))))) p in
  let? p := plan_family (bool_decide (is_Some (btime (times m)))) (Capabilities.set_btime caps)
    (RestoreActions.set_btime true) (RestoreActions.set_btime_sidecar true)
    Compromise.BirthTimePreserved p in
  let? p := plan_family (negb (finder_flags m =? 0)) (Capabilities.bsd_flags caps)
    (RestoreActions.set_bsd_flags true) (RestoreActions.set_bsd_flags_sidecar true)
    Compromise.FinderFlagsPreserved p in
  let? p := plan_family (bool_decide (is_Some (finder_info m))) (Capabilities.finder_info caps)
    (RestoreActions.set_finder_info true) (RestoreActions.set_finder_info_sidecar true)
    Compromise.FinderInfoPreserved p in
  let? p := plan_family (negb (bool_decide (holes m = []))) (Capabilities.punch_holes caps)
    (RestoreActions.set_punch_holes true) (RestoreActions.set_sparse_sidecar true)
    Compromise.SparsePreserved p in
  plan_family (bool_decide (is_Some (hardlink_to m))) (Capabilities.hardlink caps)
    (RestoreActions.set_hardlink true) (RestoreActions.set_hardlink_copy true)
    Compromise.HardlinkCopied p.
End Plan.

(** [RestorePlan::new] *)
Definition restore_plan (c : CanonicalMetadata) (caps : Capabilities.Capabilities) :
    result RestoreError RestorePlan :=
  plan_new (metadata c) caps.

(** ** The plan, declaratively *)

Section Spec.
Context (m : Metadata) (caps : Capabilities.Capabilities).
#[local] Notation "'when' b c" := (if b then [c] else []) (at level 10, b at level 9, c at level 9).

Definition has_logical : bool := existsb (fun x => bool_decide (xclass x = XattrClass.Logical)) (xattrs m).
Definition has_raw (accepted : bool) : bool :=
  existsb (fun x => bool_decide (xclass x = XattrClass.Raw)
                    && Bool.eqb (raw_accepted (Capabilities.os caps) (xname x)) accepted) (xattrs m).
Definition has_aces : bool := negb (bool_decide (aces m = [])).
Definition has_acl : bool := bool_decide (is_Some (native_acl m)).
(** The native ACL is restored as it is. *)
Definition acl_native : bool :=
  match native_acl m with
  | Some acl => Capabilities.native_acl caps && bool_decide (norigin acl = Capabilities.os caps)
  | None => false
  end.
Definition aces_wanted : bool := has_aces && negb acl_native.

Definition acl_compromises : list Compromise.Compromise :=
  match native_acl m with
  | Some acl =>
      when (negb acl_native)
        (Compromise.NativeAclPreserved (norigin acl) (has_aces && Capabilities.portable_acl caps))
  | None => []
  end
  ++ when (aces_wanted && negb (Capabilities.portable_acl caps)) Compromise.PortableAclPreserved.

Definition spec_compromises : list Compromise.Compromise :=
  when (has_raw false) Compromise.RawXattrPreserved
  ++ acl_compromises
  ++ when (bool_decide (is_Some (btime (times m))) && negb (Capabilities.set_btime caps))
       Compromise.BirthTimePreserved
  ++ when (negb (finder_flags m =? 0) && negb (Capabilities.bsd_flags caps))
       Compromise.FinderFlagsPreserved
  ++ when (bool_decide (is_Some (finder_info m)) && negb (Capabilities.finder_info caps))
       Compromise.FinderInfoPreserved
  ++ when (negb (bool_decide (holes m = [])) && negb (Capabilities.punch_holes caps))
       Compromise.SparsePreserved
  ++ when (bool_decide (is_Some (hardlink_to m)) && negb (Capabilities.hardlink caps))
       Compromise.HardlinkCopied.

(** Sidecars and logical attributes travel as extended attributes. *)
Definition needs_transport : bool := has_logical || negb (bool_decide (spec_compromises = [])).

Definition spec_actions : RestoreActions.RestoreActions :=
  {| RestoreActions.logical_xattr := has_logical;
     RestoreActions.raw_xattr := has_raw true;
     RestoreActions.raw_xattr_sidecar := has_raw false;
     RestoreActions.portable_acl := aces_wanted && Capabilities.portable_acl caps;
     RestoreActions.portable_acl_sidecar := aces_wanted && negb (Capabilities.portable_acl caps);
     RestoreActions.native_acl := acl_native;
     RestoreActions.native_acl_sidecar := has_acl && negb acl_native;
     RestoreActions.mtime_atime :=
       bool_decide (is_Some (mtime (times m))) || bool_decide (is_Some (atime (times m)));
     RestoreActions.btime :=
       bool_decide (is_Some (btime (times m))) && Capabilities.set_btime caps;
     RestoreActions.btime_sidecar :=
       bool_decide (is_Some (btime (times m))) && negb (Capabilities.set_btime caps);
     RestoreActions.bsd_flags := negb (finder_flags m =? 0) && Capabilities.bsd_flags caps;
     RestoreActions.bsd_flags_sidecar :=
       negb (finder_flags m =? 0) && negb (Capabilities.bsd_flags caps);
     RestoreActions.finder_info :=
       bool_decide (is_Some (finder_info m)) && Capabilities.finder_info caps;
     RestoreActions.finder_info_sidecar :=
       bool_decide (is_Some (finder_info m)) && negb (Capabilities.finder_info caps);
     RestoreActions.punch_holes :=
       negb (bool_decide (holes m = [])) && Capabilities.punch_holes caps;
     RestoreActions.sparse_sidecar :=
       negb (bool_decide (holes m = [])) && negb (Capabilities.punch_holes caps);
     RestoreActions.hardlink :=
       bool_decide (is_Some (hardlink_to m)) && Capabilities.hardlink caps;
     RestoreActions.hardlink_copy :=
       bool_decide (is_Some (hardlink_to m)) && negb (Capabilities.hardlink caps) |}.

(** ** Refinement *)

(** The array of slots holds [l] in its counted part. *)
Definition plan_is (p : RestorePlan) a l : Prop :=
  actions p = a /\ compromises p = l /\ length (compromise_slots p) = 10%nat
  /\ plan_length p = zlen l.

Definition step_is (r : result RestoreError RestorePlan) (ok : bool) a l : Prop :=
  if ok then exists p, r = Ok p /\ plan_is p a l else r = Err PlanImpossible.

Lemma plan_is_set f p a l : plan_is p a l -> plan_is (set_action f p) (f a) l.
Proof. by intros (<- & ? & ? & ?). Qed.

Lemma push_is c p a l :
  plan_is p a l -> (length l < 10)%nat -> step_is (push c p) true a (l ++ [c]).
Proof.
  intros (Ha & Hl & Hs & Hn) H10. unfold step_is, push.
  assert (Z.to_nat (plan_length p) = length l) as E by (rewrite Hn; unfold zlen; lia).
  rewrite E. destruct (lookup_lt_is_Some_2 (compromise_slots p) (length l)) as [x Hx]; [lia |].
  rewrite Hx. eexists. split; [done |]. unfold plan_is, compromises in *. cbn.
  rewrite length_insert, zlen_app, Hn, zlen_cons. zlen_nil. split_and!; try done.
  unfold ztake in *. rewrite E in Hl.
  replace (Z.to_nat (zlen l + 1)) with (S (length l)) by (unfold zlen; lia).
  erewrite take_S_r by (apply list_lookup_insert_eq; lia).
  rewrite take_insert_ge by lia. by rewrite Hl.
Qed.

Lemma step_bind r ok a l k ok' a' l' :
  step_is r ok a l -> (forall p, plan_is p a l -> step_is (k p) ok' a' l') ->
  step_is (rbind r k) (ok && ok') a' l'.
Proof.
  destruct ok; simpl.
  - intros (p & -> & Hp) Hk. simpl. auto.
  - intros -> _. done.
Qed.

Definition granted (need : bool) : bool := Capabilities.logical_xattr caps || negb need.

Lemma granted_or a b : granted a && granted b = granted (a || b).
Proof. unfold granted. by destruct (Capabilities.logical_xattr caps), a, b. Qed.

Lemma step_skip p a l : plan_is p a l -> step_is (Ok p) (granted false) a l.
Proof. unfold granted. rewrite orb_true_r. by exists p. Qed.

Lemma step_transport (r : result RestoreError RestorePlan) a l (need : bool) :
  step_is r true a l ->
  step_is (let? _ := if need then require_transport caps else Ok tt in r) (granted need) a l.
Proof.
  unfold granted, require_transport. by destruct need, (Capabilities.logical_xattr caps).
Qed.

Lemma push_when (b : bool) c p a l :
  plan_is p a l -> (length l < 10)%nat ->
  step_is (if b then push c p else Ok p) true a (l ++ when b c).
Proof.
  intros Hp Hl. destruct b; [by apply push_is |]. rewrite app_nil_r. exists p. done.
Qed.

Lemma plan_family_is present capable (nat side : bool -> _) c p a l :
  plan_is p a l -> (length l < 10)%nat ->
  nat false (side false a) = a -> nat true (side false a) = nat true a ->
  nat false (side true a) = side true a ->
  step_is (plan_family caps present capable (nat true) (side true) c p)
    (granted (present && negb capable))
    (nat (present && capable) (side (present && negb capable) a))
    (l ++ when (present && negb capable) c).
Proof.
  intros Hp Hl H1 H2 H3. unfold plan_family. destruct present, capable; cbn [andb negb].
  - rewrite H2, app_nil_r. apply step_skip. exact (plan_is_set (nat true) _ _ _ Hp).
  - rewrite H3. apply (step_transport _ _ _ true). apply push_is; [| done].
    exact (plan_is_set (side true) _ _ _ Hp).
  - rewrite H1, app_nil_r. by apply step_skip.
  - rewrite H1, app_nil_r. by apply step_skip.
Qed.

(** The loop over the attributes computes three existence tests. *)
Lemma fold_plan_xattr xs a :
  foldl (plan_xattr caps) a xs =
    RestoreActions.set_logical_xattr
      (RestoreActions.logical_xattr a
       || existsb (fun x => bool_decide (xclass x = XattrClass.Logical)) xs)
    (RestoreActions.set_raw_xattr
      (RestoreActions.raw_xattr a
       || existsb (fun x => bool_decide (xclass x = XattrClass.Raw)
            && Bool.eqb (raw_accepted (Capabilities.os caps) (xname x)) true) xs)
    (RestoreActions.set_raw_xattr_sidecar
      (RestoreActions.raw_xattr_sidecar a
       || existsb (fun x => bool_decide (xclass x = XattrClass.Raw)
            && Bool.eqb (raw_accepted (Capabilities.os caps) (xname x)) false) xs) a)).
Proof.
  revert a. induction xs as [| x xs IH]; intros a; cbn [foldl existsb].
  - rewrite !orb_false_r. by destruct a.
  - rewrite IH. unfold plan_xattr. destruct (xclass x); cbn [bool_decide].
    + rewrite !(bool_decide_eq_true_2 (XattrClass.Logical = XattrClass.Logical)),
        !(bool_decide_eq_false_2 (XattrClass.Logical = XattrClass.Raw)) by done.
      cbn. by rewrite orb_true_r.
    + rewrite !(bool_decide_eq_true_2 (XattrClass.Raw = XattrClass.Raw)),
        !(bool_decide_eq_false_2 (XattrClass.Raw = XattrClass.Logical)) by done.
      destruct (raw_accepted _ _); cbn; by rewrite ?orb_true_r.
Qed.

Definition actions_xattr : RestoreActions.RestoreActions :=
  RestoreActions.set_logical_xattr has_logical
    (RestoreActions.set_raw_xattr (has_raw true)
      (RestoreActions.set_raw_xattr_sidecar (has_raw false) RestoreActions.default)).

Lemma plan_xattrs_is p :
  plan_is p RestoreActions.default [] ->
  step_is (plan_xattrs m caps p) (granted (has_logical || has_raw false)) actions_xattr
    (when (has_raw false) Compromise.RawXattrPreserved).
Proof.
  intros Hp. unfold plan_xattrs.
  apply (plan_is_set (fun a => foldl (plan_xattr caps) a (xattrs m))) in Hp.
  rewrite fold_plan_xattr in Hp. cbn [orb RestoreActions.default RestoreActions.logical_xattr
    RestoreActions.raw_xattr RestoreActions.raw_xattr_sidecar] in Hp.
  fold has_logical (has_raw true) (has_raw false) actions_xattr in Hp.
  pose proof Hp as (-> & _). apply step_transport.
  apply (push_when (has_raw false) _ _ _ []); [done | simpl; lia].
Qed.

Definition actions_acl : RestoreActions.RestoreActions :=
  RestoreActions.set_native_acl acl_native
    (RestoreActions.set_native_acl_sidecar (has_acl && negb acl_native)
      (RestoreActions.set_portable_acl (aces_wanted && Capabilities.portable_acl caps)
        (RestoreActions.set_portable_acl_sidecar
           (aces_wanted && negb (Capabilities.portable_acl caps)) actions_xattr))).

Lemma plan_acl_is p l :
  plan_is p actions_xattr l -> (length l < 5)%nat ->
  step_is (plan_acl m caps p) (granted (negb (bool_decide (acl_compromises = []))))
    actions_acl (l ++ acl_compromises).
Proof.
  intros Hp Hl. unfold plan_acl, actions_acl, acl_compromises, aces_wanted, acl_native, has_acl.
  fold has_aces. destruct (native_acl m) as [acl |].
  - rewrite (bool_decide_eq_true_2 (is_Some _)) by done.
    destruct (_ && bool_decide (norigin acl = _)); cbn [negb andb app].
    + rewrite andb_false_r, app_nil_r. apply step_skip.
      exact (plan_is_set (RestoreActions.set_native_acl true) _ _ _ Hp).
    + rewrite andb_true_r, bool_decide_eq_false_2 by done. cbn [negb].
      apply (step_transport _ _ _ true). rewrite cons_middle, app_assoc, <- (andb_true_l true).
      eapply step_bind.
      * apply (push_is _ _ _ l); [| lia]. do 3 apply plan_is_set. exact Hp.
      * intros p' Hp'. pose proof Hp' as (-> & _). cbn [RestoreActions.portable_acl_sidecar
          RestoreActions.set_portable_acl_sidecar].
        apply push_when; [done | rewrite length_app; simpl; lia].
  - rewrite (bool_decide_eq_false_2 (is_Some _)) by (intros [? [=]]).
    cbn [negb andb app]. rewrite andb_true_r.
    destruct has_aces, (Capabilities.portable_acl caps); cbn [andb negb].
    + rewrite app_nil_r. apply step_skip.
      exact (plan_is_set (RestoreActions.set_portable_acl true) _ _ _ Hp).
    + apply (step_transport _ _ _ true), push_is; [| lia].
      exact (plan_is_set (RestoreActions.set_portable_acl_sidecar true) _ _ _ Hp).
    + rewrite app_nil_r. by apply step_skip.
    + rewrite app_nil_r. by apply step_skip.
Qed.

Lemma length_when {A} (b : bool) (c : A) : (length (when b c) <= 1)%nat.
Proof. destruct b; simpl; lia. Qed.

Lemma length_acl_compromises : (length acl_compromises <= 2)%nat.
Proof.
  unfold acl_compromises. destruct (native_acl m), acl_native, (_ && negb _); simpl; lia.
Qed.

Lemma nonempty_app {A} (l1 l2 : list A) :
  negb (bool_decide (l1 ++ l2 = [])) = negb (bool_decide (l1 = [])) || negb (bool_decide (l2 = [])).
Proof. by destruct l1, l2. Qed.
Lemma nonempty_when {A} (b : bool) (c : A) : negb (bool_decide (when b c = [])) = b.
Proof. by destruct b. Qed.

(** The array of ten slots is long enough at every step. *)
Ltac short :=
  rewrite ?length_app; pose proof length_acl_compromises;
  repeat match goal with
  | |- context [length (when ?b ?c)] =>
      let H := fresh in pose proof (length_when b c) as H;
      generalize dependent (length (when b c)); intros
  end; lia.
(** Keep the actions as an explicit record. *)
Ltac fields H :=
  cbv [RestoreActions.set_logical_xattr RestoreActions.set_raw_xattr
    RestoreActions.set_raw_xattr_sidecar RestoreActions.set_portable_acl
    RestoreActions.set_portable_acl_sidecar RestoreActions.set_native_acl
    RestoreActions.set_native_acl_sidecar RestoreActions.set_mtime_atime
    RestoreActions.set_btime RestoreActions.set_btime_sidecar RestoreActions.set_bsd_flags
    RestoreActions.set_bsd_flags_sidecar RestoreActions.set_finder_info
    RestoreActions.set_finder_info_sidecar RestoreActions.set_punch_holes
    RestoreActions.set_sparse_sidecar RestoreActions.set_hardlink
    RestoreActions.set_hardlink_copy RestoreActions.logical_xattr RestoreActions.raw_xattr
    RestoreActions.raw_xattr_sidecar RestoreActions.portable_acl
    RestoreActions.portable_acl_sidecar RestoreActions.native_acl
    RestoreActions.native_acl_sidecar RestoreActions.mtime_atime RestoreActions.btime
    RestoreActions.btime_sidecar RestoreActions.bsd_flags RestoreActions.bsd_flags_sidecar
    RestoreActions.finder_info RestoreActions.finder_info_sidecar RestoreActions.punch_holes
    RestoreActions.sparse_sidecar RestoreActions.hardlink RestoreActions.hardlink_copy
    RestoreActions.default actions_xattr actions_acl] in H.
Ltac family_step H p :=
  fields H;
  eapply step_bind;
    [apply plan_family_is; [exact H | short | reflexivity..] | clear H; intros p H].

(** The plan exists exactly when transport is granted or not needed, and then
    it is the declarative plan. *)
Lemma plan_new_is : step_is (plan_new m caps) (granted needs_transport) spec_actions spec_compromises.
Proof.
  assert (needs_transport = (has_logical || has_raw false)
    || (negb (bool_decide (acl_compromises = [])) || (
      bool_decide (is_Some (btime (times m))) && negb (Capabilities.set_btime caps) || (
      negb (finder_flags m =? 0) && negb (Capabilities.bsd_flags caps) || (
      bool_decide (is_Some (finder_info m)) && negb (Capabilities.finder_info caps) || (
      negb (bool_decide (holes m = [])) && negb (Capabilities.punch_holes caps) || (
      bool_decide (is_Some (hardlink_to m)) && negb (Capabilities.hardlink caps)))))))) as ->.
  { unfold needs_transport, spec_compromises. rewrite !nonempty_app, !nonempty_when.
    by rewrite !orb_assoc. }
  set (need := has_logical || has_raw false). rewrite <- !granted_or. subst need.
  unfold plan_new, spec_compromises. rewrite !app_assoc.
  eapply step_bind; [by apply plan_xattrs_is |]. intros p1 H1.
  eapply step_bind; [apply plan_acl_is; [exact H1 | short] |]. intros p2 H2.
  apply (plan_is_set (RestoreActions.set_mtime_atime
    (bool_decide (is_Some (mtime (times m))) || bool_decide (is_Some (atime (times m)))))) in H2.
  family_step H2 p3. family_step H2 p4. family_step H2 p5. family_step H2 p6.
  fields H2.
  apply (plan_family_is _ _ RestoreActions.set_hardlink RestoreActions.set_hardlink_copy _ _ _ _ H2);
    [short | reflexivity..].
Qed.
End Spec.

(** ** Reports *)

Lemma report_bits codes :
  RestoreReport.bits (foldl (fun r c => RestoreReport.add c r) RestoreReport.default codes)
  < 2 ^ zlen CompromiseCode.ALL.
Proof.
  assert (forall r, 0 <= RestoreReport.bits r < 1024 ->
    0 <= RestoreReport.bits (foldl (fun r c => RestoreReport.add c r) r codes) < 1024) as H.
  { induction codes as [| c codes IH]; intros r Hr; cbn [foldl]; [done |].
    apply IH. unfold RestoreReport.add. cbn [RestoreReport.bits].
    assert (0 <= Z.shiftl 1 (CompromiseCode.tag c - 1) < 1024) as Hc by (by destruct c).
    split; [apply Z.lor_nonneg; lia |].
    destruct (Z.eq_dec (Z.lor (RestoreReport.bits r) (Z.shiftl 1 (CompromiseCode.tag c - 1))) 0)
      as [-> | Hn]; [done |].
    apply (Z.log2_lt_pow2 _ 10); [pose proof (Z.lor_nonneg (RestoreReport.bits r)
      (Z.shiftl 1 (CompromiseCode.tag c - 1))); lia |].
    rewrite Z.log2_lor by lia. apply Z.max_lub_lt.
    - destruct (Z.eq_dec (RestoreReport.bits r) 0) as [-> |]; [done |].
      apply Z.log2_lt_pow2; lia.
    - by destruct c. }
  apply (H RestoreReport.default). done.
Qed.

(** Each compromise is reported once: the codes of a plan are distinct, and
    each keeps its family. *)
Lemma spec_compromises_NoDup m caps : NoDup (Compromise.code <$> spec_compromises m caps).
Proof.
  unfold spec_compromises, acl_compromises.
  destruct (native_acl m) as [acl |];
    repeat match goal with
    | |- context [if ?b then [_] else []] => destruct b
    end; cbn; by apply (bool_decide_unpack _).
Qed.

(** ** The properties of restore planning *)

(** C25: Planning succeeds exactly when the volume carries logical attributes or
    nothing needs them to travel, and then the plan is the declarative one: every
    present family has either its native action or its sidecar, and the
    compromises are those of the sidecars, in order. Otherwise it is
    [PlanImpossible]. *)
Theorem restore_plan_spec c caps :
  if Capabilities.logical_xattr caps || negb (needs_transport (metadata c) caps)
  then exists p, restore_plan c caps = Ok p
    /\ actions p = spec_actions (metadata c) caps
    /\ compromises p = spec_compromises (metadata c) caps
  else restore_plan c caps = Err PlanImpossible.
Proof.
  pose proof (plan_new_is (metadata c) caps) as Hp. unfold restore_plan.
  change (granted caps (needs_transport (metadata c) caps))
    with (Capabilities.logical_xattr caps || negb (needs_transport (metadata c) caps)) in Hp.
  destruct (_ || _); [| exact Hp]. destruct Hp as (p & Hp & Ha & Hl & _). by exists p.
Qed.

Definition report_of (codes : list CompromiseCode.CompromiseCode) : RestoreReport.RestoreReport :=
  foldl (fun r c => RestoreReport.add c r) RestoreReport.default codes.

Lemma report_testbit_from r codes code :
  Z.testbit (RestoreReport.bits (foldl (fun r c => RestoreReport.add c r) r codes))
    (CompromiseCode.tag code - 1)
  = Z.testbit (RestoreReport.bits r) (CompromiseCode.tag code - 1) || bool_decide (code ∈ codes).
Proof.
  revert r. induction codes as [| c codes IH]; intros r; cbn [foldl].
  - by rewrite bool_decide_eq_false_2, orb_false_r by set_solver.
  - rewrite IH. unfold RestoreReport.add. cbn [RestoreReport.bits].
    rewrite Z.lor_spec, <- orb_assoc. f_equal.
    assert (Z.testbit (Z.shiftl 1 (CompromiseCode.tag c - 1)) (CompromiseCode.tag code - 1)
      = bool_decide (code = c)) as -> by by destruct c, code.
    apply eq_true_iff_eq. rewrite orb_true_iff, !bool_decide_eq_true. set_solver.
Qed.

(** A plan names each compromise once, and the report made from its codes
    has exactly their bits, within the ten that are defined. *)
Lemma restore_report c caps p :
  restore_plan c caps = Ok p ->
  NoDup (Compromise.code <$> compromises p)
  /\ (forall code, Z.testbit (RestoreReport.bits (report_of (Compromise.code <$> compromises p)))
        (CompromiseCode.tag code - 1) = bool_decide (code ∈ Compromise.code <$> compromises p))
  /\ RestoreReport.bits (report_of (Compromise.code <$> compromises p)) < 2 ^ 10.
Proof.
  intros Hr. pose proof (plan_new_is (metadata c) caps) as Hp. unfold restore_plan in Hr.
  rewrite Hr in Hp. unfold step_is in Hp. destruct (granted _ _); [| done].
  destruct Hp as (q & [= <-] & _ & -> & _). split_and!.
  - apply spec_compromises_NoDup.
  - intros code. unfold report_of. rewrite report_testbit_from. by destruct code.
  - apply report_bits.
Qed.

Lemma restore_report_witness :
  exists p, restore_plan (MkCanonicalMetadata small_record) (Capabilities.for_os Os.Linux) = Ok p
    /\ compromises p <> [] /\ NoDup (Compromise.code <$> compromises p).
Proof.
  assert (exists p, restore_plan (MkCanonicalMetadata small_record) (Capabilities.for_os Os.Linux) = Ok p
    /\ compromises p <> []) as (p & Hp & Hn).
  { eexists. split; [vm_compute; reflexivity | vm_compute; discriminate]. }
  exists p. split; [exact Hp |]. split; [exact Hn |].
  exact (proj1 (restore_report _ _ _ Hp)).
Defined.
