(* ===== verification/AttributeName.v ===== *)
(** * Native attribute names ([rust/src/attribute_name.rs])

    The map between canonical attribute names and the names the operating
    system sees. *)

From S2P Require Export Metadata.

Module AttributeName.
Inductive Error : Type := InvalidName.

(** [CStr::from_bytes_with_nul]: the only NUL is the last byte. *)
Definition cstr_from_bytes_with_nul (s : bytes) : option bytes :=
  match strip_suffix [x00] s with
  | Some body => if contains x00 body then None else Some body
  | None => None
  end.

Definition raw_maximum (os : Os.Os) : Z :=
  match os with
  | Os.Linux | Os.Mswin => 255
  | Os.Macos => 127
  end.

(** Colon, backslash, slash: [b":\\/"]. *)
Definition MSWIN_FORBIDDEN : bytes := [x3a; x5c; x2f].

Definition check_name (os : Os.Os) (class : XattrClass.XattrClass) (name : bytes) :
    result Error unit :=
  match class with
  | XattrClass.Logical => map_err (fun _ => InvalidName) (validate_logical_name name)
  | XattrClass.Raw =>
      fail_if
        (bool_decide (name = []) || (raw_maximum os <? zlen name) || contains x00 name
         || (bool_decide (os = Os.Mswin)
             && (existsb (fun b => contains b MSWIN_FORBIDDEN) name || negb (is_utf8 name))))
        InvalidName
  end.

Definition native_prefix (os : Os.Os) (class : XattrClass.XattrClass) : bytes :=
  if bool_decide (os = Os.Linux) && bool_decide (class = XattrClass.Logical)
  then lit "user." else [].

(** The result, and the caller's buffer afterwards. *)
Definition to_native (os : Os.Os) (class : XattrClass.XattrClass) (name output : bytes) :
    result Error bytes * bytes :=
  match check_name os class name with
  | Err e => (Err e, output)
  | Ok _ =>
      let prefix := native_prefix os class in
      let length := zlen prefix + zlen name in
      if zlen output <=? length then (Err InvalidName, output)
      else
        let output := write_at 0 prefix output in
        let output := write_at (zlen prefix) name output in
        let output := write_at length [x00] output in
        (ok_or InvalidName (cstr_from_bytes_with_nul (ztake (length + 1) output)), output)
  end.

Definition from_native (os : Os.Os) (class : XattrClass.XattrClass) (native : bytes) :
    option bytes :=
  match class with
  | XattrClass.Raw => Some native
  | XattrClass.Logical =>
      match
        match os with
        | Os.Linux => strip_prefix (lit "user.") native
        | Os.Macos | Os.Mswin => Some native
        end
      with
      | None => None
      | Some logical => if is_ok (validate_logical_name logical) then Some logical else None
      end
  end.

Lemma logical_no_nul name : validate_logical_name name = Ok tt -> x00 ∉ name.
Proof.
  unfold validate_logical_name. intros H Hin. inv_ok.
  repeat (apply orb_false_iff in H as [H ?]).
  assert (existsb (fun b => (u8 b <? 32) || Byte.eqb b x7f || contains b FORBIDDEN) name = true).
  { apply existsb_exists. exists x00. split; [by apply list_elem_of_In | done]. }
  congruence.
Qed.

Lemma check_name_no_nul os class name : check_name os class name = Ok tt -> x00 ∉ name.
Proof.
  destruct class; cbn [check_name].
  - intros H%map_err_Ok. by apply logical_no_nul.
  - intros H. inv_ok. repeat (apply orb_false_iff in H as [H ?]).
    by apply contains_false.
Qed.

Lemma native_prefix_no_nul os class : x00 ∉ native_prefix os class.
Proof.
  unfold native_prefix. destruct (_ && _); [| set_solver].
  intros H%list_elem_of_In. simpl in H. intuition discriminate.
Qed.

Lemma cstr_snoc s : x00 ∉ s -> cstr_from_bytes_with_nul (s ++ [x00]) = Some s.
Proof.
  intros Hs. unfold cstr_from_bytes_with_nul.
  rewrite (proj2 (strip_suffix_Some _ _ _) eq_refl).
  by rewrite (proj2 (contains_false _ _) Hs).
Qed.

(** The three writes fill the head of the buffer and leave its tail. *)
Lemma write_native (p n output : bytes) :
  zlen p + zlen n < zlen output ->
  write_at (zlen p + zlen n) [x00] (write_at (zlen p) n (write_at 0 p output)) =
    (p ++ n) ++ [x00] ++ zdrop (zlen p + zlen n + 1) output.
Proof.
  intros Hl. pose proof (zlen_nonneg p). pose proof (zlen_nonneg n).
  assert (exists a b c d, output = a ++ b ++ c ++ d /\ zlen a = zlen p /\ zlen b = zlen n /\ zlen c = 1)
    as (a & b & c & d & -> & Ha & Hb & Hc).
  { exists (ztake (zlen p) output), (ztake (zlen n) (zdrop (zlen p) output)),
      (ztake 1 (zdrop (zlen n) (zdrop (zlen p) output))),
      (zdrop 1 (zdrop (zlen n) (zdrop (zlen p) output))).
    rewrite !ztake_zdrop, !zlen_ztake by (rewrite ?zlen_zdrop by (rewrite ?zlen_zdrop; lia); rewrite ?zlen_zdrop; lia).
    done. }
  rewrite <- (app_nil_l (a ++ _)), (write_at_app [] a) by (zlen_nil; lia).
  rewrite app_nil_l, (write_at_app p b) by lia.
  rewrite app_assoc, (write_at_app (p ++ n) c) by (rewrite ?zlen_app; done || lia).
  do 2 f_equal. symmetry. rewrite app_nil_l, !app_assoc. apply zdrop_app_exact.
  rewrite !zlen_app. lia.
Qed.

Lemma to_native_eq os class name output :
  to_native os class name output =
    let native := native_prefix os class ++ name in
    if is_ok (check_name os class name) && (zlen native <? zlen output)
    then (Ok native, native ++ [x00] ++ zdrop (zlen native + 1) output)
    else (Err InvalidName, output).
Proof.
  unfold to_native. destruct (check_name os class name) as [[] | []] eqn:Hc; [| done].
  cbv zeta. cbn [is_ok andb]. rewrite zlen_app, Z.leb_antisym.
  destruct (Z.ltb_spec (zlen (native_prefix os class) + zlen name) (zlen output)) as [Hl |];
    cbn [negb]; [| done].
  rewrite write_native by done. rewrite (app_assoc (_ ++ name)) at 1.
  rewrite ztake_app_exact by (rewrite !zlen_app; done).
  rewrite cstr_snoc; [done |]. rewrite elem_of_app.
  intros [H | H]; [by eapply native_prefix_no_nul | by eapply check_name_no_nul].
Qed.

Lemma from_native_prefix os class name :
  check_name os class name = Ok tt ->
  from_native os class (native_prefix os class ++ name) = Some name.
Proof.
  unfold check_name, from_native. destruct class; [| destruct os; done].
  intros H%map_err_Ok. destruct os;
    rewrite ?(proj2 (strip_prefix_Some (lit "user.") _ name)) by done;
    cbn [native_prefix]; simpl app; by rewrite H.
Qed.

(** C26: [to_native] writes the native name and its NUL at the head of the
    buffer, touching nothing after it, exactly when the name is valid and the
    buffer holds both; the name it returns has no NUL, and [from_native] maps it
    back. Otherwise it fails and leaves the buffer as it was. *)
Theorem attribute_name_round_trip os class name output :
  match to_native os class name output with
  | (Ok native, output') =>
      native = native_prefix os class ++ name /\ (x00 ∉ native)
      /\ output' = native ++ [x00] ++ zdrop (zlen native + 1) output
      /\ zlen output' = zlen output
      /\ from_native os class native = Some name
  | (Err e, output') =>
      output' = output
      /\ (is_ok (check_name os class name) = false
          \/ zlen output <= zlen (native_prefix os class) + zlen name)
  end.
Proof.
  rewrite to_native_eq. cbv zeta. destruct (check_name os class name) as [[] | []] eqn:Hc; cbn [is_ok andb].
  - destruct (Z.ltb_spec (zlen (native_prefix os class ++ name)) (zlen output)) as [Hl | Hl].
    + split_and!; [done | | done | |].
      * rewrite elem_of_app.
        intros [H | H]; [by eapply native_prefix_no_nul | by eapply check_name_no_nul].
      * pose proof (zlen_nonneg (native_prefix os class ++ name)).
        rewrite (zlen_app (_ ++ name)), (zlen_app [x00]), zlen_zdrop by lia.
        change (zlen [x00]) with 1. lia.
      * by apply from_native_prefix.
    + split; [done |]. right. by rewrite <- zlen_app.
  - split; [done | by left].
Qed.
End AttributeName.
