(* ===== verification/Directory.v ===== *)
(** * Portable tree paths ([rust/src/directory.rs], [rust/src/directory_record.rs])

    The grammar of relative paths, the containment of symbolic links, and the
    expanded snapshot records. *)

From S2P Require Export MetadataNormalize.

Definition MAX_ENTRIES : Z := 1000000.
Definition MAX_PATH_BYTES : Z := 4096.

Inductive Error : Type :=
| EmptyPath | InvalidUtf8 | AbsolutePath | BackslashSeparator | NulByte | InvalidComponent
| DrivePrefix | PathsNotSorted | DuplicatePath | MissingParent | ParentNotDirectory
| InvalidMode | InvalidEntryData | SymlinkEscapesRoot | TooManyEntries | PathTooLong
| InvalidHardlinkRelation | InvalidSparseExtent.

#[export] Instance Error_eq_dec : EqDecision Error.
Proof. solve_decision. Defined.

Definition validate_text (s : bytes) : result Error unit :=
  let? _ := fail_if (negb (is_utf8 s)) InvalidUtf8 in
  let? _ := fail_if (starts_with (lit "/") s) AbsolutePath in
  let? _ := fail_if (contains x5c s) BackslashSeparator in
  let? _ := fail_if (contains x00 s) NulByte in
  fail_if (has_drive_prefix s) DrivePrefix.

Definition validate_path (path : bytes) : result Error unit :=
  let? _ := fail_if (bool_decide (path = [])) EmptyPath in
  let? _ := fail_if (MAX_PATH_BYTES <? zlen path) PathTooLong in
  let? _ := validate_text path in
  fail_if (existsb bad_component (split_on x2f path)) InvalidComponent.

(** One component of a symbolic link's target, at a depth below the root. *)
Definition symlink_step (depth : Z) (part : bytes) : result Error Z :=
  if bool_decide (part = []) then Err InvalidComponent
  else if bool_decide (part = lit ".") then Ok depth
  else if bool_decide (part = lit "..") then
    if depth =? 0 then Err SymlinkEscapesRoot else Ok (depth - 1)
  else Ok (depth + 1).

Definition validate_symlink_target (link_path target : bytes) : result Error unit :=
  let? _ := validate_path link_path in
  let? _ := fail_if (bool_decide (target = [])) InvalidEntryData in
  let? _ := validate_text target in
  let depth := Z.of_nat (count_byte x2f link_path) in
  let? _ := foldM symlink_step depth (split_on x2f target) in
  Ok tt.

(** ** Records *)

(** [struct Mode(u16)] *)
Record Mode : Type := MkMode { mbits : Z }.

#[export] Instance Mode_eq_dec : EqDecision Mode.
Proof. solve_decision. Defined.

(** [0o777] *)
Definition MODE_MASK : Z := 511.

(** [bits & !0o777 != 0], on [u16]. *)
Definition mode_from_bits (bits : Z) : result Error Mode :=
  let? _ := fail_if (negb (Z.land bits (Z.lxor u16_max MODE_MASK) =? 0)) InvalidMode in
  Ok (MkMode bits).

Module Content.
Inductive Content : Type :=
| Directory (mode : Mode)
| File (mode : Mode) (data : bytes)
| Symlink (target : bytes).

#[global] Instance Content_eq_dec : EqDecision Content.
Proof. solve_decision. Defined.

Definition kind_tag (c : Content) : Z :=
  match c with
  | Directory _ => 1
  | File _ _ => 2
  | Symlink _ => 3
  end.
Definition mode (c : Content) : Mode :=
  match c with
  | Directory mode | File mode _ => mode
  | Symlink _ => MkMode MODE_MASK
  end.
Definition data (c : Content) : bytes :=
  match c with
  | Directory _ => []
  | File _ data => data
  | Symlink target => target
  end.
End Content.

Record Entry : Type := MkEntry {
  epath : bytes;
  econtent : Content.Content;
  emetadata : CanonicalMetadata
}.

#[export] Instance Entry_eq_dec : EqDecision Entry.
Proof. solve_decision. Defined.

Record Snapshot : Type := MkSnapshot { entries : list Entry; root : CanonicalMetadata }.

#[export] Instance Snapshot_eq_dec : EqDecision Snapshot.
Proof. solve_decision. Defined.

(** [Snapshot::default()] *)
Definition snapshot_default : Snapshot := MkSnapshot [] canonical_default.

(** ** The grammar, declaratively *)

(** The components of a path are its names. *)
Definition component (part : bytes) : Prop :=
  part <> [] /\ part <> lit "." /\ part <> lit ".." /\ x2f ∉ part.

Definition text_ok (s : bytes) : Prop :=
  is_utf8 s = true /\ head s <> Some x2f /\ (x5c ∉ s) /\ (x00 ∉ s) /\ has_drive_prefix s = false.

Lemma starts_with_slash s : starts_with (lit "/") s = false <-> head s <> Some x2f.
Proof.
  rewrite <- not_true_iff_false, starts_with_true. destruct s as [| b s]; simpl.
  - split; [done |]. intros _ (t & [=]).
  - change (lit "/") with [x2f]. simpl. naive_solver.
Qed.

Lemma validate_text_ok s : validate_text s = Ok tt <-> text_ok s.
Proof.
  unfold validate_text, text_ok.
  rewrite !rbind_seq_Ok, !fail_if_Ok, negb_false_iff, starts_with_slash, !contains_false. tauto.
Qed.

Lemma bad_component_false part : bad_component part = false <->
  part <> [] /\ part <> lit "." /\ part <> lit "..".
Proof. unfold bad_component. rewrite !orb_false_iff, !bool_decide_eq_false. tauto. Qed.

Lemma no_bad_component s :
  existsb bad_component (split_on x2f s) = false <-> Forall component (split_on x2f s).
Proof.
  rewrite <- not_true_iff_false, existsb_exists, list.Forall_forall.
  pose proof (split_on_no_sep x2f s) as Hs. rewrite list.Forall_forall in Hs. split.
  - intros H part Hp. specialize (Hs part Hp). unfold component.
    destruct (bad_component part) eqn:Hb.
    + exfalso. apply H. exists part. split; [by apply list_elem_of_In | done].
    + apply bad_component_false in Hb. tauto.
  - intros H (part & Hp & Hb). apply list_elem_of_In in Hp.
    destruct (H part Hp) as (? & ? & ? & _).
    assert (bad_component part = false); [by apply bad_component_false | congruence].
Qed.

Record path_ok (path : bytes) : Prop := {
  path_length : zlen path <= MAX_PATH_BYTES;
  path_text : text_ok path;
  path_components : Forall component (split_on x2f path)
}.

Lemma path_ok_not_nil path : path_ok path -> path <> [].
Proof.
  intros [_ _ Hc] ->. simpl in Hc. apply Forall_cons_iff in Hc as [[H _] _]. done.
Qed.

Lemma validate_path_ok path : validate_path path = Ok tt <-> path_ok path.
Proof.
  unfold validate_path.
  rewrite !rbind_seq_Ok, !fail_if_Ok, validate_text_ok, no_bad_component, bool_decide_eq_false, Z.ltb_ge.
  split.
  - intros (? & ? & ? & ?). by constructor.
  - intros Hp. pose proof (path_ok_not_nil _ Hp). destruct Hp. done.
Qed.

(** The hardlink field of a metadata record obeys the path grammar. *)
Lemma validate_hardlink_ok path : validate_hardlink path = Ok tt <-> path_ok path.
Proof.
  unfold validate_hardlink. rewrite fail_if_Ok, !orb_false_iff, negb_false_iff, starts_with_slash,
    !contains_false, no_bad_component, bool_decide_eq_false, Z.ltb_ge. split.
  - intros. destruct_and!. by repeat constructor.
  - intros Hp. pose proof (path_ok_not_nil _ Hp). destruct Hp as [? [] ?]. destruct_and!.
    split_and!; done.
Qed.

(** ** Lexical resolution

    A location below the root is the list of names leading to it, innermost
    first. A component moves it; climbing above the root is undefined. *)
Definition move (location : list bytes) (part : bytes) : option (list bytes) :=
  if bool_decide (part = lit ".") then Some location
  else if bool_decide (part = lit "..") then
    match location with
    | [] => None
    | _ :: parent => Some parent
    end
  else Some (part :: location).

Definition walk_part (location : option (list bytes)) (part : bytes) : option (list bytes) :=
  match location with
  | Some l => move l part
  | None => None
  end.

Definition resolve (location : list bytes) (target : bytes) : option (list bytes) :=
  foldl walk_part (Some location) (split_on x2f target).

(** The directory that holds the link. *)
Definition directory_of (link_path : bytes) : list bytes := tail (reverse (split_on x2f link_path)).

Lemma symlink_step_move l part d :
  symlink_step (zlen l) part = Ok d <->
  part <> [] /\ exists l', move l part = Some l' /\ d = zlen l'.
Proof.
  unfold symlink_step, move. case_bool_decide as H0; [naive_solver |].
  case_bool_decide as H1; [naive_solver |]. case_bool_decide as H2.
  - destruct l as [| p l]; [naive_solver |]. rewrite zlen_cons. pose proof (zlen_nonneg l).
    destruct (Z.eqb_spec (1 + zlen l) 0); [lia |].
    split; [intros [= <-]; split; [done |]; exists l; split; [done | lia] |].
    intros (_ & l' & [= <-] & ->). f_equal. lia.
  - split; [intros [= <-]; split; [done |]; eexists; split; [done |]; rewrite zlen_cons; lia |].
    intros (_ & l' & [= <-] & ->). rewrite zlen_cons. f_equal. lia.
Qed.

Lemma foldl_move_None parts :
  foldl walk_part None parts = None.
Proof. induction parts; done. Qed.

Lemma symlink_walk l parts :
  is_ok (foldM symlink_step (zlen l) parts) = true <->
  Forall (fun part => part <> []) parts
  /\ is_Some (foldl walk_part (Some l) parts).
Proof.
  revert l. induction parts as [| part parts IH]; intros l; cbn [foldM foldl].
  - split; [| done]. intros _. split; [constructor | by eexists].
  - rewrite is_ok_Ok. setoid_rewrite rbind_Ok. cbn [walk_part].
    rewrite Forall_cons_iff. split.
    + intros (r & d & (Hp & l' & Hl & ->)%symlink_step_move & Hr). rewrite Hl.
      assert (is_ok (foldM symlink_step (zlen l') parts) = true) as Hw by (apply is_ok_Ok; eauto).
      apply IH in Hw. naive_solver.
    + intros ([Hp Hf] & Hs). destruct (move l part) as [l' |] eqn:Hl.
      * assert (is_ok (foldM symlink_step (zlen l') parts) = true) as [r Hr]%is_ok_Ok.
        { apply IH. done. }
        exists r, (zlen l'). split; [| done]. apply symlink_step_move. eauto.
      * rewrite foldl_move_None in Hs. by destruct Hs.
Qed.

Lemma count_split sep s : length (split_on sep s) = S (count_byte sep s).
Proof.
  unfold count_byte. induction s as [| b s IH]; [done |]. simpl.
  destruct (Byte.eqb sep b) eqn:E.
  - apply byte_eqb_eq in E as ->. rewrite byte_eqb_refl. simpl. by rewrite IH.
  - replace (Byte.eqb b sep) with false.
    + destruct (split_on sep s) as [| p ps] eqn:Es; [by apply split_on_not_nil in Es |]. done.
    + symmetry. apply byte_eqb_neq. apply byte_eqb_neq in E. congruence.
Qed.

Lemma zlen_directory_of path : zlen (directory_of path) = Z.of_nat (count_byte x2f path).
Proof.
  unfold directory_of, zlen. f_equal.
  assert (length (reverse (split_on x2f path)) = S (count_byte x2f path)) as H.
  { by rewrite length_reverse, count_split. }
  destruct (reverse _); simpl in *; lia.
Qed.

Lemma validate_symlink_target_ok link_path target :
  validate_symlink_target link_path target = Ok tt <->
  path_ok link_path /\ text_ok target /\ Forall (fun part => part <> []) (split_on x2f target)
  /\ is_Some (resolve (directory_of link_path) target).
Proof.
  unfold validate_symlink_target. cbv zeta.
  rewrite !rbind_seq_Ok, !fail_if_Ok, validate_path_ok, validate_text_ok, bool_decide_eq_false.
  rewrite <- zlen_directory_of, seq_ok, symlink_walk. fold (resolve (directory_of link_path) target).
  split; [naive_solver |]. intros (? & ? & Hf & ?). split_and!; try done.
  intros ->. simpl in Hf. by apply Forall_cons_iff in Hf as [? _].
Qed.

(** ** Modes *)

Lemma mode_mask_land bits :
  is_u16 bits -> Z.land bits (Z.lxor u16_max MODE_MASK) = 0 <-> bits <= MODE_MASK.
Proof.
  intros Hb. change (Z.lxor u16_max MODE_MASK) with (Z.shiftl (Z.ones (16 - 9)) 9).
  rewrite high_bits_zero by (done || lia). change MODE_MASK with 511. lia.
Qed.

Lemma mode_from_bits_Ok bits m :
  is_u16 bits -> mode_from_bits bits = Ok m <-> bits <= MODE_MASK /\ m = MkMode bits.
Proof.
  intros Hb. unfold mode_from_bits.
  rewrite rbind_seq_Ok, fail_if_Ok, negb_false_iff, Z.eqb_eq, mode_mask_land by done. naive_solver.
Qed.

(** ** The properties of paths *)

(** A path is accepted exactly when it is a portable relative path (at most
    4096 bytes of UTF-8, no leading slash, backslash, NUL or drive prefix, and
    no empty, dot or dot-dot component), and the hardlink references of metadata
    records have the same grammar. *)
Lemma path_grammar path :
  (validate_path path = Ok tt <-> path_ok path)
  /\ (validate_hardlink path = Ok tt <-> path_ok path).
Proof. split; [apply validate_path_ok | apply validate_hardlink_ok]. Qed.

(** C14: A symlink target is accepted exactly when it is relative text without
    empty components whose lexical resolution, component by component from the
    directory that holds the link, never leaves the root. *)
Theorem symlink_containment link_path target :
  validate_symlink_target link_path target = Ok tt <->
  path_ok link_path /\ text_ok target
  /\ Forall (fun part => part <> []) (split_on x2f target)
  /\ forall before after, split_on x2f target = before ++ after ->
       is_Some (foldl walk_part (Some (directory_of link_path)) before).
Proof.
  rewrite validate_symlink_target_ok. unfold resolve. split.
  - intros (? & ? & ? & Hr). split_and!; [done | done | done |]. intros before after E.
    rewrite E, foldl_app in Hr.
    destruct (foldl walk_part (Some (directory_of link_path)) before) as [l |]; [by eexists |].
    rewrite foldl_move_None in Hr. by destruct Hr.
  - intros (? & ? & ? & Hr). split_and!; [done | done | done |].
    apply (Hr _ []). by rewrite app_nil_r.
Qed.
