(* ===== verification/DirectoryStructure.v ===== *)
(** * Hierarchy of a sorted entry list ([rust/src/directory_structure.rs])

    The validator that snapshots, patches and staging share, over any entry type
    that shows its path, mode, kind and data: the source's [View] trait. *)

From S2P Require Export Directory Search.

Module Kind.
Inductive Kind : Type := Directory | File | Symlink.

#[global] Instance Kind_eq_dec : EqDecision Kind.
Proof. solve_decision. Defined.
End Kind.

(** [struct Record] of the source, named for what it is a view of. *)
Record Shape : Type := MkShape {
  spath : bytes;
  smode : Z;
  skind : Kind.Kind;
  sdata : bytes
}.

(** [trait View] *)
Class View (T : Type) := { structure : T -> Shape }.

#[export] Instance entry_view : View Entry := {|
  structure e :=
    match econtent e with
    | Content.Directory mode => MkShape (epath e) (mbits mode) Kind.Directory []
    | Content.File mode data => MkShape (epath e) (mbits mode) Kind.File data
    | Content.Symlink target => MkShape (epath e) MODE_MASK Kind.Symlink target
    end
|}.

Section Structure.
Context {T : Type} `{View T}.

Definition path_of (e : T) : bytes := spath (structure e).

Definition find_path (entries : list T) (path : bytes) : option nat :=
  search_key path_of entries path.

(** The checks of one entry by itself. *)
Definition validate_shape (r : Shape) : result Error unit :=
  let? _ := validate_path (spath r) in
  let? _ := mode_from_bits (smode r) in
  match skind r with
  | Kind.Directory => fail_if (negb (bool_decide (sdata r = []))) InvalidEntryData
  | Kind.File => Ok tt
  | Kind.Symlink =>
      let? _ := fail_if (negb (smode r =? MODE_MASK)) InvalidMode in
      validate_symlink_target (spath r) (sdata r)
  end.

Definition validate_order (previous : option T) (path : bytes) : result Error unit :=
  match previous with
  | None => Ok tt
  | Some p =>
      match bytes_cmp (path_of p) path with
      | Eq => Err DuplicatePath
      | Gt => Err PathsNotSorted
      | Lt => Ok tt
      end
  end.

Definition validate_parent (before : list T) (path : bytes) : result Error unit :=
  match rposition x2f path with
  | None => Ok tt
  | Some slash =>
      let? parent := ok_or MissingParent (find_path before (take slash path)) in
      match before !! parent with
      | Some p =>
          match skind (structure p) with
          | Kind.Directory => Ok tt
          | Kind.File | Kind.Symlink => Err ParentNotDirectory
          end
      | None => Err MissingParent
      end
  end.

(** One turn of the loop; [before] is [entries[..index]]. *)
Definition validate_entry (before : list T) (e : T) : result Error unit :=
  let r := structure e in
  let? _ := validate_shape r in
  let? _ := validate_order (list.last before) (spath r) in
  validate_parent before (spath r).

Fixpoint validate_entries (before rest : list T) : result Error unit :=
  match rest with
  | [] => Ok tt
  | e :: rest =>
      let? _ := validate_entry before e in
      validate_entries (before ++ [e]) rest
  end.

Definition validate (entries : list T) : result Error unit :=
  let? _ := fail_if (MAX_ENTRIES <? zlen entries) TooManyEntries in
  validate_entries [] entries.

(** ** The hierarchy, declaratively *)

Record shape_ok (r : Shape) : Prop := {
  shape_path : path_ok (spath r);
  shape_mode : smode r <= MODE_MASK;
  shape_directory : skind r = Kind.Directory -> sdata r = [];
  shape_symlink : skind r = Kind.Symlink ->
    smode r = MODE_MASK /\ validate_symlink_target (spath r) (sdata r) = Ok tt
}.

(** The path up to its last slash is a directory of the list. *)
Definition parent_ok (l : list T) (path : bytes) : Prop :=
  forall parent name, path = parent ++ x2f :: name -> x2f ∉ name ->
  exists d, d ∈ l /\ path_of d = parent /\ skind (structure d) = Kind.Directory.

Record hierarchy (l : list T) : Prop := {
  hier_length : zlen l <= MAX_ENTRIES;
  hier_shapes : Forall (fun e => shape_ok (structure e)) l;
  hier_sorted : StronglySorted (key_lt path_of) l;
  hier_parents : Forall (fun e => parent_ok l (path_of e)) l
}.

Definition modes_typed (l : list T) : Prop := Forall (fun e => is_u16 (smode (structure e))) l.

Lemma validate_shape_ok r : is_u16 (smode r) -> validate_shape r = Ok tt <-> shape_ok r.
Proof.
  intros Hm. unfold validate_shape. rewrite rbind_seq_Ok, validate_path_ok, seq_ok, is_ok_Ok.
  setoid_rewrite mode_from_bits_Ok; [| done]. split.
  - intros (Hp & (m & Hb & _) & Hk). constructor; [done | done | |]; intros Ek; rewrite Ek in Hk.
    + apply fail_if_Ok, negb_false_iff in Hk. by apply bool_decide_eq_true in Hk.
    + apply rbind_seq_Ok in Hk as [Hk ?]. apply fail_if_Ok in Hk. zbool. done.
  - intros [Hp Hb Hd Hs]. split_and!; [done | eauto |]. destruct (skind r).
    + apply fail_if_Ok. by rewrite bool_decide_eq_true_2 by auto.
    + done.
    + destruct Hs as [Hs ?]; [done |]. apply rbind_seq_Ok. split; [| done].
      apply fail_if_Ok. by rewrite Hs.
Qed.

Lemma validate_order_ok p path :
  validate_order p path = Ok tt <-> forall q, p = Some q -> bytes_lt (path_of q) path.
Proof.
  unfold validate_order, bytes_lt. destruct p as [q |]; [| naive_solver].
  destruct (bytes_cmp _ _) eqn:E; split; intros Hq; try done; try (specialize (Hq q eq_refl); congruence).
  by intros ? [= <-].
Qed.

Lemma rposition_split path slash :
  rposition x2f path = Some slash ->
  exists parent name, path = parent ++ x2f :: name /\ (x2f ∉ name) /\ take slash path = parent.
Proof.
  intros Hr. destruct (decide (x2f ∈ path)) as [(a & b & -> & Hb)%elem_split_last | Hn].
  - rewrite rposition_last in Hr by done. injection Hr as <-.
    exists a, b. split_and!; [done | done | apply take_app_length].
  - apply rposition_None in Hn. congruence.
Qed.

Lemma split_last_unique (a b a' b' : bytes) :
  a ++ x2f :: b = a' ++ x2f :: b' -> x2f ∉ b -> x2f ∉ b' -> a = a' /\ b = b'.
Proof.
  intros He Hb Hb'.
  pose proof (rposition_last a x2f b Hb) as H1. rewrite He, rposition_last in H1 by done.
  injection H1 as Hl. symmetry in Hl. destruct (app_inj_1 _ _ _ _ Hl He) as [-> [= ->]]. done.
Qed.

Lemma validate_parent_ok before path :
  StronglySorted (key_lt path_of) before ->
  validate_parent before path = Ok tt <-> parent_ok before path.
Proof.
  intros Hs. unfold validate_parent, parent_ok.
  destruct (rposition x2f path) as [slash |] eqn:Hr.
  - destruct (rposition_split _ _ Hr) as (parent & name & -> & Hn & ->). split.
    + intros Hv. inv_ok. apply search_key_sound in H0 as (d & Hd & Hp). rewrite Hd in Hv.
      intros parent' name' He Hn'.
      destruct (split_last_unique _ _ _ _ He Hn Hn') as [<- <-].
      exists d. split_and!; [by eapply list_elem_of_lookup_2 | done |].
      by destruct (skind (structure d)).
    + intros Hp. destruct (Hp parent name eq_refl Hn) as (d & Hd & Hpath & Hk).
      apply list_elem_of_lookup in Hd as [i Hi].
      assert (find_path before parent = Some i) as ->.
      { apply search_key_correct; [done | eauto]. }
      cbn [ok_or rbind]. by rewrite Hi, Hk.
  - apply rposition_None in Hr. split; [| done]. intros _ parent name -> _.
    exfalso. apply Hr. set_solver.
Qed.

(** The parent of a path sorts before it, so among all the entries of a sorted
    list it is among the earlier ones. *)
Lemma parent_ok_before before e rest :
  StronglySorted (key_lt path_of) (before ++ e :: rest) ->
  parent_ok (before ++ e :: rest) (path_of e) -> parent_ok before (path_of e).
Proof.
  intros Hs Hp parent name He Hn. destruct (Hp parent name He Hn) as (d & Hd & Hpath & Hk).
  exists d. split_and!; [| done | done].
  assert (bytes_lt (path_of d) (path_of e)) as Hlt.
  { rewrite He, Hpath. by apply bytes_lt_snoc_prefix. }
  apply list_elem_of_lookup in Hd as [i Hi].
  destruct (Nat.lt_ge_cases i (length before)) as [Hb | Hb].
  - rewrite lookup_app_l in Hi by done. by eapply list_elem_of_lookup_2.
  - exfalso. apply (bytes_lt_irrefl (path_of d)).
    destruct (Nat.eq_dec i (length before)) as [-> | Hne].
    + rewrite list_lookup_middle in Hi by done. injection Hi as ->. done.
    + apply (bytes_lt_trans _ _ _ Hlt).
      eapply (sorted_lookup_lt path_of _ (length before) i); [exact Hs | lia | | exact Hi].
      by apply list_lookup_middle.
Qed.

Lemma parent_ok_mono l l' path : (forall d, d ∈ l -> d ∈ l') -> parent_ok l path -> parent_ok l' path.
Proof. intros Hl Hp parent name He Hn. destruct (Hp parent name He Hn) as (d & ? & ?). eauto. Qed.

Lemma StronglySorted_snoc l e :
  StronglySorted (key_lt path_of) (l ++ [e]) <->
  StronglySorted (key_lt path_of) l
  /\ (forall q, list.last l = Some q -> bytes_lt (path_of q) (path_of e)).
Proof. rewrite <- !Sorted_key_lt. apply Sorted_snoc_iff. Qed.

Lemma validate_entries_ok before rest :
  modes_typed rest -> StronglySorted (key_lt path_of) before ->
  validate_entries before rest = Ok tt <->
  Forall (fun e => shape_ok (structure e)) rest
  /\ StronglySorted (key_lt path_of) (before ++ rest)
  /\ Forall (fun e => parent_ok (before ++ rest) (path_of e)) rest.
Proof.
  revert before. induction rest as [| e rest IH]; intros before Hm Hs; cbn [validate_entries].
  - rewrite app_nil_r. split; [repeat split; [constructor | done | constructor] | done].
  - apply Forall_cons_iff in Hm as [Hme Hm]. unfold validate_entry.
    rewrite !rbind_seq_Ok, validate_shape_ok, validate_order_ok, validate_parent_ok by done.
    fold (path_of e). rewrite !Forall_cons_iff, (cons_middle e before rest), (app_assoc before [e] rest). split.
    + intros ((Hsh & Ho & Hp) & Hr).
      assert (StronglySorted (key_lt path_of) (before ++ [e])) as Hs'.
      { by apply StronglySorted_snoc. }
      apply IH in Hr as (Hf & Hss & Hpp); [| done | done]. split_and!; try done.
      eapply parent_ok_mono; [| exact Hp]. set_solver.
    + intros ((Hsh & Hf) & Hss & Hp & Hpp).
      assert (StronglySorted (key_lt path_of) (before ++ [e])) as Hs'.
      { eapply StronglySorted_app_1_l. exact Hss. }
      split.
      * split_and!; [done | by apply StronglySorted_snoc |].
        rewrite <- app_assoc in Hss, Hp. cbn [app] in Hss, Hp.
        by apply (parent_ok_before before e rest).
      * apply IH; done.
Qed.

Lemma validate_hierarchy l : modes_typed l -> validate l = Ok tt <-> hierarchy l.
Proof.
  intros Hm. unfold validate.
  rewrite rbind_seq_Ok, fail_if_Ok, Z.ltb_ge, validate_entries_ok by (done || constructor).
  split; [intros (? & ? & ? & ?); by constructor | by intros []].
Qed.

(** Every proper ancestor of an entry, not only its parent, is a directory. *)
Lemma hierarchy_ancestors l e parent name :
  hierarchy l -> e ∈ l -> path_of e = parent ++ x2f :: name ->
  exists d, d ∈ l /\ path_of d = parent /\ skind (structure d) = Kind.Directory.
Proof.
  intros Hl. revert e. induction name as [name IH] using (induction_ltof1 _ (@length byte)).
  intros e He Hpath. pose proof (hier_parents l Hl) as Hp. rewrite list.Forall_forall in Hp.
  destruct (decide (x2f ∈ name)) as [(a & b & -> & Hb)%elem_split_last | Hn].
  - destruct (Hp e He (parent ++ x2f :: a) b) as (d & Hd & Hdp & _).
    { rewrite Hpath. by rewrite <- app_assoc. }
    { done. }
    eapply (IH a); [| exact Hd | exact Hdp]. unfold ltof. rewrite length_app. simpl. lia.
  - by eapply Hp.
Qed.

(** In a hierarchy the lookup finds exactly the entry with the path. *)
Lemma find_path_correct l path i :
  StronglySorted (key_lt path_of) l ->
  find_path l path = Some i <-> exists e, l !! i = Some e /\ path_of e = path.
Proof. apply search_key_correct. Qed.

Lemma find_path_None l path :
  StronglySorted (key_lt path_of) l ->
  find_path l path = None <-> forall e, e ∈ l -> path_of e <> path.
Proof. apply search_key_None. Qed.
End Structure.

(** ** What the hierarchy looks at *)

(** A shape without the bytes of a file. *)
Definition outline (r : Shape) : Shape :=
  MkShape (spath r) (smode r) (skind r)
    (match skind r with Kind.File => [] | Kind.Directory | Kind.Symlink => sdata r end).

Lemma shape_ok_outline r r' : outline r = outline r' -> shape_ok r -> shape_ok r'.
Proof.
  destruct r as [p m k d], r' as [p' m' k' d']. unfold outline. cbn. intros [= -> -> -> Hd] [Hp Hm Hdir Hs].
  cbn in *. constructor; cbn; [done | done | |]; intros ->; cbn in *; subst; auto.
Qed.

Lemma path_of_outline {A B} `{View A, View B} (a : A) (b : B) :
  outline (structure a) = outline (structure b) ->
  path_of a = path_of b /\ skind (structure a) = skind (structure b).
Proof. unfold path_of. intros E. split; [apply (f_equal spath E) | apply (f_equal skind E)]. Qed.

Lemma outline_related {A B} `{View A, View B} (la : list A) (lb : list B) b :
  (outline ∘ structure) <$> la = (outline ∘ structure) <$> lb -> b ∈ lb ->
  exists a, a ∈ la /\ outline (structure a) = outline (structure b).
Proof.
  intros E Hb. apply (list_elem_of_fmap_2 (outline ∘ structure)) in Hb. rewrite <- E in Hb.
  apply list_elem_of_fmap in Hb as (a & ? & ?). eauto.
Qed.

(** The hierarchy depends on the outlines only. *)
Lemma hierarchy_outline {A B} `{View A, View B} (la : list A) (lb : list B) :
  (outline ∘ structure) <$> la = (outline ∘ structure) <$> lb -> hierarchy la -> hierarchy lb.
Proof.
  intros E [Hl Hs Hso Hp].
  assert (length la = length lb) as El
    by (by rewrite <- (length_fmap (outline ∘ structure) la), E, length_fmap).
  constructor.
  - unfold zlen in *. lia.
  - rewrite list.Forall_forall in Hs. rewrite list.Forall_forall.
    intros b (a & Hin & Ho)%(outline_related la lb); [| done].
    eapply shape_ok_outline; [exact Ho | auto].
  - clear -E Hso. revert lb E. induction Hso as [| a la Hs IH Hx]; intros [| b lb] E; try done.
    { constructor. }
    pose proof (f_equal head E) as Eab. apply (f_equal tail) in E. rewrite !fmap_cons in Eab, E.
    apply (inj Some) in Eab. cbn [tail] in E. constructor; [auto |].
    rewrite list.Forall_forall in Hx. rewrite list.Forall_forall.
    intros b' (a' & Ha' & Ho')%(outline_related la lb); [| done]. specialize (Hx a' Ha').
    unfold key_lt in *. apply path_of_outline in Ho' as [<- _].
    by destruct (path_of_outline a b) as [<- _].
  - rewrite list.Forall_forall in Hp. rewrite list.Forall_forall.
    intros b (a & Hin & [Hpath _]%path_of_outline)%(outline_related la lb); [| done]. specialize (Hp a Hin).
    rewrite Hpath in Hp. intros parent name He Hn.
    destruct (Hp parent name He Hn) as (d & Hd & Hdp & Hk).
    destruct (outline_related lb la d) as (d' & Hd' & [Hp' Hk']%path_of_outline); [done | done |].
    exists d'. split_and!; [done | congruence | congruence].
Qed.

(** ** The properties of the hierarchy *)

Section Properties.
Context {T : Type} `{View T}.

(** C12: The validator accepts exactly the hierarchies: at most a million
    entries, each with a valid path, mode and data, strictly sorted by path, the
    parent of every entry a directory of the list. Then every proper ancestor of
    every entry is a directory of the list. *)
Theorem validate_iff_hierarchy (l : list T) :
  modes_typed l ->
  (validate l = Ok tt <-> hierarchy l)
  /\ (validate l = Ok tt -> forall e parent name, e ∈ l -> path_of e = parent ++ x2f :: name ->
      exists d, d ∈ l /\ path_of d = parent /\ skind (structure d) = Kind.Directory).
Proof.
  intros Hm. split; [by apply validate_hierarchy |].
  intros Hv%validate_hierarchy e parent name; [| done]. by apply hierarchy_ancestors.
Qed.

(** C13: On a list that the validator accepts, [find_path] returns the index of
    the entry with the path, and nothing exactly when there is none. *)
Theorem find_path_exact (l : list T) path :
  modes_typed l -> validate l = Ok tt ->
  match find_path l path with
  | Some i => exists e, l !! i = Some e /\ path_of e = path
      /\ forall j e', l !! j = Some e' -> path_of e' = path -> j = i
  | None => forall e, e ∈ l -> path_of e <> path
  end.
Proof.
  intros Hm [_ _ Hs _]%validate_hierarchy; [| done].
  destruct (find_path l path) as [i |] eqn:E.
  - pose proof E as (e & Hi & He)%find_path_correct; [| done].
    exists e. split_and!; [done | done |]. intros j e' Hj He'.
    assert (find_path l path = Some j) by (apply find_path_correct; eauto). congruence.
  - by apply find_path_None.
Qed.
End Properties.

Definition small_tree : list Entry :=
  [ MkEntry (lit "a") (Content.Directory (MkMode 493)) canonical_default;
    MkEntry (lit "a/b") (Content.File (MkMode 420) (lit "x")) canonical_default;
    MkEntry (lit "a/c") (Content.Symlink (lit "../a/b")) canonical_default ].

Lemma small_tree_typed : modes_typed small_tree.
Proof. repeat constructor; done. Qed.

Lemma validate_iff_hierarchy_witness :
  validate small_tree = Ok tt /\ hierarchy small_tree.
Proof.
  assert (validate small_tree = Ok tt) as Hv by (vm_compute; reflexivity).
  exact (conj Hv (proj1 (proj1 (validate_iff_hierarchy small_tree small_tree_typed)) Hv)).
Defined.

Lemma find_path_exact_witness :
  find_path small_tree (lit "a/c") = Some 2%nat
  /\ forall e, e ∈ small_tree -> path_of e <> lit "a/d".
Proof.
  assert (validate small_tree = Ok tt) as Hv by (vm_compute; reflexivity).
  split; [vm_compute; reflexivity |].
  exact (find_path_exact small_tree (lit "a/d") small_tree_typed Hv).
Defined.
