(* ===== verification/DirectoryCanonical.v ===== *)
(** * Canonical snapshots ([rust/src/directory_canonical.rs])

    Expanded snapshots whose sparse extents and hardlinks are checked, and their
    identity hash. *)

From S2P Require Export DirectoryStructure.

(** Every field but the reference itself. *)
Definition shared_metadata_equal (left right : Metadata) : bool :=
  bool_decide (xattrs left = xattrs right) && bool_decide (aces left = aces right)
  && bool_decide (native_acl left = native_acl right) && bool_decide (times left = times right)
  && (finder_flags left =? finder_flags right)
  && bool_decide (finder_info left = finder_info right)
  && bool_decide (holes left = holes right).

Module CanonicalSnapshot.
(** [struct CanonicalSnapshot(Snapshot)] *)
Record CanonicalSnapshot : Type := MkCanonicalSnapshot { snapshot : Snapshot }.

#[global] Instance CanonicalSnapshot_eq_dec : EqDecision CanonicalSnapshot.
Proof. solve_decision. Defined.

Definition check_hole (content : Content.Content) (hole : Hole) : result Error unit :=
  match content with
  | Content.File _ data =>
      let length := zlen data in
      let? _ := fail_if ((length <? hoffset hole) || (length - hoffset hole <? hlength hole))
                  InvalidSparseExtent in
      fail_if (existsb (fun b => negb (Byte.eqb b x00))
                 (ztake (hlength hole) (zdrop (hoffset hole) data)))
        InvalidSparseExtent
  | Content.Directory _ | Content.Symlink _ => Err InvalidSparseExtent
  end.

(** [before] is [entries[..index]]. *)
Definition check_hardlink (before : list Entry) (e : Entry) (path : bytes) : result Error unit :=
  match econtent e with
  | Content.File mode data =>
      let? index := ok_or InvalidHardlinkRelation (find_path before path) in
      let? target := ok_or InvalidHardlinkRelation (before !! index) in
      match econtent target with
      | Content.File target_mode target_data =>
          fail_if
            (bool_decide (is_Some (hardlink_to (metadata (emetadata target))))
             || negb (bool_decide (mode = target_mode))
             || negb (bool_decide (data = target_data))
             || negb (shared_metadata_equal (metadata (emetadata e)) (metadata (emetadata target))))
            InvalidHardlinkRelation
      | Content.Directory _ | Content.Symlink _ => Err InvalidHardlinkRelation
      end
  | Content.Directory _ | Content.Symlink _ => Err InvalidHardlinkRelation
  end.

Definition check_entry (before : list Entry) (e : Entry) : result Error unit :=
  let? _ := iterM (check_hole (econtent e)) (holes (metadata (emetadata e))) in
  match hardlink_to (metadata (emetadata e)) with
  | None => Ok tt
  | Some path => check_hardlink before e path
  end.

Fixpoint check_entries (before rest : list Entry) : result Error unit :=
  match rest with
  | [] => Ok tt
  | e :: rest =>
      let? _ := check_entry before e in
      check_entries (before ++ [e]) rest
  end.

Definition new (s : Snapshot) : result Error CanonicalSnapshot :=
  let? _ := validate (entries s) in
  let? _ := check_entries [] (entries s) in
  let? _ := fail_if (negb (bool_decide (holes (metadata (root s)) = []))) InvalidSparseExtent in
  let? _ := fail_if (bool_decide (is_Some (hardlink_to (metadata (root s)))))
              InvalidHardlinkRelation in
  Ok (MkCanonicalSnapshot s).

(** [#[derive(Default)]] *)
Definition default : CanonicalSnapshot := MkCanonicalSnapshot snapshot_default.

Section Hash.
Context `{Blake3}.

Definition hash_entry (h : Hasher) (e : Entry) : Hasher :=
  let h := hasher_update h [as_u8 (Content.kind_tag (econtent e))] in
  let h := hasher_update h (le16 (mbits (Content.mode (econtent e)))) in
  let h := hasher_update h (le32 (zlen (epath e))) in
  let h := hasher_update h (epath e) in
  let h := hasher_update h (le64 (zlen (Content.data (econtent e)))) in
  let h := hasher_update h (Content.data (econtent e)) in
  hasher_update h (hash (emetadata e)).

Definition hasher_of (c : CanonicalSnapshot) : Hasher :=
  let s := snapshot c in
  let h := hasher_update hasher_new (lit "DIFZTREE-ID" ++ [x02]) in
  let h := hasher_update h (le32 (zlen (entries s))) in
  let h := foldl hash_entry h (entries s) in
  if is_empty (metadata (root s)) then h
  else hasher_update (hasher_update h (lit "DIFZTREE-ROOT" ++ [x01])) (hash (root s)).

Definition hash (c : CanonicalSnapshot) : bytes := hasher_finalize (hasher_of c).
End Hash.
End CanonicalSnapshot.

(** ** What a canonical snapshot guarantees *)

(** The extent lies within a regular file and covers zero bytes only. *)
Definition hole_in (content : Content.Content) (h : Hole) : Prop :=
  exists mode data, content = Content.File mode data /\ hole_end h <= zlen data
    /\ forall i, hoffset h <= i < hole_end h -> data !! Z.to_nat i = Some x00.

(** [e] refers to an earlier file that is not itself a reference, with its mode,
    bytes and metadata. *)
Definition link_in (l : list Entry) (e : Entry) (path : bytes) : Prop :=
  exists target, target ∈ l /\ epath target = path /\ bytes_lt path (epath e)
    /\ (exists mode data, econtent e = Content.File mode data)
    /\ econtent target = econtent e
    /\ hardlink_to (metadata (emetadata target)) = None
    /\ shared_metadata_equal (metadata (emetadata e)) (metadata (emetadata target)) = true.

Record canonical_snapshot (s : Snapshot) : Prop := {
  cs_hierarchy : hierarchy (entries s);
  cs_holes : Forall (fun e => Forall (hole_in (econtent e)) (holes (metadata (emetadata e)))) (entries s);
  cs_links : Forall (fun e => forall path, hardlink_to (metadata (emetadata e)) = Some path ->
    link_in (entries s) e path) (entries s);
  cs_root_holes : holes (metadata (root s)) = [];
  cs_root_link : hardlink_to (metadata (root s)) = None
}.

(** What the field types allow. *)
Record entry_typed (e : Entry) : Prop := {
  et_mode : is_u16 (mbits (Content.mode (econtent e)));
  et_metadata : metadata_typed (metadata (emetadata e))
}.

#[export] Instance entry_typed_dec e : Decision (entry_typed e).
Proof.
  refine (cast_if (decide (is_u16 (mbits (Content.mode (econtent e)))
    /\ metadata_typed (metadata (emetadata e)))));
    [match goal with Hc : _ /\ _ |- _ => destruct Hc end; by constructor | intros []; auto].
Defined.

Lemma entry_modes_typed l : Forall entry_typed l -> modes_typed l.
Proof.
  intros Hl. eapply list.Forall_impl; [exact Hl |]. intros e [Hm _]. unfold structure, entry_view.
  by destruct (econtent e).
Qed.

Lemma zdrop_lookup {A} (l : list A) a i : 0 <= a -> 0 <= i -> zdrop a l !! Z.to_nat i = l !! Z.to_nat (a + i).
Proof. intros. unfold zdrop. rewrite lookup_drop. f_equal. lia. Qed.

Lemma all_zero_range data a n :
  0 <= a -> 0 <= n -> a + n <= zlen data ->
  existsb (fun b => negb (Byte.eqb b x00)) (ztake n (zdrop a data)) = false <->
  forall i, a <= i < a + n -> data !! Z.to_nat i = Some x00.
Proof.
  intros Ha Hn Hl. rewrite <- not_true_iff_false, existsb_exists. split.
  - intros Hz i Hi. destruct (data !! Z.to_nat i) as [b |] eqn:Hb.
    + f_equal. destruct (decide (b = x00)) as [-> | Hne]; [done |]. exfalso. apply Hz.
      exists b. split; [| by apply negb_true_iff, byte_eqb_neq].
      apply list_elem_of_In, list_elem_of_lookup. exists (Z.to_nat (i - a)).
      unfold ztake. rewrite lookup_take_lt by lia. rewrite zdrop_lookup by lia.
      by replace (a + (i - a)) with i by lia.
    + apply lookup_ge_None in Hb. unfold zlen in Hl. lia.
  - intros Hz (b & Hb & Hne). apply list_elem_of_In, list_elem_of_lookup in Hb as [j Hj].
    unfold ztake in Hj. apply lookup_take_Some in Hj as [Hj Hlt].
    rewrite <- (Nat2Z.id j), zdrop_lookup in Hj by lia. rewrite Hz in Hj by lia.
    injection Hj as <-. by rewrite byte_eqb_refl in Hne.
Qed.

Lemma check_hole_ok content h :
  hole_typed h -> CanonicalSnapshot.check_hole content h = Ok tt <-> hole_in content h.
Proof.
  intros [Ho Hl]. unfold CanonicalSnapshot.check_hole, hole_in, hole_end.
  unfold is_u64 in *. destruct content as [mode | mode data | target]; [naive_solver | | naive_solver].
  cbv zeta. rewrite rbind_seq_Ok, !fail_if_Ok, orb_false_iff, !Z.ltb_ge. split.
  - intros ([H1 H2] & Hz). exists mode, data.
    split_and!; [done | lia | apply all_zero_range; (done || lia)].
  - intros (m & d & [= <- <-] & H1 & H2). split; [lia |]. apply all_zero_range; (done || lia).
Qed.

Lemma check_hardlink_ok before e rest path :
  StronglySorted (key_lt path_of) (before ++ e :: rest) ->
  CanonicalSnapshot.check_hardlink before e path = Ok tt <-> link_in (before ++ e :: rest) e path.
Proof.
  intros Hs. assert (StronglySorted (key_lt path_of) before) as Hb.
  { by eapply StronglySorted_app_1_l. }
  assert (forall x : Entry, path_of x = epath x) as Hpath.
  { intros x. unfold path_of, structure, entry_view. by destruct (econtent x). }
  unfold CanonicalSnapshot.check_hardlink, link_in. split.
  - intros Hc. destruct (econtent e) as [| mode data |] eqn:Ee; try done. inv_ok.
    apply search_key_sound in H as (t & Ht & Hp). rewrite Ht in H0. injection H0 as <-.
    destruct (econtent t) as [| tmode tdata |] eqn:Et; try done. inv_ok.
    repeat (apply orb_false_iff in Hc as [Hc ?]).
    apply bool_decide_eq_false in Hc. rewrite !negb_false_iff in *.
    repeat match goal with H : bool_decide _ = true |- _ => apply bool_decide_eq_true in H end.
    subst. exists t. split_and!; try done.
    + apply elem_of_app. left. by eapply list_elem_of_lookup_2.
    + rewrite <- (Hpath e).
      apply (sorted_lookup_lt path_of _ a (length before) t e Hs).
      * by eapply lookup_lt_Some.
      * by apply lookup_app_l_Some.
      * by apply list_lookup_middle.
    + eauto.
    + by apply eq_None_not_Some.
  - intros (t & Ht & Hp & Hlt & (mode & data & Ee) & Et & Hn & Hsh).
    apply list_elem_of_lookup in Ht as [i Hi].
    assert (i < length before)%nat as Hib.
    { destruct (Nat.lt_ge_cases i (length before)) as [|Hge]; [done |]. exfalso.
      subst path. apply (bytes_lt_irrefl (epath t)). rewrite <- (Hpath t), <- (Hpath e) in *.
      destruct (Nat.eq_dec i (length before)) as [-> | Hne].
      - rewrite list_lookup_middle in Hi by done. by injection Hi as ->.
      - apply (bytes_lt_trans _ _ _ Hlt).
        eapply (sorted_lookup_lt path_of _ (length before) i); [exact Hs | lia | | exact Hi].
        by apply list_lookup_middle. }
    rewrite lookup_app_l in Hi by done. rewrite Ee.
    assert (find_path before path = Some i) as ->.
    { apply find_path_correct; [done |]. exists t. by rewrite Hpath. }
    cbn [ok_or rbind]. rewrite Hi. cbn [ok_or rbind]. rewrite Et, Ee. apply fail_if_Ok.
    rewrite Hn, Hsh, (bool_decide_eq_false_2 (is_Some None)) by (intros [? [=]]).
    by rewrite !bool_decide_eq_true_2 by done.
Qed.

Lemma check_entries_ok before rest :
  Forall entry_typed rest -> StronglySorted (key_lt path_of) (before ++ rest) ->
  CanonicalSnapshot.check_entries before rest = Ok tt <->
  Forall (fun e => Forall (hole_in (econtent e)) (holes (metadata (emetadata e)))) rest
  /\ Forall (fun e => forall path, hardlink_to (metadata (emetadata e)) = Some path ->
       link_in (before ++ rest) e path) rest.
Proof.
  revert before. induction rest as [| e rest IH]; intros before Ht Hs;
    cbn [CanonicalSnapshot.check_entries].
  - split; [repeat split; constructor | done].
  - apply Forall_cons_iff in Ht as [[_ Hte] Ht].
    rewrite rbind_seq_Ok, (IH (before ++ [e])) by (rewrite <- ?app_assoc; done).
    rewrite <- app_assoc. cbn [app]. rewrite !Forall_cons_iff.
    unfold CanonicalSnapshot.check_entry. rewrite rbind_seq_Ok, iterM_Ok.
    assert (Forall (fun x => CanonicalSnapshot.check_hole (econtent e) x = Ok tt)
      (holes (metadata (emetadata e))) <-> Forall (hole_in (econtent e)) (holes (metadata (emetadata e)))) as ->.
    { pose proof (typed_holes _ Hte) as Hh. rewrite list.Forall_forall in Hh.
      rewrite !list.Forall_forall. split; intros H h Hin; apply check_hole_ok; auto. }
    destruct (hardlink_to (metadata (emetadata e))) as [path |].
    + rewrite (check_hardlink_ok before e rest) by done. naive_solver.
    + naive_solver.
Qed.

Lemma snapshot_new_ok s c :
  Forall entry_typed (entries s) ->
  CanonicalSnapshot.new s = Ok c <->
  canonical_snapshot s /\ c = CanonicalSnapshot.MkCanonicalSnapshot s.
Proof.
  intros Ht. unfold CanonicalSnapshot.new.
  rewrite !rbind_seq_Ok, !fail_if_Ok, negb_false_iff, bool_decide_eq_true, bool_decide_eq_false.
  rewrite validate_hierarchy by by apply entry_modes_typed. split.
  - intros (Hh & Hc & Hr & Hl & [= <-]). split; [| done].
    apply check_entries_ok in Hc as [Hho Hli]; [| done | by apply hier_sorted].
    constructor; try done. by apply eq_None_not_Some.
  - intros [[Hh Hho Hli Hr Hl] ->]. split_and!; try done.
    + apply check_entries_ok; [done | by apply hier_sorted | done].
    + by rewrite Hl, <- eq_None_not_Some.
Qed.

(** ** The identity stream *)

Section Identity.
Context `{Blake3}.

Definition entry_wire (e : Entry) : bytes :=
  [as_u8 (Content.kind_tag (econtent e))] ++ le16 (mbits (Content.mode (econtent e)))
  ++ le32 (zlen (epath e)) ++ epath e
  ++ le64 (zlen (Content.data (econtent e))) ++ Content.data (econtent e)
  ++ hash (emetadata e).

Definition root_wire (r : CanonicalMetadata) : bytes :=
  if is_empty (metadata r) then [] else (lit "DIFZTREE-ROOT" ++ [x01]) ++ hash r.

Lemma fold_hash_entry es h :
  foldl CanonicalSnapshot.hash_entry h es = h ++ (es ≫= entry_wire).
Proof.
  revert h. induction es as [| e es IH]; intros h; cbn [foldl].
  - by rewrite app_nil_r.
  - rewrite IH. unfold CanonicalSnapshot.hash_entry, hasher_update. cbn [mbind list_bind].
    unfold entry_wire at 2. by rewrite <- !app_assoc.
Qed.

Lemma hasher_of_eq c :
  CanonicalSnapshot.hasher_of c =
    (lit "DIFZTREE-ID" ++ [x02])
    ++ le32 (zlen (entries (CanonicalSnapshot.snapshot c)))
    ++ (entries (CanonicalSnapshot.snapshot c) ≫= entry_wire)
    ++ root_wire (root (CanonicalSnapshot.snapshot c)).
Proof.
  unfold CanonicalSnapshot.hasher_of, root_wire. rewrite fold_hash_entry.
  unfold hasher_update, hasher_new. cbn [app].
  destruct (is_empty _); by rewrite <- ?app_assoc, ?app_nil_r.
Qed.

Lemma zlen_hash r : zlen (hash r) = 32.
Proof. apply blake3_length. Qed.

(** What the identity sees of an entry: everything, its metadata by hash. *)
Definition entry_identity (e : Entry) : bytes * Content.Content * bytes :=
  (epath e, econtent e, hash (emetadata e)).

Definition entry_bounded (e : Entry) : Prop :=
  is_u16 (mbits (Content.mode (econtent e))) /\ is_u32 (zlen (epath e))
  /\ is_u64 (zlen (Content.data (econtent e))).

Lemma content_eq c1 c2 :
  Content.kind_tag c1 = Content.kind_tag c2 -> Content.mode c1 = Content.mode c2 ->
  Content.data c1 = Content.data c2 -> c1 = c2.
Proof. destruct c1, c2; simpl; try done; intros; congruence. Qed.

Lemma entry_wire_inj e1 e2 r1 r2 :
  entry_bounded e1 -> entry_bounded e2 -> entry_wire e1 ++ r1 = entry_wire e2 ++ r2 ->
  entry_identity e1 = entry_identity e2 /\ r1 = r2.
Proof.
  intros (Hm1 & Hp1 & Hd1) (Hm2 & Hp2 & Hd2). unfold entry_wire. rewrite <- !app_assoc.
  intros [[= Hk]%(f_equal (map u8)) E]%zlen_inj_app; [| done].
  apply zlen_inj_app in E as [Em E]; [| by rewrite !zlen_le16].
  apply zlen_inj_app in E as [El E]; [| by rewrite !zlen_le32].
  apply le16_inj in Em; [| done | done]. apply le32_inj in El; [| done | done].
  apply zlen_inj_app in E as [Ep E]; [| done].
  apply zlen_inj_app in E as [Eld E]; [| by rewrite !zlen_le64].
  apply le64_inj in Eld; [| done | done].
  apply zlen_inj_app in E as [Ed E]; [| done].
  apply zlen_inj_app in E as [Eh E]; [| by rewrite !zlen_hash].
  split; [| done]. unfold entry_identity. rewrite Ep, Eh. f_equal. f_equal.
  apply content_eq; [| | done].
  - destruct (econtent e1), (econtent e2); simpl in Hk; try done; discriminate.
  - destruct (Content.mode (econtent e1)), (Content.mode (econtent e2)). simpl in *. congruence.
Qed.

Lemma entries_wire_inj es1 es2 r1 r2 :
  Forall entry_bounded es1 -> Forall entry_bounded es2 -> length es1 = length es2 ->
  (es1 ≫= entry_wire) ++ r1 = (es2 ≫= entry_wire) ++ r2 ->
  entry_identity <$> es1 = entry_identity <$> es2 /\ r1 = r2.
Proof.
  revert es2. induction es1 as [| e1 es1 IH]; intros [| e2 es2] H1 H2 Hl; try done.
  cbn [mbind list_bind]. rewrite <- !app_assoc.
  apply Forall_cons_iff in H1 as [He1 H1], H2 as [He2 H2].
  intros [Hi E]%entry_wire_inj; [| done | done].
  apply IH in E as [Hf Hr]; [| done | done | by injection Hl].
  split; [| done]. rewrite !fmap_cons. congruence.
Qed.

Definition root_identity (r : CanonicalMetadata) : option bytes :=
  if is_empty (metadata r) then None else Some (hash r).

Lemma root_wire_inj r1 r2 : root_wire r1 = root_wire r2 -> root_identity r1 = root_identity r2.
Proof.
  unfold root_wire, root_identity.
  destruct (is_empty (metadata r1)), (is_empty (metadata r2)); try done.
  intros [_ ->]%zlen_inj_app; done.
Qed.

Lemma hasher_of_inj c1 c2 :
  let s1 := CanonicalSnapshot.snapshot c1 in
  let s2 := CanonicalSnapshot.snapshot c2 in
  is_u32 (zlen (entries s1)) -> is_u32 (zlen (entries s2)) ->
  Forall entry_bounded (entries s1) -> Forall entry_bounded (entries s2) ->
  CanonicalSnapshot.hasher_of c1 = CanonicalSnapshot.hasher_of c2 ->
  entry_identity <$> entries s1 = entry_identity <$> entries s2
  /\ root_identity (root s1) = root_identity (root s2).
Proof.
  intros s1 s2 Hn1 Hn2 H1 H2. rewrite !hasher_of_eq. fold s1 s2.
  intros [_ E]%zlen_inj_app; [| done].
  apply zlen_inj_app in E as [En E]; [| by rewrite !zlen_le32].
  apply le32_inj in En; [| done | done].
  apply entries_wire_inj in E as [Hf Hr]; [| done | done | unfold zlen in En; lia].
  split; [done | by apply root_wire_inj].
Qed.
End Identity.

(** ** The properties of canonical snapshots *)

(** C10: [CanonicalSnapshot::new] accepts exactly the canonical snapshots: a
    hierarchy in which every sparse extent covers zero bytes of its file and
    every hardlink names an earlier file with the same mode, bytes and metadata
    that is not itself a link, and whose root has neither. It keeps the
    snapshot. *)
Theorem canonical_snapshot_new s c :
  Forall entry_typed (entries s) ->
  CanonicalSnapshot.new s = Ok c <-> canonical_snapshot s /\ CanonicalSnapshot.snapshot c = s.
Proof.
  intros Ht. rewrite snapshot_new_ok by done.
  split; intros [? E]; (split; [done |]); [by rewrite E | by destruct c; cbn in E; subst].
Qed.

Lemma canonical_bounded s :
  canonical_snapshot s -> Forall entry_typed (entries s) ->
  Forall (fun e => is_u64 (zlen (Content.data (econtent e)))) (entries s) ->
  Forall entry_bounded (entries s).
Proof.
  intros [[_ Hs _ _] _ _ _ _]. rewrite !list.Forall_forall in *. intros Ht Hd e He.
  split_and!; [by apply Ht | | by apply Hd].
  pose proof (path_length _ (shape_path _ (Hs e He))) as Hp.
  assert (spath (structure e) = epath e) as Hpe by (unfold structure, entry_view; by destruct (econtent e)).
  rewrite Hpe in Hp. change MAX_PATH_BYTES with 4096 in Hp. unfold is_u32. zlens.
Qed.

(** C11: The bytes hashed for a snapshot determine everything in it: the paths,
    the kinds, modes and contents of the entries in order, and the metadata of
    the entries and of the root up to its own hash. *)
Theorem identity_determines `{Blake3} c1 c2 :
  canonical_snapshot (CanonicalSnapshot.snapshot c1) ->
  canonical_snapshot (CanonicalSnapshot.snapshot c2) ->
  Forall entry_typed (entries (CanonicalSnapshot.snapshot c1)) ->
  Forall entry_typed (entries (CanonicalSnapshot.snapshot c2)) ->
  Forall (fun e => is_u64 (zlen (Content.data (econtent e))))
    (entries (CanonicalSnapshot.snapshot c1) ++ entries (CanonicalSnapshot.snapshot c2)) ->
  CanonicalSnapshot.hasher_of c1 = CanonicalSnapshot.hasher_of c2 ->
  entry_identity <$> entries (CanonicalSnapshot.snapshot c1)
    = entry_identity <$> entries (CanonicalSnapshot.snapshot c2)
  /\ root_identity (root (CanonicalSnapshot.snapshot c1))
    = root_identity (root (CanonicalSnapshot.snapshot c2)).
Proof.
  assert (forall s, canonical_snapshot s -> is_u32 (zlen (entries s))) as Hu.
  { intros s [[Hl _ _ _] _ _ _ _]. change MAX_ENTRIES with 1000000 in Hl. unfold is_u32. zlens. }
  intros ? ? ? ? [? ?]%Forall_app. apply hasher_of_inj; auto using canonical_bounded.
Qed.
