(* ===== verification/SymlinkTransport.v ===== *)
(** * Symlink metadata transport ([rust/src/symlink_transport.rs])

    The per-directory attribute that carries the metadata of the symlinks in
    it: records sorted by name, their validator, the bounded writer, the
    reader, and both directions of the wire contract. *)

From S2P Require Export Directory.

Module Symlinks.
Definition ATTRIBUTE : bytes := lit "difz.symlinks".
Definition MAX_BYTES : Z := 65536.
Definition MAGIC : bytes := lit "DIFZLINK" ++ [x01].
Definition MAX_RECORDS : Z := (MAX_BYTES - zlen MAGIC - 4) / 31.

Inductive Error : Type :=
| InvalidTransport
| TransportTooLarge
| OutOfMemory
| Metadata (e : Metadata.Error).

#[global] Instance Error_eq_dec : EqDecision Error.
Proof. solve_decision. Defined.

Record Record_ : Type := MkRecord {
  name : bytes;
  metadata : CanonicalMetadata;
  absent_times : Z;
  observed_mtime : option Time;
  acl_override : bool;
  finder_override : bool
}.

Record Transport : Type := MkTransport { records : list Record_ }.

(** ** Validation *)

(** [absent_times & bit != 0 && time.is_some()] *)
Definition absent_but_present (absent bit : Z) (time : option Time) : bool :=
  negb (Z.land absent bit =? 0) && bool_decide (is_Some time).

Definition validate (record : Record_) : result Error unit :=
  let m := MetadataCanonical.metadata (metadata record) in
  let t := times m in
  let absent := absent_times record in
  let? _ := fail_if
    (negb (Bool.eqb (bool_decide (is_Some (mtime t)) || negb (Z.land absent 1 =? 0))
             (bool_decide (is_Some (observed_mtime record))))) InvalidTransport in
  let? _ := map_err (fun _ => InvalidTransport) (validate_path (name record)) in
  let? _ := fail_if
    (negb (Z.land absent (Z.lxor 7 255) =? 0)
     || existsb (fun '(bit, time) => absent_but_present absent bit time)
          [(1, mtime t); (2, atime t); (4, btime t)]) InvalidTransport in
  fail_if
    (contains x2f (name record)
     || is_empty m && (absent =? 0) && negb (acl_override record) && negb (finder_override record)
     || negb (bool_decide (holes m = []))
     || bool_decide (is_Some (hardlink_to m))) InvalidTransport.

(** One turn of the loop of [Transport::new]. *)
Definition new_step (previous : option bytes) (record : Record_) : result Error (option bytes) :=
  let? _ := validate record in
  let? _ :=
    match previous with
    | Some p => fail_if (negb (bytes_ltb p (name record))) InvalidTransport
    | None => Ok tt
    end in
  let? _ := map_err Metadata (encode_time_override (observed_mtime record)) in
  Ok (Some (name record)).

Definition new (records : list Record_) : result Error Transport :=
  let? _ := fail_if (MAX_RECORDS <? zlen records) TransportTooLarge in
  let? _ := foldM new_step None records in
  Ok (MkTransport records).

(** ** Encoding *)

Definition add_length (length count : Z) : result Error Z :=
  let? length := ok_or TransportTooLarge (checked_add length count) in
  let? _ := fail_if (MAX_BYTES <? length) TransportTooLarge in
  Ok length.

Definition measure (length : Z) (record : Record_) : result Error Z :=
  let? observed := map_err Metadata (encode_time_override (observed_mtime record)) in
  let? blob := map_err Metadata (encoded_len (metadata record)) in
  foldM add_length length [9; zlen (as_bytes observed); zlen (name record); blob].

Definition flags (record : Record_) : Z :=
  Z.lor (Z.lor (absent_times record) (Z.shiftl (Z.b2z (acl_override record)) 3))
    (Z.shiftl (Z.b2z (finder_override record)) 4).

Definition put_record `{A : Allocator} (s : bytes) (record : Record_) : result Error bytes :=
  let? blob := map_err Metadata
    (@MetadataCanonical.encode (at_moment (zlen s) A) (metadata record)) in
  let? observed := map_err Metadata (encode_time_override (observed_mtime record)) in
  let s := s ++ le32 (zlen (name record)) in
  let s := s ++ le32 (zlen blob) in
  let s := s ++ [as_u8 (flags record)] in
  let s := s ++ as_bytes observed in
  let s := s ++ name record in
  Ok (s ++ blob).

Definition encode `{Allocator} (t : Transport) : result Error bytes :=
  let? length := foldM measure (zlen MAGIC + 4) (records t) in
  let? _ := reserve OutOfMemory 0 0 length in
  foldM put_record (MAGIC ++ le32 (zlen (records t))) (records t).

(** ** Decoding *)

Definition reader_take (length : Z) (c : cursor) : result Error (bytes * cursor) :=
  take_raw InvalidTransport c length.
Definition reader_byte : cursor -> result Error (byte * cursor) := get_byte InvalidTransport.
Definition reader_word : cursor -> result Error (Z * cursor) := get_uint InvalidTransport 4.

(** The presence byte, the time it announces, and the override they spell. *)
Definition read_observed (c : cursor) : result Error (option Time * cursor) :=
  let begin := offset c in
  let? (present, c) := reader_byte c in
  let? c :=
    match present with
    | x00 => Ok c
    | x01 => let? (_, c) := reader_take 12 c in Ok c
    | _ => Err InvalidTransport
    end in
  let? observed := map_err (fun _ => InvalidTransport)
    (decode_time_override (ztake (offset c - begin) (zdrop begin (cbytes c)))) in
  Ok (observed, c).

Definition decode_error (e : Metadata.Error) : Error :=
  match e with
  | Metadata.OutOfMemory => OutOfMemory
  | _ => InvalidTransport
  end.

(** The fields of one record, validated. *)
Definition read_record `{A : Allocator} (c : cursor) : result Error (Record_ * cursor) :=
  let? (name_len, c) := reader_word c in
  let? (meta_len, c) := reader_word c in
  let? (b, c) := reader_byte c in
  let flags := u8 b in
  let? _ := fail_if (negb (Z.land flags 224 =? 0)) InvalidTransport in
  let? (observed, c) := read_observed c in
  let? (name, c) := reader_take name_len c in
  let? (blob, c) := reader_take meta_len c in
  let? m := map_err decode_error (@MetadataDecode.decode (at_moment (offset c) A) blob) in
  let record := MkRecord name m (Z.land flags 7) observed
    (negb (Z.land flags 8 =? 0)) (negb (Z.land flags 16 =? 0)) in
  let? _ := validate record in
  Ok (record, c).

(** The loop over the records, each compared with the last one kept. *)
Fixpoint read_records `{Allocator} (n : nat) (records : list Record_) (c : cursor) :
    result Error (list Record_ * cursor) :=
  match n with
  | O => Ok (records, c)
  | S n =>
      let? (record, c) := read_record c in
      let? _ := fail_if
        match list.last records with
        | Some previous => negb (bytes_ltb (name previous) (name record))
        | None => false
        end InvalidTransport in
      read_records n (records ++ [record]) c
  end.

Definition decode `{Allocator} (s : bytes) : result Error Transport :=
  let? _ := fail_if (MAX_BYTES <? zlen s) TransportTooLarge in
  let? (magic, c) := reader_take (zlen MAGIC) (Cursor s 0) in
  let? _ := fail_if (negb (bool_decide (magic = MAGIC))) InvalidTransport in
  let? (count, c) := reader_word c in
  let? _ := fail_if ((zlen s - offset c) / 31 <? count) InvalidTransport in
  let? _ := reserve OutOfMemory 0 0 count in
  let? (records, c) := read_records (Z.to_nat count) [] c in
  let? _ := fail_if (negb (offset c =? zlen s)) InvalidTransport in
  Ok (MkTransport records).

Definition find (t : Transport) (wanted : bytes) : option Record_ :=
  match search_key name (records t) wanted with
  | Some i => records t !! i
  | None => None
  end.

(** ** What a record may say *)

(** Exactly what the validator requires of a record: an observed modification
    time if and only if the record sets one or declares it absent, a name that
    is a single path component, absent-time bits for times that are indeed
    absent, something to say, and nothing that only files have. *)
Record record_ok (r : Record_) : Prop := {
  ok_observed : is_Some (observed_mtime r) <->
    is_Some (mtime (times (MetadataCanonical.metadata (metadata r)))) \/ Z.testbit (absent_times r) 0 = true;
  ok_path : path_ok (name r);
  ok_name : x2f ∉ name r;
  ok_bits : absent_times r < 8;
  ok_mtime : Z.testbit (absent_times r) 0 = true -> mtime (times (MetadataCanonical.metadata (metadata r))) = None;
  ok_atime : Z.testbit (absent_times r) 1 = true -> atime (times (MetadataCanonical.metadata (metadata r))) = None;
  ok_btime : Z.testbit (absent_times r) 2 = true -> btime (times (MetadataCanonical.metadata (metadata r))) = None;
  ok_says : MetadataCanonical.metadata (metadata r) <> metadata_default \/ absent_times r <> 0
    \/ acl_override r = true \/ finder_override r = true;
  ok_holes : holes (MetadataCanonical.metadata (metadata r)) = [];
  ok_link : hardlink_to (MetadataCanonical.metadata (metadata r)) = None
}.

(** The values a record can hold: by its types, and by the invariant of
    [CanonicalMetadata]. *)
Record record_typed (r : Record_) : Prop := {
  rt_absent : 0 <= absent_times r < 256;
  rt_observed : option_time_typed (observed_mtime r);
  rt_metadata : metadata_typed (MetadataCanonical.metadata (metadata r));
  rt_canonical : canonical (MetadataCanonical.metadata (metadata r))
}.

Lemma absent_but_present_false absent i time :
  0 <= i -> absent_but_present absent (2 ^ i) time = false <->
  (Z.testbit absent i = true -> time = None).
Proof.
  intros Hi. unfold absent_but_present. rewrite land_bit by done.
  destruct time, (Z.testbit absent i); simpl; naive_solver.
Qed.

Lemma eqb_bool_decide (b : bool) (P : Prop) `{Decision P} :
  negb (Bool.eqb b (bool_decide P)) = false <-> (P <-> b = true).
Proof. rewrite negb_false_iff, eqb_true_iff. case_bool_decide; destruct b; naive_solver. Qed.

Lemma validate_ok r : 0 <= absent_times r < 256 -> validate r = Ok tt <-> record_ok r.
Proof.
  intros Ha. unfold validate. cbn [existsb].
  rewrite !rbind_seq_Ok, !fail_if_Ok, map_err_Ok, validate_path_ok, eqb_bool_decide.
  rewrite !orb_false_iff, !andb_false_iff, negb_false_iff, Z.eqb_eq.
  change (Z.lxor 7 255) with (Z.shiftl (Z.ones (8 - 3)) 3).
  rewrite (high_bits_zero _ 3 8) by lia.
  rewrite (absent_but_present_false _ 0), (absent_but_present_false _ 1), (absent_but_present_false _ 2) by done.
  rewrite (land_bit _ 0), orb_true_iff, bool_decide_eq_true, contains_false by done.
  rewrite !negb_false_iff, bool_decide_eq_true, bool_decide_eq_false, Z.eqb_neq.
  rewrite <- (not_true_iff_false (is_empty _)), is_empty_default.
  rewrite <- (eq_None_not_Some (hardlink_to _)). split.
  - intros (? & ? & (? & ? & ? & ? & _) & (((? & ?) & ?) & ?)). constructor; try done; tauto.
  - intros []. split_and!; try done; tauto.
Qed.

(** ** Transports *)

Definition measured_ok (r : Record_) : Prop := record_ok r /\ option_time_valid (observed_mtime r).

Lemma transport_step_Ok p r x :
  record_typed r ->
  new_step p r = Ok x <-> measured_ok r /\ (forall k, p = Some k -> bytes_lt k (name r)) /\ x = Some (name r).
Proof.
  intros [Ha Ho _ _]. unfold new_step, measured_ok. rewrite !rbind_seq_Ok, validate_ok by done.
  assert (match p with Some p => fail_if (negb (bytes_ltb p (name r))) InvalidTransport | None => Ok tt end = Ok tt
    <-> forall k, p = Some k -> bytes_lt k (name r)) as ->.
  { destruct p; [rewrite fail_if_Ok, negb_false_iff, bytes_ltb_lt |]; naive_solver. }
  destruct (encode_time_override (observed_mtime r)) as [b | e] eqn:E; cbn.
  - apply encode_time_override_Ok in E as [Hv _]; [| done]. naive_solver.
  - assert (~ option_time_valid (observed_mtime r)) as Hn; [| naive_solver].
    intros Hv. rewrite (proj2 (encode_time_override_Ok _ _ Ho) (conj Hv eq_refl)) in E. done.
Qed.

(** What [Transport::new] establishes. *)
Record transport_ok (l : list Record_) : Prop := {
  to_count : zlen l <= MAX_RECORDS;
  to_records : Forall measured_ok l;
  to_sorted : StronglySorted (key_lt name) l
}.

Lemma new_Ok l t :
  Forall record_typed l -> new l = Ok t <-> transport_ok l /\ t = MkTransport l.
Proof.
  intros Ht. unfold new. rewrite rbind_seq_Ok, fail_if_Ok, Z.ltb_ge.
  assert (is_ok (foldM new_step None l) = true <-> Forall measured_ok l /\ StronglySorted (key_lt name) l) as Hf.
  { rewrite <- Sorted_key_lt.
    apply (foldM_adjacent_typed name new_step measured_ok (fun k r => bytes_lt k (name r)) record_typed); [| done].
    intros p r x. apply transport_step_Ok. }
  destruct (foldM new_step None l) as [x | e]; cbn in *; split.
  - intros [Hc [= <-]]. by destruct (proj1 Hf eq_refl).
  - intros [[] ->]. done.
  - intros [_ [=]].
  - intros [[Hc Hm Hs] _]. by pose proof (proj2 Hf (conj Hm Hs)).
Qed.

(** ** The wire *)

Definition record_wire (r : Record_) : bytes :=
  le32 (zlen (name r)) ++ le32 (zlen (metadata_wire (MetadataCanonical.metadata (metadata r))))
  ++ [as_u8 (flags r)] ++ override_wire (observed_mtime r) ++ name r
  ++ metadata_wire (MetadataCanonical.metadata (metadata r)).

Definition wire (t : Transport) : bytes :=
  MAGIC ++ le32 (zlen (records t)) ++ (records t ≫= record_wire).

Lemma record_wire_minimum r : record_ok r -> 31 <= zlen (record_wire r).
Proof.
  intros []. unfold record_wire. autorewrite with zlen. zlen_nil.
  assert (zlen (name r) <> 0) by (intros H0%zlen_0_nil; by apply (path_ok_not_nil (name r))).
  pose proof (metadata_wire_minimum (MetadataCanonical.metadata (metadata r))).
  destruct (zlen_override_wire (observed_mtime r)) as [-> | ->]; zlens.
Qed.

Lemma zlen_record_wire r :
  zlen (record_wire r) = 9 + zlen (override_wire (observed_mtime r)) + zlen (name r)
    + zlen (metadata_wire (MetadataCanonical.metadata (metadata r))).
Proof. unfold record_wire. autorewrite with zlen. zlen_nil. lia. Qed.

(** The flags byte carries the three absent-time bits and the two overrides. *)
Lemma flags_byte r :
  0 <= absent_times r < 8 ->
  let b := u8 (as_u8 (flags r)) in
  Z.land b 224 = 0 /\ Z.land b 7 = absent_times r
  /\ negb (Z.land b 8 =? 0) = acl_override r /\ negb (Z.land b 16 =? 0) = finder_override r.
Proof.
  unfold flags. destruct r as [n m absent o acl finder]. cbn [absent_times acl_override finder_override].
  intros Ha. assert (forallb (fun absent => let b := u8 (as_u8 (Z.lor (Z.lor absent (Z.shiftl (Z.b2z acl) 3))
      (Z.shiftl (Z.b2z finder) 4))) in
    (Z.land b 224 =? 0) && (Z.land b 7 =? absent) && Bool.eqb (negb (Z.land b 8 =? 0)) acl
    && Bool.eqb (negb (Z.land b 16 =? 0)) finder) (seqZ 0 8) = true) as Hall
    by (destruct acl, finder; vm_compute; reflexivity).
  apply (all_below 8 _ absent) in Hall; [| done]. cbv zeta in *.
  rewrite !andb_true_iff, !Z.eqb_eq, !eqb_true_iff in Hall. tauto.
Qed.

Lemma flags_of_byte b n m o :
  Z.land (u8 b) 224 = 0 ->
  as_u8 (flags (MkRecord n m (Z.land (u8 b) 7) o
    (negb (Z.land (u8 b) 8 =? 0)) (negb (Z.land (u8 b) 16 =? 0)))) = b.
Proof. intros Hb. destruct b; first [discriminate Hb | reflexivity]. Qed.

Lemma land_seven_range z : 0 <= Z.land z 7 < 8.
Proof. change 7 with (Z.ones 3). rewrite Z.land_ones by lia. by apply Z.mod_pos_bound. Qed.

#[global] Instance wire_reader_byte : Wire reader_byte (fun b => [b]) (fun _ => True).
Proof. apply wire_byte. Qed.
#[global] Instance wire_reader_word : Wire reader_word le32 is_u32.
Proof. apply wire_u32. Qed.
Lemma transport_reader_take n : 0 <= n -> Wire (reader_take n) id (fun s => zlen s = n).
Proof. apply wire_take. Qed.

(** What was read since an earlier position. *)
Lemma read_since (begin : Z) c pre s rest :
  begin = zlen pre -> at_rest c (pre ++ s) rest ->
  ztake (offset c - begin) (zdrop begin (cbytes c)) = s.
Proof.
  intros -> (-> & -> & _). rewrite <- app_assoc, zdrop_app_exact by done.
  apply ztake_app_exact. rewrite zlen_app. lia.
Qed.
Lemma at_rest_offset c pre rest : at_rest c pre rest -> offset c = zlen pre.
Proof. by intros (_ & ? & _). Qed.

#[global] Instance wire_observed : Wire read_observed override_wire option_time_valid.
Proof.
  wire_start.
  - intros x c pre rest Hx Hc. unfold read_observed. pose proof (at_rest_offset _ _ _ Hc) as Hstart.
    destruct x as [t |]; cbn [override_wire] in *.
    + change (x01 :: time_wire t) with ([x01] ++ time_wire t) in *.
      wire_read wire_reader_byte x01; [done |].
      wire_read (transport_reader_take 12 ltac:(done)) (time_wire t); [apply zlen_time_wire |].
      unfold id in *. rewrite <- app_assoc in Hc. rewrite (read_since _ c1 pre _ rest Hstart Hc).
      rewrite (proj2 (decode_time_override_Ok _ (Some t))) by done. cbn [map_err]. wire_done.
    + wire_read wire_reader_byte x00; [done |].
      rewrite (read_since _ c0 pre _ rest Hstart Hc0).
      rewrite (proj2 (decode_time_override_Ok _ None)) by done. cbn [map_err]. wire_done.
  - intros x c c' pre rest Hc Hr. unfold read_observed in Hr. pose proof (at_rest_offset _ _ _ Hc) as Hstart.
    inv_ok. wire_inv.
    destruct x0; try discriminate.
    + injection H0 as <-. rewrite (read_since _ c0 pre _ rest0 Hstart Hc0) in H1.
      apply decode_time_override_Ok in H1 as [Hv Hw1]. rewrite <- Hw1. eauto.
    + apply rbind_Ok in H0 as ([s c1] & Ht & [= <-]).
      destruct (take_raw_Ok InvalidTransport c0 _ rest0 12 s c1 Hc0) as (r & -> & Hl & Hc1 & _);
        [done | exact Ht |].
      rewrite <- app_assoc in Hc1. rewrite (read_since _ c1 pre _ r Hstart Hc1) in H1.
      apply decode_time_override_Ok in H1 as [Hv Hw1]. exists r. rewrite <- Hw1. done.
Qed.

(** ** Records *)

(** A record that is acceptable and whose lengths its fields can state. *)
Record record_wf (r : Record_) : Prop := {
  rwf_typed : record_typed r;
  rwf_ok : measured_ok r;
  rwf_name : is_u32 (zlen (name r));
  rwf_blob : is_u32 (zlen (metadata_wire (MetadataCanonical.metadata (metadata r))))
}.

(** [take_step] inverts the next [take] of the hypotheses. *)
Ltac take_step :=
  match goal with
  | Hc : at_rest ?c ?pre ?rest, Hr : reader_take ?n ?c = Ok (?s, ?c') |- _ =>
      let r := fresh "rest" in
      let Hc' := fresh "Hc" in
      destruct (take_raw_Ok InvalidTransport c pre rest n s c' Hc)
        as (r & -> & <- & Hc' & _);
        [unfold is_u32 in *; zlens | exact Hr |]; clear Hc Hr
  end.

Lemma option_time_valid_typed o : option_time_valid o -> option_time_typed o.
Proof. destruct o as [t |]; [| done]. intros [Hs Hn]. split; [done |]. unfold is_u32, NSEC_LIMIT in *. lia. Qed.

#[global] Instance wire_record_sound `{Allocator} : WireSound read_record record_wire record_wf.
Proof.
  split. intros x c c' pre rest Hc Hr. unfold read_record in Hr. inv_ok. wire_inv. do 2 take_step. zbool.
  match goal with Hd : MetadataDecode.decode ?s = Ok ?m |- _ =>
    assert (zlen s <= usize_max) as Hmax by
      (match goal with Hr : at_rest c' _ _ |- _ => destruct Hr as (_ & _ & Hm); rewrite !zlen_app in Hm; zlens end);
    apply metadata_decode_Ok in Hd as (-> & Ht & Hcan); [| done] end.
  match goal with Hv : validate ?r = Ok tt |- _ =>
    assert (record_typed r) as Hrt by
      (constructor; cbn; [pose proof (land_seven_range (u8 x2)); lia | by apply option_time_valid_typed | done | done]);
    apply validate_ok in Hv; [| apply Hrt] end.
  unfold record_wire. rewrite flags_of_byte by done. cbn. wire_split.
  by constructor.
Qed.

#[global] Instance wire_record `{AllocatorTotal} : Wire read_record record_wire record_wf.
Proof.
  split; [| apply _]. intros r c pre rest [Ht [Hok Hobs] Hn Hb] Hc.
  pose proof Ht as [Habs _ Hmt Hmc].
  destruct (flags_byte r) as (Hf1 & Hf2 & Hf3 & Hf4); [destruct Hok; lia |].
  unfold read_record, record_wire in *.
  wire_read wire_reader_word (zlen (name r)); [done |].
  wire_read wire_reader_word (zlen (metadata_wire (MetadataCanonical.metadata (metadata r)))); [done |].
  wire_read wire_reader_byte (as_u8 (flags r)); [done |].
  rewrite Hf1, Hf2, Hf3, Hf4. cbn [Z.eqb negb fail_if rbind].
  wire_read wire_observed (observed_mtime r); [done |].
  wire_read (transport_reader_take _ (zlen_nonneg (name r))) (name r); [done |].
  wire_read (transport_reader_take _ (zlen_nonneg (metadata_wire (MetadataCanonical.metadata (metadata r)))))
    (metadata_wire (MetadataCanonical.metadata (metadata r))); [done |].
  unfold id in *.
  rewrite metadata_decode_wire by (done || (unfold is_u32, usize_max in *; lia)). cbn [map_err rbind].
  rewrite (proj2 (validate_ok (MkRecord _ _ _ _ _ _) ltac:(cbn; exact Habs))) by (destruct r as [? [] ? ? ? ?]; done).
  cbn [rbind]. destruct r as [? [] ? ? ? ?]. wire_done.
Qed.

(** The loop reads a run of records and requires each name after the last. *)
Lemma read_records_eq `{Allocator} n kept c l c' :
  read_records n kept c = Ok (l, c') <->
  exists more, read_many read_record n c = Ok (more, c') /\ l = kept ++ more
    /\ Sorted (key_lt name) (from_option (fun k => [k]) [] (list.last kept) ++ more).
Proof.
  revert kept c. induction n as [| n IH]; intros kept c; cbn [read_records read_many].
  - split.
    + intros [= <- <-]. exists []. split; [done |]. split; [by rewrite app_nil_r |].
      destruct (list.last kept); cbn; auto.
    + by intros (more & [= <- <-] & -> & _); rewrite app_nil_r.
  - assert (forall r more, match list.last kept with
        | Some previous => negb (bytes_ltb (name previous) (name r))
        | None => false
        end = false /\ Sorted (key_lt name) (r :: more)
      <-> Sorted (key_lt name) (from_option (fun k => [k]) [] (list.last kept) ++ r :: more)) as Hord.
    { intros r more. destruct (list.last kept) as [k |]; cbn [from_option app]; [| tauto].
      rewrite negb_false_iff, bytes_ltb_lt. split.
      - intros [Hk Hs]. constructor; [done | by constructor].
      - intros [Hs Hd]%Sorted_inv. split; [by inversion Hd | done]. }
    split.
    + intros Hr. apply rbind_Ok in Hr as ([r c1] & -> & Hr). cbn [rbind].
      rewrite rbind_seq_Ok, fail_if_Ok in Hr. destruct Hr as [Hlt Hr].
      apply IH in Hr as (more & -> & -> & Hs). rewrite list.last_snoc in Hs. cbn [rbind].
      exists (r :: more). rewrite <- Hord, <- app_assoc. done.
    + intros (more & Hr & -> & Hs). apply rbind_Ok in Hr as ([r c1] & -> & Hr). cbn [rbind].
      apply rbind_Ok in Hr as ([rs c2] & Hr & [= <- <-]). apply Hord in Hs as [-> Hs]. cbn [fail_if rbind].
      apply IH. exists rs. rewrite list.last_snoc, <- app_assoc. done.
Qed.

(** ** The transport *)

Lemma decode_eq `{Allocator} s t :
  zlen s <= usize_max -> decode s = Ok t ->
  s = wire t /\ Forall record_wf (records t) /\ transport_ok (records t) /\ zlen s <= MAX_BYTES.
Proof.
  intros Hs Hd. unfold decode in Hd. inv_ok.
  assert (at_rest (Cursor s 0) [] s) as Hc by by apply at_rest_start.
  edestruct (take_raw_Ok InvalidTransport (Cursor s 0) [] s (zlen MAGIC) x c Hc) as (r & Hl1 & Hl2 & Hc1 & _); [zlens | exact H1 |]. wire_inv.
  apply negb_false_iff, bool_decide_eq_true in H2 as ->.
  match goal with Hr : read_records _ _ _ = Ok _ |- _ =>
    apply read_records_eq in Hr as (l & Hr & -> & Hsorted) end.
  rewrite app_nil_l in *. wire_inv.
  destruct Hw0 as [Hn Hwf]. zbool.
  assert (rest0 = []) as ->.
  { apply zlen_0_nil. destruct Hc1 as (_ & Hoff & _). rewrite Hl1, Hoff in H7.
    rewrite !zlen_app in H7. lia. }
  rewrite app_nil_r in *. subst s.
  assert (x0 = zlen l) as -> by (unfold is_u32, zlen in *; lia).
  assert (Forall measured_ok l) as Hok by (eapply list.Forall_impl; [exact Hwf |]; by intros r []).
  split_and!; [done | done | | done]. constructor; [| done | by apply Sorted_key_lt].
  pose proof (zlen_bind_min record_wire measured_ok 31 l
    (fun r Hr => record_wire_minimum r (proj1 Hr)) Hok) as Hmin.
  rewrite !zlen_app, zlen_le32 in *. change (zlen MAGIC) with 9 in *.
  cbn [records]. change MAX_RECORDS with 2113. unfold MAX_BYTES in *. clear H4. lia.
Qed.

Lemma decode_wire `{AllocatorTotal} t :
  Forall record_wf (records t) -> StronglySorted (key_lt name) (records t) ->
  zlen (wire t) <= MAX_BYTES -> decode (wire t) = Ok t.
Proof.
  intros Hwf Hs Hmax. unfold decode. rewrite (proj2 (Z.ltb_ge _ _)) by done. cbn [fail_if rbind].
  assert (at_rest (Cursor (wire t) 0) [] (wire t)) as Hc
    by (apply at_rest_start; unfold MAX_BYTES, usize_max in *; lia).
  rewrite <- (app_nil_r (wire t)) in Hc at 2. unfold wire at 2 in Hc.
  wire_read (transport_reader_take _ (zlen_nonneg MAGIC)) MAGIC; [done |].
  rewrite bool_decide_eq_true_2 by done. cbn [negb fail_if rbind].
  assert (Forall measured_ok (records t)) as Hok by (eapply list.Forall_impl; [exact Hwf |]; by intros r []).
  pose proof (zlen_bind_min record_wire measured_ok 31 (records t)
    (fun r Hr => record_wire_minimum r (proj1 Hr)) Hok) as Hmin.
  assert (zlen (wire t) = 13 + zlen (records t ≫= record_wire)) as Hlen.
  { unfold wire. rewrite !zlen_app, zlen_le32. change (zlen MAGIC) with 9. lia. }
  wire_read wire_reader_word (zlen (records t)).
  { unfold is_u32, MAX_BYTES in *. zlens. }
  match goal with Hr : at_rest ?c _ _ |- context [offset ?c] => rewrite (at_rest_offset _ _ _ Hr) end.
  rewrite (proj2 (Z.ltb_ge _ _)).
  2: { apply Z.div_le_lower_bound; [done |]. unfold id. rewrite !zlen_app, zlen_le32. zlen_nil.
       change (zlen MAGIC) with 9. lia. }
  cbn [fail_if rbind]. rewrite reserve_total. cbn [rbind].
  assert (length (records t) = Z.to_nat (zlen (records t))) as Hn by (unfold zlen; lia).
  destruct (wire_complete (Wire := wire_many read_record record_wire record_wf
    (Z.to_nat (zlen (records t)))) (records t) c0 _ [] (conj Hn Hwf) Hc)
    as (c' & Hr & Hc').
  rewrite (proj2 (read_records_eq _ [] c0 (records t) c')).
  2: { exists (records t). split_and!; [done | done | by apply Sorted_key_lt]. }
  cbn [rbind]. rewrite (at_rest_offset _ _ _ Hc').
  rewrite (proj2 (Z.eqb_eq _ _)) by (unfold wire, id; rewrite !app_assoc; done).
  cbn [negb fail_if rbind]. by destruct t.
Qed.

(** ** What the writer writes *)

Lemma add_length_Ok length count r :
  0 <= count -> length <= MAX_BYTES ->
  add_length length count = Ok r <-> r = length + count /\ r <= MAX_BYTES.
Proof.
  intros Hc Hl. unfold add_length, checked_add. unfold MAX_BYTES, u64_max in *.
  destruct (Z.leb_spec (length + count) (2 ^ 64 - 1)); cbn [ok_or rbind].
  - rewrite rbind_seq_Ok, fail_if_Ok, Z.ltb_ge. naive_solver lia.
  - split; [done | lia].
Qed.

Lemma add_length_total length count :
  0 <= count -> length + count <= MAX_BYTES -> add_length length count = Ok (length + count).
Proof. intros Hc Hl. apply add_length_Ok; [done | lia | done]. Qed.

Lemma measure_Ok n r m :
  record_typed r -> 0 <= n <= MAX_BYTES ->
  measure n r = Ok m <->
  option_time_valid (observed_mtime r) /\ m = n + zlen (record_wire r) /\ m <= MAX_BYTES.
Proof.
  intros [_ Ho _ _] Hn. unfold measure. rewrite zlen_record_wire. split.
  - intros Hm. inv_ok.
    match goal with He : encode_time_override _ = Ok _ |- _ =>
      rewrite (as_bytes_override _ _ Ho He) in Hm; apply encode_time_override_Ok in He as [Hv _]; [| done] end.
    match goal with He : encoded_len _ = Ok _ |- _ => rewrite encoded_len_eq in He;
      destruct (_ <=? _); [injection He as <- | done] end.
    cbn [foldM] in Hm. inv_ok.
    repeat match goal with
    | Ha : add_length _ _ = Ok _ |- _ => apply add_length_Ok in Ha as [-> ?]; [| zlens | lia]
    end. split_and!; [done | lia | lia].
  - intros (Hv & -> & Hm). destruct (encode_time_override (observed_mtime r)) as [b | e] eqn:He.
    2: { rewrite (proj2 (encode_time_override_Ok _ _ Ho) (conj Hv eq_refl)) in He. done. }
    cbn [map_err rbind]. rewrite (as_bytes_override _ _ Ho He).
    pose proof (zlen_nonneg (name r)). pose proof (zlen_nonneg (override_wire (observed_mtime r))).
    pose proof (zlen_nonneg (metadata_wire (MetadataCanonical.metadata (metadata r)))).
    rewrite encoded_len_eq, (proj2 (Z.leb_le _ _)) by (unfold MAX_BYTES, u64_max in *; zlens).
    cbn [map_err rbind foldM].
    repeat (rewrite add_length_total by lia; cbn [rbind]). f_equal. lia.
Qed.

Lemma measure_fold_Ok l n m :
  Forall record_typed l -> 0 <= n <= MAX_BYTES ->
  foldM measure n l = Ok m <->
  Forall (fun r => option_time_valid (observed_mtime r)) l
  /\ m = n + zlen (l ≫= record_wire) /\ m <= MAX_BYTES.
Proof.
  revert n. induction l as [| r l IH]; intros n Ht Hn; cbn [foldM].
  - cbn. zlen_nil. rewrite Z.add_0_r. split; [| naive_solver]. intros [= <-]. split_and!; done || lia || constructor.
  - apply Forall_cons_iff in Ht as [Hr Ht]. rewrite rbind_Ok, Forall_cons_iff, bind_cons, zlen_app. split.
    + intros (n' & Hm & Hf). apply measure_Ok in Hm as (Hv & -> & Hn'); [| done | done].
      apply IH in Hf as (Hvs & -> & Hm); [| done | zlens]. split_and!; done || lia.
    + intros ([Hv Hvs] & -> & Hm). exists (n + zlen (record_wire r)).
      pose proof (zlen_nonneg (l ≫= record_wire)).
      rewrite measure_Ok, IH by (done || zlens). split_and!; done || lia.
Qed.

Section Writer.
Context `{Allocator}.

Lemma put_record_Ok s r s' :
  record_typed r -> put_record s r = Ok s' -> s' = s ++ record_wire r.
Proof.
  intros [_ Ho _ _] Hp. unfold put_record in Hp. inv_ok.
  match goal with He : MetadataCanonical.encode _ = Ok _ |- _ => apply metadata_encode_Ok in He as [-> _] end.
  match goal with He : encode_time_override _ = Ok _ |- _ => rewrite (as_bytes_override _ _ Ho He) end.
  unfold record_wire. by rewrite <- !app_assoc.
Qed.

Lemma put_record_total `{!AllocatorTotal} s r :
  record_typed r -> option_time_valid (observed_mtime r) ->
  zlen (metadata_wire (MetadataCanonical.metadata (metadata r))) <= u64_max ->
  put_record s r = Ok (s ++ record_wire r).
Proof.
  intros [_ Ho _ _] Hv Hl. unfold put_record. rewrite encode_total by done.
  destruct (encode_time_override (observed_mtime r)) as [b | e] eqn:He.
  2: { rewrite (proj2 (encode_time_override_Ok _ _ Ho) (conj Hv eq_refl)) in He. done. }
  cbn [map_err rbind]. rewrite (as_bytes_override _ _ Ho He).
  unfold record_wire. by rewrite <- !app_assoc.
Qed.

Lemma transport_encode_Ok t s :
  Forall record_typed (records t) -> encode t = Ok s ->
  s = wire t /\ zlen s <= MAX_BYTES /\ Forall (fun r => option_time_valid (observed_mtime r)) (records t).
Proof.
  intros Ht. unfold encode, wire. intros He. inv_ok.
  match goal with Hm : foldM measure _ _ = Ok _ |- _ =>
    apply measure_fold_Ok in Hm as (Hv & -> & Hmax); [| done | done] end.
  assert (s = (MAGIC ++ le32 (zlen (records t))) ++ (records t ≫= record_wire)) as ->.
  { revert He. generalize (MAGIC ++ le32 (zlen (records t))). clear -Ht.
    induction (records t) as [| r l IH]; intros s0; cbn [foldM]; [intros [= <-]; cbn; by rewrite app_nil_r |].
    apply Forall_cons_iff in Ht as [Hr Ht]. intros (s1 & ->%put_record_Ok & Hf)%rbind_Ok; [| done].
    apply IH in Hf as ->; [| done]. by rewrite bind_cons, !app_assoc. }
  rewrite <- app_assoc. split_and!; [done | | done].
  rewrite !zlen_app, zlen_le32. lia.
Qed.

Lemma transport_encode_wire `{!AllocatorTotal} t :
  Forall record_typed (records t) -> Forall measured_ok (records t) ->
  zlen (wire t) <= MAX_BYTES -> encode t = Ok (wire t).
Proof.
  intros Ht Hv Hmax. unfold encode.
  assert (Forall (fun r => option_time_valid (observed_mtime r)) (records t)) as Hvs
    by (eapply list.Forall_impl; [exact Hv |]; by intros r []).
  assert (zlen (wire t) = zlen MAGIC + 4 + zlen (records t ≫= record_wire)) as Hl
    by (unfold wire; rewrite !zlen_app, zlen_le32; lia).
  rewrite (proj2 (measure_fold_Ok (records t) (zlen MAGIC + 4) _ Ht ltac:(done))) by (split_and!; [done | reflexivity | lia]).
  cbn [rbind]. rewrite reserve_total. cbn [rbind].
  assert (forall s0, foldM put_record s0 (records t) = Ok (s0 ++ (records t ≫= record_wire))) as Hp.
  { assert (zlen (records t ≫= record_wire) <= MAX_BYTES) as Hb by (change (zlen MAGIC) with 9 in Hl; lia).
    revert Hb. clear -Ht Hvs H0. induction (records t) as [| r l IH]; intros Hb s0; cbn [foldM].
    - cbn. by rewrite app_nil_r.
    - apply Forall_cons_iff in Ht as [Hr Ht]. apply Forall_cons_iff in Hvs as [Hv Hvs].
      rewrite bind_cons, zlen_app, zlen_record_wire in Hb.
      rewrite put_record_total by (done || (unfold MAX_BYTES, u64_max in *; destruct (zlen_override_wire (observed_mtime r)); zlens)).
      cbn [rbind]. rewrite IH, bind_cons, app_assoc by (done || zlens). done. }
  rewrite Hp. unfold wire. by rewrite <- app_assoc.
Qed.
End Writer.

(** Within the size limit every length fits its field. *)
Lemma bounded_records_wf l :
  Forall record_typed l -> Forall measured_ok l -> zlen (l ≫= record_wire) <= MAX_BYTES ->
  Forall record_wf l.
Proof.
  induction l as [| r l IH]; intros Ht Hok; [constructor |].
  apply Forall_cons_iff in Ht as [Hr Ht]. apply Forall_cons_iff in Hok as [Ho Hok].
  rewrite bind_cons, zlen_app. intros Hb. pose proof (zlen_record_wire r) as Hz.
  pose proof (zlen_nonneg (l ≫= record_wire)). pose proof (zlen_nonneg (record_wire r)).
  constructor; [| apply IH; done || lia].
  pose proof (zlen_nonneg (override_wire (observed_mtime r))).
  constructor; try done; unfold is_u32, MAX_BYTES in *; zlens.
Qed.

(** C27: [Transport::decode] accepts exactly the bytes that [encode] writes for
    a transport that [new] accepts, and returns that transport: sorted names,
    consistent records, at most 65,536 bytes, and nothing else. *)
Theorem symlink_transport_iff `{AllocatorTotal} s t :
  zlen s <= usize_max ->
  decode s = Ok t <->
  Forall record_typed (records t) /\ new (records t) = Ok t /\ encode t = Ok s.
Proof.
  intros Hs. split.
  - intros Hd. apply decode_eq in Hd as (-> & Hwf & Hok & Hmax); [| done].
    assert (Forall record_typed (records t)) as Ht
      by (eapply list.Forall_impl; [exact Hwf |]; by intros r []).
    split_and!; [done | | ].
    + apply new_Ok; [done |]. split; [done | by destruct t].
    + apply transport_encode_wire; [done | apply Hok | done].
  - intros (Ht & [[_ Hok Hsorted] _]%new_Ok & (-> & Hmax & _)%transport_encode_Ok); [| done | done].
    apply decode_wire; [| done | done].
    assert (zlen (records t ≫= record_wire) <= MAX_BYTES) as Hb
      by (unfold wire in Hmax; rewrite !zlen_app in Hmax; zlens).
    by apply bounded_records_wf.
Qed.

(** [Transport::new] accepts exactly the bounded lists of consistent
    records in strictly ascending name order, each saying something about one
    path component's times, attributes or overrides, and keeps them; [find]
    then returns the one record of a name, or nothing when there is none. *)
Lemma symlink_records l :
  Forall record_typed l ->
  match new l with
  | Ok t =>
      transport_ok l /\ records t = l
      /\ forall wanted r, find t wanted = Some r <-> r ∈ l /\ name r = wanted
  | Err _ => ~ transport_ok l
  end.
Proof.
  intros Ht. pose proof (new_Ok l) as Hnew. destruct (new l) as [t | e].
  - destruct (proj1 (Hnew t Ht) eq_refl) as [Hok ->]. split_and!; [done | done |]. intros wanted r.
    unfold find. cbn [records]. pose proof (to_sorted l Hok) as Hs.
    destruct (search_key name l wanted) as [i |] eqn:Hi.
    + apply search_key_correct in Hi as (x & Hx & Hn); [| done]. rewrite Hx. split.
      * intros [= ->]. split; [by eapply list_elem_of_lookup_2 | done].
      * intros [[j Hj]%list_elem_of_lookup Hr]. f_equal.
        assert (search_key name l wanted = Some i) as Ei by (apply search_key_correct; eauto).
        assert (search_key name l wanted = Some j) as Ej by (apply search_key_correct; eauto).
        congruence.
    + split; [done |]. intros [Hr Hn]. by destruct (proj1 (search_key_None name l wanted Hs) Hi r Hr).
  - intros Hok. by pose proof (proj2 (Hnew (MkTransport l) Ht) (conj Hok eq_refl)).
Qed.

(** A link with an access time and a declared-absent modification time, and a
    link whose access-control override alone is recorded. *)
Section Sample.
#[local] Existing Instances plentiful.

Definition sample_links : list Record_ :=
  [MkRecord (lit "a") (MkCanonicalMetadata
     (MkMetadata [] [] None (MkTimes None (Some (MkTime 5 6)) None) 0 None [] None)) 1
     (Some (MkTime (-1) 7)) false false;
   MkRecord (lit "b") canonical_default 0 None true false].

#[global] Instance record_typed_dec r : Decision (record_typed r).
Proof.
  refine (cast_if (decide ((0 <= absent_times r < 256 /\ option_time_typed (observed_mtime r))
    /\ metadata_typed (MetadataCanonical.metadata (metadata r))
    /\ canonical (MetadataCanonical.metadata (metadata r)))));
    [destruct_and!; by constructor | intros []; naive_solver].
Defined.

Lemma symlink_transport_iff_witness :
  exists s, zlen s <= usize_max /\ encode (MkTransport sample_links) = Ok s
    /\ decode s = Ok (MkTransport sample_links).
Proof.
  assert (bool_decide (Forall record_typed sample_links) = true) as Ht by (vm_compute; reflexivity).
  apply bool_decide_eq_true in Ht.
  assert (new sample_links = Ok (MkTransport sample_links)) as Hn by (vm_compute; reflexivity).
  assert (zlen (wire (MkTransport sample_links)) <= usize_max) as Hl by (vm_compute; discriminate).
  assert (encode (MkTransport sample_links) = Ok (wire (MkTransport sample_links))) as He
    by (vm_compute; reflexivity).
  exists (wire (MkTransport sample_links)). split; [exact Hl |]. split; [exact He |].
  exact (proj2 (symlink_transport_iff _ (MkTransport sample_links) Hl) (conj Ht (conj Hn He))).
Defined.

Lemma symlink_records_witness :
  exists r, new sample_links = Ok (MkTransport sample_links)
    /\ find (MkTransport sample_links) (lit "b") = Some r /\ acl_override r = true.
Proof.
  assert (bool_decide (Forall record_typed sample_links) = true) as Ht by (vm_compute; reflexivity).
  apply bool_decide_eq_true in Ht.
  assert (new sample_links = Ok (MkTransport sample_links)) as Hn by (vm_compute; reflexivity).
  pose proof (symlink_records sample_links Ht) as H. rewrite Hn in H.
  destruct H as (_ & _ & Hf). exists (MkRecord (lit "b") canonical_default 0 None true false).
  split; [exact Hn |]. split; [| reflexivity].
  apply Hf. split; [apply list_elem_of_further, list_elem_of_here | reflexivity].
Defined.
End Sample.
End Symlinks.
