(* ===== verification/LinuxAcl.v ===== *)
(** * Linux access control lists ([rust/src/linux_acl.rs])

    The kernel's POSIX ACL records, their validator, their portable form, and
    the container that holds an access list and a default list. *)

From S2P Require Export MetadataNormalize.

Module Acl.
Definition MAGIC : bytes := lit "DIFZACL" ++ [x01].

Inductive Error : Type := InvalidAcl | OutOfMemory | UnrepresentableAcl.

#[global] Instance Error_eq_dec : EqDecision Error.
Proof. solve_decision. Defined.

(** ** Principals *)

(** [checked_mul] and [checked_add] on [u32] *)
Definition checked_u32 (z : Z) : option Z := if z <=? u32_max then Some z else None.

Definition principal_digit (negative : bool) (value : Z) (b : byte) : result Error Z :=
  if Byte.eqb b x5f then Ok value
  else
    let? _ := fail_if (negb (is_ascii_digit b) || negative && negb (Byte.eqb b x30))
                UnrepresentableAcl in
    let? value := ok_or UnrepresentableAcl (checked_u32 (value * 10)) in
    ok_or UnrepresentableAcl (checked_u32 (value + (u8 b - u8 x30))).

Definition principal (name : bytes) : result Error Z :=
  let '(negative, digits) :=
    match name with
    | x2b :: digits => (false, digits)
    | x2d :: digits => (true, digits)
    | _ => (false, name)
    end in
  let? _ := fail_if
    (bool_decide (digits = []) || starts_with (lit "_") digits || ends_with (lit "_") digits)
    UnrepresentableAcl in
  foldM (principal_digit negative) 0 digits.

(** [loop { begin -= 1; digits[begin] = ...; value /= 10; ... }]: ten digits
    hold every 32-bit value, so ten turns are enough. *)
Fixpoint decimal_loop (fuel : nat) (digits : bytes) (begin value : Z) : bytes * Z :=
  match fuel with
  | O => (digits, begin)
  | S fuel =>
      let begin := begin - 1 in
      let digits := write_at begin [as_u8 (u8 x30 + value mod 10)] digits in
      let value := value / 10 in
      if value =? 0 then (digits, begin) else decimal_loop fuel digits begin value
  end.

Definition decimal `{Allocator} (value : Z) : result Error bytes :=
  let digits := zeros 10 in
  let '(digits, begin) := decimal_loop 10 digits (zlen digits) value in
  let? _ := reserve OutOfMemory 0 0 (zlen digits - begin) in
  Ok (zdrop begin digits).

(** ** Kernel records *)

Definition tag (value : Z) : result Error AceTag.AceTag :=
  match value with
  | 1 => Ok AceTag.Owner
  | 2 => Ok AceTag.NamedUser
  | 4 => Ok AceTag.Group
  | 8 => Ok AceTag.NamedGroup
  | 16 => Ok AceTag.Mask
  | 32 => Ok AceTag.Everyone
  | _ => Err InvalidAcl
  end.

(** [bytes.chunks_exact(8)] *)
Fixpoint chunks_exact8 (s : bytes) : list bytes :=
  match s with
  | a :: b :: c :: d :: e :: f :: g :: h :: s => [a; b; c; d; e; f; g; h] :: chunks_exact8 s
  | _ => []
  end.

(** The little-endian fields of a record's eight bytes. *)
Definition entry_tag (entry : bytes) : Z := of_le (ztake 2 entry).
Definition entry_permission (entry : bytes) : Z := of_le (ztake 2 (zdrop 2 entry)).
Definition entry_id (entry : bytes) : Z := of_le (zdrop 4 entry).

Record State : Type := MkState { base : Z; last_tag : Z; last_id : Z; named : bool }.

(** [match kind { ... }] *)
Definition base_bit (kind : AceTag.AceTag) : Z :=
  match kind with
  | AceTag.Owner => 1
  | AceTag.Group => 2
  | AceTag.Mask => 4
  | AceTag.Everyone => 8
  | AceTag.NamedUser | AceTag.NamedGroup => 0
  end.

(** One turn of the loop of [PosixAcl::new]. *)
Definition new_step (st : State) (entry : bytes) : result Error State :=
  let raw_tag := entry_tag entry in
  let id := entry_id entry in
  let? _ := fail_if ((7 <? entry_permission entry) || (raw_tag <? last_tag st)) InvalidAcl in
  let? kind := tag raw_tag in
  match kind with
  | AceTag.NamedUser | AceTag.NamedGroup =>
      let? _ := fail_if ((id =? u32_max) || (raw_tag =? last_tag st) && (id <=? last_id st)) InvalidAcl in
      Ok (MkState (base st) raw_tag id true)
  | AceTag.Owner | AceTag.Group | AceTag.Mask | AceTag.Everyone =>
      let? _ := fail_if (negb (id =? u32_max) || (raw_tag =? last_tag st)) InvalidAcl in
      Ok (MkState (Z.lor (base st) (base_bit kind)) raw_tag id (named st))
  end.

(** [PosixAcl { bytes }]; its field is private. *)
Record PosixAcl : Type := MkPosixAcl { abytes : bytes }.

#[global] Instance PosixAcl_eq_dec : EqDecision PosixAcl.
Proof. solve_decision. Defined.

Definition new (s : bytes) : result Error PosixAcl :=
  if bool_decide (s = []) then Ok (MkPosixAcl s)
  else
    let? _ := fail_if
      ((zlen s <? 4) || negb ((zlen s - 4) mod 8 =? 0) || negb (bool_decide (ztake 4 s = le32 2)))
      InvalidAcl in
    let? st := foldM new_step (MkState 0 0 0 false) (chunks_exact8 (zdrop 4 s)) in
    let? _ := fail_if
      (negb (Z.land (base st) 11 =? 11) || named st && (Z.land (base st) 4 =? 0)) InvalidAcl in
    Ok (MkPosixAcl s).

(** ** The portable form *)

Definition principal_name `{Allocator} (kind : AceTag.AceTag) (id : Z) : result Error bytes :=
  match kind with
  | AceTag.NamedUser | AceTag.NamedGroup => decimal id
  | AceTag.Owner | AceTag.Group | AceTag.Mask | AceTag.Everyone => Ok []
  end.

(** [entry[2]]'s three bits, reversed. *)
Definition portable_bits (permission : Z) : Z :=
  Z.lor (Z.lor (Z.shiftr (Z.land permission 4) 2) (Z.land permission 2))
    (Z.shiftl (Z.land permission 1) 2).

Definition portable_entry `{Allocator} (entry : bytes) : result Error Ace :=
  let? kind := tag (entry_tag entry) in
  let permission := of_le (ztake 1 (zdrop 2 entry)) in
  let? name := principal_name kind (entry_id entry) in
  let? permissions := map_err (fun _ => InvalidAcl)
    (permissions_from_bits (as_u8 (portable_bits permission))) in
  Ok (MkAce kind permissions name).

Definition portable `{A : Allocator} (acl : PosixAcl) : result Error (list Ace) :=
  if bool_decide (abytes acl = []) then Ok []
  else
    let? _ := reserve OutOfMemory 0 0 ((zlen (abytes acl) - 4) / 8) in
    foldM (fun aces entry =>
        let? ace := @portable_entry (at_moment (zlen aces) A) entry in Ok (aces ++ [ace])) []
      (chunks_exact8 (zdrop 4 (abytes acl))).

(** [(tag, id, perm)] *)
Record KernelEntry : Type := MkKernelEntry { ktag : Z; kid : Z; kperm : Z }.

Definition kernel_tag (t : AceTag.AceTag) : Z :=
  match t with
  | AceTag.Owner => 1
  | AceTag.Group => 4
  | AceTag.Everyone => 32
  | AceTag.Mask => 16
  | AceTag.NamedUser => 2
  | AceTag.NamedGroup => 8
  end.

Definition kernel_perm (p : Permissions) : Z :=
  Z.lor (Z.lor (Z.shiftl (Z.b2z (permissions_contains p READ)) 2)
           (Z.shiftl (Z.b2z (permissions_contains p WRITE)) 1))
    (Z.b2z (permissions_contains p EXECUTE)).

Definition kernel_entry (a : Ace) : result Error KernelEntry :=
  let? id :=
    match atag a with
    | AceTag.Owner | AceTag.Group | AceTag.Everyone | AceTag.Mask => Ok u32_max
    | AceTag.NamedUser | AceTag.NamedGroup => principal (aname a)
    end in
  Ok (MkKernelEntry (kernel_tag (atag a)) id (kernel_perm (apermissions a))).

Definition key_cmp (a b : KernelEntry) : comparison :=
  match ktag a ?= ktag b with
  | Eq => kid a ?= kid b
  | c => c
  end.

Definition write_entry (e : KernelEntry) : bytes := le16 (ktag e) ++ le16 (kperm e) ++ le32 (kid e).

(** [sort_unstable_by_key] as a stable sort: entries with equal keys are
    rejected by the final validation in either order. *)
Definition encode_portable `{Allocator} (m : CanonicalMetadata) : result Error bytes :=
  let aces := aces (metadata m) in
  if bool_decide (aces = []) then Ok []
  else
    let? _ := reserve OutOfMemory 0 0 (zlen aces) in
    let? entries :=
      foldM (fun entries a => let? e := kernel_entry a in Ok (entries ++ [e])) [] aces in
    let entries := sort_by key_cmp entries in
    let? length := ok_or InvalidAcl
      match checked_mul (zlen entries) 8 with
      | Some n => checked_add n 4
      | None => None
      end in
    let? _ := reserve OutOfMemory 1 0 length in
    let s := foldl (fun s e => s ++ write_entry e) (le32 2) entries in
    let? _ := new s in
    Ok s.

(** ** The container *)

Record LinuxAcl : Type := MkLinuxAcl { access : PosixAcl; default : PosixAcl }.

Definition encode `{Allocator} (l : LinuxAcl) : result Error bytes :=
  let? a := ok_or InvalidAcl (checked_u32 (zlen (abytes (access l)))) in
  let? d := ok_or InvalidAcl (checked_u32 (zlen (abytes (default l)))) in
  let? length := ok_or InvalidAcl
    match checked_add (zlen (abytes (access l))) (zlen (abytes (default l))) with
    | Some n => checked_add n 16
    | None => None
    end in
  let? _ := reserve OutOfMemory 0 0 length in
  Ok (MAGIC ++ le32 a ++ le32 d ++ abytes (access l) ++ abytes (default l)).

Definition decode (s : bytes) : result Error LinuxAcl :=
  let? _ := fail_if ((zlen s <? 16) || negb (bool_decide (ztake 8 s = MAGIC))) InvalidAcl in
  let access := of_le (ztake 4 (zdrop 8 s)) in
  let default := of_le (ztake 4 (zdrop 12 s)) in
  let? _ := fail_if (negb (access + default =? zlen s - 16)) InvalidAcl in
  let boundary := 16 + access in
  let? access := new (ztake (boundary - 16) (zdrop 16 s)) in
  let? default := new (zdrop boundary s) in
  Ok (MkLinuxAcl access default).

(** ** Decimal principals *)

(** The decimal digits of a value, most significant first. *)
Fixpoint digits_of (fuel : nat) (value : Z) : bytes :=
  match fuel with
  | O => []
  | S fuel =>
      (if value / 10 =? 0 then [] else digits_of fuel (value / 10)) ++ [as_u8 (u8 x30 + value mod 10)]
  end.

Lemma zeros_snoc n : zeros (S n) = zeros n ++ [x00].
Proof. apply replicate_cons_app. Qed.

Lemma decimal_loop_digits fuel k value tail :
  0 <= value < 10 ^ Z.of_nat fuel -> (0 < fuel <= k)%nat ->
  exists n, decimal_loop fuel (zeros k ++ tail) (Z.of_nat k) value
    = (zeros n ++ digits_of fuel value ++ tail, Z.of_nat n).
Proof.
  revert k value tail. induction fuel as [| fuel IH]; intros k value tail Hv Hk; [lia |].
  destruct k as [| k]; [lia |]. cbn [decimal_loop digits_of].
  replace (Z.of_nat (S k) - 1) with (Z.of_nat k) by lia.
  rewrite zeros_snoc, <- app_assoc, (write_at_app (zeros k) [x00] tail) by (unfold zlen, zeros; rewrite ?length_replicate; done).
  destruct (value / 10 =? 0) eqn:Hq; [by exists k |]. zbool.
  rewrite Nat2Z.inj_succ, Z.pow_succ_r in Hv by lia.
  assert (0 <= value / 10 < 10 ^ Z.of_nat fuel) as Hd
    by (split; [apply Z.div_pos; lia | apply Z.div_lt_upper_bound; lia]).
  assert (0 < fuel)%nat by (destruct fuel; [change (10 ^ Z.of_nat 0) with 1 in Hd; lia | lia]).
  destruct (IH k (value / 10) ([as_u8 (u8 x30 + value mod 10)] ++ tail) Hd) as [n E]; [lia |].
  exists n. rewrite E. by rewrite <- app_assoc.
Qed.

Lemma digit_u8 d : 0 <= d < 10 -> u8 (as_u8 (u8 x30 + d)) = 48 + d.
Proof. intros Hd. change (u8 x30) with 48. apply u8_as_u8_small. lia. Qed.

Lemma digits_of_digits fuel value :
  0 <= value -> Forall (fun b => is_ascii_digit b = true) (digits_of fuel value).
Proof.
  revert value. induction fuel as [| fuel IH]; intros value Hv; cbn [digits_of]; [constructor |].
  apply Forall_app. split.
  - destruct (_ =? _); [constructor |]. apply IH. apply Z.div_pos; lia.
  - constructor; [| constructor]. unfold is_ascii_digit.
    pose proof (Z.mod_pos_bound value 10). rewrite digit_u8 by lia. zbool. lia.
Qed.

Lemma digits_of_value fuel value :
  0 <= value < 10 ^ Z.of_nat fuel -> value <= u32_max ->
  foldM (principal_digit false) 0 (digits_of fuel value) = Ok value.
Proof.
  revert value. induction fuel as [| fuel IH]; intros value Hv Hm; cbn [digits_of].
  { change (10 ^ Z.of_nat 0) with 1 in Hv. by replace value with 0 by lia. }
  rewrite Nat2Z.inj_succ, Z.pow_succ_r in Hv by lia.
  pose proof (Z.div_mod value 10 ltac:(lia)). pose proof (Z.mod_pos_bound value 10 ltac:(lia)).
  assert (0 <= value / 10 < 10 ^ Z.of_nat fuel) as Hd
    by (split; [apply Z.div_pos; lia | apply Z.div_lt_upper_bound; lia]).
  assert (foldM (principal_digit false) 0 (if value / 10 =? 0 then [] else digits_of fuel (value / 10))
    = Ok (value / 10)) as Hf.
  { destruct (Z.eqb_spec (value / 10) 0) as [-> |]; [done |]. apply IH; [done | lia]. }
  rewrite foldM_app, Hf. cbn [rbind foldM].
  assert (u8 (as_u8 (u8 x30 + value mod 10)) = 48 + value mod 10) as Hu by (apply digit_u8; lia).
  unfold principal_digit.
  rewrite (proj2 (byte_eqb_neq _ x5f)) by (intros E; rewrite E in Hu; change (u8 x5f) with 95 in Hu; lia).
  unfold is_ascii_digit. rewrite Hu.
  replace (_ && _) with true by (symmetry; zbool; lia). cbn [negb orb andb fail_if rbind].
  change (u8 x30) with 48.
  unfold checked_u32. rewrite (proj2 (Z.leb_le _ _)) by lia. cbn [ok_or rbind].
  rewrite (proj2 (Z.leb_le _ _)) by lia. cbn [ok_or rbind]. f_equal. lia.
Qed.

Definition decimal_text (value : Z) : bytes := digits_of 10 value.

Lemma decimal_text_Ok `{Allocator} `{!AllocatorTotal} value :
  is_u32 value -> decimal value = Ok (decimal_text value).
Proof.
  unfold is_u32. intros Hv. unfold decimal. change (zlen (zeros 10)) with (Z.of_nat 10).
  destruct (decimal_loop_digits 10 10 value []) as [n E]; [lia | lia |].
  rewrite app_nil_r in E. rewrite E, reserve_total. cbn [rbind]. f_equal.
  rewrite app_nil_r. apply zdrop_app_exact. unfold zlen, zeros. by rewrite length_replicate.
Qed.

Lemma decimal_text_digits value :
  0 <= value -> Forall (fun b => is_ascii_digit b = true) (decimal_text value).
Proof. apply digits_of_digits. Qed.
Lemma decimal_text_nonempty value : decimal_text value <> [].
Proof. unfold decimal_text. cbn [digits_of]. by destruct (if value / 10 =? 0 then _ else _). Qed.

Lemma digits_no_affix b l :
  is_ascii_digit b = false -> Forall (fun b => is_ascii_digit b = true) l ->
  starts_with [b] l = false /\ ends_with [b] l = false.
Proof.
  intros Hb Hl.
  assert (forall t, l <> b :: t) as H1 by (intros t ->; apply Forall_cons_iff in Hl as [? _]; congruence).
  assert (forall t, l <> t ++ [b]) as H2
    by (intros t ->; apply Forall_app in Hl as [_ [? _]%Forall_cons_iff]; congruence).
  split; apply not_true_is_false.
  - intros [t Ht]%starts_with_true. by apply (H1 t).
  - unfold ends_with. rewrite bool_decide_eq_true. intros [t Ht%strip_suffix_Some]. by apply (H2 t).
Qed.

Lemma principal_decimal value : is_u32 value -> principal (decimal_text value) = Ok value.
Proof.
  unfold is_u32. intros Hv. unfold principal.
  pose proof (decimal_text_digits value ltac:(lia)) as Hd.
  pose proof (decimal_text_nonempty value) as Hn.
  assert (foldM (principal_digit false) 0 (decimal_text value) = Ok value) as Hf
    by (apply digits_of_value; unfold u32_max; lia).
  destruct (digits_no_affix x5f _ eq_refl Hd) as [Hs He].
  destruct (decimal_text value) as [| b l] eqn:E; [done |].
  assert (is_ascii_digit b = true) as Hb by by apply Forall_cons_iff in Hd as [? _].
  assert ((match b :: l with
    | x2b :: digits => (false, digits) | x2d :: digits => (true, digits) | _ => (false, b :: l) end)
    = (false, b :: l)) as -> by (destruct b; done).
  change (lit "_") with [x5f]. rewrite Hs, He. done.
Qed.

Lemma digit_range b : is_ascii_digit b = true -> 48 <= u8 b <= 57.
Proof. unfold is_ascii_digit. intros Hb. zbool. lia. Qed.

Lemma length_digits_of fuel value : (length (digits_of fuel value) <= fuel)%nat.
Proof.
  revert value. induction fuel as [| fuel IH]; intros value; cbn [digits_of]; [done |].
  rewrite length_app. specialize (IH (value / 10)). destruct (_ =? _); cbn [length]; lia.
Qed.

(** A decimal principal is an acceptable portable name. *)
Lemma decimal_name_ok value k :
  is_u32 value -> k = AceTag.NamedUser \/ k = AceTag.NamedGroup ->
  validate_ace_name k (decimal_text value) = Ok tt /\ zlen (decimal_text value) <= u32_max.
Proof.
  unfold is_u32. intros Hv Hk. pose proof (decimal_text_digits value ltac:(lia)) as Hd.
  pose proof (length_digits_of 10 value) as Hl. fold (decimal_text value) in Hl.
  assert (forall b, is_ascii_digit b = false -> contains b (decimal_text value) = false) as Hc.
  { intros b Hb. apply contains_false. intros Hin. rewrite list.Forall_forall in Hd.
    specialize (Hd b Hin). congruence. }
  split; [| unfold zlen, u32_max; lia]. unfold validate_ace_name.
  assert (negb (bool_decide (decimal_text value = [])) && is_utf8 (decimal_text value)
    && negb (contains x2f (decimal_text value)) && negb (contains x00 (decimal_text value)) = true) as Hok.
  { rewrite bool_decide_eq_false_2 by apply decimal_text_nonempty. rewrite !Hc by done.
    rewrite is_utf8_ascii; [done |]. eapply list.Forall_impl; [exact Hd |].
    intros b Hb%digit_range. lia. }
  destruct Hk as [-> | ->]; by rewrite Hok.
Qed.

(** ** Kernel entries *)

Definition entry_of (entry : bytes) : KernelEntry :=
  MkKernelEntry (entry_tag entry) (entry_id entry) (entry_permission entry).

Record entry_typed (e : KernelEntry) : Prop := {
  et_tag : is_u16 (ktag e);
  et_perm : is_u16 (kperm e);
  et_id : is_u32 (kid e)
}.

Lemma write_entry_of c : zlen c = 8 -> write_entry (entry_of c) = c.
Proof.
  intros Hc. unfold write_entry, entry_of, entry_tag, entry_permission, entry_id. cbn.
  rewrite !le16_of_le, le32_of_le by (rewrite ?zlen_ztake, ?zlen_zdrop; rewrite ?zlen_zdrop; lia).
  replace (zdrop 4 c) with (zdrop 2 (zdrop 2 c)).
  - by rewrite ztake_zdrop, ztake_zdrop.
  - unfold zdrop. by rewrite drop_drop.
Qed.

Lemma zlen_write_entry e : zlen (write_entry e) = 8.
Proof. unfold write_entry. autorewrite with zlen. done. Qed.

Lemma entry_of_write e : entry_typed e -> entry_of (write_entry e) = e.
Proof.
  intros [Ht Hp Hi]. unfold write_entry, entry_of, entry_tag, entry_permission, entry_id.
  rewrite (ztake_app_exact (le16 (ktag e))), (zdrop_app_exact (le16 (ktag e)) _ 2), (ztake_app_exact (le16 (kperm e)))
    by (by rewrite zlen_le16).
  rewrite app_assoc, zdrop_app_exact by (rewrite zlen_app, !zlen_le16; done).
  rewrite !of_le_le16, of_le_le32 by done. by destruct e.
Qed.

Lemma entry_of_typed c : zlen c = 8 -> entry_typed (entry_of c).
Proof.
  intros Hc. constructor; cbn; [apply of_le_u16 | apply of_le_u16 | apply of_le_u32];
    rewrite ?zlen_ztake, ?zlen_zdrop; rewrite ?zlen_zdrop; lia.
Qed.

Lemma chunks_exact8_cons c s : zlen c = 8 -> chunks_exact8 (c ++ s) = c :: chunks_exact8 s.
Proof.
  unfold zlen. intros Hc. do 8 (destruct c as [| ? c]; [cbn in Hc; lia |]).
  destruct c; [done | cbn in Hc; lia].
Qed.

Lemma chunks_exact8_entries es : chunks_exact8 (es ≫= write_entry) = write_entry <$> es.
Proof.
  induction es as [| e es IH]; [done |].
  by rewrite bind_cons, chunks_exact8_cons, IH by apply zlen_write_entry.
Qed.

(** Bytes in eights are the entries they spell. *)
Lemma entries_exist s :
  zlen s mod 8 = 0 -> exists es, s = es ≫= write_entry /\ Forall entry_typed es.
Proof.
  remember (length s) as n eqn:Hn. revert s Hn. induction n as [n IH] using lt_wf_ind. intros s -> Hm.
  destruct (decide (s = [])) as [-> | Hs]; [by exists [] |].
  assert (8 <= zlen s) as H8.
  { pose proof (zlen_nonneg s). destruct (Z.le_gt_cases 8 (zlen s)); [done |].
    rewrite Z.mod_small in Hm by lia. by apply zlen_0_nil in Hm. }
  assert (zlen (ztake 8 s) = 8) as Ht by (apply zlen_ztake; lia).
  destruct (IH (length (zdrop 8 s))) with (s := zdrop 8 s) as (es & He & Hty).
  - assert (zlen (zdrop 8 s) = zlen s - 8) as Hd by (apply zlen_zdrop; lia). unfold zlen in *. lia.
  - done.
  - rewrite zlen_zdrop by lia. rewrite <- Hm. symmetry.
    replace (zlen s) with (zlen s - 8 + 1 * 8) at 1 by lia. by rewrite Z.mod_add.
  - exists (entry_of (ztake 8 s) :: es). split; [| constructor; [by apply entry_of_typed | done]].
    rewrite bind_cons, write_entry_of by done. rewrite <- He. by rewrite ztake_zdrop.
Qed.

(** ** What the validator requires *)

Definition is_named (k : AceTag.AceTag) : bool :=
  match k with
  | AceTag.NamedUser | AceTag.NamedGroup => true
  | AceTag.Owner | AceTag.Group | AceTag.Mask | AceTag.Everyone => false
  end.

(** An entry of a known tag, with the principal a named tag needs and no
    principal otherwise. *)
Definition entry_ok (e : KernelEntry) : Prop :=
  kperm e <= 7 /\ exists k, ktag e = kernel_tag k
    /\ if is_named k then kid e <> u32_max else kid e = u32_max.

(** The kernel's order: by tag, then by principal. *)
Definition entry_lt (a b : KernelEntry) : Prop :=
  ktag a < ktag b \/ ktag a = ktag b /\ kid a < kid b.

Definition has_kind (k : AceTag.AceTag) (es : list KernelEntry) : Prop :=
  exists e, e ∈ es /\ ktag e = kernel_tag k.

(** A complete list: entries in strict order, the three base classes, and a
    mask whenever a user or group is named. *)
Record entries_ok (es : list KernelEntry) : Prop := {
  eo_entries : Forall entry_ok es;
  eo_sorted : Sorted entry_lt es;
  eo_owner : has_kind AceTag.Owner es;
  eo_group : has_kind AceTag.Group es;
  eo_everyone : has_kind AceTag.Everyone es;
  eo_mask : has_kind AceTag.NamedUser es \/ has_kind AceTag.NamedGroup es -> has_kind AceTag.Mask es
}.

Definition acl_wire (es : list KernelEntry) : bytes := le32 2 ++ (es ≫= write_entry).

(** The extended attribute's value: nothing, or version 2 and a complete list. *)
Definition posix_acl (s : bytes) : Prop :=
  s = [] \/ exists es, s = acl_wire es /\ Forall entry_typed es /\ entries_ok es.

Lemma tag_kernel k : tag (kernel_tag k) = Ok k.
Proof. by destruct k. Qed.

Lemma tag_Ok z k : tag z = Ok k -> z = kernel_tag k.
Proof.
  unfold tag. intros Hz.
  repeat (case_match; try discriminate; try (injection Hz as <-; reflexivity)).
Qed.

Lemma tag_Err z e : tag z = Err e -> e = InvalidAcl /\ forall k, z <> kernel_tag k.
Proof.
  intros Hz. split.
  - unfold tag in Hz. repeat (case_match; try discriminate; try congruence).
  - intros k ->. by rewrite tag_kernel in Hz.
Qed.

(** The kind of an entry of a known tag. *)
Definition kind_of (e : KernelEntry) : AceTag.AceTag :=
  match tag (ktag e) with
  | Ok k => k
  | Err _ => AceTag.Mask
  end.

Lemma kind_of_kernel e k : ktag e = kernel_tag k -> kind_of e = k.
Proof. unfold kind_of. intros ->. by rewrite tag_kernel. Qed.

(** What the loop has recorded after a list of entries. *)
Definition state_after (es : list KernelEntry) : State :=
  MkState (foldl (fun b e => Z.lor b (base_bit (kind_of e))) 0 es)
    (from_option ktag 0 (list.last es)) (from_option kid 0 (list.last es))
    (existsb (fun e => is_named (kind_of e)) es).

Lemma state_after_snoc es e :
  state_after (es ++ [e]) =
  MkState (Z.lor (base (state_after es)) (base_bit (kind_of e))) (ktag e) (kid e)
    (named (state_after es) || is_named (kind_of e)).
Proof.
  unfold state_after. rewrite foldl_app, list.last_snoc, existsb_app. cbn. by rewrite orb_false_r.
Qed.

(** The order tests of one turn say that the entry follows the last one: an
    entry without a principal carries the largest identifier. *)
Lemma order_ok es e k :
  Forall entry_ok es -> ktag e = kernel_tag k -> is_u32 (kid e) ->
  (if is_named k then kid e <> u32_max else kid e = u32_max) ->
  let st := state_after es in
  (last_tag st <= ktag e
   /\ (if is_named k then ktag e <> last_tag st \/ last_id st < kid e else ktag e <> last_tag st))
  <-> forall p, list.last es = Some p -> entry_lt p e.
Proof.
  intros Hes Hk Hi Hid. cbn [last_tag last_id state_after].
  destruct (list.last es) as [p |] eqn:Hp; cbn [from_option].
  - assert (entry_ok p) as (_ & kp & Hkp & Hidp).
    { rewrite list.Forall_forall in Hes. apply Hes. by apply list.last_Some_elem_of. }
    assert (is_named k = is_named kp \/ kernel_tag k <> kernel_tag kp) as Hsame
      by (destruct k, kp; auto; right; discriminate).
    unfold entry_lt. split.
    + intros [Hle Hn] q [= <-]. destruct (is_named k); lia.
    + intros Hlt. specialize (Hlt p eq_refl).
      destruct (is_named k), (is_named kp); unfold is_u32, u32_max in *; lia.
  - unfold is_u32 in Hi. split; [done |]. intros _. destruct k; cbn in *; lia.
Qed.

(** One turn of the validator's loop, after acceptable entries. *)
Lemma new_step_Ok es e st :
  Forall entry_ok es -> entry_typed e ->
  new_step (state_after es) (write_entry e) = Ok st <->
  entry_ok e /\ (forall p, list.last es = Some p -> entry_lt p e) /\ st = state_after (es ++ [e]).
Proof.
  intros Hes Ht. rewrite state_after_snoc. unfold new_step.
  pose proof (entry_of_write e Ht) as He.
  rewrite (f_equal ktag He : entry_tag _ = ktag e), (f_equal kid He : entry_id _ = kid e),
    (f_equal kperm He : entry_permission _ = kperm e).
  destruct Ht as [_ _ Hi]. rewrite rbind_seq_Ok, fail_if_Ok, orb_false_iff, !Z.ltb_ge.
  destruct (tag (ktag e)) as [k | err] eqn:Hk; cbn [rbind].
  2: { apply tag_Err in Hk as [_ Hk]. split; [by intros [_ ?] |]. intros ((_ & k & Hn & _) & _). by destruct (Hk k). }
  apply tag_Ok in Hk. rewrite (kind_of_kernel e k Hk).
  pose proof (order_ok es e k Hes Hk Hi) as Hord. cbv zeta in Hord.
  assert (entry_ok e <-> kperm e <= 7 /\ if is_named k then kid e <> u32_max else kid e = u32_max) as ->.
  { unfold entry_ok. split.
    - intros (? & k' & Hk' & ?). assert (k' = k) as -> by (rewrite Hk in Hk'; by destruct k, k'). done.
    - intros [? ?]. eauto. }
  destruct k; cbn [is_named base_bit] in *; rewrite rbind_seq_Ok, fail_if_Ok, orb_false_iff,
    ?andb_false_iff, ?negb_false_iff, ?Z.eqb_eq, ?Z.eqb_neq, ?Z.leb_gt, ?orb_true_r, ?orb_false_r, ?Z.lor_0_r;
    naive_solver.
Qed.

Lemma new_fold_Ok done_ es st :
  Forall entry_ok done_ -> Sorted entry_lt done_ -> Forall entry_typed es ->
  foldM new_step (state_after done_) (write_entry <$> es) = Ok st <->
  Forall entry_ok (done_ ++ es) /\ Sorted entry_lt (done_ ++ es) /\ st = state_after (done_ ++ es).
Proof.
  revert done_. induction es as [| e es IH]; intros done_ Hok Hs Ht.
  - cbn. rewrite app_nil_r. naive_solver.
  - apply Forall_cons_iff in Ht as [He Ht]. cbn [fmap list_fmap foldM]. rewrite rbind_Ok.
    assert (Forall entry_ok (done_ ++ [e]) /\ Sorted entry_lt (done_ ++ [e])
      <-> entry_ok e /\ (forall p, list.last done_ = Some p -> entry_lt p e)) as Hsnoc.
    { rewrite Forall_app, Forall_singleton, Sorted_snoc_iff. tauto. }
    rewrite (cons_middle e done_ es), app_assoc. split.
    + intros (st1 & (Hoke & Hlt & ->)%new_step_Ok & Hf); [| done | done].
      destruct (proj2 Hsnoc (conj Hoke Hlt)). by apply IH in Hf.
    + intros (Hall & Hsort & ->).
      assert (Forall entry_ok (done_ ++ [e]) /\ Sorted entry_lt (done_ ++ [e])) as [H1 H2].
      { split; [by apply Forall_app in Hall as [? _] | by apply Sorted_app_l in Hsort]. }
      exists (state_after (done_ ++ [e])). destruct (proj1 Hsnoc (conj H1 H2)) as [Hoke Hlt].
      rewrite new_step_Ok, IH by done. done.
Qed.

(** ** Whole lists *)

Lemma base_testbit es i :
  0 <= i ->
  Z.testbit (base (state_after es)) i = existsb (fun e => Z.testbit (base_bit (kind_of e)) i) es.
Proof.
  intros Hi. induction es as [| e es IH] using rev_ind; [apply Z.bits_0 |].
  rewrite state_after_snoc, existsb_app. cbn [base existsb].
  by rewrite Z.lor_spec, IH, orb_false_r.
Qed.

Lemma existsb_kind (f : AceTag.AceTag -> bool) k es :
  Forall entry_ok es -> (forall k', f k' = true <-> k' = k) ->
  existsb (fun e => f (kind_of e)) es = true <-> has_kind k es.
Proof.
  intros Hes Hf. rewrite existsb_exists. unfold has_kind. rewrite list.Forall_forall in Hes. split.
  - intros (e & He%list_elem_of_In & Hk). exists e. split; [done |].
    destruct (Hes e He) as (_ & k' & Hk' & _). rewrite (kind_of_kernel e k' Hk') in Hk.
    apply Hf in Hk as ->. done.
  - intros (e & He & Hk). exists e. split; [by apply list_elem_of_In |].
    rewrite (kind_of_kernel e k Hk). by apply Hf.
Qed.

Lemma named_kind es :
  Forall entry_ok es ->
  named (state_after es) = true <-> has_kind AceTag.NamedUser es \/ has_kind AceTag.NamedGroup es.
Proof.
  intros Hes. unfold state_after. cbn [named].
  rewrite <- (existsb_kind (fun k => match k with AceTag.NamedUser => true | _ => false end) _ es Hes)
    by (intros []; split; done).
  rewrite <- (existsb_kind (fun k => match k with AceTag.NamedGroup => true | _ => false end) _ es Hes)
    by (intros []; split; done).
  rewrite <- orb_true_iff. clear Hes. induction es as [| e es IH]; [done |]. cbn [existsb].
  destruct (kind_of e); cbn; rewrite ?orb_true_r; done.
Qed.

Lemma base_kind es i k :
  Forall entry_ok es -> 0 <= i -> base_bit k = 2 ^ i -> 0 < base_bit k ->
  Z.testbit (base (state_after es)) i = true <-> has_kind k es.
Proof.
  intros Hes Hi Hb Hp. rewrite base_testbit by done. apply (existsb_kind (fun k => Z.testbit (base_bit k) i)); [done |].
  intros k'. destruct (decide (k' = k)) as [-> | Hn]; [rewrite Hb, Z.pow2_bits_true by done; done |].
  split; [| done]. intros Ht. exfalso.
  assert (base_bit k' = 0 \/ exists j, 0 <= j /\ base_bit k' = 2 ^ j) as [H0 | (j & Hj & Hk')].
  { destruct k'; cbn; first [by left | right; (exists 0; done) || (exists 1; done) || (exists 2; done) || (exists 3; done)]. }
  - rewrite H0, Z.bits_0 in Ht. done.
  - rewrite Hk' in Ht. rewrite Z.pow2_bits_eqb, Z.eqb_eq in Ht by done. subst j.
    apply Hn. destruct k, k'; cbn in *; congruence || lia.
Qed.

Lemma land_eleven z :
  Z.land z 11 = 11 <-> Z.testbit z 0 = true /\ Z.testbit z 1 = true /\ Z.testbit z 3 = true.
Proof.
  split.
  - intros H11.
    assert (forall i, Z.testbit 11 i = true -> Z.testbit z i = true) as Hb.
    { intros i Hi. rewrite <- H11, Z.land_spec in Hi. by apply andb_true_iff in Hi as [? _]. }
    split_and!; by apply Hb.
  - intros (H0 & H1 & H3). apply Z.bits_inj'. intros i Hi. rewrite Z.land_spec.
    destruct (Z.testbit 11 i) eqn:E; [| by rewrite andb_false_r].
    destruct (Z.le_gt_cases 4 i); [rewrite Z.bits_above_log2 in E by (cbn; lia); done |].
    assert (i = 0 \/ i = 1 \/ i = 2 \/ i = 3) as [-> | [-> | [-> | ->]]] by lia; rewrite ?H0, ?H1, ?H3; done.
Qed.

Lemma complete_ok es :
  Forall entry_ok es -> Sorted entry_lt es ->
  (negb (Z.land (base (state_after es)) 11 =? 11)
   || named (state_after es) && (Z.land (base (state_after es)) 4 =? 0)) = false <-> entries_ok es.
Proof.
  intros Hes Hs. rewrite orb_false_iff, negb_false_iff, Z.eqb_eq, land_eleven.
  pose proof (named_kind es Hes) as Hn.
  pose proof (land_bit (base (state_after es)) 2 ltac:(done)) as Hm. change (2 ^ 2) with 4 in Hm.
  rewrite (base_kind es 0 AceTag.Owner), (base_kind es 1 AceTag.Group), (base_kind es 3 AceTag.Everyone) by done.
  pose proof (base_kind es 2 AceTag.Mask Hes ltac:(done) eq_refl ltac:(done)) as Hk.
  destruct (named (state_after es)), (Z.land (base (state_after es)) 4 =? 0),
    (Z.testbit (base (state_after es)) 2); try discriminate Hm; cbn [andb]; split;
    try (intros [(? & ? & ?) ?]; constructor; try done; intros; naive_solver);
    try (intros []; split; [done |]; naive_solver).
Qed.

Lemma new_wire es :
  Forall entry_typed es -> is_ok (new (acl_wire es)) = true <-> entries_ok es.
Proof.
  intros Ht. unfold new. rewrite bool_decide_eq_false_2 by (intros E; apply (f_equal zlen) in E;
    unfold acl_wire in E; rewrite zlen_app, zlen_le32 in E; zlens).
  assert (zlen (es ≫= write_entry) = 8 * zlen es) as Hl.
  { clear. induction es as [| e es IH]; [done |]. rewrite bind_cons, zlen_app, zlen_write_entry, zlen_cons. lia. }
  unfold acl_wire. rewrite zlen_app, zlen_le32, Hl, ztake_app_exact, zdrop_app_exact by by rewrite zlen_le32.
  rewrite (proj2 (Z.ltb_ge _ _)) by zlens.
  replace (4 + 8 * zlen es - 4) with (zlen es * 8) by lia. rewrite Z.mod_mul by done.
  rewrite bool_decide_eq_true_2 by done. cbn [Z.eqb negb orb fail_if rbind].
  rewrite chunks_exact8_entries. change (MkState 0 0 0 false) with (state_after []).
  rewrite is_ok_Ok. setoid_rewrite rbind_Ok. setoid_rewrite (new_fold_Ok [] es); [| done | constructor | done].
  cbn [app]. setoid_rewrite rbind_seq_Ok. setoid_rewrite fail_if_Ok. split.
  - intros (a & st & (Hok & Hs & ->) & Hc & _). by apply complete_ok.
  - intros He. exists (MkPosixAcl (le32 2 ++ es ≫= write_entry)), (state_after es).
    pose proof (eo_entries es He). pose proof (eo_sorted es He).
    rewrite (complete_ok es) by done. done.
Qed.

Lemma new_keeps s a : new s = Ok a -> a = MkPosixAcl s.
Proof. unfold new. case_bool_decide; intros Hn; inv_ok; done. Qed.

Lemma foldM_new_step_Err st l e : foldM new_step st l = Err e -> e = InvalidAcl.
Proof.
  revert st. induction l as [| c l IH]; intros st; cbn [foldM]; [done |].
  intros [Hs | (st' & _ & Hs)]%rbind_Err; [| by apply IH in Hs].
  unfold new_step in Hs. apply rbind_Err in Hs as [[_ <-]%fail_if_Err | (? & _ & Hs)]; [done |].
  apply rbind_Err in Hs as [[-> _]%tag_Err | (k & _ & Hs)]; [done |].
  destruct k; apply rbind_Err in Hs as [[_ <-]%fail_if_Err | (? & _ & [=])]; done.
Qed.

Lemma new_Err s e : new s = Err e -> e = InvalidAcl.
Proof.
  unfold new. case_bool_decide; [done |].
  intros [[_ <-]%fail_if_Err | (? & _ & [Hf | (st & _ & [[_ <-]%fail_if_Err | (? & _ & ?)]%rbind_Err)]%rbind_Err)]%rbind_Err;
    try done. by apply foldM_new_step_Err in Hf.
Qed.

Lemma new_posix s : is_ok (new s) = true <-> posix_acl s.
Proof.
  unfold posix_acl. split.
  - intros Hn. destruct (decide (s = [])) as [-> | Hs]; [by left |]. right.
    pose proof Hn as Hn'. unfold new in Hn. rewrite bool_decide_eq_false_2 in Hn by done.
    apply is_ok_Ok in Hn as [a Hn]. inv_ok.
    match goal with Hb : _ || _ = false |- _ =>
      rewrite !orb_false_iff, !negb_false_iff, bool_decide_eq_true, Z.eqb_eq, Z.ltb_ge in Hb;
      destruct Hb as [[Hl Hm] Hv] end.
    destruct (entries_exist (zdrop 4 s)) as (es & He & Ht); [by rewrite zlen_zdrop by lia |].
    assert (s = acl_wire es) as -> by (unfold acl_wire; by rewrite <- He, <- Hv, ztake_zdrop).
    exists es. split_and!; [done | done |]. by apply new_wire.
  - intros [-> | (es & -> & Ht & Hok)]; [done |]. by apply new_wire.
Qed.

(** C28: [PosixAcl::new] accepts exactly the empty value and the complete
    version-2 lists: known tags with permissions of three bits, principals
    exactly where the tag names one, strictly ascending entries, an owner, a
    group and an everyone entry, and a mask whenever someone is named. It keeps
    the bytes; every refusal is [InvalidAcl]. *)
Theorem posix_acl_new s :
  match new s with
  | Ok acl => abytes acl = s /\ posix_acl s
  | Err e => e = InvalidAcl /\ ~ posix_acl s
  end.
Proof.
  pose proof (new_posix s) as Hp. destruct (new s) as [a | e] eqn:E; cbn in Hp.
  - apply new_keeps in E as ->. split; [done |]. by apply Hp.
  - split; [by apply new_Err in E |]. intros H. by apply Hp in H.
Qed.

(** ** The container *)

Lemma checked_u32_Ok z r : ok_or InvalidAcl (checked_u32 z) = Ok r <-> r = z /\ z <= u32_max.
Proof. unfold checked_u32. destruct (Z.leb_spec z u32_max); cbn; naive_solver lia. Qed.

Definition container_wire (l : LinuxAcl) : bytes :=
  MAGIC ++ le32 (zlen (abytes (access l))) ++ le32 (zlen (abytes (default l)))
  ++ abytes (access l) ++ abytes (default l).

Lemma acl_encode_Ok `{Allocator} `{!AllocatorTotal} l s :
  encode l = Ok s <->
  zlen (abytes (access l)) <= u32_max /\ zlen (abytes (default l)) <= u32_max /\ s = container_wire l.
Proof.
  unfold encode, container_wire. split.
  - intros He. inv_ok.
    repeat match goal with Hc : checked_u32 ?z = Some _ |- _ =>
      apply (f_equal (ok_or InvalidAcl)) in Hc; apply checked_u32_Ok in Hc as [-> ?] end. done.
  - intros (Ha & Hd & ->).
    rewrite (proj2 (checked_u32_Ok (zlen (abytes (access l))) _) (conj eq_refl Ha)).
    rewrite (proj2 (checked_u32_Ok (zlen (abytes (default l))) _) (conj eq_refl Hd)). cbn [rbind].
    rewrite (proj2 (checked_add_Some (zlen (abytes (access l))) _ _)) by (split; [reflexivity | unfold u32_max, u64_max in *; lia]).
    rewrite (proj2 (checked_add_Some _ 16 _)) by (split; [reflexivity | unfold u32_max, u64_max in *; lia]).
    cbn [ok_or rbind]. by grant.
Qed.

(** A header is its magic and two fields, whatever follows. *)
Lemma header_fields s :
  16 <= zlen s -> ztake 8 s = MAGIC ->
  exists x y body, s = MAGIC ++ le32 x ++ le32 y ++ body /\ is_u32 x /\ is_u32 y.
Proof.
  intros Hl <-. set (f := ztake 4 (zdrop 8 s)). set (g := ztake 4 (zdrop 12 s)).
  assert (zlen f = 4) as Hf by (subst f; apply zlen_ztake; rewrite zlen_zdrop; lia).
  assert (zlen g = 4) as Hg by (subst g; apply zlen_ztake; rewrite zlen_zdrop; lia).
  exists (of_le f), (of_le g), (zdrop 16 s).
  rewrite !le32_of_le by done. split_and!; [| by apply of_le_u32 | by apply of_le_u32].
  subst f g. replace (zdrop 16 s) with (zdrop 4 (zdrop 12 s)) by (unfold zdrop; by rewrite drop_drop).
  rewrite ztake_zdrop. replace (zdrop 12 s) with (zdrop 4 (zdrop 8 s)) by (unfold zdrop; by rewrite drop_drop).
  by rewrite !ztake_zdrop.
Qed.

Lemma decode_fields x y body :
  is_u32 x -> is_u32 y ->
  decode (MAGIC ++ le32 x ++ le32 y ++ body) =
    let? _ := fail_if (negb (x + y =? zlen body)) InvalidAcl in
    let? access := new (ztake x body) in
    let? default := new (zdrop x body) in
    Ok (MkLinuxAcl access default).
Proof.
  intros Hx Hy. unfold decode.
  assert (zlen (MAGIC ++ le32 x ++ le32 y ++ body) = 16 + zlen body) as Hl
    by (rewrite !zlen_app, !zlen_le32; change (zlen MAGIC) with 8; lia).
  rewrite Hl, (proj2 (Z.ltb_ge _ _)) by zlens. rewrite (ztake_app_exact MAGIC), bool_decide_eq_true_2 by done.
  assert (forall (pre : bytes) n rest, n = zlen pre -> zdrop n (pre ++ rest) = rest) as Hd
    by (intros; by apply zdrop_app_exact).
  rewrite (Hd MAGIC 8) by done.
  assert (zdrop 12 (MAGIC ++ le32 x ++ le32 y ++ body) = le32 y ++ body) as ->
    by (rewrite app_assoc; apply Hd; by rewrite zlen_app, zlen_le32).
  assert (zdrop 16 (MAGIC ++ le32 x ++ le32 y ++ body) = body) as Hb
    by (rewrite (app_assoc (le32 x)), app_assoc; apply Hd; rewrite !zlen_app, !zlen_le32; done).
  rewrite Hb, !ztake_app_exact, !of_le_le32 by (done || by rewrite zlen_le32).
  replace (16 + zlen body - 16) with (zlen body) by lia. replace (16 + x - 16) with x by lia.
  assert (zdrop (16 + x) (MAGIC ++ le32 x ++ le32 y ++ body) = zdrop x body) as ->.
  { rewrite <- Hb at 2. unfold zdrop, is_u32 in *. rewrite drop_drop. f_equal. lia. }
  done.
Qed.

(** The container decodes exactly when it is the encoding of two valid
    lists whose lengths its fields state, and it decodes to them; nothing may
    follow them. *)
Lemma linux_acl_iff `{Allocator} `{!AllocatorTotal} s l :
  decode s = Ok l <->
  new (abytes (access l)) = Ok (access l) /\ new (abytes (default l)) = Ok (default l)
  /\ encode l = Ok s.
Proof.
  rewrite acl_encode_Ok. split.
  - intros Hd. pose proof Hd as Hh. unfold decode in Hh. apply rbind_seq_Ok in Hh as [Hh _].
    apply fail_if_Ok, orb_false_iff in Hh as [Hl Hm]. zbool. apply bool_decide_eq_true in Hm.
    destruct (header_fields s Hl Hm) as (x & y & body & -> & Hx & Hy).
    rewrite decode_fields in Hd by done. inv_ok. zbool.
    match goal with Hn1 : new (ztake _ _) = Ok ?a, Hn2 : new (zdrop _ _) = Ok ?b |- _ =>
      pose proof (new_keeps _ _ Hn1) as ->; pose proof (new_keeps _ _ Hn2) as -> end.
    unfold container_wire, is_u32, u32_max in *. cbn [access default abytes].
    rewrite zlen_ztake, zlen_zdrop, ztake_zdrop by lia.
    split_and!; [done | done | lia | lia |]. by replace (zlen body - x) with y by lia.
  - intros (Ha & Hd & Hla & Hld & ->). unfold container_wire.
    rewrite decode_fields by (unfold is_u32, u32_max in *; zlens).
    rewrite zlen_app, Z.eqb_refl, ztake_app_exact, zdrop_app_exact by done. cbn [negb fail_if rbind].
    rewrite Ha, Hd. by destruct l.
Qed.

(** An owner, a named user, the owning group, a mask and everyone else. *)
Section Sample.
#[local] Existing Instances plentiful.

Definition sample_acl : bytes :=
  acl_wire [MkKernelEntry 1 u32_max 7; MkKernelEntry 2 1000 6; MkKernelEntry 4 u32_max 5;
    MkKernelEntry 16 u32_max 7; MkKernelEntry 32 u32_max 4].

Lemma posix_acl_new_witness : abytes (MkPosixAcl sample_acl) = sample_acl /\ posix_acl sample_acl.
Proof.
  assert (new sample_acl = Ok (MkPosixAcl sample_acl)) as Hn by (vm_compute; reflexivity).
  pose proof (posix_acl_new sample_acl) as H. rewrite Hn in H. exact H.
Defined.

Lemma linux_acl_iff_witness :
  exists s, encode (MkLinuxAcl (MkPosixAcl sample_acl) (MkPosixAcl [])) = Ok s
    /\ decode s = Ok (MkLinuxAcl (MkPosixAcl sample_acl) (MkPosixAcl [])).
Proof.
  assert (new sample_acl = Ok (MkPosixAcl sample_acl)) as Ha by (vm_compute; reflexivity).
  assert (new [] = Ok (MkPosixAcl [])) as Hd by reflexivity.
  eexists. split; [vm_compute; reflexivity |].
  apply (linux_acl_iff _ (MkLinuxAcl (MkPosixAcl sample_acl) (MkPosixAcl []))).
  split; [exact Ha |]. split; [exact Hd |]. vm_compute. reflexivity.
Defined.
End Sample.
End Acl.
