(* ===== verification/LinuxAclPortable.v ===== *)
(** * Portable access lists ([rust/src/linux_acl.rs])

    The kernel's list survives the portable form: what [portable] captures,
    [normalize] canonicalizes and [encode_portable] restores byte for byte. *)

From S2P Require Export LinuxAcl.

Module AclPortable.
Import Acl.

(** The portable form of a kernel entry. *)
Definition ace_of (e : KernelEntry) : Ace :=
  MkAce (kind_of e) (MkPermissions (as_u8 (portable_bits (kperm e))))
    (if is_named (kind_of e) then decimal_text (kid e) else []).

(** Three permission bits, reversed and back. *)
Lemma permission_bits p :
  0 <= p < 8 ->
  permissions_from_bits (as_u8 (portable_bits p)) = Ok (MkPermissions (as_u8 (portable_bits p)))
  /\ kernel_perm (MkPermissions (as_u8 (portable_bits p))) = p.
Proof.
  intros Hp. apply (all_below 8 (fun p =>
    bool_decide (permissions_from_bits (as_u8 (portable_bits p)) = Ok (MkPermissions (as_u8 (portable_bits p))))
    && (kernel_perm (MkPermissions (as_u8 (portable_bits p))) =? p))) in Hp; [| vm_compute; reflexivity].
  by rewrite andb_true_iff, bool_decide_eq_true, Z.eqb_eq in Hp.
Qed.

Lemma low_byte_u16 p : 0 <= p < 8 -> ztake 1 (le16 p) = [as_u8 p].
Proof. Transparent le16. done. Opaque le16. Qed.

Lemma of_le_byte p : 0 <= p < 256 -> of_le [as_u8 p] = p.
Proof. intros Hp. rewrite (of_le_le_bytes 1 p : of_le [as_u8 p] = _). by apply Z.mod_small. Qed.

Lemma portable_entry_Ok `{AllocatorTotal} e :
  entry_typed e -> entry_ok e -> portable_entry (write_entry e) = Ok (ace_of e).
Proof.
  intros Ht [Hp (k & Hk & Hid)]. unfold portable_entry.
  pose proof (entry_of_write e Ht) as He. destruct Ht as [_ Hpt Hi].
  rewrite (f_equal ktag He : entry_tag _ = ktag e), (f_equal kid He : entry_id _ = kid e).
  assert (of_le (ztake 1 (zdrop 2 (write_entry e))) = kperm e) as ->.
  { unfold write_entry. rewrite zdrop_app_exact by by rewrite zlen_le16.
    unfold is_u16 in Hpt. transitivity (of_le (ztake 1 (le16 (kperm e)))).
    - reflexivity.
    - rewrite low_byte_u16 by lia. apply of_le_byte. lia. }
  unfold ace_of. rewrite (kind_of_kernel e k Hk), Hk, tag_kernel. cbn [rbind].
  unfold is_u16 in Hpt. destruct (permission_bits (kperm e)) as [-> _]; [lia |].
  assert (principal_name k (kid e) = Ok (if is_named k then decimal_text (kid e) else [])) as ->
    by (destruct k; cbn; rewrite ?decimal_text_Ok by done; done).
  done.
Qed.

Section Portable.
Context `{AllocatorTotal}.

Lemma kernel_entry_ace e : entry_typed e -> entry_ok e -> kernel_entry (ace_of e) = Ok e.
Proof.
  intros [_ Hpt Hi] [Hp (k & Hk & Hid)]. unfold kernel_entry, ace_of. cbn [atag aname apermissions].
  rewrite (kind_of_kernel e k Hk). unfold is_u16 in Hpt.
  destruct (permission_bits (kperm e)) as [_ ->]; [lia |].
  assert ((match k with
    | AceTag.Owner | AceTag.Group | AceTag.Everyone | AceTag.Mask => Ok u32_max
    | AceTag.NamedUser | AceTag.NamedGroup => principal (if is_named k then decimal_text (kid e) else [])
    end) = Ok (kid e)) as ->
    by (destruct k; cbn [is_named] in *; rewrite ?principal_decimal by done; rewrite ?Hid; done).
  cbn [rbind]. rewrite <- Hk. by destruct e.
Qed.

Lemma foldM_push {A B C} (f : list C -> B -> result Error C) (h : A -> B) (g : A -> C) acc l :
  Forall (fun x => forall acc, f acc (h x) = Ok (g x)) l ->
  foldM (fun acc x => let? y := f acc x in Ok (acc ++ [y])) acc (h <$> l) = Ok (acc ++ (g <$> l)).
Proof.
  revert acc. induction l as [| x l IH]; intros acc Hf; cbn [foldM fmap list_fmap].
  - by rewrite app_nil_r.
  - apply Forall_cons_iff in Hf as [Hx Hf]. rewrite Hx. cbn [rbind].
    change (foldM (fun acc x => let? y := f acc x in Ok (acc ++ [y])) (acc ++ [g x]) (h <$> l)
      = Ok (acc ++ g x :: (g <$> l))).
    rewrite IH by done. by rewrite <- app_assoc.
Qed.

Lemma portable_wire es :
  Forall entry_typed es -> Forall entry_ok es ->
  portable (MkPosixAcl (acl_wire es)) = Ok (ace_of <$> es).
Proof.
  intros Ht Hok. unfold portable. cbn [abytes]. rewrite bool_decide_eq_false_2 by done. grant.
  unfold acl_wire. rewrite zdrop_app_exact, chunks_exact8_entries by by rewrite zlen_le32.
  rewrite (foldM_push (fun aces => @portable_entry (at_moment (zlen aces) _)) write_entry ace_of); [done |].
  apply list.Forall_forall. intros e He. rewrite list.Forall_forall in Ht, Hok.
  intros acc. apply portable_entry_Ok; auto.
Qed.

(** ** Sorting restores the kernel's order *)

Definition key_le (a b : KernelEntry) : Prop := key_cmp a b <> Gt.

Lemma acl_key_le_iff a b : key_le a b <-> ktag a < ktag b \/ ktag a = ktag b /\ kid a <= kid b.
Proof.
  unfold key_le, key_cmp. destruct (Z.compare_spec (ktag a) (ktag b)); [| naive_solver lia..].
  rewrite Z.compare_gt_iff. lia.
Qed.

#[local] Instance key_le_trans : Transitive key_le.
Proof. intros a b c. rewrite !acl_key_le_iff. lia. Qed.
#[local] Instance key_le_total : Total key_le.
Proof. intros a b. rewrite !acl_key_le_iff. lia. Qed.
#[local] Instance entry_lt_trans : Transitive entry_lt.
Proof. intros a b c. unfold entry_lt. lia. Qed.

Lemma entry_lt_antisym l a b :
  StronglySorted entry_lt l -> a ∈ l -> b ∈ l -> key_le a b -> key_le b a -> a = b.
Proof.
  rewrite !acl_key_le_iff. intros Hs Ha Hb H1 H2.
  induction Hs as [| x l Hs IH Hx]; [by apply not_elem_of_nil in Ha |].
  rewrite Forall_forall in Hx. unfold entry_lt in Hx.
  apply elem_of_cons in Ha as [-> | Ha], Hb as [-> | Hb]; [done | | | by apply IH].
  - specialize (Hx b ltac:(by apply list_elem_of_In)). lia.
  - specialize (Hx a ltac:(by apply list_elem_of_In)). lia.
Qed.

Lemma sort_restores es l : Sorted entry_lt es -> l ≡ₚ es -> sort_by key_cmp l = es.
Proof.
  intros Hs%Sorted_StronglySorted Hp; [| intros a b c; apply entry_lt_trans].
  assert (sort_by key_cmp l ≡ₚ es) as Hp' by (rewrite <- Hp; apply merge_sort_Permutation).
  apply (StronglySorted_unique_strong key_le); [| | | done].
  - intros a b Ha Hb. rewrite Hp' in Ha. by apply (entry_lt_antisym es).
  - apply (StronglySorted_merge_sort key_le).
  - eapply strongly_sorted_impl; [| exact Hs]. intros a b. rewrite acl_key_le_iff. unfold entry_lt. lia.
Qed.

Lemma foldl_write es s :
  foldl (fun s e => s ++ write_entry e) s es = s ++ (es ≫= write_entry).
Proof.
  revert s. induction es as [| e es IH]; intros s; cbn [foldl]; [by rewrite app_nil_r |].
  by rewrite IH, bind_cons, app_assoc.
Qed.

(** The portable entries of a complete list are acceptable and distinct. *)
Lemma ace_of_ok e : entry_typed e -> entry_ok e -> ace_ok (ace_of e) /\ permissions_typed (apermissions (ace_of e)).
Proof.
  intros [_ Hpt Hi] [Hp (k & Hk & _)]. unfold ace_of, ace_ok, permissions_typed. cbn.
  rewrite (kind_of_kernel e k Hk). unfold is_u16 in Hpt.
  destruct (permission_bits (kperm e)) as [-> _]; [lia |]. split; [| done].
  destruct (is_named k) eqn:Hn.
  - apply decimal_name_ok; [done |]. destruct k; auto; discriminate.
  - by destruct k.
Qed.

Lemma ace_of_inj e1 e2 :
  entry_typed e1 -> entry_ok e1 -> entry_typed e2 -> entry_ok e2 ->
  ace_key (ace_of e1) = ace_key (ace_of e2) -> ktag e1 = ktag e2 /\ kid e1 = kid e2.
Proof.
  intros [_ _ Hi1] (_ & k1 & Hk1 & Hid1) [_ _ Hi2] (_ & k2 & Hk2 & Hid2) Heq. unfold ace_key, ace_of in Heq. cbn [atag aname] in Heq.
  rewrite (kind_of_kernel e1 k1 Hk1), (kind_of_kernel e2 k2 Hk2) in Heq. injection Heq as Ht Hn.
  apply ace_tag_inj in Ht as ->. split; [congruence |].
  destruct (is_named k2); [| congruence].
  assert (Ok (E := Error) (kid e1) = Ok (kid e2)) as [= ->]; [| done].
  rewrite <- (principal_decimal (kid e1)), <- (principal_decimal (kid e2)) by done. by rewrite Hn.
Qed.

Lemma sorted_keys_unique es :
  Forall entry_typed es -> Forall entry_ok es -> StronglySorted entry_lt es ->
  NoDup (ace_key <$> (ace_of <$> es)).
Proof.
  intros Ht Hok Hs. induction Hs as [| e es Hs IH He]; [constructor |].
  apply Forall_cons_iff in Ht as [Hte Ht]. apply Forall_cons_iff in Hok as [Hoe Hok].
  rewrite !fmap_cons, list.NoDup_cons. split; [| by apply IH].
  rewrite <- list_fmap_compose, list_elem_of_fmap. intros (e' & Hk & Hin).
  rewrite list.Forall_forall in Ht, Hok. rewrite Forall_forall in He.
  apply ace_of_inj in Hk as [Hkt Hki]; [| done | done | by apply Ht | by apply Hok].
  specialize (He e' (proj1 (list_elem_of_In _ _) Hin)). unfold entry_lt in He. lia.
Qed.

Lemma encode_portable_wire es c :
  Forall entry_typed es -> entries_ok es -> zlen es <= u32_max ->
  aces (metadata c) ≡ₚ ace_of <$> es -> encode_portable c = Ok (acl_wire es).
Proof.
  intros Ht Hok Hl Hp. pose proof (eo_entries es Hok) as Hes. pose proof (eo_owner es Hok) as (o & Ho & _).
  unfold encode_portable. rewrite bool_decide_eq_false_2.
  2: { intros E. rewrite E in Hp. symmetry in Hp. apply Permutation_nil_r, fmap_nil_inv in Hp as ->.
       by apply not_elem_of_nil in Ho. }
  grant. apply (Permutation_map_inv ace_of) in Hp as (l & Hl1 & Hl').
  change (List.map ace_of l) with (ace_of <$> l) in Hl1. rewrite Hl1.
  rewrite (foldM_push (fun _ => kernel_entry) ace_of id).
  2: { rewrite <- Hl'. apply list.Forall_forall. intros e He. rewrite list.Forall_forall in Ht, Hes.
       intros acc. apply kernel_entry_ace; auto. }
  cbn [rbind]. rewrite app_nil_l, list_fmap_id, (sort_restores es) by (done || apply Hok).
  rewrite (proj2 (checked_mul_Some (zlen es) 8 _)) by (split; [reflexivity | unfold u32_max, u64_max in *; lia]).
  rewrite (proj2 (checked_add_Some _ 4 _)) by (split; [reflexivity | unfold u32_max, u64_max in *; lia]).
  cbn [ok_or rbind]. grant. rewrite foldl_write. fold (acl_wire es).
  apply (new_wire es Ht), is_ok_Ok in Hok as [a ->]. done.
Qed.

Lemma zlen_acl_wire es : zlen (acl_wire es) = 4 + 8 * zlen es.
Proof.
  unfold acl_wire. rewrite zlen_app, zlen_le32. f_equal.
  induction es as [| e es IH]; [done |]. rewrite bind_cons, zlen_app, zlen_write_entry, zlen_cons. lia.
Qed.

(** C29: A kernel access list survives the portable form. A valid list has a
    portable form that normalizes, and whatever metadata carries it, restoring
    the normalized record gives back exactly the bytes captured: permissions,
    principals and order. *)
Theorem acl_portable_round_trip s acl :
  zlen s <= u32_max -> new s = Ok acl ->
  exists aces,
    portable acl = Ok aces
    /\ is_ok (normalize (MkMetadata [] aces None times_default 0 None [] None) Omit.default) = true
    /\ forall m omit c,
         MetadataRecord.aces m = aces -> metadata_typed m -> Omit.contains omit Family.Acl = false ->
         normalize m omit = Ok c -> encode_portable c = Ok s.
Proof.
  intros Hs Hn. pose proof (new_keeps s acl Hn) as ->.
  assert (posix_acl s) as [-> | (es & -> & Ht & Hok)] by (apply new_posix; by rewrite Hn).
  - exists []. split; [done |]. split; [done |]. intros m omit c Ha Hm Ho [_ ->]%normalize_iff; [| done].
    rewrite omit_families_eq. unfold encode_portable, normal_form, omitted. cbn. by rewrite Ho, Ha.
  - pose proof (eo_entries es Hok) as Hes. exists (ace_of <$> es). split; [by apply portable_wire |].
    assert (Forall (fun a => permissions_typed (apermissions a)) (ace_of <$> es)) as Hp.
    { apply list.Forall_fmap, list.Forall_forall. intros e He. rewrite list.Forall_forall in Ht, Hes.
      apply ace_of_ok; auto. }
    rewrite zlen_acl_wire in Hs. split.
    + apply is_ok_Ok. eexists. apply normalize_iff; [by constructor |]. split; [| reflexivity].
      rewrite omit_none. constructor; cbn; try done; try (by constructor).
      * unfold zlen in *. rewrite length_fmap. lia.
      * apply list.Forall_fmap, list.Forall_forall. intros e He. rewrite list.Forall_forall in Ht, Hes.
        apply ace_of_ok; auto.
      * apply sorted_keys_unique; [done | done |]. apply Sorted_StronglySorted, Hok.
        intros a b c. apply entry_lt_trans.
    + intros m omit c Ha Hm Ho [_ ->]%normalize_iff; [| done].
      apply encode_portable_wire; [done | done | zlens |].
      rewrite omit_families_eq. unfold normal_form, omitted. cbn. rewrite Ho, Ha.
      apply merge_sort_Permutation.
Qed.
End Portable.

Section Sample.
#[local] Existing Instances plentiful.

Lemma acl_portable_round_trip_witness :
  exists aces c, portable (MkPosixAcl sample_acl) = Ok aces
    /\ normalize (MkMetadata [] aces None times_default 0 None [] None) Omit.default = Ok c
    /\ encode_portable c = Ok sample_acl.
Proof.
  assert (zlen sample_acl <= u32_max) as Hl by (vm_compute; discriminate).
  assert (new sample_acl = Ok (MkPosixAcl sample_acl)) as Hn by (vm_compute; reflexivity).
  destruct (acl_portable_round_trip sample_acl (MkPosixAcl sample_acl) Hl Hn) as (aces & Hp & Hok & Hr).
  apply is_ok_Ok in Hok as [c Hc]. exists aces, c. split; [exact Hp |]. split; [exact Hc |].
  assert (portable (MkPosixAcl sample_acl)
    = Ok [MkAce AceTag.Owner (MkPermissions x07) []; MkAce AceTag.NamedUser (MkPermissions x03) (lit "1000");
          MkAce AceTag.Group (MkPermissions x05) []; MkAce AceTag.Mask (MkPermissions x07) [];
          MkAce AceTag.Everyone (MkPermissions x01) []]) as Hv by (vm_compute; reflexivity).
  rewrite Hv in Hp. injection Hp as Ha.
  assert (metadata_typed (MkMetadata [] aces None times_default 0 None [] None)) as Ht
    by (rewrite <- Ha; apply (bool_decide_unpack _); vm_compute; exact I).
  exact (Hr (MkMetadata [] aces None times_default 0 None [] None) Omit.default c eq_refl Ht eq_refl Hc).
Defined.
End Sample.
End AclPortable.
