(* ===== verification/Platform.v ===== *)
(** * File access ([rust/platform/src/lib.rs])

    Opening children of a pinned directory and reading them within a ceiling.
    System calls and the constants of [libc] are not part of the program: they
    are the operations of the classes [OpenFlags] and [Os]. A computation that
    performs them takes the state of the system and returns the next one. *)

From S2P Require Export Directory Loop.

Module Platform.
(** [std::io::Error]: the code asks for its raw number and its kind. *)
Inductive ErrorKind : Type := Interrupted | InvalidData | OtherKind (kind : Z).
Record IoError : Type := MkIoError { raw_os_error : option Z; kind : ErrorKind }.

#[global] Instance ErrorKind_eq_dec : EqDecision ErrorKind.
Proof. solve_decision. Defined.
#[global] Instance IoError_eq_dec : EqDecision IoError.
Proof. solve_decision. Defined.

Inductive Error : Type :=
| Io (e : IoError)
| InvalidBasename
| InvalidAttributeName
| WrongKind
| OutOfMemory
| LimitExceeded.

#[global] Instance Error_eq_dec : EqDecision Error.
Proof. solve_decision. Defined.

(** [io::Error::new(ErrorKind::InvalidData, message).into()] *)
Definition invalid_data : Error := Io (MkIoError None InvalidData).

(** [io::Error::last_os_error()], given what the standard library makes of
    the number. *)
Class ErrorKinds := { decode_error_kind : Z -> ErrorKind }.
Definition os_error `{ErrorKinds} (errno : Z) : IoError := MkIoError (Some errno) (decode_error_kind errno).

(** ** Growing buffers

    Two readers of this crate retry with a buffer of twice the size, up to a
    ceiling one byte above the caller's maximum. *)

(** [256.min(ceiling)] and [capacity.saturating_mul(2).min(ceiling)] *)
Definition first_capacity (ceiling : Z) : Z := Z.min 256 ceiling.
Definition grow (capacity ceiling : Z) : Z := Z.min (Z.min (capacity * 2) usize_max) ceiling.

(** How often a buffer can still grow: never at the ceiling, and at most once
    for every power of two below it. *)
Definition growth (capacity ceiling : Z) : nat :=
  if capacity =? ceiling then O else S (Z.to_nat (64 - Z.log2 capacity)).

Lemma first_capacity_range ceiling :
  1 <= ceiling -> 1 <= first_capacity ceiling <= ceiling.
Proof. unfold first_capacity. lia. Qed.

Lemma grow_progress capacity ceiling :
  1 <= capacity -> capacity < ceiling <= usize_max ->
  1 <= grow capacity ceiling <= ceiling
  /\ (growth (grow capacity ceiling) ceiling < growth capacity ceiling)%nat.
Proof.
  intros Hc Hm. unfold grow. split; [lia |]. unfold growth.
  rewrite (proj2 (Z.eqb_neq capacity ceiling)) by lia.
  destruct (Z.eqb_spec (Z.min (Z.min (capacity * 2) usize_max) ceiling) ceiling) as [_ | Hne]; [lia |].
  replace (Z.min (Z.min (capacity * 2) usize_max) ceiling) with (2 * capacity) in * by lia.
  rewrite Z.log2_double by lia.
  assert (Z.log2 capacity < 64) by (apply Z.log2_lt_pow2; unfold usize_max in *; lia). lia.
Qed.

Lemma first_growth ceiling : 1 <= ceiling -> (growth (first_capacity ceiling) ceiling < 58)%nat.
Proof.
  intros Hc. unfold growth, first_capacity. destruct (Z.eqb_spec (Z.min 256 ceiling) ceiling); [lia |].
  replace (Z.min 256 ceiling) with 256 by lia. change (Z.log2 256) with 8. lia.
Qed.

(** ** Names *)

Definition basename `{Allocator} (name : bytes) : result Error bytes :=
  let? _ := map_err (fun _ => InvalidBasename) (validate_path name) in
  let? _ := fail_if (contains x2f name) InvalidBasename in
  let? _ := reserve OutOfMemory 0 0 (zlen name + 1) in
  Ok (name ++ [x00]).

(** ** Opening *)

Inductive FileType : Type := Dir | Regular | OtherType.

#[global] Instance FileType_eq_dec : EqDecision FileType.
Proof. solve_decision. Defined.

(** The numbers of [libc] that opening uses. *)
Class OpenFlags := {
  O_RDONLY : Z;
  O_CLOEXEC : Z;
  O_NOFOLLOW : Z;
  O_DIRECTORY : Z;
  O_NONBLOCK : Z
}.

(** The system calls behind [openat], [OpenOptions::open] with the given flags,
    [File::metadata], [Read for File] and [Drop for File]. *)
Class Os := {
  World : Type;
  File : Type;
  openat : File -> bytes -> Z -> World -> World * result IoError File;
  open_path : bytes -> Z -> World -> World * result IoError File;
  file_type : File -> World -> World * result IoError FileType;
  file_read : File -> bytes -> World -> World * (bytes * result IoError Z);
  close : File -> World -> World
}.

Section Open.
Context `{Allocator, OpenFlags, Os}.

Definition M (A : Type) : Type := World -> World * result Error A.
Definition ret {A} (r : result Error A) : M A := fun w => (w, r).
Definition bind {A B} (m : M A) (k : A -> M B) : M B := fun w =>
  let '(w, r) := m w in
  match r with
  | Ok a => k a w
  | Err e => (w, Err e)
  end.
(** A system call, its failure as [Error::Io]. *)
Definition call {A} (f : World -> World * result IoError A) : M A := fun w =>
  let '(w, r) := f w in (w, map_err Io r).

(** A computation that owns a file and gives it up when it succeeds: returning
    an error drops the file, which closes it. *)
Definition or_close {A} (file : File) (m : M A) : M A := fun w =>
  let '(w, r) := m w in
  match r with
  | Ok a => (w, Ok a)
  | Err e => (close file w, Err e)
  end.

Record Directory : Type := MkDirectory { dfile : File }.
Inductive Child : Type := DirectoryChild | RegularFileChild.

Definition extra_flags (kind : Child) : Z :=
  match kind with
  | DirectoryChild => O_DIRECTORY
  | RegularFileChild => O_NONBLOCK
  end.

Definition child_valid (kind : Child) (type : FileType) : bool :=
  match kind with
  | DirectoryChild => bool_decide (type = Dir)
  | RegularFileChild => bool_decide (type = Regular)
  end.

Definition open_child (d : Directory) (name : bytes) (kind : Child) : M File :=
  bind (ret (basename name)) (fun terminated =>
  bind (call (openat (dfile d) terminated
    (Z.lor (Z.lor (Z.lor O_RDONLY O_CLOEXEC) O_NOFOLLOW) (extra_flags kind)))) (fun file =>
  or_close file (bind (call (file_type file)) (fun type =>
  ret (if negb (child_valid kind type) then Err WrongKind else Ok file))))).

(** [Directory::open] *)
Definition open (path : bytes) : M Directory :=
  bind (call (open_path path (Z.lor (Z.lor O_DIRECTORY O_NOFOLLOW) O_CLOEXEC))) (fun file =>
  ret (Ok (MkDirectory file))).

Definition open_directory (d : Directory) (name : bytes) : M Directory :=
  bind (open_child d name DirectoryChild) (fun file => ret (Ok (MkDirectory file))).

Definition open_regular_file (d : Directory) (name : bytes) : M File :=
  open_child d name RegularFileChild.
End Open.

(** ** Reading within a ceiling *)

Definition BUFFER_LEN : Z := 65536.

Section ReadLimited.
Context `{Allocator} {R : Type}.
(** [Read::read(&mut buffer)]: the reader after the call, the buffer it left,
    and the count or the error. *)
Context (read : R -> bytes -> R * (bytes * result IoError Z)).
Context (maximum : Z).

Record ReadState : Type := MkReadState { reader : R; rbytes : bytes; buffer : bytes }.

(** [remaining.saturating_add(1).min(buffer.len())] *)
Definition request (st : ReadState) : Z :=
  Z.min (Z.min (maximum - zlen (rbytes st) + 1) usize_max) (zlen (buffer st)).

(** One turn of the loop: [&mut buffer[..request]] is lent to the reader. *)
Definition read_turn (st : ReadState) : ReadState + R * result Error bytes :=
  let remaining := maximum - zlen (rbytes st) in
  let n := request st in
  let '(r, (slice, outcome)) := read (reader st) (ztake n (buffer st)) in
  let buffer := slice ++ zdrop n (buffer st) in
  match outcome with
  | Err e =>
      if bool_decide (kind e = Interrupted) then inl (MkReadState r (rbytes st) buffer)
      else inr (r, Err (Io e))
  | Ok count =>
      if n <? count then inr (r, Err invalid_data)
      else if count =? 0 then inr (r, Ok (rbytes st))
      else if remaining <? count then inr (r, Err LimitExceeded)
      else
        match reserve OutOfMemory 1 (zlen (rbytes st)) count with
        | Err e => inr (r, Err e)
        | Ok _ => inl (MkReadState r (rbytes st ++ ztake count buffer) buffer)
        end
  end.

Definition read_start (r : R) : ReadState := MkReadState r [] (zeros (Z.to_nat BUFFER_LEN)).

Definition read_limited (fuel : nat) (r : R) : option (R * result Error bytes) :=
  run read_turn fuel (read_start r).
End ReadLimited.

(** [Directory::read_file]; the file is a temporary, dropped when it is read.
    [inl] is the system in the middle of the call, [fuel] turns into the reading. *)
Definition read_file `{Allocator, OpenFlags, Os} (fuel : nat) (d : Directory) (name : bytes)
    (maximum : Z) (w : World) : World + World * result Error bytes :=
  let '(w, opened) := open_regular_file d name w in
  match opened with
  | Err e => inr (w, Err e)
  | Ok file =>
      match steps (read_turn (fun w b => file_read file b w) maximum) fuel (read_start w) with
      | inl st => inl (reader st)
      | inr (w, r) => inr (close file w, r)
      end
  end.
End Platform.
