(* ===== verification/PlatformRead.v ===== *)
(** * Reading a file within a ceiling

    What [read_limited] and [read_file] of [rust/platform/src/lib.rs] return,
    for every reader and for readers that keep the contract of [Read]. *)

From S2P Require Export Platform.

Module PlatformRead.
Import Platform.

(** [Read::read] as its documentation promises it, for a reader that is
    interrupted finitely often: the bytes it reports are the next ones of its
    content, none only at the end, and a call never writes past its buffer. *)
Record ReadContract {R} (read : R -> bytes -> R * (bytes * result IoError Z))
    (content : R -> bytes) (patience : R -> nat) : Prop := {
  read_contract r b : 0 < zlen b ->
    let '(r', (slice, outcome)) := read r b in
    zlen slice = zlen b /\
    match outcome with
    | Err e => kind e = Interrupted /\ content r' = content r /\ (patience r' < patience r)%nat
    | Ok count =>
        0 <= count <= zlen b /\ (count = 0 -> content r = [])
        /\ content r = ztake count slice ++ content r' /\ (patience r' <= patience r)%nat
    end
}.

Section Bounded.
Context `{Allocator} {R : Type} (read : R -> bytes -> R * (bytes * result IoError Z)) (maximum : Z).

Lemma read_turn_bounded fuel st r b :
  zlen (rbytes st) <= maximum ->
  run (read_turn read maximum) fuel st = Some (r, Ok b) -> zlen b <= maximum.
Proof.
  intros Hst Hr.
  refine (run_post (read_turn read maximum) (fun st => zlen (rbytes st) <= maximum)
    (fun x => forall b, x.2 = Ok b -> zlen b <= maximum) fuel st (r, Ok b) _ _ Hst Hr b eq_refl).
  - intros s s' Hs Ht. unfold read_turn in Ht.
    destruct (read _ _) as [r' [slice [count | e]]].
    + destruct (_ <? count); [done |]. destruct (count =? 0); [done |].
      destruct (Z.ltb_spec (maximum - zlen (rbytes s)) count); [done |].
      destruct (reserve _ _ _ _); [| done]. injection Ht as <-. cbn [rbytes]. rewrite zlen_app.
      pose proof (zlen_ztake_le count (slice ++ zdrop (request maximum s) (buffer s))). lia.
    + case_bool_decide; [| done]. injection Ht as <-. done.
  - intros s a Hs Ht b' Hb. unfold read_turn in Ht.
    destruct (read _ _) as [r' [slice [count | e]]].
    + destruct (_ <? count); [injection Ht as <-; done |].
      destruct (count =? 0); [injection Ht as <-; injection Hb as <-; done |].
      destruct (_ <? count); [injection Ht as <-; done |].
      destruct (reserve _ _ _ _); [done | injection Ht as <-; done].
    + case_bool_decide; [done |]. injection Ht as <-. done.
Qed.
End Bounded.

Section Complete.
Context `{Allocator} `{!AllocatorTotal} {R : Type} (read : R -> bytes -> R * (bytes * result IoError Z)).
Context (content : R -> bytes) (patience : R -> nat) (maximum : Z).
Context (Hread : ReadContract read content patience) (Hmax : 0 <= maximum <= usize_max).

Lemma read_turn_complete fuel st :
  zlen (buffer st) = BUFFER_LEN -> zlen (rbytes st) <= maximum ->
  (patience (reader st) + length (content (reader st)) + 1 < fuel)%nat ->
  exists r consumed,
    run (read_turn read maximum) fuel st =
      Some (r, if bool_decide (zlen (rbytes st ++ content (reader st)) <= maximum)
               then Ok (rbytes st ++ content (reader st)) else Err LimitExceeded)
    /\ content (reader st) = consumed ++ content r /\ zlen (rbytes st ++ consumed) <= maximum + 1.
Proof using All.
  revert st. induction fuel as [| fuel IH]; intros st Hb Hr Hf; [lia |]. cbn [run].
  pose proof (eq_refl (read_turn read maximum st)) as Ht. unfold read_turn at 2 in Ht. rewrite Ht. clear Ht.
  pose proof (zlen_nonneg (rbytes st)).
  assert (0 < request maximum st <= BUFFER_LEN /\ request maximum st <= maximum - zlen (rbytes st) + 1) as [Hq1 Hq2]
    by (unfold request; rewrite Hb; unfold BUFFER_LEN, usize_max in *; lia).
  assert (zlen (ztake (request maximum st) (buffer st)) = request maximum st) as Hsl
    by (apply zlen_ztake; lia).
  pose proof (read_contract _ _ _ Hread (reader st) (ztake (request maximum st) (buffer st)) ltac:(lia)) as Hc.
  destruct (read _ _) as [r' [slice outcome]]. destruct Hc as [Hslice Hc]. rewrite Hsl in *.
  assert (zlen (slice ++ zdrop (request maximum st) (buffer st)) = BUFFER_LEN) as Hb'
    by (rewrite zlen_app, Hslice, zlen_zdrop by lia; lia).
  destruct outcome as [count | e].
  - destruct Hc as (Hcount & Hend & Hcontent & Hpat).
    rewrite (proj2 (Z.ltb_ge _ _)) by lia.
    assert (ztake count (slice ++ zdrop (request maximum st) (buffer st)) = ztake count slice) as Htake
      by (unfold ztake; apply take_app_le; unfold zlen in *; lia).
    assert (zlen (ztake count slice) = count) as Hlen by (apply zlen_ztake; lia).
    destruct (Z.eqb_spec count 0) as [-> | Hne].
    { specialize (Hend eq_refl). exists r', []. rewrite Hend in *. rewrite !app_nil_r.
      rewrite bool_decide_eq_true_2 by done. rewrite ztake_0 in Hcontent.
      split_and!; [done | done | lia]. }
    destruct (Z.ltb_spec (maximum - zlen (rbytes st)) count) as [Hover | Hfit].
    { exists r', (ztake count slice). split_and!; [| done | rewrite zlen_app, Hlen; lia].
      rewrite bool_decide_eq_false_2; [done |]. rewrite Hcontent, !zlen_app, Hlen. zlens. }
    rewrite reserve_total, Htake.
    destruct (IH (MkReadState r' (rbytes st ++ ztake count slice) (slice ++ zdrop (request maximum st) (buffer st))))
      as (r & consumed & Hrun & Hcons & Hlim); cbn [reader rbytes buffer] in *.
    + done.
    + rewrite zlen_app. lia.
    + rewrite Hcontent, length_app in Hf. unfold zlen in Hlen. lia.
    + exists r, (ztake count slice ++ consumed). rewrite Hrun, Hcontent, Hcons.
      rewrite <- !app_assoc in *.
      split_and!; done.
  - destruct Hc as (Hk & Hsame & Hpat). rewrite bool_decide_eq_true_2 by done.
    destruct (IH (MkReadState r' (rbytes st) (slice ++ zdrop (request maximum st) (buffer st))))
      as (r & consumed & Hrun & Hcons & Hlim); cbn [reader rbytes buffer] in *; [done | done | rewrite Hsame; lia |].
    rewrite Hsame in *. eauto.
Qed.
End Complete.

(** Reading such a reader ends, whatever the allocator grants. *)
Lemma reading_ends `{Allocator} {R} (read : R -> bytes -> R * (bytes * result IoError Z)) content patience maximum r fuel :
  ReadContract read content patience -> 0 <= maximum <= usize_max ->
  (patience r + length (content r) < fuel)%nat ->
  exists a, steps (read_turn read maximum) fuel (read_start r) = inr a.
Proof.
  intros Hread Hmax Hf.
  destruct (run_returns (read_turn read maximum)
    (fun st => zlen (buffer st) = BUFFER_LEN /\ zlen (rbytes st) <= maximum)
    (fun st => patience (reader st) + length (content (reader st)))%nat fuel (read_start r)) as [a Ha].
  - intros s s' [Hb Hr] Ht. unfold read_turn in Ht. pose proof (zlen_nonneg (rbytes s)).
    assert (0 < request maximum s <= BUFFER_LEN) as Hq
      by (unfold request; rewrite Hb; unfold BUFFER_LEN, usize_max in *; lia).
    assert (zlen (ztake (request maximum s) (buffer s)) = request maximum s) as Hsl by (apply zlen_ztake; lia).
    pose proof (read_contract _ _ _ Hread (reader s) (ztake (request maximum s) (buffer s)) ltac:(lia)) as Hc.
    destruct (read _ _) as [r' [slice outcome]]. destruct Hc as [Hslice Hc]. rewrite Hsl in *.
    assert (zlen (slice ++ zdrop (request maximum s) (buffer s)) = BUFFER_LEN) as Hb'
      by (rewrite zlen_app, Hslice, zlen_zdrop by lia; lia).
    destruct outcome as [count | e].
    + destruct Hc as (Hcount & _ & Hcontent & Hpat). destruct (_ <? count); [done |].
      destruct (Z.eqb_spec count 0) as [? | Hne]; [done |].
      destruct (Z.ltb_spec (maximum - zlen (rbytes s)) count) as [? | Hfit]; [done |].
      destruct (reserve _ _ _ _); [| done]. injection Ht as <-. cbn [reader rbytes buffer].
      pose proof (zlen_ztake_le count (slice ++ zdrop (request maximum s) (buffer s))).
      split; [split; [done | rewrite zlen_app; lia] |]. rewrite Hcontent, length_app.
      assert (zlen (ztake count slice) = count) as Hlen by (apply zlen_ztake; lia). unfold zlen in Hlen. lia.
    + destruct Hc as (Hk & Hsame & Hpat). rewrite bool_decide_eq_true_2 in Ht by done.
      injection Ht as <-. cbn [reader rbytes buffer]. rewrite Hsame. split; [done | lia].
  - cbn [read_start buffer rbytes]. zlen_nil. split; [| lia].
    unfold zlen, zeros. rewrite length_replicate. unfold BUFFER_LEN. lia.
  - done.
  - exists a. rewrite run_steps in Ha. destruct (steps _ _ _); [done | by injection Ha as ->].
Qed.

(** C32: Whatever the reader answers, what [read_limited] returns is within the
    maximum. From a reader that keeps the contract of [Read] it always returns:
    the whole content when that fits, [LimitExceeded] when it does not, having
    consumed at most one byte more than the maximum. *)
Theorem read_limited_within `{Allocator} `{!AllocatorTotal} {R}
    (read : R -> bytes -> R * (bytes * result IoError Z)) maximum :
  0 <= maximum <= usize_max ->
  (forall fuel r r' b, read_limited read maximum fuel r = Some (r', Ok b) -> zlen b <= maximum)
  /\ forall content patience, ReadContract read content patience ->
     forall r fuel, (patience r + length (content r) + 1 < fuel)%nat ->
     exists r' consumed,
       read_limited read maximum fuel r =
         Some (r', if bool_decide (zlen (content r) <= maximum) then Ok (content r) else Err LimitExceeded)
       /\ content r = consumed ++ content r' /\ zlen consumed <= maximum + 1.
Proof.
  intros Hmax. split.
  - intros fuel r r' b. apply read_turn_bounded. cbn. zlen_nil. lia.
  - intros content patience Hread r fuel Hf.
    destruct (read_turn_complete read content patience maximum Hread Hmax fuel
      (MkReadState r [] (zeros (Z.to_nat BUFFER_LEN)))) as (r' & consumed & Hrun & Hc & Hl);
      [| cbn; zlen_nil; lia | done |].
    + cbn [buffer]. unfold zlen, zeros. rewrite length_replicate. unfold BUFFER_LEN. lia.
    + exists r', consumed. done.
Qed.

(** A reader that is interrupted [fst] times and then gives two bytes a call. *)
Section Sample.
#[local] Existing Instances plentiful.

Definition pair_reader (r : nat * bytes) (b : bytes) : (nat * bytes) * (bytes * result IoError Z) :=
  match r with
  | (S n, c) => ((n, c), (b, Err (MkIoError (Some 4) Interrupted)))
  | (O, c) =>
      let k := Z.min (zlen b) (Z.min 2 (zlen c)) in
      ((O, zdrop k c), (ztake k c ++ zdrop k b, Ok k))
  end.

Lemma pair_reader_contract : ReadContract pair_reader snd fst.
Proof.
  constructor. intros [[| n] c] b Hb; cbn [pair_reader]; [| by cbn; split_and!; try lia].
  pose proof (zlen_nonneg c).
  rewrite zlen_app, zlen_ztake, zlen_zdrop by lia. split; [lia |]. split; [lia |].
  cbn [snd fst]. split_and!; [| | done].
  - intros Hk. apply zlen_0_nil. lia.
  - rewrite ztake_app_exact by (rewrite zlen_ztake; lia). by rewrite ztake_zdrop.
Qed.

Lemma read_limited_within_witness :
  exists r' consumed,
    read_limited pair_reader 4 10 (1%nat, lit "abc") = Some (r', Ok (lit "abc"))
    /\ lit "abc" = consumed ++ snd r'.
Proof.
  assert (0 <= 4 <= usize_max) as Hm by (vm_compute; split; discriminate).
  assert ((fst (1%nat, lit "abc") + length (snd (1%nat, lit "abc")) + 1 < 10)%nat) as Hf by (cbn; lia).
  destruct (proj2 (read_limited_within pair_reader 4 Hm) snd fst pair_reader_contract (1%nat, lit "abc") 10%nat Hf)
    as (r' & consumed & Hr & Hc & _).
  exists r', consumed. split; [exact Hr | exact Hc].
Defined.
End Sample.
End PlatformRead.
