(* ===== verification/PlatformXattr.v ===== *)
(** * Raw extended attributes ([rust/platform/src/xattr.rs])

    Attribute names and values read through a live descriptor, with buffers
    that grow to the caller's maximum and no further. *)

From S2P Require Export PlatformRead.

Module Xattrs.
Import Platform.

(** The error numbers of [libc]. *)
Class Errno := { ENODATA : Z; ERANGE : Z }.

(** [fgetxattr], [flistxattr], [fsetxattr] and [fremovexattr]: the buffer they
    leave, their return value and the error number they set. *)
Class XattrOs `{Os} := {
  fgetxattr : File -> bytes -> bytes -> World -> World * (bytes * Z * Z);
  flistxattr : File -> bytes -> World -> World * (bytes * Z * Z);
  fsetxattr : File -> bytes -> bytes -> World -> World * (Z * Z);
  fremovexattr : File -> bytes -> World -> World * (Z * Z)
}.

(** ** Lists of names *)

(** [bytes.split_inclusive(|byte| *byte == 0)] *)
Fixpoint split_inclusive (s : bytes) : list bytes :=
  match s with
  | [] => []
  | b :: s =>
      if Byte.eqb b x00 then [b] :: split_inclusive s
      else
        match split_inclusive s with
        | [] => [[b]]
        | part :: parts => (b :: part) :: parts
        end
  end.

Record Names : Type := MkNames { list_bytes : bytes }.

(** One turn of the loop of [Names::parse]: the count still allowed. *)
Definition parse_step (remaining : Z) (name : bytes) : result Error Z :=
  let? _ := fail_if ((zlen name <=? 1) || (256 <? zlen name)) invalid_data in
  let? _ := fail_if (remaining =? 0) LimitExceeded in
  Ok (remaining - 1).

Definition parse (s : bytes) (maximum_count : Z) : result Error Names :=
  let? _ := fail_if (negb (bool_decide (s = [])) && negb (bool_decide (list.last s = Some x00))) invalid_data in
  let? _ := foldM parse_step maximum_count (split_inclusive s) in
  Ok (MkNames s).

Definition iter (names : Names) : list bytes :=
  (fun name => ztake (zlen name - 1) name) <$> split_inclusive (list_bytes names).

(** ** Growing reads *)

Definition count `{ErrorKinds} (value errno : Z) : result IoError Z :=
  if value <? 0 then Err (os_error errno) else Ok value.

Section ReadBuffer.
Context `{Allocator, Errno} {S : Type}.
Context (read : S -> bytes -> S * (bytes * result IoError Z)).
Context (maximum : Z).

(** One turn of the loop, with the state of the closure and the capacity. *)
Definition buffer_turn (ceiling : Z) (st : S * Z) : S * Z + S * result Error bytes :=
  let '(s, capacity) := st in
  match reserve OutOfMemory 1 0 capacity with
  | Err e => inr (s, Err e)
  | Ok _ =>
      let '(s, (buffer, outcome)) := read s (zeros (Z.to_nat capacity)) in
      match outcome with
      | Ok n =>
          if capacity <? n then inr (s, Err invalid_data)
          else if maximum <? n then inr (s, Err LimitExceeded)
          else inr (s, Ok (ztake n buffer))
      | Err e =>
          if bool_decide (raw_os_error e = Some ERANGE) then
            if capacity =? ceiling then inr (s, Err LimitExceeded)
            else inl (s, grow capacity ceiling)
          else inr (s, Err (Io e))
      end
  end.

Definition read_buffer (fuel : nat) (s : S) : option (S * result Error bytes) :=
  match checked_add maximum 1 with
  | None => Some (s, Err LimitExceeded)
  | Some ceiling => run (buffer_turn ceiling) fuel (s, first_capacity ceiling)
  end.
End ReadBuffer.

(** Turns enough for a buffer of 256 bytes to reach any ceiling. *)
Definition buffer_fuel : nat := 58.

(** ** Operations *)

Section Operations.
Context `{Allocator, Errno, ErrorKinds, XattrOs}.

Definition terminated_name (name : bytes) : result Error bytes :=
  let? _ := fail_if (bool_decide (name = []) || (255 <? zlen name) || contains x00 name) InvalidAttributeName in
  let? _ := reserve OutOfMemory 0 0 (zlen name + 1) in
  Ok (name ++ [x00]).

(** The closure [get] passes to [read_buffer]. *)
Definition get_closure (file : File) (terminated : bytes) (w : World) (output : bytes) :
    World * (bytes * result IoError Z) :=
  let '(w, (output, value, errno)) := fgetxattr file terminated output w in
  (w, (output, count value errno)).

Definition absent_is_none (r : result Error bytes) : result Error (option bytes) :=
  match r with
  | Ok s => Ok (Some s)
  | Err (Io e) => if bool_decide (raw_os_error e = Some ENODATA) then Ok None else Err (Io e)
  | Err e => Err e
  end.

Definition get (file : File) (name : bytes) (maximum : Z) (w : World) :
    option (World * result Error (option bytes)) :=
  match terminated_name name with
  | Err e => Some (w, Err e)
  | Ok terminated =>
      match read_buffer (get_closure file terminated) maximum buffer_fuel w with
      | None => None
      | Some (w, r) => Some (w, absent_is_none r)
      end
  end.

Definition set (file : File) (name value : bytes) (w : World) : World * result Error unit :=
  match terminated_name name with
  | Err e => (w, Err e)
  | Ok name =>
      let '(w, (r, errno)) := fsetxattr file name value w in
      (w, if r <? 0 then Err (Io (os_error errno)) else Ok tt)
  end.

Definition remove (file : File) (name : bytes) (w : World) : World * result Error bool :=
  match terminated_name name with
  | Err e => (w, Err e)
  | Ok name =>
      let '(w, (r, errno)) := fremovexattr file name w in
      (w,
       if r =? 0 then Ok true
       else if bool_decide (raw_os_error (os_error errno) = Some ENODATA) then Ok false
       else Err (Io (os_error errno)))
  end.

Definition list_closure (file : File) (w : World) (output : bytes) :
    World * (bytes * result IoError Z) :=
  let '(w, (output, value, errno)) := flistxattr file output w in
  (w, (output, count value errno)).

Definition list_names (file : File) (maximum_bytes maximum_count : Z) (w : World) :
    option (World * result Error Names) :=
  match read_buffer (list_closure file) maximum_bytes buffer_fuel w with
  | None => None
  | Some (w, r) => Some (w, let? s := r in parse s maximum_count)
  end.
End Operations.

(** ** Growing reads always return *)

Section ReadBufferFacts.
Context `{Allocator, Errno} {S : Type}.
Context (read : S -> bytes -> S * (bytes * result IoError Z)) (maximum : Z).
Context (Hmax : 0 <= maximum <= usize_max).

Lemma read_buffer_returns s : exists x, read_buffer read maximum buffer_fuel s = Some x.
Proof using Hmax.
  unfold read_buffer. destruct (checked_add maximum 1) as [ceiling |] eqn:Hc; [| eauto].
  apply checked_add_Some in Hc as [-> Hc].
  apply (run_returns _ (fun st => 1 <= st.2 <= maximum + 1) (fun st => growth st.2 (maximum + 1))).
  - intros [s1 capacity] s' Hst Ht. unfold buffer_turn in Ht. cbn [snd] in *.
    destruct (reserve _ _ _ _); [| done]. destruct (read _ _) as [s2 [buffer [n | e]]].
    + destruct (_ <? n); [done |]. by destruct (_ <? n).
    + case_bool_decide; [| done]. destruct (Z.eqb_spec capacity (maximum + 1)); [done |].
      injection Ht as <-. cbn [snd]. apply grow_progress; unfold u64_max, usize_max in *; lia.
  - cbn [snd]. apply first_capacity_range. lia.
  - cbn [snd]. apply first_growth. lia.
Qed.

Lemma read_buffer_bounded fuel s s' b :
  read_buffer read maximum fuel s = Some (s', Ok b) -> zlen b <= maximum.
Proof using Hmax.
  unfold read_buffer. destruct (checked_add maximum 1) as [ceiling |]; [| done]. intros Hr.
  refine (run_post _ (fun _ => True) (fun x => forall b, x.2 = Ok b -> zlen b <= maximum)
    fuel _ (s', Ok b) (fun _ _ _ _ => I) _ I Hr b eq_refl).
  intros [s1 capacity] a _ Ht b' Hb. unfold buffer_turn in Ht.
  destruct (reserve _ _ _ _); [| injection Ht as <-; done]. destruct (read _ _) as [s2 [buffer [n | e]]].
  - destruct (_ <? n); [injection Ht as <-; done |].
    destruct (Z.ltb_spec maximum n); injection Ht as <-; [done |]. injection Hb as <-.
    pose proof (zlen_ztake_le n buffer). lia.
  - case_bool_decide; [| injection Ht as <-; done]. destruct (_ =? _); [injection Ht as <-; done | done].
Qed.

(** A value the kernel returns whole, or with [ERANGE] when the buffer is too
    small; [keeps] relates the states between which it does not change. *)
Lemma read_buffer_value `{!AllocatorTotal} (keeps : S -> Prop) (value : bytes) s :
  (forall s b, keeps s -> 0 < zlen b ->
     let '(s', (buffer, outcome)) := read s b in
     keeps s' /\
     if zlen value <=? zlen b then outcome = Ok (zlen value) /\ ztake (zlen value) buffer = value
     else exists e, outcome = Err e /\ raw_os_error e = Some ERANGE) ->
  keeps s -> maximum < usize_max ->
  exists s', read_buffer read maximum buffer_fuel s =
    Some (s', if bool_decide (zlen value <= maximum) then Ok value else Err LimitExceeded).
Proof using Hmax.
  intros Hread Hs Hm. destruct (read_buffer_returns s) as [[s' r] Hr]. exists s'. rewrite Hr. do 2 f_equal.
  revert Hr. unfold read_buffer.
  rewrite (proj2 (checked_add_Some maximum 1 (maximum + 1))) by (unfold usize_max, u64_max in *; lia). intros Hr.
  refine (run_post _ (fun st => keeps st.1 /\ 1 <= st.2 <= maximum + 1) 
    (fun x => x.2 = if bool_decide (zlen value <= maximum) then Ok value else Err LimitExceeded)
    buffer_fuel _ (s', r) _ _ _ Hr).
  3: { cbn [fst snd]. split; [done |]. apply first_capacity_range. lia. }
  - intros [s1 capacity] st' [Hk Hc] Ht. cbn [fst snd] in *. unfold buffer_turn in Ht. rewrite reserve_total in Ht.
    specialize (Hread s1 (zeros (Z.to_nat capacity)) Hk).
    assert (zlen (zeros (Z.to_nat capacity)) = capacity) as Hz
      by (unfold zlen, zeros; rewrite length_replicate; lia).
    rewrite Hz in Hread. specialize (Hread ltac:(lia)).
    destruct (read _ _) as [s2 [buffer outcome]]. destruct Hread as [Hk2 Hread].
    destruct (Z.leb_spec (zlen value) capacity).
    + destruct Hread as [-> _]. destruct (_ <? zlen value); [done |]. by destruct (_ <? zlen value).
    + destruct Hread as (e & -> & He). rewrite bool_decide_eq_true_2 in Ht by done.
      destruct (Z.eqb_spec capacity (maximum + 1)); [done |]. injection Ht as <-. cbn [fst snd].
      split; [done |]. apply grow_progress; unfold usize_max in *; lia.
  - intros [s1 capacity] a [Hk Hc] Ht. cbn [fst snd] in *. unfold buffer_turn in Ht. rewrite reserve_total in Ht.
    specialize (Hread s1 (zeros (Z.to_nat capacity)) Hk).
    assert (zlen (zeros (Z.to_nat capacity)) = capacity) as Hz
      by (unfold zlen, zeros; rewrite length_replicate; lia).
    rewrite Hz in Hread. specialize (Hread ltac:(lia)).
    destruct (read _ _) as [s2 [buffer outcome]]. destruct Hread as [Hk2 Hread].
    destruct (Z.leb_spec (zlen value) capacity).
    + destruct Hread as [-> Hv]. rewrite (proj2 (Z.ltb_ge _ _)) in Ht by lia.
      destruct (Z.ltb_spec maximum (zlen value)); injection Ht as <-; cbn [snd].
      * by rewrite bool_decide_eq_false_2 by lia.
      * rewrite bool_decide_eq_true_2 by lia. by rewrite Hv.
    + destruct Hread as (e & -> & He). rewrite bool_decide_eq_true_2 in Ht by done.
      destruct (Z.eqb_spec capacity (maximum + 1)); [| done]. injection Ht as <-. cbn [snd].
      by rewrite bool_decide_eq_false_2 by lia.
Qed.
End ReadBufferFacts.

(** ** Reading one attribute *)

Definition valid_name (name : bytes) : Prop := name <> [] /\ zlen name <= 255 /\ x00 ∉ name.

Lemma terminated_name_Ok `{AllocatorTotal} name r :
  terminated_name name = Ok r <-> valid_name name /\ r = name ++ [x00].
Proof.
  unfold terminated_name, valid_name. rewrite rbind_seq_Ok, fail_if_Ok, !orb_false_iff.
  rewrite bool_decide_eq_false, Z.ltb_ge, contains_false, reserve_total. cbn [rbind]. naive_solver.
Qed.

Lemma terminated_name_Err `{AllocatorTotal} name e :
  terminated_name name = Err e -> e = InvalidAttributeName /\ ~ valid_name name.
Proof.
  intros He. split.
  - unfold terminated_name in He. rewrite reserve_total in He. cbn [rbind] in He.
    by apply rbind_Err in He as [[_ <-]%fail_if_Err | (? & _ & [=])].
  - intros Hv. by rewrite (proj2 (terminated_name_Ok name _) (conj Hv eq_refl)) in He.
Qed.

Section Get.
Context `{Allocator} `{!AllocatorTotal} `{Errno, ErrorKinds, XattrOs}.

(** [fgetxattr] as getxattr(2) documents it, for an attribute that does not
    change: [ENODATA] when it is absent, otherwise its whole value, or [ERANGE]
    when the buffer is too small for it. *)
Definition GetContract (stored : World -> option bytes) (file : File) (terminated : bytes) : Prop :=
  forall w b, 0 < zlen b ->
  let '(w', (b', value, errno)) := fgetxattr file terminated b w in
  stored w' = stored w /\
  match stored w with
  | None => value < 0 /\ errno = ENODATA
  | Some x =>
      if zlen x <=? zlen b then value = zlen x /\ ztake (zlen x) b' = x
      else value < 0 /\ errno = ERANGE
  end.

Lemma count_negative value errno : value < 0 -> count value errno = Err (os_error errno).
Proof. unfold count. intros Hv. by rewrite (proj2 (Z.ltb_lt _ _) Hv). Qed.

(** An absent attribute is reported by the first call. *)
Lemma get_absent stored file terminated maximum w :
  0 <= maximum < usize_max -> ENODATA <> ERANGE ->
  GetContract stored file terminated -> stored w = None ->
  exists w', read_buffer (get_closure file terminated) maximum buffer_fuel w =
    Some (w', Err (Io (os_error ENODATA))).
Proof.
  intros Hm Hne Hc Hs. unfold read_buffer.
  rewrite (proj2 (checked_add_Some maximum 1 (maximum + 1))) by (unfold usize_max, u64_max in *; lia).
  unfold buffer_fuel. cbn [run]. unfold buffer_turn at 1. rewrite reserve_total. unfold get_closure at 1.
  assert (0 < zlen (zeros (Z.to_nat (first_capacity (maximum + 1))))) as Hz
    by (unfold zlen, zeros, first_capacity; rewrite length_replicate; lia).
  specialize (Hc w _ Hz). destruct (fgetxattr _ _ _ w) as [w' [[b' value] errno]].
  rewrite Hs in Hc. destruct Hc as (_ & Hv & ->). rewrite count_negative by done.
  rewrite bool_decide_eq_false_2 by (cbn [raw_os_error os_error]; congruence). eauto.
Qed.

(** C33: Whatever the kernel answers, [get] returns after at most 58 calls to
    it, and never more than the maximum. From a kernel that behaves as
    documented it returns the attribute's whole value, [None] when there is no
    such attribute, and [LimitExceeded] exactly when the value is longer than
    the maximum; an invalid name reaches no system call. *)
Theorem xattr_get file name maximum w :
  0 <= maximum < usize_max ->
  (exists w' r, get file name maximum w = Some (w', r)
     /\ forall v, r = Ok (Some v) -> zlen v <= maximum)
  /\ forall stored, ENODATA <> ERANGE -> GetContract stored file (name ++ [x00]) ->
     (valid_name name -> exists w', get file name maximum w =
        Some (w', match stored w with
                  | None => Ok None
                  | Some v => if bool_decide (zlen v <= maximum) then Ok (Some v) else Err LimitExceeded
                  end))
     /\ (~ valid_name name -> get file name maximum w = Some (w, Err InvalidAttributeName)).
Proof.
  intros Hm. split.
  - unfold get. destruct (terminated_name name) as [t | e]; [| eexists _, _; split; [done |]; by intros ?].
    destruct (read_buffer_returns (get_closure file t) maximum ltac:(lia) w) as [[w' r] Hr]. rewrite Hr.
    eexists _, _. split; [done |]. intros v Hv. destruct r as [b | []]; cbn in Hv; try discriminate.
    + injection Hv as ->. eapply read_buffer_bounded; [| exact Hr]. lia.
    + by case_bool_decide.
  - intros stored Hne Hc. split.
    + intros Hv. unfold get. rewrite (proj2 (terminated_name_Ok name _) (conj Hv eq_refl)).
      destruct (stored w) as [v |] eqn:Hs.
      * destruct (read_buffer_value (get_closure file (name ++ [x00])) maximum ltac:(lia)
          (fun w => stored w = Some v) v w) as [w' Hr]; [| done | lia |].
        -- intros w1 b Hk Hb. unfold get_closure. specialize (Hc w1 b Hb).
           destruct (fgetxattr _ _ b w1) as [w2 [[b' value] errno]]. rewrite Hk in Hc.
           destruct Hc as [-> Hc]. split; [done |]. destruct (_ <=? _).
           ++ destruct Hc as [-> Ht]. split; [| done]. unfold count.
              by rewrite (proj2 (Z.ltb_ge _ _)) by zlens.
           ++ destruct Hc as [Hneg ->]. rewrite count_negative by done. eauto.
        -- rewrite Hr. exists w'. by case_bool_decide.
      * destruct (get_absent stored file (name ++ [x00]) maximum w) as [w' Hr]; [done.. |].
        rewrite Hr. exists w'. cbn. by rewrite bool_decide_eq_true_2.
    + intros Hn. unfold get. destruct (terminated_name name) as [t | e] eqn:Ht.
      * by apply terminated_name_Ok in Ht as [? _].
      * by apply terminated_name_Err in Ht as [-> _].
Qed.
End Get.

(** ** Lists of names *)

Definition terminated_list (names : list bytes) : bytes := names ≫= (fun name => name ++ [x00]).

Lemma split_inclusive_cons name s :
  x00 ∉ name -> split_inclusive (name ++ x00 :: s) = (name ++ [x00]) :: split_inclusive s.
Proof.
  induction name as [| b name IH]; intros Hn; cbn [app split_inclusive]; [done |].
  apply not_elem_of_cons in Hn as [Hb Hn].
  rewrite (proj2 (byte_eqb_neq b x00)) by done. by rewrite IH.
Qed.

Lemma split_inclusive_terminated names :
  Forall (fun name => x00 ∉ name) names ->
  split_inclusive (terminated_list names) = (fun name => name ++ [x00]) <$> names.
Proof.
  unfold terminated_list. induction 1 as [| name names Hn Hns IH]; [done |].
  rewrite bind_cons, <- app_assoc. cbn [app]. by rewrite split_inclusive_cons, IH.
Qed.

(** Bytes that end with a terminator, or none at all, are a list of names. *)
Lemma terminated_list_exists s :
  s = [] \/ list.last s = Some x00 ->
  exists names, s = terminated_list names /\ Forall (fun name => x00 ∉ name) names.
Proof.
  remember (length s) as n eqn:Hn. revert s Hn. induction n as [n IH] using lt_wf_ind. intros s -> [-> | Hl].
  { by exists []. }
  assert (exists a b, s = a ++ x00 :: b /\ x00 ∉ a) as (a & b & -> & Ha).
  { assert (x00 ∈ s) as Hin by by apply list.last_Some_elem_of.
    clear -Hin. induction s as [| c s IH]; [by apply not_elem_of_nil in Hin |].
    destruct (decide (c = x00)) as [-> | Hc]; [by exists [], s; split; [| apply not_elem_of_nil] |].
    apply elem_of_cons in Hin as [<- | Hin]; [done |]. destruct (IH Hin) as (a & b & -> & Ha).
    exists (c :: a), b. split; [done |]. by apply not_elem_of_cons. }
  destruct (IH (length b)) with (s := b) as (names & Hb & Hf).
  - rewrite length_app. cbn. lia.
  - done.
  - destruct b as [| c b]; [by left | right]. by rewrite list.last_app_cons in Hl.
  - exists (a :: names). unfold terminated_list in *. rewrite bind_cons, <- Hb, <- app_assoc.
    split; [done | by constructor].
Qed.

Lemma terminated_list_last names :
  terminated_list names = [] \/ list.last (terminated_list names) = Some x00.
Proof.
  induction names as [| name names _] using rev_ind; [by left |]. right. unfold terminated_list.
  rewrite bind_app. cbn. rewrite app_nil_r, app_assoc. apply list.last_snoc.
Qed.

Lemma parse_step_Ok remaining name r :
  0 <= remaining ->
  parse_step remaining (name ++ [x00]) = Ok r <->
  name <> [] /\ zlen name <= 255 /\ 0 < remaining /\ r = remaining - 1.
Proof.
  intros Hr. unfold parse_step. rewrite !rbind_seq_Ok, !fail_if_Ok, orb_false_iff, Z.leb_gt, Z.ltb_ge, Z.eqb_neq.
  rewrite zlen_app, zlen_cons. zlen_nil.
  assert (name <> [] <-> 0 < zlen name) as ->.
  { split; [| intros Hz ->; zlen_nil; lia]. intros Hn. destruct name; [done |]. rewrite zlen_cons. zlens. }
  split.
  - intros [? [? [= <-]]]. lia.
  - intros (? & ? & ? & ->). split; [lia |]. split; [lia | done].
Qed.

Lemma parse_fold_Ok remaining names r :
  0 <= remaining ->
  foldM parse_step remaining ((fun name => name ++ [x00]) <$> names) = Ok r <->
  Forall (fun name => name <> [] /\ zlen name <= 255) names /\ zlen names <= remaining
  /\ r = remaining - zlen names.
Proof.
  revert remaining. induction names as [| name names IH]; intros remaining Hr.
  - cbn. zlen_nil. rewrite Z.sub_0_r. split; [intros [= <-]; by repeat constructor | by intros (_ & _ & ->)].
  - rewrite fmap_cons. cbn [foldM]. rewrite rbind_Ok, Forall_cons_iff, zlen_cons. pose proof (zlen_nonneg names). split.
    + intros (r1 & (Hn & Hl & Hp & ->)%parse_step_Ok & Hf); [| done].
      apply IH in Hf as (Hns & Hlen & ->); [| lia]. split_and!; done || lia.
    + intros ([[Hn Hl] Hns] & Hlen & ->). exists (remaining - 1).
      rewrite parse_step_Ok, IH by lia. split_and!; done || lia.
Qed.

(** The kernel's list of names is accepted exactly when it is a sequence
    of terminated names of 1 to 255 bytes, at most as many as the caller
    allows; what [iter] then yields is those names, each of which the other
    operations accept. *)
Lemma xattr_name_list s maximum names :
  0 <= maximum ->
  parse s maximum = Ok names <->
  exists l, s = terminated_list l /\ Forall valid_name l /\ zlen l <= maximum
    /\ list_bytes names = s /\ iter names = l.
Proof.
  intros Hm. unfold parse.
  assert (forall l, Forall (fun name => x00 ∉ name) l -> iter (MkNames (terminated_list l)) = l) as Hiter.
  { intros l Hl. unfold iter. cbn [list_bytes]. rewrite split_inclusive_terminated by done.
    rewrite <- list_fmap_compose. rewrite <- (list_fmap_id l) at 2. apply list_fmap_ext. intros i name _.
    cbn. apply ztake_app_exact. rewrite zlen_app, zlen_cons. zlen_nil. lia. }
  split.
  - intros Hp. apply rbind_seq_Ok in Hp as [Ht Hp]. apply fail_if_Ok in Ht.
    apply rbind_Ok in Hp as (r & Hf & [= <-]).
    destruct (terminated_list_exists s) as (l & -> & Hl).
    { destruct (decide (s = [])) as [-> | Hn]; [by left | right].
      rewrite bool_decide_eq_false_2 in Ht by done. cbn in Ht.
      by apply negb_false_iff, bool_decide_eq_true in Ht. }
    rewrite split_inclusive_terminated in Hf by done.
    apply parse_fold_Ok in Hf as (Hok & Hlen & _); [| done].
    exists l. split_and!; [done | | done | done | by apply Hiter].
    apply list.Forall_forall. intros name Hin. rewrite list.Forall_forall in Hl, Hok.
    destruct (Hok name Hin). by split_and!; [| | apply Hl].
  - intros (l & -> & Hv & Hlen & Hb & _). destruct names as [b]. cbn in Hb. subst b.
    assert (Forall (fun name => x00 ∉ name) l) as Hz by (eapply list.Forall_impl; [exact Hv | by intros n (_ & _ & ?)]).
    replace (negb _ && negb _) with false.
    2: { symmetry. apply andb_false_iff. rewrite !negb_false_iff, !bool_decide_eq_true. apply terminated_list_last. }
    cbn [fail_if rbind]. rewrite split_inclusive_terminated by done.
    rewrite (proj2 (parse_fold_Ok maximum l (maximum - zlen l) Hm)); [done |].
    split_and!; [| done | done]. eapply list.Forall_impl; [exact Hv | by intros n (? & ? & _)].
Qed.

(** A system that holds one attribute value and keeps its documented answers. *)
Section Sample.
#[local] Existing Instances plentiful.

#[local] Instance sample_errno : Errno := {| ENODATA := 61; ERANGE := 34 |}.
#[local] Instance sample_kinds : ErrorKinds := {| decode_error_kind := OtherKind |}.
#[local] Instance sample_os : Os := {|
  World := option bytes;
  File := unit;
  openat _ _ _ w := (w, Ok tt);
  open_path _ _ w := (w, Ok tt);
  file_type _ w := (w, Ok Regular);
  file_read _ b w := (w, (b, Ok 0));
  close _ w := w
|}.
#[local] Instance sample_xattrs : XattrOs := {|
  fgetxattr _ _ b w :=
    match w with
    | None => (w, (b, -1, 61))
    | Some x => if zlen x <=? zlen b then (w, (x ++ zdrop (zlen x) b, zlen x, 0)) else (w, (b, -1, 34))
    end;
  flistxattr _ b w := (w, (b, 0, 0));
  fsetxattr _ _ _ w := (w, (0, 0));
  fremovexattr _ _ w := (w, (0, 0))
|}.

Lemma sample_get_contract terminated : GetContract (fun w : @World sample_os => w) tt terminated.
Proof.
  intros w b Hb. cbn. destruct w as [x |]; [| done].
  destruct (zlen x <=? zlen b) eqn:Hl; rewrite ?Hl; [| done].
  split_and!; [done | done |]. by apply ztake_app_exact.
Qed.

Definition sample_file : @File sample_os := tt.
Definition sample_world : @World sample_os := Some (lit "draft").

Lemma xattr_get_witness :
  exists w', get sample_file (lit "user.note") 8 sample_world = Some (w', Ok (Some (lit "draft"))).
Proof.
  assert (0 <= 8 < usize_max) as Hm by (vm_compute; split; [discriminate | reflexivity]).
  assert (valid_name (lit "user.note")) as Hv.
  { split; [discriminate |]. split; [vm_compute; discriminate |]. apply (bool_decide_unpack _). vm_compute. exact I. }
  assert (@ENODATA sample_errno <> @ERANGE sample_errno) as Hne by discriminate.
  destruct (proj2 (xattr_get sample_file (lit "user.note") 8 sample_world Hm) (fun w => w) Hne
    (sample_get_contract _)) as [Hget _].
  destruct (Hget Hv) as [w' Hw]. exists w'. exact Hw.
Defined.

Lemma xattr_name_list_witness :
  exists names, parse (lit "a" ++ [x00] ++ lit "bc" ++ [x00]) 2 = Ok names
    /\ iter names = [lit "a"; lit "bc"].
Proof.
  assert (0 <= 2) as Hm by discriminate.
  assert (parse (lit "a" ++ [x00] ++ lit "bc" ++ [x00]) 2
    = Ok (MkNames (lit "a" ++ [x00] ++ lit "bc" ++ [x00]))) as Hp by (vm_compute; reflexivity).
  eexists. split; [exact Hp |].
  destruct (proj1 (xattr_name_list _ 2 _ Hm) Hp) as (l & Hl & _ & _ & _ & Hi).
  rewrite Hi. transitivity (iter (MkNames (lit "a" ++ [x00] ++ lit "bc" ++ [x00]))); [by rewrite Hi | reflexivity].
Defined.
End Sample.
End Xattrs.
