(* ===== verification/PlatformEntry.v ===== *)
(** * Inspecting entries ([rust/platform/src/entry.rs])

    What the system reports of an entry as the code's own record, on Linux and
    on macOS, and the reading of symlink targets. *)

From S2P Require Export PlatformXattr.

Module Entries.
Import Platform.

Inductive Kind : Type := KFile | KDirectory | KSymlink | KOther.

#[global] Instance Kind_eq_dec : EqDecision Kind.
Proof. solve_decision. Defined.

Record Identity : Type := MkIdentity { device : Z; inode : Z }.

#[global] Instance Identity_eq_dec : EqDecision Identity.
Proof. solve_decision. Defined.

Record EntryInfo : Type := MkEntryInfo {
  ikind : Kind;
  imode : Mode;
  ilength : Z;
  identity : Identity;
  imtime : Time;
  birth : option Time;
  native_flags : Z
}.

(** The numbers of [libc] this file uses. *)
Class StatNumbers := {
  S_IFMT : Z;
  S_IFREG : Z;
  S_IFDIR : Z;
  S_IFLNK : Z;
  STATX_TYPE : Z;
  STATX_MODE : Z;
  STATX_INO : Z;
  STATX_SIZE : Z;
  STATX_MTIME : Z;
  STATX_BTIME : Z;
  AT_SYMLINK_NOFOLLOW : Z;
  AT_NO_AUTOMOUNT : Z;
  AT_EMPTY_PATH : Z;
  makedev : Z -> Z -> Z
}.

(** [stamp]: the nanoseconds are checked before they are truncated to 32 bits. *)
Definition stamp (sec nsec : Z) : result Error Time :=
  if negb ((0 <=? nsec) && (nsec <? 1000000000)) then Err invalid_data
  else Ok (MkTime sec (nsec mod 2 ^ 32)).

Section Finish.
Context `{StatNumbers}.

Definition kind_of (mode : Z) : Kind :=
  let t := Z.land mode S_IFMT in
  if t =? S_IFREG then KFile
  else if t =? S_IFDIR then KDirectory
  else if t =? S_IFLNK then KSymlink
  else KOther.

Definition finish (mode length : Z) (identity : Identity) (mtime : Time) (birth : option Time)
    (native_flags : Z) : result Error EntryInfo :=
  let kind := kind_of mode in
  let bits := if bool_decide (kind = KSymlink) then 511 else Z.land mode 511 mod 2 ^ 16 in
  let? mode := map_err (fun _ => invalid_data) (mode_from_bits bits) in
  Ok (MkEntryInfo kind mode length identity mtime birth native_flags).

(** ** Linux *)

(** [libc::statx] *)
Record Statx : Type := MkStatx {
  stx_mask : Z;
  stx_mode : Z;
  stx_size : Z;
  stx_ino : Z;
  stx_dev_major : Z;
  stx_dev_minor : Z;
  stx_btime_sec : Z;
  stx_btime_nsec : Z;
  stx_mtime_sec : Z;
  stx_mtime_nsec : Z
}.

Definition REQUIRED : Z :=
  Z.lor (Z.lor (Z.lor (Z.lor STATX_TYPE STATX_MODE) STATX_INO) STATX_SIZE) STATX_MTIME.

Definition from_statx (stat : Statx) : result Error EntryInfo :=
  let? _ := fail_if (negb (Z.land (stx_mask stat) REQUIRED =? REQUIRED)) invalid_data in
  let? birth :=
    if negb (Z.land (stx_mask stat) STATX_BTIME =? 0) then
      let? t := stamp (stx_btime_sec stat) (stx_btime_nsec stat) in Ok (Some t)
    else Ok None in
  let? mtime := stamp (stx_mtime_sec stat) (stx_mtime_nsec stat) in
  finish (stx_mode stat) (stx_size stat)
    (MkIdentity (makedev (stx_dev_major stat) (stx_dev_minor stat)) (stx_ino stat)) mtime birth 0.

(** ** macOS *)

(** [libc::stat] *)
Record Stat : Type := MkStat {
  st_mode : Z;
  st_size : Z;
  st_dev : Z;
  st_ino : Z;
  st_mtime : Z;
  st_mtime_nsec : Z;
  st_birthtime : Z;
  st_birthtime_nsec : Z;
  st_flags : Z
}.

(** [u64::try_from(st_size)], [st_dev as u64] *)
Definition from_stat (stat : Stat) : result Error EntryInfo :=
  let? length := if st_size stat <? 0 then Err invalid_data else Ok (st_size stat) in
  let? mtime := stamp (st_mtime stat) (st_mtime_nsec stat) in
  let? birth := stamp (st_birthtime stat) (st_birthtime_nsec stat) in
  finish (st_mode stat) length (MkIdentity (st_dev stat mod 2 ^ 64) (st_ino stat)) mtime (Some birth)
    (st_flags stat).
End Finish.

(** ** Queries *)

(** [statx] on Linux, [fstat] and [fstatat] on macOS, and [readlinkat]: what
    they leave in their output, their return value and the error number. *)
Class StatOs `{Os} := {
  statx : File -> bytes -> Z -> Z -> World -> World * (Statx * Z * Z);
  fstat : File -> World -> World * (Stat * Z * Z);
  fstatat : File -> bytes -> Z -> World -> World * (Stat * Z * Z);
  readlinkat : File -> bytes -> bytes -> World -> World * (bytes * Z * Z)
}.

(** [CStr::from_bytes_with_nul]: one terminator, at the end. *)
Definition from_bytes_with_nul (s : bytes) : option bytes :=
  match rev s with
  | x00 :: r => if contains x00 r then None else Some s
  | _ => None
  end.

Section Queries.
Context `{Allocator, StatNumbers, ErrorKinds, StatOs}.

Definition query_linux (file : File) (name : option bytes) (w : World) : World * result Error EntryInfo :=
  let '(name, flags) :=
    match name with
    | Some name => (name, Z.lor AT_SYMLINK_NOFOLLOW AT_NO_AUTOMOUNT)
    | None => ([x00], AT_EMPTY_PATH)
    end in
  let '(w, (stat, result, errno)) := statx file name flags (Z.lor REQUIRED STATX_BTIME) w in
  (w, if negb (result =? 0) then Err (Io (os_error errno)) else from_statx stat).

Definition query_macos (file : File) (name : option bytes) (w : World) : World * result Error EntryInfo :=
  let '(w, (stat, result, errno)) :=
    match name with
    | Some name => fstatat file name AT_SYMLINK_NOFOLLOW w
    | None => fstat file w
    end in
  (w, if negb (result =? 0) then Err (Io (os_error errno)) else from_stat stat).

Section Query.
(** The platform's [query]. *)
Context (query : File -> option bytes -> World -> World * result Error EntryInfo).

Definition for_file (file : File) : World -> World * result Error EntryInfo := query file None.
Definition inspect_self (d : Directory) : World -> World * result Error EntryInfo := for_file (dfile d).

Definition inspect (d : Directory) (name : bytes) (w : World) : World * result Error EntryInfo :=
  match
    (let? name := basename name in
     ok_or InvalidBasename (from_bytes_with_nul name))
  with
  | Err e => (w, Err e)
  | Ok name => query (dfile d) (Some name) w
  end.
End Query.

(** ** Symlink targets *)

Section ReadLink.
Context (file : File) (name : bytes) (maximum ceiling : Z).

(** One turn of the loop of [read_symlink]. *)
Definition link_turn (st : World * Z) : World * Z + World * result Error bytes :=
  let '(w, capacity) := st in
  match reserve OutOfMemory 1 0 capacity with
  | Err e => inr (w, Err e)
  | Ok _ =>
      let '(w, (buffer, count, errno)) := readlinkat file name (zeros (Z.to_nat capacity)) w in
      if count <? 0 then inr (w, Err (Io (os_error errno)))
      else if capacity <? count then inr (w, Err invalid_data)
      else if maximum <? count then inr (w, Err LimitExceeded)
      else if count <? capacity then inr (w, Ok (ztake count buffer))
      else inl (w, grow capacity ceiling)
  end.
End ReadLink.

Definition read_symlink (d : Directory) (name : bytes) (maximum : Z) (w : World) :
    option (World * result Error bytes) :=
  match
    (let? name := basename name in
     let? ceiling := ok_or LimitExceeded (checked_add maximum 1) in
     Ok (name, ceiling))
  with
  | Err e => Some (w, Err e)
  | Ok (name, ceiling) =>
      run (link_turn (dfile d) name maximum ceiling) Xattrs.buffer_fuel (w, first_capacity ceiling)
  end.
End Queries.

(** ** What an inspected entry satisfies *)

Record info_typed (i : EntryInfo) : Prop := {
  it_mode : mode_from_bits (mbits (imode i)) = Ok (imode i);
  it_symlink : ikind i = KSymlink -> mbits (imode i) = MODE_MASK;
  it_length : is_u64 (ilength i);
  it_mtime : time_valid (imtime i);
  it_birth : option_time_valid (birth i)
}.

Lemma stamp_Ok sec nsec t :
  is_i64 sec -> stamp sec nsec = Ok t <-> t = MkTime sec nsec /\ time_valid t.
Proof.
  intros Hs. unfold stamp, time_valid, NSEC_LIMIT. destruct (_ && _) eqn:Hn; cbn [negb]; zbool.
  - rewrite Z.mod_small by lia. naive_solver lia.
  - split; [done |]. intros [-> [_ Hv]]. cbn in Hv. lia.
Qed.

Section Typed.
Context `{StatNumbers}.

(** A native mode always has a portable part. *)
Lemma finish_total mode length id mtime birth flags :
  0 <= mode -> exists i, finish mode length id mtime birth flags = Ok i
    /\ mode_from_bits (mbits (imode i)) = Ok (imode i)
    /\ (ikind i = KSymlink -> mbits (imode i) = MODE_MASK)
    /\ ilength i = length /\ identity i = id /\ imtime i = mtime /\ Entries.birth i = birth
    /\ ikind i = kind_of mode.
Proof.
  intros Hm. unfold finish.
  assert (exists b, (if bool_decide (kind_of mode = KSymlink) then 511 else Z.land mode 511 mod 2 ^ 16) = b
    /\ mode_from_bits b = Ok (MkMode b) /\ (kind_of mode = KSymlink -> b = MODE_MASK)) as (b & -> & Hb & Hl).
  { eexists. split; [reflexivity |]. case_bool_decide as Hk; [done |]. split; [| done].
    change 511 with (Z.ones 9). rewrite Z.land_ones by lia. pose proof (Z.mod_pos_bound mode (2 ^ 9)).
    rewrite (Z.mod_small _ (2 ^ 16)) by lia. apply mode_from_bits_Ok; [unfold is_u16; lia |]. split; [unfold MODE_MASK; lia | done]. }
  rewrite Hb. cbn [map_err rbind]. eexists. split; [reflexivity |]. cbn. split_and!; done.
Qed.

(** The values the native structures hold by their types. *)
Record statx_typed (s : Statx) : Prop := {
  xt_mode : 0 <= stx_mode s;
  xt_size : is_u64 (stx_size s);
  xt_btime : is_i64 (stx_btime_sec s);
  xt_mtime : is_i64 (stx_mtime_sec s)
}.
Record stat_typed (s : Stat) : Prop := {
  nt_mode : 0 <= st_mode s;
  nt_size : is_i64 (st_size s);
  nt_mtime : is_i64 (st_mtime s);
  nt_btime : is_i64 (st_birthtime s)
}.

(** The answer carries what is required, and its times are times. *)
Definition statx_usable (s : Statx) : Prop :=
  Z.land (stx_mask s) REQUIRED = REQUIRED
  /\ 0 <= stx_mtime_nsec s < NSEC_LIMIT
  /\ (Z.land (stx_mask s) STATX_BTIME <> 0 -> 0 <= stx_btime_nsec s < NSEC_LIMIT).
Definition stat_usable (s : Stat) : Prop :=
  0 <= st_size s /\ 0 <= st_mtime_nsec s < NSEC_LIMIT /\ 0 <= st_birthtime_nsec s < NSEC_LIMIT.

Lemma stamp_usable sec nsec : is_i64 sec -> (exists t, stamp sec nsec = Ok t) <-> 0 <= nsec < NSEC_LIMIT.
Proof.
  intros Hs. setoid_rewrite stamp_Ok; [| done]. unfold time_valid. cbn. split.
  - intros (t & -> & _ & ?). done.
  - intros Hn. eauto.
Qed.

Lemma from_statx_cases s :
  statx_typed s ->
  match from_statx s with
  | Ok i => info_typed i /\ statx_usable s /\ ikind i = kind_of (stx_mode s) /\ ilength i = stx_size s
      /\ imtime i = MkTime (stx_mtime_sec s) (stx_mtime_nsec s)
      /\ birth i = (if Z.land (stx_mask s) STATX_BTIME =? 0 then None
                    else Some (MkTime (stx_btime_sec s) (stx_btime_nsec s)))
  | Err _ => ~ statx_usable s
  end.
Proof.
  intros []. unfold from_statx, statx_usable.
  destruct (Z.eqb_spec (Z.land (stx_mask s) REQUIRED) REQUIRED) as [Hr | Hr]; cbn [negb fail_if rbind]; [| tauto].
  assert (match (if negb (Z.land (stx_mask s) STATX_BTIME =? 0)
      then let? t := stamp (stx_btime_sec s) (stx_btime_nsec s) in Ok (Some t) else Ok None) with
    | Ok b => option_time_valid b
        /\ (Z.land (stx_mask s) STATX_BTIME <> 0 -> 0 <= stx_btime_nsec s < NSEC_LIMIT)
        /\ b = (if Z.land (stx_mask s) STATX_BTIME =? 0 then None
                else Some (MkTime (stx_btime_sec s) (stx_btime_nsec s)))
    | Err _ => Z.land (stx_mask s) STATX_BTIME <> 0 /\ ~ 0 <= stx_btime_nsec s < NSEC_LIMIT
    end) as Hb.
  { destruct (Z.eqb_spec (Z.land (stx_mask s) STATX_BTIME) 0) as [Hz | Hz]; cbn [negb]; [done |].
    pose proof (stamp_usable (stx_btime_sec s) (stx_btime_nsec s) xt_btime0) as Hu.
    destruct (stamp _ _) as [t | e] eqn:Et; cbn [rbind].
    - apply stamp_Ok in Et as [-> Hv]; [| done]. split_and!; [done | | done]. intros _. apply Hu. eauto.
    - split; [done |]. intros Hn. apply Hu in Hn as [t Ht]. done. }
  destruct (if negb _ then _ else _) as [b | e]; cbn [rbind]; [| tauto].
  destruct Hb as (Hbv & Hbn & Hbe).
  pose proof (stamp_usable (stx_mtime_sec s) (stx_mtime_nsec s) xt_mtime0) as Hu.
  destruct (stamp (stx_mtime_sec s) _) as [t | e] eqn:Et; cbn [rbind].
  - apply stamp_Ok in Et as [-> Hv]; [| done].
    destruct (finish_total (stx_mode s) (stx_size s)
      (MkIdentity (makedev (stx_dev_major s) (stx_dev_minor s)) (stx_ino s))
      (MkTime (stx_mtime_sec s) (stx_mtime_nsec s)) b 0 xt_mode0) as (i & -> & Hm & Hl & Hle & _ & Ht & Hbi & Hk).
    rewrite Ht, Hbi, Hk, Hle. split; [constructor; rewrite ?Ht, ?Hbi, ?Hle; done |].
    split; [| done]. split; [done |]. split; [apply Hu; eauto | done].
  - intros (_ & Hn & _). apply Hu in Hn as [t Ht]. done.
Qed.

Lemma from_stat_cases s :
  stat_typed s ->
  match from_stat s with
  | Ok i => info_typed i /\ stat_usable s /\ ikind i = kind_of (st_mode s) /\ ilength i = st_size s
      /\ imtime i = MkTime (st_mtime s) (st_mtime_nsec s)
      /\ birth i = Some (MkTime (st_birthtime s) (st_birthtime_nsec s))
  | Err _ => ~ stat_usable s
  end.
Proof.
  intros []. unfold from_stat, stat_usable.
  destruct (Z.ltb_spec (st_size s) 0); cbn [rbind]; [lia |].
  pose proof (stamp_usable (st_mtime s) (st_mtime_nsec s) nt_mtime0) as Hu.
  destruct (stamp (st_mtime s) _) as [t | e] eqn:Et; cbn [rbind].
  2: { intros (_ & Hn & _). apply Hu in Hn as [t Ht]. done. }
  pose proof (stamp_usable (st_birthtime s) (st_birthtime_nsec s) nt_btime0) as Hub.
  destruct (stamp (st_birthtime s) _) as [tb | e] eqn:Etb; cbn [rbind].
  2: { intros (_ & _ & Hn). apply Hub in Hn as [tb Htb]. done. }
  apply stamp_Ok in Et as [-> Hv]; [| done]. apply stamp_Ok in Etb as [-> Hvb]; [| done].
  destruct (finish_total (st_mode s) (st_size s) (MkIdentity (st_dev s mod 2 ^ 64) (st_ino s))
    (MkTime (st_mtime s) (st_mtime_nsec s)) (Some (MkTime (st_birthtime s) (st_birthtime_nsec s)))
    (st_flags s) nt_mode0) as (i & -> & Hm & Hl & Hle & _ & Ht & Hbi & Hk).
  rewrite Ht, Hbi, Hk, Hle. split.
  - constructor; rewrite ?Ht, ?Hbi, ?Hle; try done. unfold is_u64, is_i64 in *. lia.
  - split; [| done]. split; [lia |]. split; [apply Hu; eauto | apply Hub; eauto].
Qed.

(** C37: What either system reports of an entry becomes a record the metadata
    formats accept: a portable mode (0777 for every symlink), a 64-bit length,
    times with valid nanoseconds, the birth time only when it is reported. It
    is refused exactly when a required field is missing or a reported time or
    length is not one. *)
Theorem entry_info_typed :
  (forall s, statx_typed s ->
     match from_statx s with
     | Ok i => info_typed i /\ statx_usable s /\ ikind i = kind_of (stx_mode s) /\ ilength i = stx_size s
         /\ imtime i = MkTime (stx_mtime_sec s) (stx_mtime_nsec s)
         /\ birth i = (if Z.land (stx_mask s) STATX_BTIME =? 0 then None
                       else Some (MkTime (stx_btime_sec s) (stx_btime_nsec s)))
     | Err _ => ~ statx_usable s
     end)
  /\ forall s, stat_typed s ->
     match from_stat s with
     | Ok i => info_typed i /\ stat_usable s /\ ikind i = kind_of (st_mode s) /\ ilength i = st_size s
         /\ imtime i = MkTime (st_mtime s) (st_mtime_nsec s)
         /\ birth i = Some (MkTime (st_birthtime s) (st_birthtime_nsec s))
     | Err _ => ~ stat_usable s
     end.
Proof. split; [apply from_statx_cases | apply from_stat_cases]. Qed.
End Typed.

(** ** Symlink targets *)

Section ReadLinkFacts.
Context `{Allocator, ErrorKinds, StatOs} (file : File) (name : bytes) (maximum : Z).
Context (Hmax : 0 <= maximum < usize_max).

Lemma link_returns w :
  exists x, run (link_turn file name maximum (maximum + 1)) Xattrs.buffer_fuel
    (w, first_capacity (maximum + 1)) = Some x.
Proof using Hmax.
  apply (run_returns _ (fun st => 1 <= st.2 <= maximum + 1) (fun st => growth st.2 (maximum + 1))).
  - intros [w1 capacity] st' Hst Ht. unfold link_turn in Ht. cbn [snd] in *.
    destruct (reserve _ _ _ _); [| done]. destruct (readlinkat _ _ _ w1) as [w2 [[buffer count] errno]].
    destruct (count <? 0); [done |]. destruct (capacity <? count); [done |].
    destruct (Z.ltb_spec maximum count); [done |]. destruct (Z.ltb_spec count capacity); [done |].
    injection Ht as <-. cbn [snd]. apply grow_progress; lia.
  - cbn [snd]. apply first_capacity_range. lia.
  - cbn [snd]. apply first_growth. lia.
Qed.

Lemma link_bounded fuel st w' b :
  run (link_turn file name maximum (maximum + 1)) fuel st = Some (w', Ok b) -> zlen b <= maximum.
Proof using Hmax.
  intros Hr.
  refine (run_post _ (fun _ => True) (fun x => forall b, x.2 = Ok b -> zlen b <= maximum)
    fuel _ (w', Ok b) (fun _ _ _ _ => I) _ I Hr b eq_refl).
  intros [w1 capacity] a _ Ht b' Hb. unfold link_turn in Ht.
  destruct (reserve _ _ _ _); [| injection Ht as <-; done].
  destruct (readlinkat _ _ _ w1) as [w2 [[buffer count] errno]].
  destruct (count <? 0); [injection Ht as <-; done |]. destruct (capacity <? count); [injection Ht as <-; done |].
  destruct (Z.ltb_spec maximum count); [injection Ht as <-; done |].
  destruct (count <? capacity); [| done]. injection Ht as <-. injection Hb as <-.
  pose proof (zlen_ztake_le count buffer). lia.
Qed.

(** [readlinkat] as readlink(2) documents it, for a link that does not change:
    as much of the target as the buffer holds, its length returned. *)
Definition LinkContract (target : World -> bytes) : Prop :=
  forall w b, 0 < zlen b ->
  let '(w', (b', count, errno)) := readlinkat file name b w in
  target w' = target w /\ count = Z.min (zlen (target w)) (zlen b) /\ ztake count b' = ztake count (target w).

Lemma link_target `{!AllocatorTotal} target w :
  LinkContract target ->
  exists w', run (link_turn file name maximum (maximum + 1)) Xattrs.buffer_fuel
      (w, first_capacity (maximum + 1)) =
    Some (w', if bool_decide (zlen (target w) <= maximum) then Ok (target w) else Err LimitExceeded).
Proof using Hmax.
  intros Hc. destruct (link_returns w) as [[w' r] Hr]. exists w'. rewrite Hr. do 2 f_equal.
  refine (run_post _ (fun st => target st.1 = target w /\ 1 <= st.2 <= maximum + 1)
    (fun x => x.2 = if bool_decide (zlen (target w) <= maximum) then Ok (target w) else Err LimitExceeded)
    Xattrs.buffer_fuel _ (w', r) _ _ _ Hr).
  3: { cbn [fst snd]. split; [done |]. apply first_capacity_range. lia. }
  - intros [w1 capacity] st' [Hk Hcap] Ht. cbn [fst snd] in *. unfold link_turn in Ht. rewrite reserve_total in Ht.
    assert (zlen (zeros (Z.to_nat capacity)) = capacity) as Hz
      by (unfold zlen, zeros; rewrite length_replicate; lia).
    specialize (Hc w1 (zeros (Z.to_nat capacity)) ltac:(lia)). rewrite Hz, Hk in Hc.
    destruct (readlinkat _ _ _ w1) as [w2 [[buffer count] errno]]. destruct Hc as (Hw2 & -> & _).
    destruct (_ <? 0); [done |]. destruct (capacity <? _); [done |].
    destruct (Z.ltb_spec maximum (Z.min (zlen (target w)) capacity)); [done |].
    destruct (Z.ltb_spec (Z.min (zlen (target w)) capacity) capacity); [done |].
    injection Ht as <-. cbn [fst snd]. split; [done |]. apply grow_progress; lia.
  - intros [w1 capacity] a [Hk Hcap] Ht. cbn [fst snd] in *. unfold link_turn in Ht. rewrite reserve_total in Ht.
    assert (zlen (zeros (Z.to_nat capacity)) = capacity) as Hz
      by (unfold zlen, zeros; rewrite length_replicate; lia).
    specialize (Hc w1 (zeros (Z.to_nat capacity)) ltac:(lia)). rewrite Hz, Hk in Hc.
    destruct (readlinkat _ _ _ w1) as [w2 [[buffer count] errno]]. destruct Hc as (Hw2 & -> & Hb).
    pose proof (zlen_nonneg (target w)).
    rewrite (proj2 (Z.ltb_ge _ 0)) in Ht by lia. rewrite (proj2 (Z.ltb_ge capacity _)) in Ht by lia.
    destruct (Z.ltb_spec maximum (Z.min (zlen (target w)) capacity)).
    + injection Ht as <-. cbn [snd]. by rewrite bool_decide_eq_false_2 by lia.
    + destruct (Z.ltb_spec (Z.min (zlen (target w)) capacity) capacity); [| done].
      injection Ht as <-. cbn [snd]. rewrite Hb, bool_decide_eq_true_2 by lia. f_equal. apply ztake_all. lia.
Qed.
End ReadLinkFacts.

(** A name that is one path component. *)
Definition one_component (name : bytes) : Prop := path_ok name /\ x2f ∉ name.

Lemma basename_Ok `{AllocatorTotal} name r :
  basename name = Ok r <-> one_component name /\ r = name ++ [x00].
Proof.
  unfold basename, one_component. rewrite !rbind_seq_Ok, map_err_Ok, validate_path_ok, fail_if_Ok, contains_false.
  rewrite reserve_total. cbn [rbind]. naive_solver.
Qed.

Lemma basename_Err `{AllocatorTotal} name : ~ one_component name -> basename name = Err InvalidBasename.
Proof.
  intros Hn. destruct (basename name) as [r | e] eqn:E.
  - by apply basename_Ok in E as [? _].
  - unfold basename in E. rewrite reserve_total in E. cbn [rbind] in E.
    apply rbind_Err in E as [(? & _ & <-)%map_err_Err | (? & _ & [[_ <-]%fail_if_Err | (? & _ & [=])]%rbind_Err)]; done.
Qed.

(** C34: Whatever the system answers, [read_symlink] returns after at most 58
    calls to it, and never more than the maximum. From a system that behaves as
    documented it returns the whole target, never a truncated one, and
    [LimitExceeded] exactly when the target is longer than the maximum; a name
    that is not one path component reaches no system call. *)
Theorem read_symlink_whole `{AllocatorTotal, ErrorKinds, StatOs} d name maximum w :
  0 <= maximum < usize_max ->
  (exists w' r, read_symlink d name maximum w = Some (w', r) /\ forall b, r = Ok b -> zlen b <= maximum)
  /\ forall target, LinkContract (dfile d) (name ++ [x00]) target ->
     (one_component name -> exists w', read_symlink d name maximum w =
        Some (w', if bool_decide (zlen (target w) <= maximum) then Ok (target w) else Err LimitExceeded))
     /\ (~ one_component name -> read_symlink d name maximum w = Some (w, Err InvalidBasename)).
Proof.
  intros Hm. unfold read_symlink.
  rewrite (proj2 (checked_add_Some maximum 1 (maximum + 1))) by (unfold usize_max, u64_max in *; lia).
  split.
  - destruct (basename name) as [t | e]; cbn [ok_or rbind]; [| eexists _, _; split; [done |]; by intros ?].
    destruct (link_returns (dfile d) t maximum Hm w) as [[w' r] Hr]. rewrite Hr.
    exists w', r. split; [done |]. intros b ->. by eapply link_bounded.
  - intros target Hc. split.
    + intros Hn. rewrite (proj2 (basename_Ok name _) (conj Hn eq_refl)). cbn [ok_or rbind].
      by apply link_target.
    + intros Hn. by rewrite basename_Err.
Qed.

(** A system with one symlink, and its answer for it. *)
Section Sample.
#[local] Existing Instances plentiful.

#[local] Instance sample_numbers : StatNumbers := {|
  S_IFMT := 61440; S_IFREG := 32768; S_IFDIR := 16384; S_IFLNK := 40960;
  STATX_TYPE := 1; STATX_MODE := 2; STATX_INO := 256; STATX_SIZE := 512; STATX_MTIME := 64;
  STATX_BTIME := 2048; AT_SYMLINK_NOFOLLOW := 256; AT_NO_AUTOMOUNT := 2048; AT_EMPTY_PATH := 4096;
  makedev := fun major minor => major * 256 + minor
|}.
#[local] Instance sample_kinds : ErrorKinds := {| decode_error_kind := OtherKind |}.
#[local] Instance sample_os : Os := {|
  World := bytes;
  File := unit;
  openat _ _ _ w := (w, Ok tt);
  open_path _ _ w := (w, Ok tt);
  file_type _ w := (w, Ok Regular);
  file_read _ b w := (w, (b, Ok 0));
  close _ w := w
|}.

Definition sample_statx : Statx := MkStatx 963 41471 3 42 8 1 0 1000000000 (-5) 6.
Definition sample_stat : Stat := MkStat 33188 0 0 0 0 0 0 0 0.

#[local] Instance sample_stat_os : StatOs := {|
  statx _ _ _ _ w := (w, (sample_statx, 0, 0));
  fstat _ w := (w, (sample_stat, 0, 0));
  fstatat _ _ _ w := (w, (sample_stat, 0, 0));
  readlinkat _ _ b w :=
    let n := Z.min (zlen w) (zlen b) in (w, (ztake n w ++ zdrop n b, n, 0))
|}.

Lemma entry_info_typed_witness :
  exists i, statx_typed sample_statx /\ from_statx sample_statx = Ok i
    /\ ikind i = KSymlink /\ mbits (imode i) = MODE_MASK /\ birth i = None.
Proof.
  assert (statx_typed sample_statx) as Ht
    by (constructor; vm_compute; repeat split; discriminate || reflexivity).
  pose proof (proj1 entry_info_typed sample_statx Ht) as H.
  destruct (from_statx sample_statx) as [i | e] eqn:E; [| vm_compute in E; discriminate].
  destruct H as (Hi & _ & Hk & _ & _ & Hb).
  assert (ikind i = KSymlink) as Hs by (rewrite Hk; vm_compute; reflexivity).
  exists i. split; [exact Ht |]. split; [reflexivity |]. split; [exact Hs |].
  split; [exact (it_symlink i Hi Hs) | rewrite Hb; vm_compute; reflexivity].
Defined.

Lemma sample_link_contract : LinkContract (tt : @File sample_os) (lit "link" ++ [x00]) (fun w : @World sample_os => w).
Proof.
  intros w b Hb. cbn. split; [done |]. split; [done |].
  apply ztake_app_exact. cbn in w. pose proof (zlen_nonneg w). rewrite zlen_ztake; lia.
Qed.

Definition sample_directory : @Directory sample_os := @MkDirectory sample_os tt.
Definition sample_target : @World sample_os := lit "a/one".

Lemma read_symlink_whole_witness :
  exists w', read_symlink sample_directory (lit "link") 5 sample_target = Some (w', Ok (lit "a/one")).
Proof.
  assert (0 <= 5 < usize_max) as Hm by (vm_compute; split; [discriminate | reflexivity]).
  assert (one_component (lit "link")) as Hn.
  { split.
    - apply validate_path_ok. vm_compute. reflexivity.
    - apply (bool_decide_unpack _). vm_compute. exact I. }
  destruct (proj1 (proj2 (read_symlink_whole sample_directory (lit "link") 5 sample_target Hm)
    (fun w => w) sample_link_contract) Hn) as [w' Hr].
  exists w'. exact Hr.
Defined.
End Sample.
End Entries.
