(* ===== verification/PlatformNames.v ===== *)
(** * Directory streams ([rust/platform/src/names.rs])

    The iterator over the names of a directory: dot entries skipped, a ceiling
    on the number of names and on their length, and an end that stays an end. *)

From S2P Require Export PlatformEntry.

Module Streams.
Import Platform.

(** [fdopendir], [readdir] and [closedir]; [readdir] with the entry's name and
    the value [errno], zeroed before the call, holds after it. *)
Class DirOs `{Os} := {
  Stream : Type;
  fdopendir : File -> World -> World * result IoError Stream;
  readdir : Stream -> World -> World * (option bytes * Z);
  closedir : Stream -> World -> World
}.

Section Names.
Context `{Allocator, OpenFlags, ErrorKinds, DirOs}.

Record Names : Type := MkNames {
  stream : Stream;
  remaining : Z;
  maximum_name_bytes : Z;
  finished : bool
}.

(** [Directory::names]: the stream takes the descriptor over when it opens. *)
Definition names (d : Directory) (maximum_entries maximum_name_bytes : Z) : M Names :=
  bind (call (openat (dfile d) (lit "." ++ [x00])
    (Z.lor (Z.lor (Z.lor O_RDONLY O_DIRECTORY) O_NOFOLLOW) O_CLOEXEC))) (fun file =>
  or_close file (bind (call (fdopendir file)) (fun stream =>
  ret (Ok (MkNames stream maximum_entries maximum_name_bytes false))))).

(** [Drop for Names] *)
Definition drop_names (n : Names) (w : World) : World := closedir (stream n) w.

(** The iterator with its [finished] flag set. *)
Definition finish (n : Names) : Names :=
  MkNames (stream n) (remaining n) (maximum_name_bytes n) true.

Definition is_dot (name : bytes) : bool := bool_decide (name = lit ".") || bool_decide (name = lit "..").

(** One turn of the loop of [next], the flag being set. *)
Definition next_turn (n : Names) (w : World) : World + World * Names * option (result Error bytes) :=
  let '(w, (entry, error)) := readdir (stream n) w in
  match entry with
  | None => inr (w, n, if error =? 0 then None else Some (Err (Io (os_error error))))
  | Some name =>
      if is_dot name then inl w
      else if (remaining n =? 0) || (maximum_name_bytes n <? zlen name) then
        inr (w, n, Some (Err LimitExceeded))
      else
        match reserve OutOfMemory (remaining n) 0 (zlen name) with
        | Err e => inr (w, n, Some (Err e))
        | Ok _ =>
            inr (w, MkNames (stream n) (remaining n - 1) (maximum_name_bytes n) false, Some (Ok name))
        end
  end.

(** [Iterator::next] *)
Definition next (fuel : nat) (n : Names) (w : World) : option (World * Names * option (result Error bytes)) :=
  if finished n then Some (w, n, None)
  else run (next_turn (finish n)) fuel w.
End Names.

(** ** Whole iterations *)

Section Iteration.
Context `{Allocator, ErrorKinds, DirOs}.

(** [for item in names]: the items until the iterator says there are no more. *)
Fixpoint collect (fuel : nat) (n : Names) (w : World) :
    option (World * Names * list (result Error bytes)) :=
  match fuel with
  | O => None
  | S fuel' =>
      match next fuel n w with
      | None => None
      | Some (w, n, None) => Some (w, n, [])
      | Some (w, n, Some item) =>
          match collect fuel' n w with
          | None => None
          | Some (w, n, items) => Some (w, n, item :: items)
          end
      end
  end.

(** Any number of calls of [next]: what each answers. A stream may be dropped
    after any of them. *)
Fixpoint pull (fuel k : nat) (n : Names) (w : World) :
    option (World * Names * list (option (result Error bytes))) :=
  match k with
  | O => Some (w, n, [])
  | S k =>
      match next fuel n w with
      | None => None
      | Some (w, n, item) =>
          match pull fuel k n w with
          | None => None
          | Some (w, n, items) => Some (w, n, item :: items)
          end
      end
  end.

(** A stream over a directory that does not change: the entries still to come,
    then always its end, with an error number that is zero for a proper end. *)
Definition StreamContract (s : Stream) (pending : World -> list bytes) (end_ : Z) : Prop :=
  forall w, let '(w', (entry, error)) := readdir s w in
  match pending w with
  | name :: rest => entry = Some name /\ pending w' = rest
  | [] => entry = None /\ error = end_ /\ pending w' = []
  end.

(** The items an iteration over [entries] is to produce: each name in order,
    and after the first that exceeds a limit, or a failure, nothing more. *)
Fixpoint expected (entries : list bytes) (remaining maximum_name_bytes end_ : Z) : list (result Error bytes) :=
  match entries with
  | [] => if end_ =? 0 then [] else [Err (Io (os_error end_))]
  | name :: entries =>
      if is_dot name then expected entries remaining maximum_name_bytes end_
      else if (remaining =? 0) || (maximum_name_bytes <? zlen name) then [Err LimitExceeded]
      else Ok name :: expected entries (remaining - 1) maximum_name_bytes end_
  end.

Context `{!AllocatorTotal} (s : Stream) (pending : World -> list bytes) (end_ : Z).
Context (Hs : StreamContract s pending end_).

(** One call of [next] on a live iterator. *)
Lemma next_run fuel n w :
  stream n = s -> finished n = false -> (length (pending w) < fuel)%nat ->
  exists w',
    (length (pending w') <= length (pending w))%nat /\
    match expected (pending w) (remaining n) (maximum_name_bytes n) end_ with
    | [] => next fuel n w = Some (w', finish n, None)
    | Ok name :: items =>
        next fuel n w = Some (w', MkNames s (remaining n - 1) (maximum_name_bytes n) false, Some (Ok name))
        /\ items = expected (pending w') (remaining n - 1) (maximum_name_bytes n) end_
        /\ (length (pending w') < length (pending w))%nat
    | Err e :: items => next fuel n w = Some (w', finish n, Some (Err e)) /\ items = []
    end.
Proof using All.
  intros Hn Hf. unfold next. rewrite Hf. revert w.
  induction fuel as [| fuel IH]; intros w Hl; [lia |]. cbn [run].
  pose proof (Hs w) as Hw. pose proof (eq_refl (next_turn (finish n) w)) as Ht. unfold next_turn at 2 in Ht.
  cbn [finish stream remaining maximum_name_bytes] in Ht. rewrite Hn in Ht. rewrite Ht. clear Ht.
  destruct (readdir s w) as [w' [entry error]]. destruct (pending w) as [| name rest] eqn:Hp.
  - destruct Hw as (-> & -> & Hp'). exists w'. rewrite Hp'. split; [done |]. cbn [expected].
    by destruct (end_ =? 0).
  - destruct Hw as [-> Hp']. cbn [expected length] in *. destruct (is_dot name).
    + destruct (IH w') as (w2 & Hle & Hm); [rewrite Hp'; lia |].
      rewrite Hp' in *. exists w2. split; [lia |].
      destruct (expected rest _ _ _) as [| [a | e] items]; [done | | done].
      destruct Hm as (Hr & Hi & Hlt). split_and!; [done | done | lia].
    + destruct (_ || _); [exists w'; rewrite Hp'; split; [lia | done] |].
      rewrite reserve_total. exists w'. rewrite Hp'. split_and!; [lia | done | done | lia].
Qed.

(** A finished iterator yields nothing and calls nothing. *)
Lemma next_finished fuel n w : finished n = true -> next fuel n w = Some (w, n, None).
Proof. unfold next. by intros ->. Qed.

Lemma expected_shape entries remaining maximum :
  0 <= remaining ->
  exists names, expected entries remaining maximum end_ = (Ok <$> names)
      ++ match list.last (expected entries remaining maximum end_) with
         | Some (Err e) => [Err e]
         | _ => []
         end
    /\ zlen names <= remaining
    /\ Forall (fun name => is_dot name = false /\ zlen name <= maximum /\ name ∈ entries) names.
Proof.
  revert remaining. induction entries as [| name entries IH]; intros remaining Hr; cbn [expected].
  - exists []. zlen_nil. by destruct (end_ =? 0).
  - destruct (is_dot name) eqn:Hd.
    + destruct (IH remaining Hr) as (l & Hl & Hz & Hf). exists l. split_and!; [done | done |].
      eapply list.Forall_impl; [exact Hf |]. intros x (? & ? & ?). split_and!; [done | done | by right].
    + destruct (_ || _) eqn:Hlim; [exists []; zlen_nil; done |].
      apply orb_false_iff in Hlim as [Hz Hlen]. zbool.
      destruct (IH (remaining - 1)) as (l & Hl & Hz' & Hf); [lia |].
      exists (name :: l). rewrite zlen_cons. split_and!; [| lia |].
      * cbn [fmap list_fmap app]. f_equal. rewrite Hl at 1. f_equal.
        destruct (expected entries (remaining - 1) maximum end_) as [| i items] eqn:E; [done |].
        by rewrite list.last_cons_cons.
      * constructor; [split_and!; [done | done | by left] |].
        eapply list.Forall_impl; [exact Hf |]. intros x (? & ? & ?). split_and!; [done | done | by right].
Qed.

(** More fuel changes nothing. *)
Lemma next_more fuel fuel' n w a :
  next fuel n w = Some a -> (fuel <= fuel')%nat -> next fuel' n w = Some a.
Proof. unfold next. destruct (finished n); [done |]. apply run_more. Qed.

Lemma pull_more fuel fuel' k n w a :
  pull fuel k n w = Some a -> (fuel <= fuel')%nat -> pull fuel' k n w = Some a.
Proof.
  intros Hp Hf. revert n w a Hp. induction k as [| k IH]; intros n w a; [done |]. cbn [pull].
  destruct (next fuel n w) as [[[w1 n1] item] |] eqn:Hn; [| done].
  rewrite (next_more _ _ _ _ _ Hn Hf).
  destruct (pull fuel k n1 w1) as [b |] eqn:Hb; [| done]. by rewrite (IH _ _ _ Hb).
Qed.

(** The answers of [k] calls: the items, then the end, again and again. *)
Definition answers (k : nat) (items : list (result Error bytes)) : list (option (result Error bytes)) :=
  take k (Some <$> items) ++ replicate (k - length items) None.

Lemma pull_finished fuel k n w :
  finished n = true -> pull fuel k n w = Some (w, n, replicate k None).
Proof.
  intros Hn. induction k as [| k IH]; [done |]. cbn [pull replicate].
  by rewrite (next_finished fuel n w Hn), IH.
Qed.

Lemma pull_expected fuel k n w :
  stream n = s -> finished n = false -> (length (pending w) < fuel)%nat ->
  exists w' n', pull fuel k n w =
      Some (w', n', answers k (expected (pending w) (remaining n) (maximum_name_bytes n) end_)).
Proof using All.
  revert n w. induction k as [| k IH]; intros n w Hn Hf Hl; [by exists w, n |]. cbn [pull].
  destruct (next_run fuel n w Hn Hf) as (w1 & Hle & Hm); [lia |]. unfold answers.
  destruct (expected (pending w) _ _ _) as [| [name | e] items].
  - rewrite Hm, pull_finished by done. exists w1, (finish n). done.
  - destruct Hm as (-> & -> & Hlt).
    destruct (IH (MkNames s (remaining n - 1) (maximum_name_bytes n) false) w1) as (w2 & n2 & ->);
      [done | done | lia |]. by exists w2, n2.
  - destruct Hm as [-> ->]. rewrite pull_finished by done. exists w1, (finish n).
    cbn. by rewrite take_nil, Nat.sub_0_r.
Qed.

Lemma collect_expected fuel n w :
  stream n = s -> finished n = false -> (length (pending w) + 1 < fuel)%nat ->
  exists w' n', collect fuel n w =
      Some (w', n', expected (pending w) (remaining n) (maximum_name_bytes n) end_)
    /\ finished n' = true.
Proof using All.
  revert n w. induction fuel as [| fuel IH]; intros n w Hn Hf Hl; [lia |]. cbn [collect].
  destruct (next_run (S fuel) n w Hn Hf) as (w1 & Hle & Hm); [lia |].
  destruct (expected (pending w) _ _ _) as [| [name | e] items].
  - rewrite Hm. exists w1, (finish n). done.
  - destruct Hm as (-> & -> & Hlt).
    destruct (IH (MkNames s (remaining n - 1) (maximum_name_bytes n) false) w1) as (w2 & n2 & -> & Hn2);
      [done | done | lia |]. eauto.
  - destruct Hm as [-> ->]. destruct fuel as [| fuel]; [lia |]. cbn [collect].
    rewrite (next_finished (S fuel) (finish n)) by done. exists w1, (finish n). done.
Qed.
End Iteration.

(** C35: Iterating over a directory ends, and yields exactly the names it
    holds, dot entries left out, in the stream's order: at most as many as the
    caller allows, none longer than allowed. The first that exceeds a limit, or
    a failure of the system, is reported once and is the last item; after the
    end the iterator yields nothing more and makes no system call. An iteration
    that is broken off after any number of calls has had the first of those
    items. *)
Theorem names_iteration `{AllocatorTotal, ErrorKinds, DirOs} s pending end_ maximum_entries maximum w fuel :
  StreamContract s pending end_ -> 0 <= maximum_entries ->
  (length (pending w) + 1 < fuel)%nat ->
  exists w' n' items names,
    collect fuel (MkNames s maximum_entries maximum false) w = Some (w', n', items)
    /\ items = expected (pending w) maximum_entries maximum end_
    /\ items = (Ok <$> names) ++ match list.last items with Some (Err e) => [Err e] | _ => [] end
    /\ zlen names <= maximum_entries
    /\ Forall (fun name => is_dot name = false /\ zlen name <= maximum /\ name ∈ pending w) names
    /\ (forall fuel w, next fuel n' w = Some (w, n', None))
    /\ (forall k, exists w1 n1, pull fuel k (MkNames s maximum_entries maximum false) w
                              = Some (w1, n1, answers k items)).
Proof.
  intros Hs Hm Hf.
  destruct (collect_expected s pending end_ Hs fuel (MkNames s maximum_entries maximum false) w)
    as (w' & n' & Hc & Hn'); [done | done | done |].
  destruct (expected_shape end_ (pending w) maximum_entries maximum Hm) as (names & He & Hz & Hnames).
  exists w', n', (expected (pending w) maximum_entries maximum end_), names. split; [exact Hc |]. split_and!; [done.. | |].
  - intros fuel' w0. by apply next_finished.
  - intros k. apply (pull_expected s pending end_ Hs); [done | done | lia].
Qed.

(** A directory of two names, and one that has a name too many. *)
Section Sample.
#[local] Existing Instances plentiful.

#[local] Instance sample_kinds : ErrorKinds := {| decode_error_kind := OtherKind |}.
#[local] Instance sample_os : Os := {|
  World := list bytes;
  File := unit;
  openat _ _ _ w := (w, Ok tt);
  open_path _ _ w := (w, Ok tt);
  file_type _ w := (w, Ok Dir);
  file_read _ b w := (w, (b, Ok 0));
  close _ w := w
|}.
#[local] Instance sample_dirs : DirOs := {|
  Stream := unit;
  fdopendir _ w := (w, Ok tt);
  readdir _ w := match w with [] => ([], (None, 0)) | name :: rest => (rest, (Some name, 0)) end;
  closedir _ w := w
|}.

Lemma sample_stream_contract : StreamContract (tt : @Stream sample_os sample_dirs) (fun w : @World sample_os => w) 0.
Proof. intros w. cbn. by destruct w. Qed.

Lemma names_iteration_witness :
  exists w' n',
    collect 10 (MkNames (tt : @Stream sample_os sample_dirs) 2 255 false)
      ([lit "."; lit "a"; lit ".."; lit "b"] : @World sample_os)
    = Some (w', n', [Ok (lit "a"); Ok (lit "b")]).
Proof.
  assert ((length ([lit "."; lit "a"; lit ".."; lit "b"] : @World sample_os) + 1 < 10)%nat) as Hf by (cbn; lia).
  assert (0 <= 2) as Hm by discriminate.
  destruct (names_iteration (tt : @Stream sample_os sample_dirs) (fun w : @World sample_os => w) 0 2 255
    ([lit "."; lit "a"; lit ".."; lit "b"] : @World sample_os) 10%nat sample_stream_contract Hm Hf)
    as (w' & n' & items & names & Hc & Hi & _).
  exists w', n'. rewrite Hc, Hi. vm_compute. reflexivity.
Defined.
End Sample.
End Streams.
