(* ===== verification/PlatformDescriptors.v ===== *)
(** * Ownership of descriptors ([rust/platform/src])

    [File] and [Names] own what they refer to: every path through the functions
    that open something either hands one new descriptor to the caller or leaves
    the open ones as they were. *)

From stdpp Require Import gmap.
From S2P Require Export PlatformRead PlatformNames.

Module Descriptors.
Import Platform PlatformRead Streams.

(** The open descriptors of the process, as the system calls change them. *)
Class DescriptorLaws `{DirOs} := {
  live : World -> gset Z;
  fd : File -> Z;
  stream_fd : Stream -> Z;
  openat_live d name flags w :
    let '(w', r) := openat d name flags w in
    match r with Ok f => fd f ∉ live w /\ live w' = {[fd f]} ∪ live w | Err _ => live w' = live w end;
  open_path_live path flags w :
    let '(w', r) := open_path path flags w in
    match r with Ok f => fd f ∉ live w /\ live w' = {[fd f]} ∪ live w | Err _ => live w' = live w end;
  file_type_live f w : live (fst (file_type f w)) = live w;
  file_read_live f b w : live (fst (file_read f b w)) = live w;
  close_live f w : live (close f w) = live w ∖ {[fd f]};
  fdopendir_live f w :
    let '(w', r) := fdopendir f w in live w' = live w /\ forall s, r = Ok s -> stream_fd s = fd f;
  readdir_live s w : live (fst (readdir s w)) = live w;
  closedir_live s w : live (closedir s w) = live w ∖ {[stream_fd s]}
}.

Section Ownership.
Context `{Allocator, OpenFlags, ErrorKinds, DescriptorLaws}.

(** A computation leaves the open descriptors alone. *)
Definition keeps {A} (m : M A) : Prop := forall w, live (fst (m w)) = live w.

(** A computation returns the one descriptor it opened, or none is left open. *)
Definition opens {A} (owner : A -> Z) (m : M A) : Prop := forall w,
  let '(w', r) := m w in
  match r with
  | Ok a => owner a ∉ live w /\ live w' = {[owner a]} ∪ live w
  | Err _ => live w' = live w
  end.

Lemma closed_again (x : Z) (L : gset Z) : x ∉ L -> ({[x]} ∪ L) ∖ {[x]} = L.
Proof. intros Hx. apply set_eq. intros y. destruct (decide (y = x)) as [-> | Hy]; set_solver. Qed.

Lemma opens_openat d name flags : opens fd (call (openat d name flags)).
Proof.
  intros w. unfold call. pose proof (openat_live d name flags w) as Ho.
  by destruct (openat d name flags w) as [w' [f | e]].
Qed.

(** What follows an opening owns the file, and closes it unless it succeeds. *)
Lemma opens_then {A} (owner : A -> Z) (o : M File) (k : File -> M A) :
  opens fd o -> (forall f, keeps (k f)) -> (forall f w w' a, k f w = (w', Ok a) -> owner a = fd f) ->
  opens owner (bind o (fun f => or_close f (k f))).
Proof.
  intros Ho Hk Howner w. unfold bind. specialize (Ho w). destruct (o w) as [w1 [f | e]]; [| done].
  destruct Ho as [Hf Hl]. unfold or_close. pose proof (Hk f w1) as Hk1.
  destruct (k f w1) as [w2 [a | e]] eqn:Hr; cbn [fst] in Hk1.
  - rewrite (Howner _ _ _ _ Hr), Hk1. done.
  - by rewrite close_live, Hk1, Hl, closed_again.
Qed.

Lemma opens_ret {A} (owner : A -> Z) (r : result Error bytes) (k : bytes -> M A) :
  (forall b, opens owner (k b)) -> opens owner (bind (ret r) k).
Proof. intros Hk w. unfold bind, ret. destruct r as [b | e]; [apply Hk | done]. Qed.

Lemma opens_map {A B} (owner : A -> Z) (owner' : B -> Z) (m : M A) (f : A -> B) :
  opens owner m -> (forall a, owner' (f a) = owner a) -> opens owner' (bind m (fun a => ret (Ok (f a)))).
Proof.
  intros Hm Hf w. unfold bind, ret. specialize (Hm w). destruct (m w) as [w1 [a | e]]; [| done]. by rewrite Hf.
Qed.

Lemma open_child_opens d name kind : opens fd (open_child d name kind).
Proof.
  unfold open_child. apply opens_ret. intros terminated. apply opens_then; [apply opens_openat | |].
  - intros f w. unfold bind, call, ret. pose proof (file_type_live f w) as Ht.
    by destruct (file_type f w) as [w' [ty | e]].
  - intros f w w' a. unfold bind, call, ret. destruct (file_type f w) as [w1 [ty | e]]; cbn; [| done].
    destruct (negb _); [done |]. by intros [= _ <-].
Qed.

Definition directory_fd (d : Directory) : Z := fd (dfile d).
Definition names_fd (n : Names) : Z := stream_fd (stream n).

Lemma names_opens d entries length : opens names_fd (names d entries length).
Proof.
  unfold names. apply opens_then; [apply opens_openat | |].
  - intros f w. unfold bind, call, ret. pose proof (fdopendir_live f w) as Hd.
    destruct (fdopendir f w) as [w' [s | e]]; apply Hd.
  - intros f w w' n. unfold bind, call, ret. pose proof (fdopendir_live f w) as Hd.
    destruct (fdopendir f w) as [w1 [s | e]]; cbn; [| done]. intros [= _ <-]. by apply Hd.
Qed.

(** However far the reading has got, it has not touched the descriptors. *)
Lemma reading_live file maximum fuel w :
  match steps (read_turn (fun w b => file_read file b w) maximum) fuel (read_start w) with
  | inl st => live (reader st) = live w
  | inr (w', _) => live w' = live w
  end.
Proof.
  pose proof (steps_post (read_turn (fun w b => file_read file b w) maximum)
    (fun st => live (reader st) = live w) (fun x => live (fst x) = live w) fuel (read_start w)) as Hp.
  destruct (steps _ _ _) as [st | [w' r]]; (apply Hp; [| done]); clear Hp; intros s Hs; unfold read_turn;
    pose proof (file_read_live file (ztake (request maximum s) (buffer s)) (reader s)) as Hl;
    (destruct (file_read _ _ _) as [w1 [slice [count | e]]]; cbn [fst] in Hl; rewrite Hs in Hl);
    repeat case_match; simplify_eq; cbn; congruence.
Qed.

Lemma read_file_live fuel d name maximum w :
  match read_file fuel d name maximum w with
  | inl w' => exists f, f ∉ live w /\ live w' = {[f]} ∪ live w
  | inr (w', _) => live w' = live w
  end.
Proof.
  unfold read_file, open_regular_file. pose proof (open_child_opens d name RegularFileChild w) as Ho.
  destruct (open_child d name RegularFileChild w) as [w1 [f | e]]; [| done].
  destruct Ho as [Hf Hl]. pose proof (reading_live f maximum fuel w1) as Hr.
  destruct (steps _ _ _) as [st | [w2 r]].
  - exists (fd f). by rewrite Hr.
  - by rewrite close_live, Hr, Hl, closed_again.
Qed.

(** Iterating changes neither the stream nor the descriptors. *)
Lemma next_live fuel n w w' n' item :
  next fuel n w = Some (w', n', item) -> live w' = live w /\ stream n' = stream n.
Proof.
  unfold next. destruct (finished n); [by intros [= <- <- _] |]. intros Hr.
  refine (run_post (next_turn (finish n)) (fun w1 => live w1 = live w)
    (fun x => live (fst (fst x)) = live w /\ stream (snd (fst x)) = stream n) fuel w (w', n', item) _ _ eq_refl Hr).
  - intros w1 w2 Hw1 Ht. unfold next_turn in Ht. pose proof (readdir_live (stream (finish n)) w1) as Hl.
    destruct (readdir _ _) as [w3 [[name |] error]]; cbn [fst] in Hl; [| done].
    destruct (is_dot name); [injection Ht as <-; congruence |]. destruct (_ || _); [done |]. by destruct (reserve _ _ _ _).
  - intros w1 a Hw1 Ht. unfold next_turn in Ht. pose proof (readdir_live (stream (finish n)) w1) as Hl.
    destruct (readdir _ _) as [w3 [[name |] error]]; cbn [fst] in Hl.
    + destruct (is_dot name); [done |]. destruct (_ || _); [injection Ht as <-; cbn; split; congruence |].
      destruct (reserve _ _ _ _); injection Ht as <-; cbn; split; congruence.
    + injection Ht as <-. cbn. split; congruence.
Qed.

Lemma pull_live fuel k n w w' n' items :
  pull fuel k n w = Some (w', n', items) -> live w' = live w /\ stream n' = stream n.
Proof.
  revert n w items. induction k as [| k IH]; intros n w items; [by intros [= <- <- _] |]. cbn [pull].
  destruct (next fuel n w) as [[[w1 n1] item] |] eqn:Hn; [| done]. apply next_live in Hn as [Hl Hs].
  destruct (pull fuel k n1 w1) as [[[w2 n2] rest] |] eqn:Hc; [| done]. intros [= <- <- _].
  apply IH in Hc as [Hl' Hs']. split; congruence.
Qed.

Lemma pull_dropped d entries length fuel k w w1 n w2 n2 items :
  names d entries length w = (w1, Ok n) -> pull fuel k n w1 = Some (w2, n2, items) ->
  live w2 = live w1 /\ live (drop_names n2 w2) = live w.
Proof.
  intros Hn Hp. pose proof (names_opens d entries length w) as Ho. rewrite Hn in Ho. destruct Ho as [Hf Hl].
  destruct (pull_live _ _ _ _ _ _ _ Hp) as [Hl2 Hs]. split; [done |].
  unfold drop_names. rewrite closedir_live, Hl2, Hs, Hl. by apply closed_again.
Qed.

(** Files are finite and interrupt a reader finitely often, and a directory
    holds finitely many entries. *)
Class Finite := {
  content : File -> World -> bytes;
  patience : File -> World -> nat;
  reads_end f : ReadContract (fun w b => file_read f b w) (content f) (patience f);
  entries_left : Stream -> World -> nat;
  readdir_ends s w name :
    fst (snd (readdir s w)) = Some name -> (entries_left s (fst (readdir s w)) < entries_left s w)%nat
}.

Section Ending.
Context `{Finite}.

Lemma read_file_ends d name maximum w :
  0 <= maximum <= usize_max ->
  exists bound, forall fuel, (bound <= fuel)%nat -> exists w' r, read_file fuel d name maximum w = inr (w', r).
Proof.
  intros Hmax. unfold read_file. destruct (open_regular_file d name w) as [w1 [f | e]].
  - exists (S (patience f w1 + length (content f w1))). intros fuel Hf.
    destruct (reading_ends _ _ _ maximum w1 fuel (reads_end f) Hmax) as [[w2 r] ->]; [lia |]. by exists (close f w2), r.
  - exists 0%nat. intros. by exists w1, (Err e).
Qed.

(** One call of [next] ends, and what is left is enough for the calls after it. *)
Lemma next_ends fuel n w :
  (entries_left (stream n) w < fuel)%nat ->
  exists w' n' item, next fuel n w = Some (w', n', item)
    /\ stream n' = stream n
    /\ (finished n' = true \/ (entries_left (stream n) w' <= entries_left (stream n) w)%nat).
Proof.
  intros Hf. unfold next. destruct (finished n) eqn:Hfin; [by exists w, n, None; auto |].
  revert w Hf. induction fuel as [| fuel IH]; intros w Hf; [lia |]. cbn [run].
  pose proof (readdir_ends (stream n) w) as He. unfold next_turn at 1. cbn [finish stream remaining maximum_name_bytes].
  destruct (readdir (stream n) w) as [w1 [[name |] error]] eqn:Hd; cbn [fst snd] in He.
  - specialize (He name eq_refl). destruct (is_dot name).
    + destruct (IH w1) as (w' & n' & item & Hr & Hs & Hm); [lia |].
      exists w', n', item. split_and!; [done | done | destruct Hm; [by left | right; lia]].
    + destruct (_ || _); [by do 3 eexists; split_and!; [| | left] |].
      destruct (reserve _ _ _ _); do 3 eexists; (split_and!; [done | done |]); [right; cbn; lia | by left].
  - by do 3 eexists; split_and!; [| | left].
Qed.

Lemma pull_ends fuel k n w :
  finished n = true \/ (entries_left (stream n) w < fuel)%nat ->
  exists w' n' items, pull fuel k n w = Some (w', n', items).
Proof.
  revert n w. induction k as [| k IH]; intros n w Hf; [by exists w, n, [] |]. cbn [pull].
  assert (exists w' n' item, next fuel n w = Some (w', n', item)
    /\ (finished n' = true \/ (entries_left (stream n') w' < fuel)%nat)) as (w1 & n1 & item & -> & Hn).
  { destruct Hf as [Hf | Hf]; [exists w, n, None; unfold next; rewrite Hf; auto |].
    destruct (next_ends fuel n w Hf) as (w1 & n1 & item & Hr & Hs & Hm). exists w1, n1, item.
    rewrite Hs. split; [done |]. destruct Hm; [by left | right; lia]. }
  destruct (IH n1 w1 Hn) as (w2 & n2 & items & ->). by eexists _, _, _.
Qed.
End Ending.
End Ownership.

(** C36: No path leaks or closes a descriptor of the caller. Opening a root, a
    child or a directory stream adds exactly the descriptor of what it returns,
    and nothing when it fails, also when it fails after the system opened the
    entry. While a file is being read one descriptor more is open, and none
    once the read has returned, whatever its outcome; and it does return from a
    finite file. A stream can be dropped after any number of calls of [next],
    whatever they answered, and its descriptor goes with it, and no other; over
    a finite directory all those calls do return. *)
Theorem descriptors_owned `{Allocator, OpenFlags, ErrorKinds, DescriptorLaws} d path name maximum entries length :
  opens directory_fd (open path)
  /\ opens directory_fd (open_directory d name)
  /\ opens fd (open_regular_file d name)
  /\ opens names_fd (names d entries length)
  /\ (forall fuel w, match read_file fuel d name maximum w with
                     | inl w' => exists f, f ∉ live w /\ live w' = {[f]} ∪ live w
                     | inr (w', _) => live w' = live w
                     end)
  /\ (Finite -> 0 <= maximum <= usize_max -> forall w, exists bound, forall fuel, (bound <= fuel)%nat ->
      exists w' r, read_file fuel d name maximum w = inr (w', r) /\ live w' = live w)
  /\ (forall fuel k w w1 n w2 n2 items, names d entries length w = (w1, Ok n) ->
      pull fuel k n w1 = Some (w2, n2, items) -> live w2 = live w1 /\ live (drop_names n2 w2) = live w)
  /\ (Finite -> forall w w1 n, names d entries length w = (w1, Ok n) ->
      exists bound, forall fuel k, (bound <= fuel)%nat ->
      exists w2 n2 items, pull fuel k n w1 = Some (w2, n2, items)
        /\ live w2 = live w1 /\ live (drop_names n2 w2) = live w).
Proof.
  pose proof (pull_dropped d entries length) as Hd. split_and!.
  - unfold open. apply (opens_map fd directory_fd); [| done]. intros w. unfold call.
    pose proof (open_path_live path (Z.lor (Z.lor O_DIRECTORY O_NOFOLLOW) O_CLOEXEC) w) as Ho.
    by destruct (open_path _ _ w) as [w' [f | e]].
  - by apply (opens_map fd directory_fd); [apply open_child_opens |].
  - apply open_child_opens.
  - apply names_opens.
  - intros fuel w. apply read_file_live.
  - intros Hfin Hm w. destruct (read_file_ends d name maximum w Hm) as [bound Hb].
    exists bound. intros fuel Hf. destruct (Hb fuel Hf) as (w' & r & Hr). exists w', r. split; [done |].
    pose proof (read_file_live fuel d name maximum w) as Hl. by rewrite Hr in Hl.
  - exact Hd.
  - intros Hfin w w1 n Hn. exists (S (entries_left (stream n) w1)). intros fuel k Hf.
    destruct (pull_ends fuel k n w1) as (w2 & n2 & items & Hp); [right; lia |]. exists w2, n2, items.
    split; [done |]. by apply (Hd fuel k w w1 n w2 n2 items).
Qed.

(** A system that numbers its descriptors past the open ones, whose entries are
    regular files that all hold what is left of one content, and whose streams
    share the entries still to come. *)
Section Sample.
#[local] Existing Instances plentiful.

#[local] Instance sample_flags : OpenFlags :=
  {| O_RDONLY := 0; O_CLOEXEC := 1; O_NOFOLLOW := 2; O_DIRECTORY := 4; O_NONBLOCK := 8 |}.
#[local] Instance sample_kinds : ErrorKinds := {| decode_error_kind := OtherKind |}.

Record System : Type := MkSystem { fds : list Z; to_list : list bytes; to_read : bytes }.

Definition next_fd (w : System) : Z := 1 + foldr Z.max 0 (fds w).
Definition with_fds (l : list Z) (w : System) : System := MkSystem l (to_list w) (to_read w).
Definition opened (w : System) : System := with_fds (next_fd w :: fds w) w.
Definition closed (f : Z) (w : System) : System := with_fds (filter (fun x => x <> f) (fds w)) w.

#[local] Instance sample_os : Os := {|
  World := System;
  File := Z;
  openat _ _ _ w := (opened w, Ok (next_fd w));
  open_path _ _ w := (opened w, Ok (next_fd w));
  file_type _ w := (w, Ok Regular);
  file_read _ b w :=
    let k := Z.min (zlen b) (zlen (to_read w)) in
    (MkSystem (fds w) (to_list w) (zdrop k (to_read w)), (ztake k (to_read w) ++ zdrop k b, Ok k));
  close := closed
|}.
#[local] Instance sample_dirs : DirOs := {|
  Stream := Z;
  fdopendir f w := (w, Ok f);
  readdir _ w :=
    match to_list w with
    | [] => (w, (None, 0))
    | name :: rest => (MkSystem (fds w) rest (to_read w), (Some name, 0))
    end;
  closedir := closed
|}.

Lemma next_fd_fresh w : next_fd w ∉ fds w.
Proof.
  assert (forall x, x ∈ fds w -> x < next_fd w) as Hw; [| by intros Hx%Hw; lia].
  unfold next_fd. induction (fds w) as [| y l IH]; intros x Hx; [by apply not_elem_of_nil in Hx |].
  cbn [foldr]. apply elem_of_cons in Hx as [-> | Hx%IH]; lia.
Qed.

Lemma closed_live f (l : list Z) :
  (list_to_set (filter (fun x => x <> f) l) : gset Z) = list_to_set l ∖ {[f]}.
Proof.
  apply set_eq. intros x. rewrite elem_of_difference, !elem_of_list_to_set, list_elem_of_filter. set_solver.
Qed.

#[local] Instance sample_laws : DescriptorLaws.
Proof.
  refine {| live := (fun w => list_to_set (fds w) : gset Z) : @World sample_os -> gset Z;
            fd := (fun f => f) : @File sample_os -> Z; stream_fd := (fun s => s) : @Stream sample_os sample_dirs -> Z |}.
  - intros d name flags w. cbn. split; [| done]. rewrite elem_of_list_to_set. apply next_fd_fresh.
  - intros path flags w. cbn. split; [| done]. rewrite elem_of_list_to_set. apply next_fd_fresh.
  - done.
  - done.
  - intros f w. apply closed_live.
  - intros f w. split; [done |]. by intros s [= <-].
  - intros s w. cbn. by destruct (to_list w).
  - intros s w. apply closed_live.
Defined.

#[local] Instance sample_finite : Finite.
Proof.
  refine {| content := (fun _ w => to_read w) : @File sample_os -> @World sample_os -> bytes; patience := (fun _ _ => 0%nat);
            entries_left := (fun _ w => length (to_list w)) : @Stream sample_os sample_dirs -> @World sample_os -> nat |}.
  - intros f. constructor. intros w b Hb. cbn. pose proof (zlen_nonneg (to_read w)).
    rewrite zlen_app, zlen_ztake, zlen_zdrop by lia. split; [lia |]. split_and!; [lia | lia | | | done].
    + intros Hk. apply zlen_0_nil. lia.
    + rewrite ztake_app_exact by (rewrite zlen_ztake; lia). by rewrite ztake_zdrop.
  - intros s w name. cbn. destruct (to_list w); cbn; [done | lia].
Defined.

Definition sample_system : System := MkSystem [1; 2; 3] [lit "."; lit "a"; lit "b"; lit "c"] (lit "content").

(** Three descriptors are open. A child that is no directory is opened and
    refused; a file is read; a stream is dropped after two of its three names. *)
Lemma descriptors_owned_witness :
  let d := @MkDirectory sample_os 3 in
  let w : @World sample_os := sample_system in
  let live := @live sample_os sample_dirs sample_laws in
  snd (open_directory d (lit "file") w) = Err WrongKind
  /\ live (fst (open_directory d (lit "file") w)) = live w
  /\ (exists fuel w' r, read_file fuel d (lit "file") 100 w = inr (w', r) /\ live w' = live w)
  /\ (exists fuel w1 n w2 n2,
        names d 10 255 w = (w1, Ok n)
        /\ pull fuel 2 n w1 = Some (w2, n2, [Some (Ok (lit "a")); Some (Ok (lit "b"))])
        /\ live (drop_names n2 w2) = live w).
Proof.
  intros d w live.
  destruct (descriptors_owned d [] (lit "file") 100 10 255) as (_ & Hd & _ & _ & _ & Hr & _ & Hs).
  split_and!; [vm_compute; reflexivity | | |].
  - specialize (Hd w). assert (snd (open_directory d (lit "file") w) = Err WrongKind) as E by (vm_compute; reflexivity).
    destruct (open_directory d (lit "file") w) as [w' r]. cbn [snd] in E. rewrite E in Hd. exact Hd.
  - assert (0 <= 100 <= usize_max) as Hm by (vm_compute; split; discriminate).
    destruct (Hr sample_finite Hm w) as [bound Hb].
    destruct (Hb bound (le_n bound)) as (w' & r & E & Hl). exists bound, w', r. split; [exact E | exact Hl].
  - destruct (names d 10 255 w) as [w1 [n | e]] eqn:Hn; [| vm_compute in Hn; discriminate Hn].
    destruct (Hs sample_finite w w1 n Hn) as [bound Hb].
    destruct (Hb (bound + 5)%nat 2%nat ltac:(lia)) as (w2 & n2 & items & Hp & _ & Hl).
    exists (bound + 5)%nat, w1, n, w2, n2. split; [reflexivity |]. split; [| exact Hl].
    rewrite Hp. do 2 f_equal.
    assert (exists w' n', pull 5 2 n w1 = Some (w', n', [Some (Ok (lit "a")); Some (Ok (lit "b"))])) as (w' & n' & E).
    { vm_compute in Hn. injection Hn as <- <-. do 2 eexists. vm_compute. reflexivity. }
    apply (pull_more 5 (bound + 5) 2) in E; [| lia]. rewrite Hp in E. by injection E.
Defined.
End Sample.
End Descriptors.
