(* ===== verification/Samples.v ===== *)
(** * Sample snapshots

    The concrete inputs on which the theorems of the development are exercised:
    a small tree, and a later version of it that needs every kind of operation. *)

From S2P Require Export DirectoryCanonical.

Definition plain : CanonicalMetadata := canonical_default.
Definition noted : CanonicalMetadata :=
  MkCanonicalMetadata
    (MkMetadata [MkXattr XattrClass.Logical (lit "note") (lit "draft")]
       [MkAce AceTag.NamedUser READ (lit "ann")] None
       (MkTimes (Some (MkTime 1700000000 5)) None None) 0 None [MkHole 2 3] None).
Definition linked (path : bytes) : CanonicalMetadata :=
  MkCanonicalMetadata (MkMetadata [] [] None times_default 0 None [] (Some path)).

Definition dir (path : bytes) : Entry := MkEntry path (Content.Directory (MkMode 493)) plain.
Definition file (path : bytes) (data : bytes) (m : CanonicalMetadata) : Entry :=
  MkEntry path (Content.File (MkMode 420) data) m.
Definition symlink (path target : bytes) : Entry :=
  MkEntry path (Content.Symlink target) plain.

Definition sample_source : Snapshot :=
  MkSnapshot [ dir (lit "a"); file (lit "a/one") (lit "one") plain; file (lit "a/two") (lit "two") plain ] plain.
Definition sample_target : Snapshot :=
  MkSnapshot
    [ dir (lit "a"); file (lit "a/one") (lit "one") plain; file (lit "a/same") (lit "one") (linked (lit "a/one"));
      file (lit "a/two") (lit "two again") plain;
      file (lit "b") (lit "hi" ++ [x00; x00; x00]) noted; symlink (lit "c") (lit "a/one") ]
    (MkCanonicalMetadata
       (MkMetadata [] [] None (MkTimes (Some (MkTime 1 2)) None None) 0 None [] None)).

Definition source_snapshot : CanonicalSnapshot.CanonicalSnapshot :=
  CanonicalSnapshot.MkCanonicalSnapshot sample_source.
Definition target_snapshot : CanonicalSnapshot.CanonicalSnapshot :=
  CanonicalSnapshot.MkCanonicalSnapshot sample_target.

Lemma sample_typed : Forall entry_typed (entries sample_source) /\ Forall entry_typed (entries sample_target).
Proof. split; apply (bool_decide_unpack _); vm_compute; exact I. Qed.

Lemma sample_bounded :
  Forall (fun e => is_u64 (zlen (Content.data (econtent e))))
    (entries sample_source ++ entries sample_target).
Proof. apply (bool_decide_unpack _). vm_compute. exact I. Qed.

Lemma canonical_snapshot_new_witness :
  CanonicalSnapshot.new sample_target = Ok target_snapshot /\ canonical_snapshot sample_target.
Proof.
  assert (CanonicalSnapshot.new sample_target = Ok target_snapshot) as Hn by (vm_compute; reflexivity).
  split; [exact Hn |].
  exact (proj1 (proj1 (canonical_snapshot_new sample_target target_snapshot (proj2 sample_typed)) Hn)).
Defined.

(** The two samples are hashed from different bytes. *)
Lemma identity_determines_witness :
  @CanonicalSnapshot.hasher_of toy_blake3 source_snapshot
  <> @CanonicalSnapshot.hasher_of toy_blake3 target_snapshot.
Proof.
  assert (canonical_snapshot sample_source) as H1.
  { apply (snapshot_new_ok sample_source source_snapshot (proj1 sample_typed)). vm_compute. reflexivity. }
  assert (canonical_snapshot sample_target) as H2.
  { apply (snapshot_new_ok sample_target target_snapshot (proj2 sample_typed)). vm_compute. reflexivity. }
  intros E. destruct (@identity_determines toy_blake3 source_snapshot target_snapshot H1 H2
    (proj1 sample_typed) (proj2 sample_typed) sample_bounded E) as [Hid _].
  apply (f_equal length) in Hid. discriminate Hid.
Defined.
