(* ===== verification/PathFilter.v ===== *)
(** * Ordered path globs ([rust/src/path_filter.rs])

    Patterns compiled to tokens, matched by a two-row dynamic program, and the
    last matching rule deciding. A [&str] is a UTF-8 byte string; its characters
    are scalar values. *)

From S2P Require Export Directory Loop.

Module Action.
Inductive Action : Type := Include | Exclude.

#[global] Instance Action_eq_dec : EqDecision Action.
Proof. solve_decision. Defined.

Definition opposite (a : Action) : Action :=
  match a with
  | Include => Exclude
  | Exclude => Include
  end.
End Action.

Record Rule : Type := MkRule { raction : Action.Action; rpattern : bytes }.

#[export] Instance Rule_eq_dec : EqDecision Rule.
Proof. solve_decision. Defined.

Module Filter.
Inductive Error : Type := EmptyPattern | OutOfMemory | Path (e : Directory.Error).

(** Star, Class: [cross_directories]; [negated] and [members]. *)
Inductive Token : Type :=
| Literal (c : Z)
| Any
| Star (cross_directories : bool)
| TreePrefix
| Class_ (negated : bool) (members : list Z).

Record CompiledRule : Type := MkCompiledRule { caction : Action.Action; tokens : list Token }.
Record Filter : Type := MkFilter { rules : list CompiledRule; default_included : bool }.

(** Backslash, star, question mark, brackets, exclamation mark, caret, slash,
    newline. *)
Definition BACKSLASH : Z := 92.
Definition STAR : Z := 42.
Definition QUESTION : Z := 63.
Definition OPEN : Z := 91.
Definition CLOSE : Z := 93.
Definition BANG : Z := 33.
Definition CARET : Z := 94.
Definition SLASH : Z := 47.
Definition NEWLINE : Z := 10.

(** [chars.get(i) == Some(&c)] *)
Definition char_is (chars : list Z) (i : nat) (c : Z) : bool := bool_decide (chars !! i = Some c).

Section Scan.
Context `{Allocator}.

Definition characters (text : bytes) : result Error (list Z) :=
  let? _ := reserve OutOfMemory 0 0 (zlen text) in
  Ok (str_chars text).

Definition push {A} (values : list A) (value : A) : result Error (list A) :=
  let? _ := reserve OutOfMemory 0 (zlen values) 1 in
  Ok (values ++ [value]).

(** One turn of [while j < chars.len() && chars[j] != ']']. *)
Definition scan_turn (chars : list Z) (st : nat * list Z) :
    nat * list Z + result Error (nat * list Z) :=
  let (j, members) := st in
  match chars !! j with
  | None => inr (Ok (j, members))
  | Some c =>
      if c =? CLOSE then inr (Ok (j, members))
      else
        let j := if (c =? BACKSLASH) && (S j <? length chars)%nat then S j else j in
        match push members (chars !!! j) with
        | Err e => inr (Err e)
        | Ok members => inl (S j, members)
        end
  end.

(** Every turn advances [j]. *)
Lemma scan_turn_advances chars st st' :
  scan_turn chars st = inl st' -> (length chars - st'.1 < length chars - st.1)%nat.
Proof.
  destruct st as [j members]. unfold scan_turn. destruct (chars !! j) as [c |] eqn:Hc; [| done].
  apply lookup_lt_Some in Hc. destruct (c =? CLOSE); [done |]. cbv zeta.
  destruct (push _ _); [| done]. intros [= <-]. cbn. case_match; lia.
Qed.

Definition scan_members (chars : list Z) (j : nat) (members : list Z) : result Error (nat * list Z) :=
  iterate (scan_turn chars) (fun st => length chars - st.1)%nat (scan_turn_advances chars) (j, members).

Definition scan_class (chars : list Z) (i : nat) : result Error (bool * nat * list Z) :=
  let j := S i in
  let negated := char_is chars j BANG || char_is chars j CARET in
  let j := if negated then S j else j in
  let? (j, members) :=
    if char_is chars j CLOSE then
      let? members := push [] CLOSE in
      Ok (S j, members)
    else Ok (j, []) in
  let? (j, members) := scan_members chars j members in
  Ok (negated, j, members).
End Scan.

Section Tokens.
Context `{A : Allocator}.

(** One turn of [compile]'s loop at [chars[i] = c]: the token, the index of
    its last character, and [classes_remain] afterwards. *)
Definition next_token (chars : list Z) (i : nat) (classes_remain : bool) (c : Z) :
    result Error (Token * nat * bool) :=
  if c =? BACKSLASH then
    let i := if (S i <? length chars)%nat then S i else i in
    Ok (Literal (chars !!! i), i, classes_remain)
  else if (c =? STAR) && char_is chars (S i) STAR then
    if char_is chars (S (S i)) SLASH then Ok (TreePrefix, S (S i), classes_remain)
    else Ok (Star true, S i, classes_remain)
  else if c =? STAR then Ok (Star false, i, classes_remain)
  else if c =? QUESTION then Ok (Any, i, classes_remain)
  else if (c =? OPEN) && classes_remain then
    let? (cls, members) := @scan_class (at_moment (Z.of_nat i) A) chars i in
    let (negated, j) := cls : bool * nat in
    if (j <? length chars)%nat then Ok (Class_ negated members, j, classes_remain)
    else Ok (Literal OPEN, i, false)
  else Ok (Literal c, i, classes_remain).

(** The state of [while i < chars.len()]: [i], [classes_remain], [tokens]. *)
Record Scan : Type := MkScan { at_index : nat; classes_remain : bool; scanned : list Token }.

Definition compile_turn (chars : list Z) (st : Scan) : Scan + result Error (list Token) :=
  match chars !! at_index st with
  | None => inr (Ok (scanned st))
  | Some c =>
      match next_token chars (at_index st) (classes_remain st) c with
      | Err e => inr (Err e)
      | Ok (token, i, remain) => inl (MkScan (S i) remain (scanned st ++ [token]))
      end
  end.
End Tokens.

Lemma scan_members_forward `{Allocator} chars j members j' members' :
  scan_members chars j members = Ok (j', members') -> (j <= j')%nat.
Proof.
  assert (forall st, match iterate (scan_turn chars) (fun st => length chars - st.1)%nat (scan_turn_advances chars) st with
    | Ok (j', _) => (st.1 <= j')%nat | Err _ => True end) as Hs.
  { apply (iterate_ind _ _ _ (fun st r => match r with Ok (j', _) => (st.1 <= j')%nat | Err _ => True end));
      intros [j0 m0] r Ht.
    - intros IH. unfold scan_turn in Ht. destruct (chars !! j0) as [c |]; [| done]. destruct (c =? CLOSE); [done |].
      cbv zeta in Ht. destruct (push _ _); [| done]. injection Ht as <-. cbn [fst] in *.
      destruct (iterate _ _ _ _) as [[j1 m1] |]; [| done]. case_match; lia.
    - unfold scan_turn in Ht. destruct (chars !! j0) as [c |]; [| injection Ht as <-; simpl; lia].
      destruct (c =? CLOSE); [injection Ht as <-; simpl; lia |]. cbv zeta in Ht.
      destruct (push _ _); [done | by injection Ht as <-]. }
  intros Hm. specialize (Hs (j, members)). fold (scan_members chars j members) in Hs. by rewrite Hm in Hs.
Qed.

Lemma scan_class_forward `{Allocator} chars i negated j members :
  scan_class chars i = Ok (negated, j, members) -> (i < j)%nat.
Proof.
  unfold scan_class. intros Hc. inv_ok.
  match goal with Hm : scan_members _ _ _ = Ok _ |- _ => apply scan_members_forward in Hm end.
  repeat (case_match; inv_ok; simplify_eq); lia.
Qed.

Lemma next_token_forward `{Allocator} chars i b c token i' b' :
  next_token chars i b c = Ok (token, i', b') -> (i <= i')%nat.
Proof.
  unfold next_token. intros Hn.
  repeat (case_match; inv_ok; simplify_eq; try lia).
  match goal with Hc : scan_class _ _ = Ok _ |- _ => apply scan_class_forward in Hc end. lia.
Qed.

(** Every turn advances [i]. *)
Lemma compile_turn_advances `{Allocator} chars st st' :
  compile_turn chars st = inl st' -> (length chars - at_index st' < length chars - at_index st)%nat.
Proof.
  unfold compile_turn. destruct (chars !! at_index st) as [c |] eqn:Hc; [| done]. apply lookup_lt_Some in Hc.
  destruct (next_token _ _ _ _) as [[[token i] remain] |] eqn:Hn; [| done]. intros [= <-].
  apply next_token_forward in Hn. cbn. lia.
Qed.

Section Patterns.
Context `{A : Allocator}.

Definition compile_from (chars : list Z) (st : Scan) : result Error (list Token) :=
  iterate (compile_turn chars) (fun st => length chars - at_index st)%nat (compile_turn_advances chars) st.

(** [fn compile] *)
Definition compile_pattern (pattern : bytes) : result Error (list Token) :=
  let? chars := characters pattern in
  let? _ := reserve OutOfMemory 1 0 (zlen chars) in
  compile_from chars (MkScan 0 true []).
End Patterns.

Section Rules.
Context `{A : Allocator}.

(** One turn of the loop over the rules. *)
Definition compile_rule (state : list CompiledRule * bool) (rule : Rule) :
    result Error (list CompiledRule * bool) :=
  let (compiled, default_included) := state in
  let default_included :=
    if bool_decide (raction rule = Action.Include) then false else default_included in
  let (action, pattern) :=
    match strip_prefix [x21] (rpattern rule) with
    | Some pattern => (Action.opposite (raction rule), pattern)
    | None => (raction rule, rpattern rule)
    end in
  let? _ := fail_if (bool_decide (pattern = [])) EmptyPattern in
  let? tokens := @compile_pattern (at_moment (zlen compiled) A) pattern in
  Ok (compiled ++ [MkCompiledRule action tokens], default_included).

(** [Filter::compile] *)
Definition compile (rules : list Rule) : result Error Filter :=
  let? _ := reserve OutOfMemory 0 0 (zlen rules) in
  let? (compiled, default_included) := foldM compile_rule ([], true) rules in
  Ok (MkFilter compiled default_included).

(** ** Matching *)

Definition at_ (row : list bool) (j : nat) : bool := default false (row !! j).

(** One cell of a row: [current[j]], and [directory_prefix] after it. *)
Definition cell (token : Token) (chars : list Z) (next current : list bool) (j : nat)
    (directory_prefix : bool) : bool * bool :=
  let ch := chars !! j in
  match token with
  | Literal expected => (bool_decide (ch = Some expected) && at_ next (S j), directory_prefix)
  | Any =>
      (match ch with Some c => negb (c =? SLASH) | None => false end && at_ next (S j),
       directory_prefix)
  | Class_ negated members =>
      (match ch with
       | Some c => negb (Bool.eqb (bool_decide (c ∈ members)) negated)
       | None => false
       end && at_ next (S j), directory_prefix)
  | Star cross_directories =>
      (at_ next j
       || match ch with
          | Some c => negb (c =? if cross_directories then NEWLINE else SLASH)
          | None => false
          end && at_ current (S j), directory_prefix)
  | TreePrefix =>
      let directory_prefix :=
        match ch with
        | None => false
        | Some c =>
            if c =? NEWLINE then false
            else if (c =? SLASH) && at_ next (S j) then true
            else directory_prefix
        end in
      (at_ next j || directory_prefix, directory_prefix)
  end.

(** [for j in (0..=chars.len()).rev()]: the turns [n - 1] down to [0]. *)
Fixpoint fill_row (token : Token) (chars : list Z) (next : list bool) (n : nat)
    (current : list bool) (directory_prefix : bool) : list bool :=
  match n with
  | O => current
  | S j =>
      let (value, directory_prefix) := cell token chars next current j directory_prefix in
      fill_row token chars next j (<[j := value]> current) directory_prefix
  end.

(** One token: fill [current] from [next], then swap the rows. *)
Definition row_step (chars : list Z) (rows : list bool * list bool) (token : Token) :
    list bool * list bool :=
  let (next, current) := rows in
  (fill_row token chars next (S (length chars)) current false, next).

(** [next.fill(false); next[chars.len()] = true], then the tokens from the last. *)
Definition match_rule (chars : list Z) (rows : list bool * list bool) (tokens : list Token) :
    list bool * list bool :=
  let (next, current) := rows in
  let next := <[length chars := true]> (replicate (length next) false) in
  foldl (row_step chars) (next, current) (reverse tokens).

Definition rule_step (chars : list Z) (state : list bool * list bool * bool)
    (rule : CompiledRule) : list bool * list bool * bool :=
  let (rows, included) := state in
  let rows := match_rule chars rows (tokens rule) in
  (rows, if at_ rows.1 0 then bool_decide (caction rule = Action.Include) else included).

(** [Filter::includes] *)
Definition includes (f : Filter) (path : bytes) : result Error bool :=
  let? _ := map_err Path (validate_path path) in
  if bool_decide (length (rules f) = 0)%nat then Ok (default_included f)
  else
    let? _ := fail_if (negb (is_utf8 path)) (Path Directory.InvalidUtf8) in
    let? chars := characters path in
    let? _ := reserve OutOfMemory 1 0 (zlen chars + 1) in
    let? _ := reserve OutOfMemory 2 0 (zlen chars + 1) in
    let row := replicate (S (length chars)) false in
    let state := foldl (rule_step chars) (row, row, default_included f) (rules f) in
    Ok state.2.
End Rules.

(** ** What a pattern matches

    A token stands for a set of character sequences, a pattern for their
    concatenations. *)

Inductive token_matches : Token -> list Z -> Prop :=
| literal_matches c : token_matches (Literal c) [c]
| any_matches c : c <> SLASH -> token_matches Any [c]
| class_matches negated members c :
    bool_decide (c ∈ members) <> negated -> token_matches (Class_ negated members) [c]
| star_matches w : SLASH ∉ w -> token_matches (Star false) w
| globstar_matches w : NEWLINE ∉ w -> token_matches (Star true) w
| prefix_none : token_matches TreePrefix []
| prefix_some w : NEWLINE ∉ w -> token_matches TreePrefix (w ++ [SLASH]).

Inductive matches : list Token -> list Z -> Prop :=
| matches_nil : matches [] []
| matches_cons t ts u v : token_matches t u -> matches ts v -> matches (t :: ts) (u ++ v).

Lemma matches_cons_inv t ts w :
  matches (t :: ts) w <-> exists u v, w = u ++ v /\ token_matches t u /\ matches ts v.
Proof.
  split.
  - inversion 1; subst. eauto.
  - intros (u & v & -> & ? & ?). by constructor.
Qed.

Lemma matches_nil_inv w : matches [] w <-> w = [].
Proof. split; [by inversion 1 | intros ->; constructor]. Qed.

(** A row of the dynamic program tells of every suffix whether it matches. *)
Definition row_ok (chars : list Z) (ts : list Token) (row : list bool) : Prop :=
  length row = S (length chars)
  /\ forall j, (j <= length chars)%nat -> at_ row j = true <-> matches ts (drop j chars).

(** The tokens that consume one character. *)
Definition single (t : Token) (c : Z) : bool :=
  match t with
  | Literal e => bool_decide (c = e)
  | Any => negb (c =? SLASH)
  | Class_ negated members => negb (Bool.eqb (bool_decide (c ∈ members)) negated)
  | Star _ | TreePrefix => false
  end.

Lemma single_spec t c :
  match t with Star _ | TreePrefix => False | _ => True end ->
  single t c = true <-> token_matches t [c].
Proof.
  destruct t as [e | | | | negated members]; cbn [single]; intros Ht; try done.
  - rewrite bool_decide_eq_true. split; [intros ->; constructor | by inversion 1].
  - rewrite negb_true_iff, Z.eqb_neq. split; [by constructor | by inversion 1].
  - rewrite negb_true_iff, eqb_false_iff. split; [by constructor | by inversion 1].
Qed.

Lemma single_length t u :
  match t with Star _ | TreePrefix => False | _ => True end -> token_matches t u ->
  exists c, u = [c].
Proof. intros Ht. inversion 1; subst; try done; eauto. Qed.

Lemma matches_single t ts w :
  match t with Star _ | TreePrefix => False | _ => True end ->
  matches (t :: ts) w <-> exists c v, w = c :: v /\ single t c = true /\ matches ts v.
Proof.
  intros Ht. rewrite matches_cons_inv. split.
  - intros (u & v & -> & Hu & Hv). destruct (single_length _ _ Ht Hu) as [c ->].
    exists c, v. split_and!; [done | by apply single_spec | done].
  - intros (c & v & -> & Hc & Hv). exists [c], v. split_and!; [done | by apply single_spec | done].
Qed.

Lemma matches_star (cross : bool) ts w :
  let stop := if cross then NEWLINE else SLASH in
  matches (Star cross :: ts) w <->
  matches ts w \/ exists c v, w = c :: v /\ c <> stop /\ matches (Star cross :: ts) v.
Proof.
  intros stop.
  assert (forall u, token_matches (Star cross) u <-> stop ∉ u) as Hu.
  { intros u. subst stop. destruct cross; (split; [by inversion 1 | by constructor]). }
  rewrite matches_cons_inv. setoid_rewrite matches_cons_inv. setoid_rewrite Hu. split.
  - intros ([| c u] & v & -> & Hs & Hv); [by left |]. right.
    rewrite not_elem_of_cons in Hs. destruct Hs as [Hc Hs].
    exists c, (u ++ v). split_and!; [done | done |]. exists u, v. done.
  - intros [Hv | (c & w' & -> & Hc & u & v & -> & Hs & Hv)].
    + exists [], w. split_and!; [done | apply not_elem_of_nil | done].
    + exists (c :: u), v. split_and!; [done | by apply not_elem_of_cons | done].
Qed.

(** [directory_prefix]: the rest reads, up to some slash and without a newline,
    a directory that the following tokens can continue from. *)
Definition through_slash (ts : list Token) (w : list Z) : Prop :=
  exists u v, w = u ++ SLASH :: v /\ (NEWLINE ∉ u) /\ matches ts v.

Lemma matches_prefix ts w : matches (TreePrefix :: ts) w <-> matches ts w \/ through_slash ts w.
Proof.
  unfold through_slash. rewrite matches_cons_inv. split.
  - intros (u & v & -> & Hu & Hv). inversion Hu; subst; [by left |]. right.
    rewrite <- app_assoc. eauto.
  - intros [Hv | (u & v & -> & Hn & Hv)].
    + exists [], w. split_and!; [done | constructor | done].
    + exists (u ++ [SLASH]), v. rewrite <- app_assoc. split_and!; [done | by constructor | done].
Qed.

Lemma through_slash_cons ts c w :
  through_slash ts (c :: w) <->
  c <> NEWLINE /\ ((c = SLASH /\ matches ts w) \/ through_slash ts w).
Proof.
  unfold through_slash. split.
  - intros ([| d u] & v & Hw & Hn & Hv); injection Hw as -> ->.
    + split; [done | left; done].
    + rewrite not_elem_of_cons in Hn. destruct Hn as [Hd Hn]. split; [congruence |]. right. eauto.
  - intros [Hc [[-> Hm] | (u & v & -> & Hn & Hv)]].
    + exists [], w. split_and!; [done | apply not_elem_of_nil | done].
    + exists (c :: u), v. split_and!; [done | | done]. apply not_elem_of_cons. split; congruence.
Qed.

Lemma matches_single_cons t ts c w :
  match t with Star _ | TreePrefix => False | _ => True end ->
  matches (t :: ts) (c :: w) <-> single t c = true /\ matches ts w.
Proof.
  intros Ht. rewrite matches_single by done. split.
  - by intros (? & ? & [= -> ->] & ? & ?).
  - intros [? ?]. by exists c, w.
Qed.
Lemma matches_single_nil t ts :
  match t with Star _ | TreePrefix => False | _ => True end -> ~ matches (t :: ts) [].
Proof. intros Ht. rewrite matches_single by done. by intros (? & ? & ? & ?). Qed.
Lemma matches_star_cons (cross : bool) ts c w :
  matches (Star cross :: ts) (c :: w) <->
  matches ts (c :: w) \/ c <> (if cross then NEWLINE else SLASH) /\ matches (Star cross :: ts) w.
Proof.
  rewrite matches_star. split.
  - intros [? | (? & ? & [= -> ->] & ? & ?)]; auto.
  - intros [? | [? ?]]; [by left |]. right. by exists c, w.
Qed.
Lemma matches_star_nil (cross : bool) ts : matches (Star cross :: ts) [] <-> matches ts [].
Proof. rewrite matches_star. split; [by intros [? | (? & ? & ? & ?)] | by left]. Qed.
Lemma through_slash_nil ts : ~ through_slash ts [].
Proof. by intros ([] & ? & ? & ?). Qed.

(** ** The dynamic program decides it *)

Definition cell_ok (t : Token) (ts : list Token) (chars : list Z) (j : nat) (value : bool) : Prop :=
  value = true <-> matches (t :: ts) (drop j chars).
Definition prefix_ok (t : Token) (ts : list Token) (chars : list Z) (j : nat) (dp : bool) : Prop :=
  t = TreePrefix -> dp = true <-> through_slash ts (drop j chars).

Lemma cell_correct t ts chars next current j dp :
  row_ok chars ts next -> (j <= length chars)%nat ->
  ((j < length chars)%nat -> cell_ok t ts chars (S j) (at_ current (S j))) ->
  prefix_ok t ts chars (S j) dp ->
  cell_ok t ts chars j (cell t chars next current j dp).1
  /\ prefix_ok t ts chars j (cell t chars next current j dp).2.
Proof.
  intros [Hlen Hnext] Hj Hcur Hdp. unfold cell_ok, prefix_ok in *.
  pose proof (Hnext j Hj) as Hn. destruct (chars !! j) as [c |] eqn:Hc.
  - assert (j < length chars)%nat as Hlt by by eapply lookup_lt_Some.
    specialize (Hcur Hlt). specialize (Hnext (S j) Hlt).
    rewrite (drop_S _ _ _ Hc) in *. unfold cell. rewrite Hc.
    destruct t as [e | | cross | | negated members]; cbn [fst snd].
    + split; [| done]. rewrite matches_single_cons, andb_true_iff, Hnext by done.
      cbn [single]. rewrite !bool_decide_eq_true. by rewrite (inj_iff Some).
    + split; [| done]. by rewrite matches_single_cons, andb_true_iff, Hnext by done.
    + split; [| done]. rewrite matches_star_cons, orb_true_iff, andb_true_iff, Hn, Hcur.
      by rewrite negb_true_iff, Z.eqb_neq.
    + specialize (Hdp eq_refl). rewrite matches_prefix, orb_true_iff, Hn, through_slash_cons.
      destruct (Z.eqb_spec c NEWLINE) as [-> | Hnl]; [split; [| intros _]; intuition discriminate |].
      destruct (Z.eqb_spec c SLASH) as [-> | Hsl]; cbn [andb];
        [destruct (at_ next (S j)) eqn:Ha |].
      * split; [| intros _]; tauto.
      * assert (~ matches ts (drop (S j) chars)) by (rewrite <- Hnext; done).
        split; [| intros _]; tauto.
      * split; [| intros _]; tauto.
    + split; [| done]. by rewrite matches_single_cons, andb_true_iff, Hnext by done.
  - apply lookup_ge_None in Hc. assert (j = length chars) as -> by lia.
    rewrite drop_all in *. unfold cell. rewrite (proj2 (lookup_ge_None chars (length chars))) by lia.
    pose proof (matches_single_nil t ts) as Hs. pose proof (through_slash_nil ts) as Ht.
    destruct t as [e | | cross | | negated members]; cbn [fst snd].
    + split; [| done]. rewrite bool_decide_eq_false_2 by done. split; [done |]. by intros ?%Hs.
    + split; [| done]. split; [done |]. by intros ?%Hs.
    + split; [| done]. rewrite matches_star_nil, orb_true_iff, Hn. split; [intros [? | [=]] |]; auto.
    + rewrite matches_prefix, orb_true_iff, Hn. split; [| intros _]; intuition discriminate.
    + split; [| done]. split; [done |]. by intros ?%Hs.
Qed.

Lemma at_insert row (j k : nat) v :
  (j < length row)%nat -> at_ (<[j := v]> row) k = if decide (k = j) then v else at_ row k.
Proof.
  intros Hj. unfold at_. destruct (decide (k = j)) as [-> | Hne].
  - by rewrite list_lookup_insert_eq.
  - by rewrite list_lookup_insert_ne.
Qed.

Lemma fill_row_correct t ts chars next n current dp :
  row_ok chars ts next -> length current = S (length chars) -> (n <= S (length chars))%nat ->
  (forall j, (n <= j <= length chars)%nat -> cell_ok t ts chars j (at_ current j)) ->
  prefix_ok t ts chars n dp ->
  row_ok chars (t :: ts) (fill_row t chars next n current dp).
Proof.
  intros Hnext. revert current dp. induction n as [| n IH]; intros current dp Hl Hn Hc Hdp;
    cbn [fill_row].
  - split; [done |]. intros j Hj. apply Hc. lia.
  - destruct (cell_correct t ts chars next current n dp) as [Hv Hp]; [done | lia | | done |].
    { intros Hlt. apply Hc. lia. }
    destruct (cell t chars next current n dp) as [value dp']. cbn [fst snd] in *.
    apply IH; [by rewrite length_insert | lia | | done].
    intros j Hj. rewrite at_insert by lia. destruct (decide (j = n)) as [-> |]; [done |].
    apply Hc. lia.
Qed.

Definition rows_ok (chars : list Z) (ts : list Token) (rows : list bool * list bool) : Prop :=
  row_ok chars ts rows.1 /\ length rows.2 = S (length chars).

Lemma row_step_correct t ts chars rows :
  rows_ok chars ts rows -> rows_ok chars (t :: ts) (row_step chars rows t).
Proof.
  destruct rows as [next current]. intros [Hn Hc]. split; cbn [row_step fst snd] in *.
  - apply fill_row_correct; [done | done | done | lia |].
    intros _. rewrite drop_ge by lia. split; [done |]. by intros ([] & ? & ? & ?).
  - by destruct Hn.
Qed.

Lemma fold_rows_correct chars ts ts' rows :
  rows_ok chars ts' rows -> rows_ok chars (ts ++ ts') (foldl (row_step chars) rows (reverse ts)).
Proof.
  revert ts' rows. induction ts as [| t ts IH] using rev_ind; intros ts' rows Hr; [done |].
  rewrite reverse_app, <- app_assoc. cbn [reverse app foldl].
  apply (IH (t :: ts')). by apply row_step_correct.
Qed.

Lemma match_rule_correct chars ts rows :
  length rows.1 = S (length chars) -> length rows.2 = S (length chars) ->
  rows_ok chars ts (match_rule chars rows ts).
Proof.
  destruct rows as [next current]. cbn [fst snd]. intros Hn Hc. unfold match_rule.
  rewrite <- (app_nil_r ts) at 1. apply fold_rows_correct. split; cbn [fst snd]; [| done].
  split; [by rewrite length_insert, length_replicate |].
  intros j Hj. rewrite matches_nil_inv, at_insert by (rewrite length_replicate; lia).
  destruct (decide (j = length chars)) as [-> | Hne].
  - by rewrite drop_all.
  - unfold at_. rewrite lookup_replicate_2 by lia. simpl. split; [done |].
    intros Hd. apply (f_equal length) in Hd. rewrite length_drop in Hd. simpl in Hd. lia.
Qed.

(** The verdict of the last matching rule, or the default. *)
Inductive verdict (rules : list CompiledRule) (chars : list Z) (start : bool) : bool -> Prop :=
| verdict_default :
    (forall r, r ∈ rules -> ~ matches (tokens r) chars) -> verdict rules chars start start
| verdict_last before r after :
    rules = before ++ r :: after -> matches (tokens r) chars ->
    (forall r', r' ∈ after -> ~ matches (tokens r') chars) ->
    verdict rules chars start (bool_decide (caction r = Action.Include)).

Lemma fold_rules_correct chars rules rows start :
  length rows.1 = S (length chars) -> length rows.2 = S (length chars) ->
  let state := foldl (rule_step chars) (rows, start) rules in
  length state.1.1 = S (length chars) /\ length state.1.2 = S (length chars)
  /\ verdict rules chars start state.2.
Proof.
  intros H1 H2. induction rules as [| r rules IH] using rev_ind.
  - split_and!; [done | done |]. apply verdict_default. set_solver.
  - rewrite foldl_app. cbn [foldl]. destruct IH as (IH1 & IH2 & IH).
    destruct (foldl (rule_step chars) (rows, start) rules) as [rows' included].
    cbn [fst snd rule_step] in *.
    destruct (match_rule_correct chars (tokens r) rows' IH1 IH2) as [[Hl Hm] Hl2].
    split_and!; [done | done |]. specialize (Hm 0%nat ltac:(lia)). rewrite drop_0 in Hm.
    destruct (at_ (match_rule chars rows' (tokens r)).1 0).
    + eapply (verdict_last _ _ _ rules r []); [done | by apply Hm | set_solver].
    + assert (~ matches (tokens r) chars) as Hr by (rewrite <- Hm; done).
      destruct IH as [Hn | before r' after -> Hr' Ha].
      * apply verdict_default. set_solver.
      * apply (verdict_last _ _ _ before r' (after ++ [r])); [by rewrite <- app_assoc | done |].
        set_solver.
Qed.

Lemma includes_verdict `{Allocator} f path b :
  includes f path = Ok b ->
  path_ok path /\ verdict (rules f) (str_chars path) (default_included f) b.
Proof.
  unfold includes. intros Hi. inv_ok.
  match goal with Hv : validate_path path = Ok _ |- _ => apply validate_path_ok in Hv end.
  split; [done |].
  case_bool_decide as Hr; inv_ok.
  - apply verdict_default. destruct (rules f); [set_solver | done].
  - unfold characters in *. inv_ok. apply fold_rules_correct; cbn; by rewrite length_replicate.
Qed.

Lemma includes_total `{AllocatorTotal} f path :
  path_ok path -> exists b, includes f path = Ok b.
Proof.
  intros Hp. unfold includes. rewrite (proj2 (validate_path_ok path) Hp). cbn [map_err rbind].
  case_bool_decide; [eauto |]. destruct Hp as [_ [Hu _] _]. rewrite Hu.
  cbn [negb fail_if rbind]. unfold characters. grant. eexists. reflexivity.
Qed.

(** ** What a pattern's text means

    The tokens a text spells, written on the characters that remain. No index,
    no vector and no memory of failed classes: a bracket opens a class where
    one is closed later, and is a literal elsewhere. *)

(** The members up to the first closing bracket that no backslash escapes, and
    what follows it. *)
Inductive class_members : list Z -> list Z -> list Z -> Prop :=
| members_close rest : class_members (CLOSE :: rest) [] rest
| members_escaped c cs ms rest :
    class_members cs ms rest -> class_members (BACKSLASH :: c :: cs) (c :: ms) rest
| members_plain c cs ms rest :
    c <> CLOSE -> c <> BACKSLASH -> class_members cs ms rest -> class_members (c :: cs) (c :: ms) rest.

(** A closing bracket that comes first is a member. *)
Inductive class_first : list Z -> list Z -> list Z -> Prop :=
| first_bracket cs ms rest : class_members cs ms rest -> class_first (CLOSE :: cs) (CLOSE :: ms) rest
| first_other cs ms rest : head cs <> Some CLOSE -> class_members cs ms rest -> class_first cs ms rest.

Definition negation (c : option Z) : Prop := c = Some BANG \/ c = Some CARET.

(** What follows an opening bracket: negated, its members, and the rest. *)
Inductive class_text : list Z -> bool -> list Z -> list Z -> Prop :=
| class_negated c cs ms rest :
    negation (Some c) -> class_first cs ms rest -> class_text (c :: cs) true ms rest
| class_positive cs ms rest : ~ negation (head cs) -> class_first cs ms rest -> class_text cs false ms rest.

Inductive spells : list Z -> list Token -> Prop :=
| spells_end : spells [] []
| spells_escaped c cs ts : spells cs ts -> spells (BACKSLASH :: c :: cs) (Literal c :: ts)
| spells_backslash : spells [BACKSLASH] [Literal BACKSLASH]
| spells_prefix cs ts : spells cs ts -> spells (STAR :: STAR :: SLASH :: cs) (TreePrefix :: ts)
| spells_globstar cs ts :
    head cs <> Some SLASH -> spells cs ts -> spells (STAR :: STAR :: cs) (Star true :: ts)
| spells_star cs ts : head cs <> Some STAR -> spells cs ts -> spells (STAR :: cs) (Star false :: ts)
| spells_any cs ts : spells cs ts -> spells (QUESTION :: cs) (Any :: ts)
| spells_class cs negated ms rest ts :
    class_text cs negated ms rest -> spells rest ts -> spells (OPEN :: cs) (Class_ negated ms :: ts)
| spells_open cs ts :
    (forall negated ms rest, ~ class_text cs negated ms rest) -> spells cs ts ->
    spells (OPEN :: cs) (Literal OPEN :: ts)
| spells_literal c cs ts :
    c ∉ [BACKSLASH; STAR; QUESTION; OPEN] -> spells cs ts -> spells (c :: cs) (Literal c :: ts).

(** A text spells one list of tokens. *)
Lemma class_members_unique cs ms rest ms' rest' :
  class_members cs ms rest -> class_members cs ms' rest' -> ms = ms' /\ rest = rest'.
Proof.
  intros Hm. revert ms' rest'.
  induction Hm as [rest | c cs ms rest _ IH | c cs ms rest Hc Hb _ IH]; intros ms' rest'; inversion 1; subst; try done.
  all: match goal with Hm : class_members ?c _ _, IH : forall _ _, class_members ?c _ _ -> _ |- _ =>
    apply IH in Hm as [-> ->]; done end.
Qed.

Lemma class_text_unique cs n ms rest n' ms' rest' :
  class_text cs n ms rest -> class_text cs n' ms' rest' -> n = n' /\ ms = ms' /\ rest = rest'.
Proof.
  assert (forall cs ms rest ms' rest', class_first cs ms rest -> class_first cs ms' rest' -> ms = ms' /\ rest = rest') as Hf.
  { intros ? ? ? ? ?. inversion 1; inversion 1; subst; try done; simplify_eq;
      match goal with H1 : class_members ?c _ _, H2 : class_members ?c _ _ |- _ =>
        destruct (class_members_unique _ _ _ _ _ H1 H2) as [-> ->]; done end. }
  inversion 1; inversion 1; subst; simplify_eq; try done;
    match goal with H1 : class_first ?c _ _, H2 : class_first ?c _ _ |- _ =>
      destruct (Hf _ _ _ _ _ H1 H2) as [-> ->]; done end.
Qed.

Lemma spells_unique cs ts ts' : spells cs ts -> spells cs ts' -> ts = ts'.
Proof.
  intros Hs. revert ts'. induction Hs; intros ts'; inversion 1; subst; simplify_eq; try done;
    try (exfalso; set_solver); try (f_equal; auto; fail); try naive_solver.
  match goal with H1 : class_text ?c _ _ _, H2 : class_text ?c _ _ _ |- _ =>
    destruct (class_text_unique _ _ _ _ _ _ _ H1 H2) as (-> & -> & ->) end.
  f_equal. auto.
Qed.

(** No closing bracket that no backslash escapes. *)
Definition open_end (cs : list Z) : Prop := forall ms rest, ~ class_members cs ms rest.

(** Where the source has forgotten classes: up to a negation and a bracket that
    comes first, none is closed any more. *)
Definition settled_first (cs : list Z) : Prop :=
  open_end cs \/ exists cs', cs = CLOSE :: cs' /\ open_end cs'.
Definition settled (cs : list Z) : Prop :=
  settled_first cs \/ exists c cs', cs = c :: cs' /\ negation (Some c) /\ settled_first cs'.

Lemma open_end_nil : open_end [].
Proof. intros ms rest. inversion 1. Qed.

Lemma open_end_tail c cs : open_end (c :: cs) -> c <> BACKSLASH -> open_end cs.
Proof.
  intros Ho Hc ms rest Hm. destruct (decide (c = CLOSE)) as [-> | Hn].
  - apply (Ho [] cs). constructor.
  - apply (Ho (c :: ms) rest). by constructor.
Qed.

Lemma settled_tail c cs : settled (c :: cs) -> c <> BACKSLASH -> settled cs.
Proof.
  intros [[Ho | (cs' & [= -> ->] & Ho)] | (c' & cs' & [= -> ->] & _ & Hs)] Hc.
  - left; left. by apply (open_end_tail c).
  - by left; left.
  - by left.
Qed.

Lemma settled_escaped c cs : settled (BACKSLASH :: c :: cs) -> settled cs.
Proof.
  intros [[Ho | (? & [=] & _)] | (? & ? & [= <- <-] & [[=] | [=]] & _)]. left; left.
  intros ms rest Hm. apply (Ho (c :: ms) rest). by constructor.
Qed.

Lemma settled_first_none cs ms rest : settled_first cs -> ~ class_first cs ms rest.
Proof.
  intros [Ho | (cs' & -> & Ho)]; inversion 1; subst; try done.
  - apply (Ho [] cs0). constructor.
  - by eapply Ho.
  - by eapply Ho.
Qed.

Lemma settled_none cs negated ms rest : settled cs -> ~ class_text cs negated ms rest.
Proof.
  intros [Hs | (c & cs' & -> & Hc & Hs)]; inversion 1; subst; try done.
  - destruct Hs as [Ho | (cs' & [= -> ->] & _)];
      match goal with Hn : negation _, Hf : class_first _ _ _ |- _ =>
        destruct Hn as [[=] | [=]]; subst; try done; revert Hf; apply settled_first_none end;
      left; by eapply open_end_tail.
  - by eapply settled_first_none.
  - by eapply settled_first_none.
Qed.

Lemma char_is_head chars j c : char_is chars j c = bool_decide (head (drop j chars) = Some c).
Proof. unfold char_is. by rewrite head_lookup, lookup_drop, Nat.add_0_r. Qed.

Lemma lookup_drop_nil {X} (l : list X) j : l !! j = None -> drop j l = [].
Proof. intros Hj%lookup_ge_None. by apply drop_ge. Qed.

Lemma push_Ok `{Allocator} {X} (l l' : list X) x : push l x = Ok l' -> l' = l ++ [x].
Proof. unfold push. intros Hp. by inv_ok. Qed.

Section Meaning.
Context `{Allocator} (chars : list Z).

Lemma scan_members_Ok j members j' members' :
  scan_members chars j members = Ok (j', members') ->
  exists ms, members' = members ++ ms /\
    if bool_decide (is_Some (chars !! j')) then class_members (drop j chars) ms (drop (S j') chars)
    else open_end (drop j chars).
Proof.
  intros Hm. refine (_ (iterate_ind _ _ (scan_turn_advances chars) (fun st r => forall j' members', r = Ok (j', members') ->
    exists ms, members' = st.2 ++ ms /\
      if bool_decide (is_Some (chars !! j')) then class_members (drop st.1 chars) ms (drop (S j') chars)
      else open_end (drop st.1 chars)) _ _ (j, members))).
  { intros Hi. exact (Hi j' members' Hm). }
  - intros [j0 m0] st' Ht IH j1 m1 Hr. destruct (IH j1 m1 Hr) as (ms & -> & Hms). clear IH Hr. revert Hms.
    unfold scan_turn in Ht. destruct (chars !! j0) as [c |] eqn:Hc; [| done].
    destruct (Z.eqb_spec c CLOSE) as [| Hn]; [done |]. cbv zeta in Ht.
    destruct (push _ _) as [m2 |] eqn:Hp; [| done]. injection Ht as <-. apply push_Ok in Hp as ->.
    cbn [fst snd]. rewrite (drop_S _ _ _ Hc).
    destruct (Z.eqb_spec c BACKSLASH) as [-> | Hb]; cbn [andb].
    + destruct (Nat.ltb_spec (S j0) (length chars)) as [Hl | Hl].
      * destruct (lookup_lt_is_Some_2 chars (S j0) Hl) as [d Hd].
        rewrite (list_lookup_total_correct _ _ _ Hd), (drop_S _ _ _ Hd). intros Hms. exists (d :: ms).
        split; [by rewrite <- app_assoc |]. case_bool_decide; [by constructor |].
        intros ms' rest. inversion 1; subst; [by eapply Hms | done].
      * rewrite (drop_ge chars (S j0)) by lia. intros Hms. exists ((chars !!! j0) :: ms).
        split; [by rewrite <- app_assoc |]. case_bool_decide; [inversion Hms |].
        intros ms' rest. inversion 1; done.
    + rewrite (list_lookup_total_correct _ _ _ Hc). intros Hms. exists (c :: ms).
      split; [by rewrite <- app_assoc |]. case_bool_decide; [by constructor |].
      intros ms' rest. inversion 1; subst; [done | done | by eapply Hms].
  - intros [j0 m0] r Ht j1 m1 ->. unfold scan_turn in Ht. cbn [fst snd]. exists [].
    destruct (chars !! j0) as [c |] eqn:Hc.
    + destruct (Z.eqb_spec c CLOSE) as [-> | Hn].
      * injection Ht as <- <-. rewrite app_nil_r, Hc, bool_decide_eq_true_2 by by eexists.
        split; [done |]. rewrite (drop_S _ _ _ Hc). constructor.
      * cbv zeta in Ht. by destruct (push _ _).
    + injection Ht as <- <-. rewrite app_nil_r, Hc, bool_decide_eq_false_2 by by intros [? [=]].
      split; [done |]. rewrite lookup_drop_nil by done. apply open_end_nil.
Qed.

Lemma scan_class_Ok i negated j members :
  scan_class chars i = Ok (negated, j, members) ->
  if bool_decide (is_Some (chars !! j))
  then class_text (drop (S i) chars) negated members (drop (S j) chars)
  else settled (drop (S i) chars).
Proof.
  assert (forall k j members,
    (let? (j, members) :=
       if char_is chars k CLOSE then let? members := push [] CLOSE in Ok (S k, members) else Ok (k, []) in
     scan_members chars j members) = Ok (j, members) ->
    if bool_decide (is_Some (chars !! j)) then class_first (drop k chars) members (drop (S j) chars)
    else settled_first (drop k chars)) as Hfirst.
  { intros k j0 m0. unfold char_is. case_bool_decide as Hk.
    - rewrite (drop_S _ _ _ Hk). unfold push. intros Hm. inv_ok.
      apply scan_members_Ok in Hm as (ms & -> & Hm). cbn [app]. case_bool_decide; [by constructor | right; eauto].
    - cbn [rbind]. intros (ms & -> & Hm)%scan_members_Ok. cbn [app]. case_bool_decide; [| by left].
      apply first_other; [| done]. by rewrite head_lookup, lookup_drop, Nat.add_0_r. }
  unfold scan_class. intros Hc.
  assert (negated = bool_decide (negation (chars !! S i))) as Hneg.
  { apply rbind_Ok in Hc as ([j0 m0] & _ & Hc). apply rbind_Ok in Hc as ([j1 m1] & _ & [= <- _ _]).
    unfold char_is, negation. symmetry. rewrite <- bool_decide_or. by apply bool_decide_ext. }
  set (k := if char_is chars (S i) BANG || char_is chars (S i) CARET then S (S i) else S i) in Hc.
  assert ((let? (j, members) :=
       if char_is chars k CLOSE then let? members := push [] CLOSE in Ok (S k, members) else Ok (k, []) in
     scan_members chars j members) = Ok (j, members)) as Hj.
  { revert Hc. clear. destruct (_ : result Error (nat * list Z)) as [[j0 m0] |]; [| done]. cbn [rbind].
    destruct (scan_members _ _ _) as [[j1 m1] |]; [| done]. by intros [= _ <- <-]. }
  apply Hfirst in Hj. clear Hc Hfirst.
  assert (k = if negated then S (S i) else S i) as Hk.
  { subst k. rewrite Hneg. unfold negation, char_is. by rewrite bool_decide_or. }
  clearbody k. subst k. symmetry in Hneg. destruct negated.
  - apply bool_decide_eq_true in Hneg. destruct (chars !! S i) as [c |] eqn:Hc; [| by destruct Hneg].
    rewrite (drop_S _ _ _ Hc). case_bool_decide; [by constructor |]. right. eauto.
  - apply bool_decide_eq_false in Hneg. case_bool_decide; [| by left]. apply class_positive; [| done].
    by rewrite head_lookup, lookup_drop, Nat.add_0_r.
Qed.
End Meaning.
Section Spelling.
Context `{Allocator} (chars : list Z).

Lemma next_token_Ok i remain c token i' remain' :
  chars !! i = Some c -> next_token chars i remain c = Ok (token, i', remain') ->
  (remain = false -> settled (drop i chars)) ->
  (remain' = false -> settled (drop (S i') chars))
  /\ forall ts, spells (drop (S i') chars) ts -> spells (drop i chars) (token :: ts).
Proof.
  intros Hc Hn Hs. rewrite (drop_S _ _ _ Hc) in *. revert Hn. unfold next_token.
  destruct (Z.eqb_spec c BACKSLASH) as [-> | Hb].
  { destruct (Nat.ltb_spec (S i) (length chars)) as [Hl | Hl]; cbv zeta; intros [= <- <- <-].
    - destruct (lookup_lt_is_Some_2 chars (S i) Hl) as [d Hd].
      rewrite (list_lookup_total_correct _ _ _ Hd), (drop_S _ _ _ Hd) in *.
      split; [intros Hr; by apply (settled_escaped d), Hs | by constructor].
    - rewrite (list_lookup_total_correct _ _ _ Hc), (drop_ge chars (S i)) in * by lia.
      split; [intros Hr; left; left; apply open_end_nil |]. intros ts. inversion 1. constructor. }
  assert (remain = false -> settled (drop (S i) chars)) as Hs1 by (intros; by apply (settled_tail c); auto).
  rewrite !char_is_head. destruct (Z.eqb_spec c STAR) as [-> | Hst]; cbn [andb].
  { case_bool_decide as H1.
    - destruct (drop (S i) chars) as [| d cs] eqn:Hd; [done |]. injection H1 as ->.
      assert (drop (S (S i)) chars = cs) as Hd2 by (by rewrite <- Nat.add_1_r, <- drop_drop, Hd).
      assert (remain = false -> settled cs) as Hs2 by (intros; by apply (settled_tail STAR); auto).
      rewrite Hd2. case_bool_decide as H2; intros [= <- <- <-]; cbn [Nat.add].
      + destruct cs as [| e cs]; [done |]. injection H2 as ->.
        assert (drop (S (S (S i))) chars = cs) as Hd3 by (by rewrite <- Nat.add_1_r, <- drop_drop, Hd2).
        rewrite Hd3. split; [intros; by apply (settled_tail SLASH); auto | by constructor].
      + rewrite Hd2. split; [done | by constructor].
    - intros [= <- <- <-]. split; [done | by constructor]. }
  destruct (Z.eqb_spec c QUESTION) as [-> | Hq]; [intros [= <- <- <-]; split; [done | by constructor] |].
  destruct (Z.eqb_spec c OPEN) as [-> | Ho]; cbn [andb].
  2: { intros [= <- <- <-]. split; [done |]. intros ts. apply spells_literal. set_solver. }
  destruct remain.
  2: { intros [= <- <- <-]. split; [done |]. intros ts. apply spells_open. intros. by apply settled_none, Hs1. }
  intros Hcls. apply rbind_Ok in Hcls as ([[negated j] members] & Hcls%scan_class_Ok & Ht).
  destruct (Nat.ltb_spec j (length chars)) as [Hl | Hl]; injection Ht as <- <- <-.
  - rewrite bool_decide_eq_true_2 in Hcls by by apply lookup_lt_is_Some_2.
    split; [done |]. intros ts. by eapply spells_class.
  - rewrite bool_decide_eq_false_2 in Hcls by (intros ?%lookup_lt_is_Some_1; lia).
    split; [done |]. intros ts. apply spells_open. intros. by apply settled_none.
Qed.

Lemma compile_from_Ok st ts :
  compile_from chars st = Ok ts -> (classes_remain st = false -> settled (drop (at_index st) chars)) ->
  exists ts', ts = scanned st ++ ts' /\ spells (drop (at_index st) chars) ts'.
Proof.
  revert ts. apply (iterate_ind _ _ (compile_turn_advances chars) (fun st r => forall ts, r = Ok ts ->
    (classes_remain st = false -> settled (drop (at_index st) chars)) ->
    exists ts', ts = scanned st ++ ts' /\ spells (drop (at_index st) chars) ts')); clear st.
  - intros st st' Ht IH ts Hr Hs. unfold compile_turn in Ht. destruct (chars !! at_index st) as [c |] eqn:Hc; [| done].
    destruct (next_token _ _ _ _) as [[[token i] remain] |] eqn:Hn; [| done]. injection Ht as <-.
    destruct (next_token_Ok _ _ _ _ _ _ Hc Hn Hs) as [Hs' Ht]. destruct (IH ts Hr Hs') as (ts' & -> & Hts).
    exists (token :: ts'). cbn [scanned]. rewrite <- app_assoc. auto.
  - intros st r Ht ts -> Hs. unfold compile_turn in Ht. destruct (chars !! at_index st) as [c |] eqn:Hc.
    + by destruct (next_token _ _ _ _) as [[[? ?] ?] |].
    + injection Ht as <-. exists []. rewrite app_nil_r, lookup_drop_nil by done. split; [done | constructor].
Qed.

End Spelling.

(** A compiled pattern is what its text spells. *)
Lemma compile_pattern_Ok `{Allocator} pattern ts :
  compile_pattern pattern = Ok ts -> spells (str_chars pattern) ts.
Proof.
  unfold compile_pattern, characters. intros Hp. inv_ok.
  apply compile_from_Ok in Hp as (ts' & -> & Hs); [exact Hs | done].
Qed.

Section CompileTotal.

Lemma push_total `{AllocatorTotal} {A} (l : list A) x : push l x = Ok (l ++ [x]).
Proof. unfold push. by rewrite reserve_total. Qed.

Lemma scan_members_total `{AllocatorTotal} chars j members : exists r, scan_members chars j members = Ok r.
Proof.
  apply (iterate_ind _ _ (scan_turn_advances chars) (fun _ r => exists x, r = Ok x)); [done |].
  intros [j0 m0] r Ht. unfold scan_turn in Ht. destruct (chars !! j0); [| injection Ht as <-; eauto].
  destruct (_ =? CLOSE); [injection Ht as <-; eauto |]. cbv zeta in Ht. by rewrite push_total in Ht.
Qed.

Lemma scan_class_total `{AllocatorTotal} chars i : exists r, scan_class chars i = Ok r.
Proof.
  unfold scan_class. cbv zeta.
  set (j := if char_is chars (S i) BANG || char_is chars (S i) CARET then S (S i) else S i).
  destruct (char_is chars j CLOSE); rewrite ?push_total; cbn [rbind];
    match goal with |- context [scan_members ?cs ?j ?ms] =>
      destruct (scan_members_total cs j ms) as [[? ?] ->] end; cbn [rbind]; eauto.
Qed.

Context `{AllocatorTotal}.

Lemma next_token_total chars i b c : exists r, next_token chars i b c = Ok r.
Proof.
  unfold next_token. destruct (@scan_class_total (at_moment (Z.of_nat i) _) _ chars i) as [[[negated j] members] ->].
  cbn [rbind]. repeat case_match; eauto.
Qed.

Lemma compile_pattern_total pattern : exists ts, compile_pattern pattern = Ok ts.
Proof.
  unfold compile_pattern, characters. grant.
  apply (iterate_ind _ _ (compile_turn_advances (str_chars pattern)) (fun _ r => exists ts, r = Ok ts)); [done |].
  intros st r Ht. unfold compile_turn in Ht. destruct (_ !! at_index st) as [c |]; [| injection Ht as <-; eauto].
  by destruct (next_token_total (str_chars pattern) (at_index st) (classes_remain st) c) as [[[? ?] ?] E]; rewrite E in Ht.
Qed.
End CompileTotal.

(** The pattern of a rule without its exclamation mark, and the action it has. *)
Definition bare_pattern (r : Rule) : bytes := default (rpattern r) (strip_prefix [x21] (rpattern r)).
Definition effective_action (r : Rule) : Action.Action :=
  if starts_with [x21] (rpattern r) then Action.opposite (raction r) else raction r.

Definition compiled_from (r : Rule) (c : CompiledRule) : Prop :=
  bare_pattern r <> [] /\ caction c = effective_action r
  /\ spells (str_chars (bare_pattern r)) (tokens c).

Lemma compile_rule_eq `{A : Allocator} compiled d r :
  compile_rule (compiled, d) r =
    let? _ := fail_if (bool_decide (bare_pattern r = [])) EmptyPattern in
    let? tokens := @compile_pattern (at_moment (zlen compiled) A) (bare_pattern r) in
    Ok (compiled ++ [MkCompiledRule (effective_action r) tokens],
        d && negb (bool_decide (raction r = Action.Include))).
Proof.
  unfold compile_rule, bare_pattern, effective_action, starts_with.
  assert ((if bool_decide (raction r = Action.Include) then false else d)
    = d && negb (bool_decide (raction r = Action.Include))) as -> by (case_bool_decide; by destruct d).
  destruct (strip_prefix [x21] (rpattern r)) as [p |] eqn:Hs; cbn [default].
  - by rewrite (bool_decide_eq_true_2 (is_Some _)) by by eexists.
  - by rewrite (bool_decide_eq_false_2 (is_Some _)) by by intros [? [=]].
Qed.

Lemma compile_rule_Ok `{Allocator} compiled d r compiled' d' :
  compile_rule (compiled, d) r = Ok (compiled', d') ->
  exists c, compiled_from r c /\ compiled' = compiled ++ [c]
    /\ d' = d && negb (bool_decide (raction r = Action.Include)).
Proof.
  rewrite compile_rule_eq. intros Hr. inv_ok.
  match goal with Hb : bool_decide _ = false |- _ => apply bool_decide_eq_false in Hb end.
  match goal with Hp : compile_pattern _ = Ok _ |- _ => apply compile_pattern_Ok in Hp end.
  eexists (MkCompiledRule _ _). by split_and!.
Qed.

Lemma compile_fold_Ok `{Allocator} rs compiled d compiled' d' :
  foldM compile_rule (compiled, d) rs = Ok (compiled', d') ->
  exists cs, Forall2 compiled_from rs cs /\ compiled' = compiled ++ cs
    /\ d' = d && negb (existsb (fun r => bool_decide (raction r = Action.Include)) rs).
Proof.
  revert compiled d. induction rs as [| r rs IH]; intros compiled d; cbn [foldM existsb].
  - intros [= -> ->]. exists []. rewrite app_nil_r, andb_true_r. split_and!; [constructor | done | done].
  - intros ([c1 d1] & (c & Hc & -> & ->)%compile_rule_Ok & (cs & Hf & -> & ->)%IH)%rbind_Ok.
    exists (c :: cs). split_and!; [by constructor | by rewrite <- app_assoc |].
    by rewrite negb_orb, andb_assoc.
Qed.

(** Compiling rules: each by itself, and the default excludes as soon as one
    rule, before its exclamation mark is applied, includes. *)
Lemma compile_Ok `{Allocator} rs f :
  compile rs = Ok f ->
  Forall2 compiled_from rs (rules f)
  /\ default_included f = negb (existsb (fun r => bool_decide (raction r = Action.Include)) rs).
Proof.
  unfold compile. intros Hc. inv_ok. cbn [rules default_included].
  match goal with Hf : foldM _ _ _ = Ok _ |- _ =>
    apply compile_fold_Ok in Hf as (cs & Hf & -> & ->) end. done.
Qed.

Lemma compile_fold_total `{AllocatorTotal} rs state :
  Forall (fun r => bare_pattern r <> []) rs -> exists state', foldM compile_rule state rs = Ok state'.
Proof.
  intros Hp. revert state. induction Hp as [| r rs Hr _ IH]; intros [compiled d]; cbn [foldM]; [eauto |].
  rewrite compile_rule_eq, bool_decide_eq_false_2 by done. cbn [fail_if rbind].
  destruct (@compile_pattern_total (at_moment (zlen compiled) _) _ (bare_pattern r)) as [ts ->]. cbn [rbind]. apply IH.
Qed.

Lemma compile_total `{AllocatorTotal} rs :
  Forall (fun r => bare_pattern r <> []) rs -> exists f, compile rs = Ok f.
Proof.
  intros Hp. unfold compile. grant. destruct (compile_fold_total rs ([], true) Hp) as [[cs d] ->]. by eexists.
Qed.

Lemma compile_patterns `{Allocator} rs f : compile rs = Ok f -> Forall (fun r => bare_pattern r <> []) rs.
Proof.
  intros [Hf _]%compile_Ok. induction Hf as [| r c rs cs (Hr & _) Hf IH]; by constructor.
Qed.

(** ** Escaping *)

Definition special (c : Z) : bool :=
  (c =? STAR) || (c =? QUESTION) || (c =? OPEN) || (c =? BACKSLASH).
Definition escape (chars : list Z) : list Z :=
  chars ≫= fun c => if special c then [BACKSLASH; c] else [c].

(** An escaped text spells itself. *)
Lemma spells_escape text : spells (escape text) (Literal <$> text).
Proof.
  induction text as [| c text IH]; [constructor |]. rewrite fmap_cons. unfold escape. rewrite bind_cons.
  fold (escape text). destruct (special c) eqn:Hs; cbn [app]; [by constructor |].
  apply spells_literal; [| done]. unfold special in Hs. zbool. set_solver.
Qed.

Lemma matches_literals text w : matches (Literal <$> text) w <-> w = text.
Proof.
  revert w. induction text as [| c text IH]; intros w; cbn [fmap list_fmap].
  - apply matches_nil_inv.
  - rewrite matches_single by done. cbn [single]. setoid_rewrite bool_decide_eq_true. split.
    + intros (c' & v & -> & -> & Hv). f_equal. by apply IH.
    + intros ->. exists c, text. split_and!; [done | done | by apply IH].
Qed.

(** ** The properties of filters *)

Lemma verdict_unique rules chars start b1 b2 :
  verdict rules chars start b1 -> verdict rules chars start b2 -> b1 = b2.
Proof.
  intros [Hn | before r after -> Hr Ha].
  - intros [Hn2 | before r after -> Hr Ha]; [done |]. exfalso. apply (Hn r); [set_solver | done].
  - intros [Hn2 | before2 r2 after2 E Hr2 Ha2]; [exfalso; apply (Hn2 r); [set_solver | done] |].
    destruct (Nat.lt_trichotomy (length before) (length before2)) as [Hl | [Hl | Hl]].
    + exfalso. apply (Ha r2); [| done].
      assert ((before ++ r :: after) !! length before2 = Some r2) as Hi by (rewrite E; by apply list_lookup_middle).
      rewrite (cons_middle r), app_assoc in Hi. rewrite lookup_app_r in Hi by (rewrite length_app; simpl; lia).
      by eapply list_elem_of_lookup_2.
    + destruct (app_inj_1 _ _ _ _ Hl E) as [_ [= -> _]]. done.
    + exfalso. apply (Ha2 r); [| done].
      assert ((before2 ++ r2 :: after2) !! length before = Some r) as Hi
        by (rewrite <- E; by apply list_lookup_middle).
      rewrite (cons_middle r2), app_assoc in Hi. rewrite lookup_app_r in Hi by (rewrite length_app; simpl; lia).
      by eapply list_elem_of_lookup_2.
Qed.

(** C15: [Filter::includes] answers on every valid path and on no other, and its
    answer is the action of the last rule whose pattern matches the whole path,
    or the filter's default when none does. The dynamic program computes exactly
    what the patterns denote. *)
Theorem filter_verdict `{AllocatorTotal} f path b :
  includes f path = Ok b <->
  path_ok path /\ verdict (rules f) (str_chars path) (default_included f) b.
Proof.
  split; [by apply includes_verdict |]. intros [Hp Hv].
  destruct (includes_total f path Hp) as [b' Hb'].
  pose proof (includes_verdict f path b' Hb') as [_ Hv'].
  by rewrite Hb', (verdict_unique _ _ _ _ _ Hv Hv').
Qed.

Lemma compile_fold_Err `{AllocatorTotal} rs state e :
  foldM compile_rule state rs = Err e -> e = EmptyPattern.
Proof.
  revert state. induction rs as [| r rs IH]; intros [compiled d]; cbn [foldM]; [done |].
  intros [Hr | (st & _ & Hr)]%rbind_Err; [| by eapply IH].
  rewrite compile_rule_eq in Hr. apply rbind_Err in Hr as [[_ <-]%fail_if_Err | (? & _ & Hr)]; [done |].
  destruct (@compile_pattern_total (at_moment (zlen compiled) _) _ (bare_pattern r)) as [ts Hts].
  by rewrite Hts in Hr.
Qed.

(** C16: Compilation ends on every rule list; it fails exactly when a pattern is
    empty, its exclamation mark apart. Each rule is compiled by itself, in order,
    with its action reversed by the mark, to exactly the tokens its pattern's
    characters spell: escapes, the three stars, classes with their negation and
    a closing bracket that comes first, and an opening bracket that nothing
    closes as a literal. The default is to exclude exactly when some rule
    includes. *)
Theorem filter_compile `{AllocatorTotal} rs :
  match compile rs with
  | Ok f =>
      Forall2 (fun r c => bare_pattern r <> [] /\ caction c = effective_action r
        /\ forall ts, spells (str_chars (bare_pattern r)) ts <-> ts = tokens c) rs (rules f)
      /\ (default_included f = false <-> exists r, r ∈ rs /\ raction r = Action.Include)
  | Err e => e = EmptyPattern /\ exists r, r ∈ rs /\ bare_pattern r = []
  end.
Proof.
  destruct (compile rs) as [f | e] eqn:E.
  - apply compile_Ok in E as [Hf ->]. split.
    { eapply Forall2_impl; [| exact Hf]. intros r c (Hb & Ha & Hs). split_and!; [done | done |].
      intros ts. split; [intros Ht; by apply (spells_unique _ _ _ Ht) | by intros ->]. }
    rewrite negb_false_iff, existsb_exists. setoid_rewrite bool_decide_eq_true.
    by setoid_rewrite list_elem_of_In.
  - assert (~ Forall (fun r => bare_pattern r <> []) rs) as Hn.
    { intros Hp. destruct (compile_total rs Hp). congruence. }
    apply not_Forall_Exists in Hn; [| intros r; apply _]. apply Exists_exists in Hn as (r & Hr & Hb).
    split; [| exists r; split; [by apply list_elem_of_In | by apply dec_stable]].
    unfold compile in E. rewrite reserve_total in E. cbn [rbind] in E.
    apply rbind_Err in E as [E | (? & _ & E)]; [| by case_match].
    by eapply compile_fold_Err.
Qed.

(** A rule whose pattern is a text with every special character escaped
    matches that text and nothing else. *)
Lemma filter_escape `{AllocatorTotal} action pattern text path f b :
  str_chars pattern = escape text -> head pattern <> Some x21 ->
  compile [MkRule action pattern] = Ok f -> includes f path = Ok b ->
  b = bool_decide (action = Action.Include <-> str_chars path = text).
Proof.
  intros Hp Hb [Hf Hd]%compile_Ok [_ Hv]%includes_verdict.
  apply Forall2_cons_inv_l in Hf as (c & cs & (_ & Ha & Hc) & Hcs & Hr).
  apply Forall2_nil_inv_l in Hcs as ->.
  assert (strip_prefix [x21] pattern = None) as Hs.
  { destruct (strip_prefix [x21] pattern) as [q |] eqn:E; [| done].
    apply strip_prefix_Some in E as ->. done. }
  unfold bare_pattern, effective_action, starts_with in *. cbn [rpattern raction] in *. rewrite Hs in *.
  cbn [default] in Hc. change (default pattern None) with pattern in Hc. rewrite Hp in Hc.
  apply (spells_unique _ _ _ (spells_escape text)) in Hc. symmetry in Hc.
  assert (default_included f = bool_decide (action = Action.Exclude)) as Hx by (rewrite Hd; by destruct action).
  rewrite Hr, Hx in Hv. cbn in Ha.
  inversion Hv as [Hn Hb' | before r after E Hm _ Hb']; subst b.
  - assert (str_chars path <> text) as Ht.
    { intros <-. apply (Hn c); [set_solver |]. rewrite Hc. by apply matches_literals. }
    destruct action; apply bool_decide_ext; naive_solver.
  - destruct before as [| ? [|]]; [| done | done]. injection E as -> _.
    rewrite Hc in Hm. apply matches_literals in Hm. rewrite Ha. apply bool_decide_ext. naive_solver.
Qed.

Section Sample.
#[local] Existing Instance plentiful.

Definition sample_rules : list Rule :=
  [ MkRule Action.Include (lit "src/**"); MkRule Action.Exclude (lit "*.o");
    MkRule Action.Exclude (lit "!src/[a-c]?") ].
Definition sample_filter : Filter :=
  match compile sample_rules with
  | Ok f => f
  | Err _ => MkFilter [] true
  end.

Lemma filter_verdict_witness :
  includes sample_filter (lit "src/lib.rs") = Ok true
  /\ verdict (rules sample_filter) (str_chars (lit "src/lib.rs")) false true.
Proof.
  assert (includes sample_filter (lit "src/lib.rs") = Ok true) as Hi by (vm_compute; reflexivity).
  split; [exact Hi |].
  exact (proj2 (proj1 (filter_verdict sample_filter (lit "src/lib.rs") true) Hi)).
Defined.

(** The newline is the one character a double star does not match, as in the
    regular expressions the patterns are defined by. *)
Lemma globstar_newline :
  match compile [MkRule Action.Include (lit "**/c")] with
  | Ok f => includes f (lit "a/b/c") = Ok true /\ includes f (lit "a" ++ [x0a] ++ lit "b/c") = Ok false
  | Err _ => False
  end.
Proof. vm_compute. split; reflexivity. Qed.

Lemma filter_compile_witness :
  length (rules sample_filter) = 3%nat /\ default_included sample_filter = false.
Proof.
  pose proof (filter_compile sample_rules) as Hc.
  replace (compile sample_rules) with (@Ok Error _ sample_filter) in Hc by (vm_compute; reflexivity).
  destruct Hc as [Hf Hd]. split; [exact (eq_sym (Forall2_length Hf)) |].
  apply Hd. exists (MkRule Action.Include (lit "src/**")). split; [left | reflexivity].
Defined.

Lemma filter_escape_witness :
  exists f, compile [MkRule Action.Include (lit "a\*b")] = Ok f
    /\ includes f (lit "a*b") = Ok true /\ includes f (lit "axb") = Ok false
    /\ true = bool_decide (Action.Include = Action.Include <-> str_chars (lit "a*b") = str_chars (lit "a*b")).
Proof.
  set (p := MkRule Action.Include (lit "a\*b")).
  assert (exists f, compile [p] = Ok f) as [f Hf] by (eexists; vm_compute; reflexivity).
  assert (f = match compile [p] with Ok f => f | Err _ => MkFilter [] true end) as Ef by (rewrite Hf; reflexivity).
  assert (includes f (lit "a*b") = Ok true) as H1 by (rewrite Ef; vm_compute; reflexivity).
  assert (includes f (lit "axb") = Ok false) as H2 by (rewrite Ef; vm_compute; reflexivity).
  exists f. split; [exact Hf |]. split; [exact H1 |]. split; [exact H2 |].
  apply (filter_escape Action.Include (lit "a\*b") (str_chars (lit "a*b")) (lit "a*b") f true);
    [vm_compute; reflexivity | vm_compute; discriminate | exact Hf | exact H1].
Defined.
End Sample.
End Filter.
