(* ===== verification/FileHeader.v ===== *)
(** * The file-patch header ([rust/src/lib.rs])

    The fixed 85-byte prefix of a [ZDIF] version 4 patch. *)

From S2P Require Export Bytes.

Module FileHeader.
Definition MAGIC : bytes := lit "ZDIF" ++ [x04].
Definition HASH_LEN : Z := 32.
Definition SOURCE_HASH : Z := zlen MAGIC.
Definition TARGET_HASH : Z := SOURCE_HASH + HASH_LEN.
Definition SOURCE_LENGTH : Z := TARGET_HASH + HASH_LEN.
Definition TARGET_LENGTH : Z := SOURCE_LENGTH + 8.
Definition HEADER_LEN : Z := TARGET_LENGTH + 8.

Record Header : Type := MkHeader {
  source_hash : bytes;
  target_hash : bytes;
  source_len : Z;
  target_len : Z
}.

#[global] Instance Header_eq_dec : EqDecision Header.
Proof. solve_decision. Defined.

Inductive HeaderError : Type := InvalidMagic | Truncated.

(** [Header::encode] *)
Definition encode (h : Header) : bytes :=
  let buf := zeros (Z.to_nat HEADER_LEN) in
  let buf := write_at 0 MAGIC buf in
  let buf := write_at SOURCE_HASH (source_hash h) buf in
  let buf := write_at TARGET_HASH (target_hash h) buf in
  let buf := write_at SOURCE_LENGTH (le64 (source_len h)) buf in
  write_at TARGET_LENGTH (le64 (target_len h)) buf.

(** [encoded[a..b]] *)
Definition field (a b : Z) (encoded : bytes) : result HeaderError bytes :=
  ok_or Truncated (get_range a b encoded).

(** [Header::decode_prefix] *)
Definition decode_prefix (s : bytes) : result HeaderError (Header * bytes) :=
  let? _ := fail_if (negb (bool_decide (get_range 0 (zlen MAGIC) s = Some MAGIC))) InvalidMagic in
  let? encoded := ok_or Truncated (get_range 0 HEADER_LEN s) in
  let? source_hash := field SOURCE_HASH TARGET_HASH encoded in
  let? target_hash := field TARGET_HASH SOURCE_LENGTH encoded in
  let? source_len := field SOURCE_LENGTH TARGET_LENGTH encoded in
  let? target_len := field TARGET_LENGTH (zlen encoded) encoded in
  Ok (MkHeader source_hash target_hash (of_le source_len) (of_le target_len),
      zdrop HEADER_LEN s).

(** ** The wire form *)

Record header_typed (h : Header) : Prop := {
  ht_source_hash : zlen (source_hash h) = 32;
  ht_target_hash : zlen (target_hash h) = 32;
  ht_source_len : is_u64 (source_len h);
  ht_target_len : is_u64 (target_len h)
}.

Definition wire (h : Header) : bytes :=
  MAGIC ++ source_hash h ++ target_hash h ++ le64 (source_len h) ++ le64 (target_len h).

Lemma zlen_wire h : header_typed h -> zlen (wire h) = HEADER_LEN.
Proof. intros []. unfold wire. autorewrite with zlen. rewrite ht_source_hash0, ht_target_hash0. done. Qed.

Lemma encode_wire h : header_typed h -> encode h = wire h.
Proof.
  intros []. unfold encode.
  change (zeros (Z.to_nat HEADER_LEN)) with
    ([] ++ zeros 5 ++ zeros 32 ++ zeros 32 ++ zeros 8 ++ zeros 8).
  rewrite (write_at_app [] (zeros 5)) by done. rewrite app_nil_l.
  rewrite (write_at_app MAGIC (zeros 32)) by done.
  rewrite (app_assoc MAGIC), (write_at_app (MAGIC ++ source_hash h) (zeros 32))
    by (rewrite ?zlen_app, ?ht_source_hash0; done).
  rewrite (app_assoc _ (target_hash h)), (write_at_app ((MAGIC ++ source_hash h) ++ target_hash h) (zeros 8))
    by (rewrite ?zlen_app, ?ht_source_hash0, ?ht_target_hash0, ?zlen_le64; done).
  rewrite (app_assoc _ (le64 _)), <- (app_nil_r (zeros 8)), write_at_app
    by (rewrite ?zlen_app, ?ht_source_hash0, ?ht_target_hash0, ?zlen_le64; done).
  unfold wire. by rewrite app_nil_r, <- !app_assoc.
Qed.

Lemma decode_prefix_wire h frame :
  header_typed h -> decode_prefix (wire h ++ frame) = Ok (h, frame).
Proof.
  intros Ht. pose proof (zlen_wire h Ht) as Hl. destruct Ht.
  unfold decode_prefix.
  assert (get_range 0 (zlen MAGIC) (wire h ++ frame) = Some MAGIC) as ->.
  { unfold wire. rewrite <- app_assoc. by apply (get_range_app [] MAGIC). }
  rewrite bool_decide_eq_true_2 by done. cbn [negb fail_if rbind].
  rewrite (get_range_app [] (wire h) frame) by done. cbn [ok_or rbind].
  rewrite zdrop_app_exact by done. unfold field, wire in *.
  rewrite (get_range_app MAGIC (source_hash h)) by (rewrite ?ht_source_hash0; done).
  cbn [ok_or rbind]. rewrite (app_assoc MAGIC).
  rewrite (get_range_app _ (target_hash h)) by (rewrite ?zlen_app, ?ht_source_hash0, ?ht_target_hash0; done).
  cbn [ok_or rbind]. rewrite (app_assoc (MAGIC ++ source_hash h)).
  rewrite (get_range_app _ (le64 (source_len h)))
    by (rewrite ?zlen_app, ?ht_source_hash0, ?ht_target_hash0, ?zlen_le64; done).
  cbn [ok_or rbind]. rewrite (app_assoc ((MAGIC ++ source_hash h) ++ target_hash h)).
  rewrite <- (app_nil_r (le64 (target_len h))), (get_range_app _ (le64 (target_len h)))
    by (rewrite ?app_nil_r, ?zlen_app, ?ht_source_hash0, ?ht_target_hash0, ?zlen_le64; done).
  cbn [ok_or rbind]. rewrite !of_le_le64 by done. by destruct h.
Qed.

(** Whatever is accepted is a header's encoding and the rest. *)
Lemma decode_prefix_Ok s h frame :
  decode_prefix s = Ok (h, frame) -> header_typed h /\ s = wire h ++ frame.
Proof.
  unfold decode_prefix, field. intros Hd. inv_ok.
  apply negb_false_iff, bool_decide_eq_true in H.
  apply (get_range_after []) in H0 as (rest & Hs & Ha); [| done]. cbn [app] in Hs. subst s.
  rename a0 into encoded. rewrite zdrop_app_exact by done.
  apply (get_range_after []) in H as (r & Hr & _); [| done].
  assert (exists r0, encoded = MAGIC ++ r0) as (r0 & ->).
  { exists (zdrop 5 encoded). rewrite <- (ztake_zdrop 5 encoded) at 1. f_equal.
    rewrite <- (ztake_zdrop 5 encoded), <- app_assoc in Hr.
    apply zlen_inj_app in Hr as [-> _]; [done |]. rewrite zlen_ztake; [done | rewrite Ha; done]. }
  apply get_range_after in H1 as (r1 & -> & Hsh); [| done].
  rewrite app_assoc in *. apply get_range_after in H2 as (r2 & -> & Hth);
    [| rewrite zlen_app, Hsh; done].
  rewrite app_assoc in *. apply get_range_after in H3 as (r3 & -> & Hsl);
    [| rewrite !zlen_app, Hsh, Hth; done].
  rewrite app_assoc in *. pose proof Ha as Hb. rewrite zlen_app in Ha.
  apply get_range_after in H4 as (r4 & -> & Htl); [| rewrite !zlen_app, Hsh, Hth, Hsl; done].
  rewrite Hb in Htl. rewrite !zlen_app, Hsh, Hth, Hsl, Htl in Ha.
  assert (r4 = []) as -> by (apply zlen_0_nil; change (zlen MAGIC) with 5 in Ha;
    change HEADER_LEN with 85 in Ha; change TARGET_LENGTH with 77 in Ha;
    change SOURCE_LENGTH with 69 in Ha; change TARGET_HASH with 37 in Ha;
    change SOURCE_HASH with 5 in Ha; lia).
  split; [constructor; cbn; auto with difz |]. unfold wire.
  cbn [source_hash target_hash source_len target_len].
  rewrite !le64_of_le by done. by rewrite app_nil_r, <- !app_assoc.
Qed.
(** [Header::decode_prefix] accepts exactly a header's encoding followed by
    a frame, and returns that header and that frame. *)
Lemma file_header_iff s h frame :
  decode_prefix s = Ok (h, frame) <-> header_typed h /\ s = encode h ++ frame.
Proof.
  split.
  - intros [Ht ->]%decode_prefix_Ok. by rewrite encode_wire.
  - intros [Ht ->]. rewrite encode_wire by done. by apply decode_prefix_wire.
Qed.
End FileHeader.
