(* ===== verification/Zstdz.v ===== *)
(** * The zstd boundary ([rust/zstdz/src/lib.rs])

    The two safe operations over the native library: append a frame compressed
    with a prefix, and decode one into an exact size. The native library is a
    parameter: its contexts, calls and constants. *)

From S2P Require Export Bytes.

Module Zstdz.
Inductive Error : Type := OutOfMemory | WindowTooLarge | CompressionFailed | DecompressionFailed.

#[global] Instance Error_eq_dec : EqDecision Error.
Proof. solve_decision. Defined.

Definition MAX_INPUT_LEN : Z := Z.shiftl 1 31.

(** [64 - n.leading_zeros()], the bit length of [n]. *)
Definition bit_length (n : Z) : Z := if n =? 0 then 0 else Z.log2 n + 1.

Definition window_log (source target : Z) : result Error Z :=
  if (MAX_INPUT_LEN <? source) || (MAX_INPUT_LEN <? target) then Err WindowTooLarge
  else Ok (Z.min 31 (Z.max 10 (bit_length (Z.max source target)))).
End Zstdz.

(** ** The native library

    [zstd.h]: each call returns its status, and the context or the buffer it
    leaves behind. A buffer is what the C code wrote to the capacity it was
    lent. *)

Record CParams : Type := MkCParams {
  chain_log : Z; hash_log : Z; search_log : Z; min_match : Z; target_length : Z; strategy : Z
}.

Record CParameters : Type := MkCParameters {
  c_compressionLevel : Z; c_nbWorkers : Z; c_enableLongDistanceMatching : Z; c_windowLog : Z;
  c_chainLog : Z; c_hashLog : Z; c_searchLog : Z; c_minMatch : Z; c_targetLength : Z;
  c_strategy : Z; btlazy2 : Z
}.

Class Native := {
  CCtx : Type;
  DCtx : Type;
  constants : CParameters;
  is_error : Z -> bool;
  create_cctx : option CCtx;
  get_cparams : Z -> Z -> Z -> CParams;
  cctx_set_parameter : CCtx -> Z -> Z -> Z * CCtx;
  cctx_ref_prefix : CCtx -> bytes -> Z * CCtx;
  compress_bound : Z -> Z;
  compress2 : CCtx -> Z -> bytes -> Z * bytes;
  create_dctx : option DCtx;
  dctx_set_max_window_size : DCtx -> Z -> Z * DCtx;
  dctx_ref_prefix : DCtx -> bytes -> Z * DCtx;
  decompress_dctx : DCtx -> Z -> bytes -> Z * bytes
}.

Module Codec.
Export Zstdz.

Section Operations.
Context `{Allocator, Native}.

Definition checked (status : Z) (error : Error) : result Error Z :=
  if is_error status then Err error else Ok status.

(** [checked(call(context, ..), error)?], keeping the context. *)
Definition checked_call {C} (call : Z * C) (error : Error) : result Error C :=
  let? _ := checked call.1 error in Ok call.2.

Definition set_parameter (context : CCtx) (setting : Z * Z) : result Error CCtx :=
  checked_call (cctx_set_parameter context setting.1 setting.2) CompressionFailed.

Definition settings (parameters : CParams) (raw_log cycle_log window : Z) : list (Z * Z) :=
  [ (c_compressionLevel constants, 9);
    (c_nbWorkers constants, 0);
    (c_enableLongDistanceMatching constants, if cycle_log <? raw_log then 1 else 0);
    (c_windowLog constants, window);
    (c_chainLog constants, chain_log parameters);
    (c_hashLog constants, hash_log parameters);
    (c_searchLog constants, search_log parameters);
    (c_minMatch constants, min_match parameters);
    (c_targetLength constants, target_length parameters);
    (c_strategy constants, strategy parameters) ].

(** The vector after the call: on failure the caller's vector is unchanged. *)
Definition append_frame (source target output : bytes) : result Error bytes :=
  let? window := window_log (zlen source) (zlen target) in
  let? context := ok_or OutOfMemory create_cctx in
  let parameters := get_cparams 9 (zlen target) (zlen source) in
  let raw_log := bit_length (Z.max (zlen source) (zlen target)) in
  let? cycle_log := ok_or CompressionFailed
    (checked_sub (chain_log parameters)
       (if btlazy2 constants <=? strategy parameters then 1 else 0)) in
  let? context := foldM set_parameter context (settings parameters raw_log cycle_log window) in
  let? context :=
    if bool_decide (source = []) then Ok context
    else checked_call (cctx_ref_prefix context source) CompressionFailed in
  let? bound := checked (compress_bound (zlen target)) CompressionFailed in
  let? _ := reserve OutOfMemory 1 (zlen output) bound in
  let call := compress2 context bound target in
  let? written := checked call.1 CompressionFailed in
  let? _ := fail_if (bound <? written) CompressionFailed in
  Ok (output ++ ztake written call.2).

Definition decode (source frame : bytes) (expected : Z) : result Error bytes :=
  let? _ := window_log (zlen source) expected in
  let? _ := reserve OutOfMemory 0 0 expected in
  let? context := ok_or OutOfMemory create_dctx in
  let? context := checked_call (dctx_set_max_window_size context MAX_INPUT_LEN) DecompressionFailed in
  let? context :=
    if bool_decide (source = []) then Ok context
    else checked_call (dctx_ref_prefix context source) DecompressionFailed in
  let call := decompress_dctx context expected frame in
  let? written := checked call.1 DecompressionFailed in
  let? _ := fail_if (negb (written =? expected)) DecompressionFailed in
  Ok (ztake written call.2).
End Operations.
End Codec.

(** ** What the rest of the code relies on

    The contract of the codec, which its clients are proved against. The codec
    allocates too: it is told the moment of the call. *)

Class Zstd := {
  append_frame : list Z -> bytes -> bytes -> bytes -> result Zstdz.Error bytes;
  decode_frame : list Z -> bytes -> bytes -> Z -> result Zstdz.Error bytes
}.

(** The codec as a call or a loop turn numbered [k] meets it. *)
Definition codec_at (k : Z) (Z' : Zstd) : Zstd := {|
  append_frame ks := @append_frame Z' (k :: ks);
  decode_frame ks := @decode_frame Z' (k :: ks)
|}.

(** Output sizes are exact, and output already present is kept. *)
Class ZstdSafe `{Zstd} := {
  append_extends ks source target output output' :
    append_frame ks source target output = Ok output' ->
    exists frame, output' = output ++ frame;
  append_window ks source target output output' :
    append_frame ks source target output = Ok output' ->
    zlen source <= Zstdz.MAX_INPUT_LEN /\ zlen target <= Zstdz.MAX_INPUT_LEN;
  decode_exact ks source frame expected output :
    0 <= expected -> decode_frame ks source frame expected = Ok output -> zlen output = expected
}.

(** A frame decodes, with the prefix it was made with, to what it was made from;
    and within the window limit making and decoding it succeed. *)
Class ZstdRoundTrip `{Zstd} := {
  decode_append source target output :
    zlen source <= Zstdz.MAX_INPUT_LEN -> zlen target <= Zstdz.MAX_INPUT_LEN ->
    exists frame, (forall ks, append_frame ks source target output = Ok (output ++ frame))
      /\ forall ks, decode_frame ks source frame (zlen target) = Ok target
}.

(** A frame does not depend on when it is made. *)
Class ZstdSteady `{Zstd} := {
  append_steady ks ks' source target output output' :
    append_frame ks source target output = Ok output' ->
    append_frame ks' source target output = Ok output'
}.

#[export] Instance round_trip_steady `{ZstdSafe, !ZstdRoundTrip} : ZstdSteady.
Proof.
  constructor. intros ks ks' source target output output' Ha.
  destruct (append_window ks _ _ _ _ Ha) as [Hs Ht].
  destruct (decode_append source target output Hs Ht) as (frame & Hf & _). by rewrite Hf in *.
Qed.

#[export] Instance codec_at_safe k Z' : @ZstdSafe Z' -> @ZstdSafe (codec_at k Z').
Proof.
  intros Hs. constructor.
  - intros ks. apply Hs.
  - intros ks. apply Hs.
  - intros ks. apply Hs.
Qed.

#[export] Instance codec_at_round_trip k Z' : @ZstdRoundTrip Z' -> @ZstdRoundTrip (codec_at k Z').
Proof.
  intros Hr. constructor. intros source target output Hs Ht.
  destruct (decode_append source target output Hs Ht) as (frame & Ha & Hd).
  exists frame. split; intros ks; [apply Ha | apply Hd].
Qed.

(** What [zstd.h] documents: statuses of successful calls are sizes within the
    capacity, and decompression with the same prefix inverts compression. A
    context is seen through the prefix it refers to; a decoder accepts a frame
    whose window its limit covers. *)
Class NativeDocumented `{Native} := {
  frame_of : bytes -> bytes -> bytes -> Prop;
  cprefix : CCtx -> bytes;
  dprefix : DCtx -> bytes;
  create_cctx_fresh c : create_cctx = Some c -> cprefix c = [];
  set_parameter_prefix c p v : cprefix (cctx_set_parameter c p v).2 = cprefix c;
  cctx_ref_prefix_set c s : is_error (cctx_ref_prefix c s).1 = false ->
    cprefix (cctx_ref_prefix c s).2 = s;
  compress2_frame c bound target :
    is_error (compress2 c bound target).1 = false ->
    0 <= (compress2 c bound target).1 <= zlen (compress2 c bound target).2
    /\ frame_of (cprefix c) target (ztake (compress2 c bound target).1 (compress2 c bound target).2);
  create_dctx_fresh d : create_dctx = Some d -> dprefix d = [];
  set_max_window_prefix d n : dprefix (dctx_set_max_window_size d n).2 = dprefix d;
  dctx_ref_prefix_set d s : is_error (dctx_ref_prefix d s).1 = false ->
    dprefix (dctx_ref_prefix d s).2 = s;
  decompress_capacity d capacity frame :
    0 <= capacity -> zlen (decompress_dctx d capacity frame).2 = capacity;
  decompress_frame d frame target :
    frame_of (dprefix d) target frame -> zlen target <= Zstdz.MAX_INPUT_LEN ->
    decompress_dctx d (zlen target) frame = (zlen target, target)
}.

(** The calls of the two operations succeed when memory suffices. A parameter
    has bounds, [ZSTD_cParam_getBounds], and setting it to a value outside them
    is an error; the settings that [append_frame] makes are within: a level, no
    workers, a switch, a window log from 10 to 31, and the fields of what
    [ZSTD_getCParams] returns. A context can be set up until a frame is begun,
    which neither operation does before it has set up its own. A size is not an
    error status. *)
Class NativeAvailable `{Native} := {
  in_bounds : Z -> Z -> Prop;
  cctx_idle : CCtx -> Prop;
  dctx_idle : DCtx -> Prop;
  cctx_available : is_Some create_cctx;
  dctx_available : is_Some create_dctx;
  cctx_created c : create_cctx = Some c -> cctx_idle c;
  dctx_created d : create_dctx = Some d -> dctx_idle d;
  cparams_chain t s : 1 <= chain_log (get_cparams 9 t s);
  settings_bounds t s raw_log cycle_log window p v :
    0 <= t <= Zstdz.MAX_INPUT_LEN -> 0 <= s <= Zstdz.MAX_INPUT_LEN -> 10 <= window <= 31 ->
    (p, v) ∈ Codec.settings (get_cparams 9 t s) raw_log cycle_log window -> in_bounds p v;
  set_parameter_ok c p v :
    cctx_idle c -> in_bounds p v ->
    is_error (cctx_set_parameter c p v).1 = false /\ cctx_idle (cctx_set_parameter c p v).2;
  cctx_ref_prefix_ok c s :
    cctx_idle c -> is_error (cctx_ref_prefix c s).1 = false /\ cctx_idle (cctx_ref_prefix c s).2;
  compress_bound_ok n : 0 <= n <= Zstdz.MAX_INPUT_LEN -> is_error (compress_bound n) = false;
  compress2_ok c target :
    cctx_idle c -> zlen target <= Zstdz.MAX_INPUT_LEN ->
    is_error (compress2 c (compress_bound (zlen target)) target).1 = false
    /\ (compress2 c (compress_bound (zlen target)) target).1 <= compress_bound (zlen target);
  set_max_window_ok d :
    dctx_idle d ->
    is_error (dctx_set_max_window_size d Zstdz.MAX_INPUT_LEN).1 = false
    /\ dctx_idle (dctx_set_max_window_size d Zstdz.MAX_INPUT_LEN).2;
  dctx_ref_prefix_ok d s : dctx_idle d -> is_error (dctx_ref_prefix d s).1 = false;
  size_ok n : 0 <= n <= Zstdz.MAX_INPUT_LEN -> is_error n = false
}.

#[export] Instance zstd_native `{A : Allocator, Native} : Zstd := {|
  append_frame ks := @Codec.append_frame (at_path ks A) _;
  decode_frame ks := @Codec.decode (at_path ks A) _
|}.

(** ** The window *)

Lemma window_log_Ok source target w :
  Zstdz.window_log source target = Ok w <->
  source <= Zstdz.MAX_INPUT_LEN /\ target <= Zstdz.MAX_INPUT_LEN
  /\ w = Z.min 31 (Z.max 10 (Zstdz.bit_length (Z.max source target))).
Proof.
  unfold Zstdz.window_log. destruct (_ || _) eqn:E; zbool.
  - split; [done |]. intros. lia.
  - split; [intros [= <-]; lia |]. intros (? & ? & ->). done.
Qed.

Lemma bit_length_bounds n : 0 <= n -> n < 2 ^ Zstdz.bit_length n /\ (0 < n -> 2 ^ (Zstdz.bit_length n - 1) <= n).
Proof.
  intros Hn. unfold Zstdz.bit_length. destruct (Z.eqb_spec n 0) as [-> | Hne]; [simpl; lia |].
  pose proof (Z.log2_spec n ltac:(lia)). rewrite <- Z.add_1_r in *.
  replace (Z.log2 n + 1 - 1) with (Z.log2 n) by lia. lia.
Qed.

(** ** The native operations keep the contract *)

Section Discharge.
Context `{Allocator, Native}.

Lemma checked_Ok status e n : Codec.checked status e = Ok n <-> is_error status = false /\ n = status.
Proof. unfold Codec.checked. destruct (is_error status); naive_solver. Qed.

Lemma checked_call_Ok {C} (call : Z * C) e c :
  Codec.checked_call call e = Ok c <-> is_error call.1 = false /\ c = call.2.
Proof.
  unfold Codec.checked_call. rewrite rbind_Ok. setoid_rewrite checked_Ok. naive_solver.
Qed.

#[export] Instance native_safe `{!NativeDocumented} : ZstdSafe.
Proof.
  constructor.
  - intros ks source target output output' Ha. cbn [append_frame zstd_native] in Ha.
    unfold Codec.append_frame in Ha. inv_ok. eauto.
  - intros ks source target output output' Ha. cbn [append_frame zstd_native] in Ha.
    unfold Codec.append_frame in Ha. apply rbind_Ok in Ha as (w & (? & ? & _)%window_log_Ok & _). done.
  - intros ks source frame expected output He Hd. cbn [decode_frame zstd_native] in Hd.
    unfold Codec.decode in Hd. inv_ok. match goal with Hw : Codec.checked _ _ = Ok _ |- _ => apply checked_Ok in Hw as [_ ->] end.
    zbool. match goal with |- zlen (ztake ?n (decompress_dctx ?d _ _).2) = _ =>
      assert (n = expected) as -> by done;
      rewrite zlen_ztake; [done | rewrite decompress_capacity by done; lia] end.
Qed.

Lemma set_parameters_prefix `{!NativeDocumented} c settings c' :
  foldM Codec.set_parameter c settings = Ok c' -> cprefix c' = cprefix c.
Proof.
  revert c. induction settings as [| [p v] l IH]; intros c; cbn [foldM].
  - by intros [= ->].
  - intros Hs. apply rbind_Ok in Hs as (c1 & [_ ->]%checked_call_Ok & Hs).
    apply IH in Hs. cbn [fst snd] in Hs. by rewrite Hs, set_parameter_prefix.
Qed.

Lemma set_parameters_total `{!NativeAvailable} c settings :
  cctx_idle c -> (forall p v, (p, v) ∈ settings -> in_bounds p v) ->
  exists c', foldM Codec.set_parameter c settings = Ok c' /\ cctx_idle c'.
Proof.
  revert c. induction settings as [| [p v] l IH]; intros c Hc Hb; cbn [foldM]; [eauto |].
  unfold Codec.set_parameter at 1, Codec.checked_call, Codec.checked. cbn [fst snd].
  destruct (set_parameter_ok c p v Hc (Hb p v ltac:(by left))) as [-> Hi]. cbn [rbind].
  apply IH; [done |]. intros p' v' Hin. apply Hb. by right.
Qed.

(** Both operations, run to the end when every native call succeeds. *)
Lemma append_frame_run `{!NativeDocumented, !NativeAvailable} source target output :
  zlen source <= Zstdz.MAX_INPUT_LEN -> zlen target <= Zstdz.MAX_INPUT_LEN ->
  exists frame, frame_of source target frame /\ forall A : Allocator,
    grants (MkRequest [1] (zlen output) (compress_bound (zlen target))) = true ->
    @Codec.append_frame A _ source target output = Ok (output ++ frame).
Proof.
  intros Hs Ht. destruct cctx_available as [c Hc].
  pose proof (zlen_nonneg source). pose proof (zlen_nonneg target).
  set (p := get_cparams 9 (zlen target) (zlen source)).
  assert (exists k, checked_sub (chain_log p)
    (if btlazy2 constants <=? strategy p then 1 else 0) = Some k) as [k Hk].
  { eexists. apply checked_sub_Some. split; [done |].
    assert (1 <= chain_log p) by apply cparams_chain. destruct (_ <=? _); lia. }
  set (raw_log := Zstdz.bit_length (Z.max (zlen source) (zlen target))).
  set (window := Z.min 31 (Z.max 10 raw_log)).
  destruct (set_parameters_total c (Codec.settings p raw_log k window)) as (c1 & Hc1 & Hi1).
  { by apply cctx_created. }
  { intros q v. apply settings_bounds; lia. }
  pose proof (set_parameters_prefix _ _ _ Hc1) as Hp1. rewrite (create_cctx_fresh c Hc) in Hp1.
  assert (exists c2, (if bool_decide (source = []) then Ok c1
    else Codec.checked_call (cctx_ref_prefix c1 source) Zstdz.CompressionFailed) = Ok c2
    /\ cprefix c2 = source /\ cctx_idle c2) as (c2 & Hc2 & Hp2 & Hi2).
  { case_bool_decide as Hn; [exists c1; by subst |].
    exists (cctx_ref_prefix c1 source).2. destruct (cctx_ref_prefix_ok c1 source Hi1) as [Hr Hi].
    split_and!; [by apply checked_call_Ok | by apply cctx_ref_prefix_set | done]. }
  destruct (compress2_ok c2 target Hi2 Ht) as [He Hw].
  eexists. split; [rewrite <- Hp2; by apply compress2_frame |]. intros A Hg.
  unfold Codec.append_frame. rewrite (proj2 (window_log_Ok (zlen source) (zlen target) window)) by done.
  cbn [rbind]. rewrite Hc. cbn [ok_or rbind]. fold p. rewrite Hk. cbn [ok_or rbind]. fold raw_log.
  rewrite Hc1. cbn [rbind]. rewrite Hc2. cbn [rbind]. unfold Codec.checked.
  rewrite compress_bound_ok by done. cbn [rbind]. rewrite reserve_granted by done. cbn [rbind].
  rewrite He. cbn [rbind]. by rewrite (proj2 (Z.ltb_ge _ _) Hw).
Qed.

Lemma decode_run `{!NativeDocumented, !NativeAvailable} (A : Allocator) source target frame :
  @grants A (MkRequest [0] 0 (zlen target)) = true -> zlen source <= Zstdz.MAX_INPUT_LEN -> zlen target <= Zstdz.MAX_INPUT_LEN ->
  frame_of source target frame -> @Codec.decode A _ source frame (zlen target) = Ok target.
Proof.
  intros Hg Hs Ht Hf. unfold Codec.decode.
  rewrite (proj2 (window_log_Ok (zlen source) (zlen target) _)) by done. cbn [rbind].
  rewrite reserve_granted by done. cbn [rbind].
  destruct dctx_available as [d Hd]. rewrite Hd. cbn [ok_or rbind].
  destruct (set_max_window_ok d (dctx_created d Hd)) as [Hw Hi].
  rewrite (proj2 (checked_call_Ok (dctx_set_max_window_size d _) _ _)) by (split; [exact Hw | done]).
  cbn [rbind].
  assert (exists d2, (if bool_decide (source = []) then Ok (dctx_set_max_window_size d Zstdz.MAX_INPUT_LEN).2
    else Codec.checked_call (dctx_ref_prefix (dctx_set_max_window_size d Zstdz.MAX_INPUT_LEN).2 source)
      Zstdz.DecompressionFailed) = Ok d2 /\ dprefix d2 = source) as (d2 & -> & Hd2).
  { case_bool_decide as Hn.
    - eexists. split; [done |]. rewrite set_max_window_prefix, create_dctx_fresh by done. by subst.
    - eexists. split; [by apply checked_call_Ok; split; [by apply dctx_ref_prefix_ok |] |].
      by apply dctx_ref_prefix_set, dctx_ref_prefix_ok. }
  cbn [rbind]. rewrite <- Hd2 in Hf. rewrite (decompress_frame d2 frame target Hf Ht). cbn [fst snd].
  unfold Codec.checked. rewrite size_ok by (split; [apply zlen_nonneg | done]). cbn [rbind].
  rewrite Z.eqb_refl. cbn [negb fail_if rbind]. by rewrite ztake_all by lia.
Qed.

#[export] Instance native_round_trip `{!NativeDocumented, !NativeAvailable, !AllocatorTotal} :
  ZstdRoundTrip.
Proof.
  constructor. intros source target output Hs Ht. cbn [append_frame decode_frame zstd_native].
  destruct (append_frame_run source target output Hs Ht) as (frame & Hf & Ha).
  exists frame. split; intros ks.
  - apply Ha, grants_all.
  - by apply decode_run; [apply grants_all | ..].
Qed.
End Discharge.

(** ** A native library for evaluations

    It stores: a frame is its target, whatever the prefix. *)

Definition store_native : Native := {|
  CCtx := bytes; DCtx := bytes;
  constants := MkCParameters 100 400 160 101 103 102 104 105 106 107 6;
  is_error status := status <? 0;
  create_cctx := Some [];
  get_cparams _ _ _ := MkCParams 16 17 5 5 8 6;
  cctx_set_parameter c p v := (if (p =? 101) && ((v <? 10) || (31 <? v)) then -42 else 0, c);
  cctx_ref_prefix _ s := (0, s);
  compress_bound n := n + 512;
  compress2 _ bound target := if zlen target <=? bound then (zlen target, target) else (-70, []);
  create_dctx := Some [];
  dctx_set_max_window_size d _ := (0, d);
  dctx_ref_prefix _ s := (0, s);
  decompress_dctx _ capacity frame :=
    (if zlen frame <=? capacity then zlen frame else -1,
     ztake capacity (frame ++ zeros (Z.to_nat capacity)))
|}.

#[export] Instance store_documented : @NativeDocumented store_native.
Proof.
  unshelve econstructor.
  - exact (fun _ target frame => frame = target).
  - exact id.
  - exact id.
  - by intros c [= <-].
  - done.
  - done.
  - intros c bound target. simpl. destruct (_ <=? _); [| done]. intros _. simpl.
    split; [zlens |]. by apply ztake_all.
  - by intros d [= <-].
  - done.
  - done.
  - intros d capacity frame Hc. simpl. apply zlen_ztake. rewrite zlen_app, zlen_zeros. zlens.
  - intros d frame target Hf _. simpl in Hf. subst frame. simpl. rewrite Z.leb_refl.
    by rewrite ztake_app_exact.
Defined.

(** It refuses a window log outside its bounds, as zstd does. *)
#[export] Instance store_available : @NativeAvailable store_native.
Proof.
  unshelve econstructor.
  - exact (fun p v => p = 101 -> 10 <= v <= 31).
  - exact (fun _ => True).
  - exact (fun _ => True).
  - by eexists.
  - by eexists.
  - done.
  - done.
  - done.
  - intros t s raw_log cycle_log window p v _ _ Hw. unfold Codec.settings. rewrite !elem_of_cons. simpl.
    intros Hin Hp. destruct_or? Hin; try (injection Hin as -> ->; lia). by apply not_elem_of_nil in Hin.
  - intros c p v _ Hb. split; [| done]. simpl. destruct (Z.eqb_spec p 101) as [Hp |]; [| done].
    specialize (Hb Hp). rewrite (proj2 (Z.ltb_ge v 10)), (proj2 (Z.ltb_ge 31 v)) by lia. done.
  - done.
  - intros n [Hn _]. change ((n + 512 <? 0) = false). apply Z.ltb_ge. lia.
  - intros c target _ Ht. simpl. rewrite (proj2 (Z.leb_le _ _)) by lia. simpl.
    split; [apply Z.ltb_ge; zlens | lia].
  - done.
  - done.
  - intros n [Hn _]. change ((n <? 0) = false). by apply Z.ltb_ge.
Defined.

(** ** The properties of the boundary *)

(** The window is refused exactly when an input is over the limit;
    otherwise it covers the longer input, lies between 10 and 31 bits, and is
    the smallest such window. *)
Lemma window_log_covers source target :
  0 <= source -> 0 <= target ->
  match Zstdz.window_log source target with
  | Ok w =>
      10 <= w <= 31 /\ Z.max source target <= 2 ^ w
      /\ (10 < w -> 2 ^ (w - 1) <= Z.max source target)
      /\ source <= Zstdz.MAX_INPUT_LEN /\ target <= Zstdz.MAX_INPUT_LEN
  | Err e => e = Zstdz.WindowTooLarge
      /\ (Zstdz.MAX_INPUT_LEN < source \/ Zstdz.MAX_INPUT_LEN < target)
  end.
Proof.
  intros Hs Ht. destruct (Zstdz.window_log source target) as [w | e] eqn:E.
  - apply window_log_Ok in E as (Hls & Hlt & ->).
    set (n := Z.max source target). change Zstdz.MAX_INPUT_LEN with (2 ^ 31) in *.
    destruct (bit_length_bounds n ltac:(lia)) as [Hu Hl].
    set (b := Zstdz.bit_length n) in *.
    split_and!; try lia.
    + destruct (Z.le_gt_cases b 31).
      * replace (Z.min 31 (Z.max 10 b)) with (Z.max 10 b) by lia.
        etrans; [apply Z.lt_le_incl, Hu | apply Z.pow_le_mono_r; lia].
      * replace (Z.min 31 (Z.max 10 b)) with 31 by lia. lia.
    + intros Hw. assert (0 < n) as Hn.
      { destruct (Z.eq_dec n 0) as [E |]; [| lia]. unfold b in Hw. rewrite E in Hw. by vm_compute in Hw. }
      etrans; [| apply Hl, Hn]. apply Z.pow_le_mono_r; lia.
  - unfold Zstdz.window_log in E. destruct (_ || _) eqn:Eb; [| done]. injection E as <-.
    zbool. split; [done | lia].
Qed.

Lemma window_log_covers_witness :
  10 <= 17 <= 31 /\ Z.max 100000 3 <= 2 ^ 17
  /\ (10 < 17 -> 2 ^ (17 - 1) <= Z.max 100000 3)
  /\ 100000 <= Zstdz.MAX_INPUT_LEN /\ 3 <= Zstdz.MAX_INPUT_LEN.
Proof. exact (window_log_covers 100000 3 ltac:(lia) ltac:(lia)). Defined.

(** Over a native library that behaves as documented and does not run out
    of memory, a frame appended for inputs within the limit leaves the bytes
    already in the buffer, and decoding it with the same prefix and the target's
    length gives the target. *)
Lemma codec_round_trip `{AllocatorTotal, !Native, !NativeDocumented, !NativeAvailable}
    source target output :
  zlen source <= Zstdz.MAX_INPUT_LEN -> zlen target <= Zstdz.MAX_INPUT_LEN ->
  exists frame, Codec.append_frame source target output = Ok (output ++ frame)
    /\ Codec.decode source frame (zlen target) = Ok target.
Proof.
  intros Hs Ht. destruct (append_frame_run source target output Hs Ht) as (frame & Hf & Ha).
  exists frame. split; [apply Ha, grants_all | by apply decode_run; [apply grants_all | ..]].
Qed.

Lemma codec_round_trip_witness :
  exists frame,
    @Codec.append_frame plentiful store_native (lit "old") (lit "new") (lit "head")
      = Ok (lit "head" ++ frame)
    /\ @Codec.decode plentiful store_native (lit "old") frame 3 = Ok (lit "new").
Proof.
  exact (@codec_round_trip plentiful plentiful_total store_native store_documented store_available
    (lit "old") (lit "new") (lit "head") ltac:(vm_compute; discriminate)
    ltac:(vm_compute; discriminate)).
Defined.

