(* ===== verification/Memory.v ===== *)
(** * Memory shared with the native codec

    The blocks and contexts that raw pointers reach, and the operations on them:
    a use the language or the native library leaves undefined (a dead, null or
    foreign pointer, a read of bytes never written, an access past the end, a
    second free) has no result. The relation [sim] compares such a computation
    with the pure one it refines. *)

From S2P Require Export Zstdz.
From stdpp Require Export gmap.
#[global] Open Scope Z_scope.

Record pointer : Type := MkPointer { base : Z; displacement : Z }.
Definition null : pointer := MkPointer 0 0.

#[export] Instance pointer_eq_dec : EqDecision pointer.
Proof. solve_decision. Defined.

(** [&[u8]]: where it starts and how long it is. *)
Record slice : Type := MkSlice { s_ptr : pointer; s_len : Z }.

(** [Vec<u8>]; without capacity it owns no block and its pointer dangles. *)
Record Vec : Type := MkVec { v_ptr : Z; v_len : Z; v_cap : Z }.
Definition Vec_new : Vec := MkVec 1 0 0.

(** What lives at an address: a block, whose bytes are [None] until written, or
    a context of the native library, with the prefix it was last lent. *)
Inductive cell `{Native} : Type :=
| Block (content : list (option byte))
| Compressing (context : CCtx) (prefix : option (slice * bytes))
| Decompressing (context : DCtx) (prefix : option (slice * bytes)).

Arguments Block {_} content.
Arguments Compressing {_} context prefix.
Arguments Decompressing {_} context prefix.

#[global] Abbreviation heap := (gmap Z cell) (only parsing).

(** Where the system places the next allocation. *)
Class Placement `{Native} := {
  place : heap -> Z;
  place_nonzero h : place h <> 0;
  place_fresh h : h !! place h = None
}.

(** The state of an operation: memory, and the vector it writes to. *)
Record State `{Native} : Type := MkState { memory : heap; vector : Vec }.
Arguments MkState {_} memory vector.

(** ** Computations

    [None] is undefined behaviour; an error is a value. *)

Section Monad.
Context `{Native} {E : Type}.

Definition M (A : Type) : Type := State -> option (State * result E A).

Definition mret {A} (a : A) : M A := fun σ => Some (σ, Ok a).
Definition mfail {A} (e : E) : M A := fun σ => Some (σ, Err e).
Definition undefined {A} : M A := fun _ => None.

(** [?] on the effect *)
Definition mbind {A B} (m : M A) (k : A -> M B) : M B := fun σ =>
  match m σ with
  | Some (σ, Ok a) => k a σ
  | Some (σ, Err e) => Some (σ, Err e)
  | None => None
  end.

Definition lift {A} (r : result E A) : M A := fun σ => Some (σ, r).

(** A value with a destructor: it runs when the scope is left, by an error too. *)
Definition scoped {A} (drop : M unit) (m : M A) : M A := fun σ =>
  match m σ with
  | Some (σ, r) =>
      match drop σ with
      | Some (σ, Ok _) => Some (σ, r)
      | _ => None
      end
  | None => None
  end.
End Monad.

Notation "'let!' x ':=' m 'in' k" := (mbind m (fun x => k))
  (at level 10, x pattern, m at level 100, k at level 200,
   format "'[v' 'let!'  x  ':='  m  'in' '/' k ']'") : difz_scope.

Section ForEach.
Context `{Native} {E A : Type}.
#[local] Abbreviation M := (@M _ E).

Fixpoint for_each (f : A -> M unit) (l : list A) : M unit :=
  match l with
  | [] => mret tt
  | x :: l => let! _ := f x in for_each f l
  end.
End ForEach.

(** ** Blocks *)

Section Blocks.
Context `{Allocator, Placement} {E : Type}.
#[local] Abbreviation M := (@M _ E).

Definition update (a : Z) (c : cell) : M unit := fun σ =>
  Some (MkState (<[a := c]> (memory σ)) (vector σ), Ok tt).
Definition remove (a : Z) : M unit := fun σ =>
  Some (MkState (delete a (memory σ)) (vector σ), Ok tt).
Definition set_vector (v : Vec) : M unit := fun σ => Some (MkState (memory σ) v, Ok tt).
Definition get_vector : M Vec := fun σ => Some (σ, Ok (vector σ)).

Definition allocate (c : cell) : M Z := fun σ =>
  let a := place (memory σ) in Some (MkState (<[a := c]> (memory σ)) (vector σ), Ok a).

(** Reading [n] initialised bytes; of none, whatever the pointer. *)
Definition read (h : heap) (p : pointer) (n : Z) : option bytes :=
  if n =? 0 then Some [] else
  match h !! base p with
  | Some (Block content) =>
      let part := ztake n (zdrop (displacement p) content) in
      if (0 <=? displacement p) && (zlen part =? n) then mapM id part else None
  | _ => None
  end.

Definition load (p : pointer) (n : Z) : M bytes := fun σ =>
  match read (memory σ) p n with
  | Some s => Some (σ, Ok s)
  | None => None
  end.

(** Writing [s] into the [capacity] bytes at [p]. *)
Definition store (p : pointer) (capacity : Z) (s : bytes) : M unit := fun σ =>
  if bool_decide (s = []) then Some (σ, Ok tt) else
  match memory σ !! base p with
  | Some (Block content) =>
      if (0 <=? displacement p) && (displacement p + capacity <=? zlen content) && (zlen s <=? capacity) then
        update (base p) (Block (ztake (displacement p) content ++ (Some <$> s)
          ++ zdrop (displacement p + zlen s) content)) σ
      else None
  | _ => None
  end.

(** [output.try_reserve_exact(n).map_err(|_| e)?] *)
Definition try_reserve_exact (e : E) (statement n : Z) : M unit :=
  let! v := get_vector in
  if n <=? v_cap v - v_len v then mret tt else
  let! _ := lift (reserve e statement (v_len v) n) in
  let grown content := Block (content ++ replicate (Z.to_nat (v_len v + n - v_cap v)) None) in
  let! a :=
    if v_cap v =? 0 then allocate (grown []) else fun σ =>
    match memory σ !! v_ptr v with
    | Some (Block content) => (let! _ := remove (v_ptr v) in allocate (grown content)) σ
    | _ => None
    end in
  set_vector (MkVec a (v_len v) (v_len v + n)).

(** [output.as_mut_ptr()] *)
Definition as_mut_ptr : M pointer := let! v := get_vector in mret (MkPointer (v_ptr v) 0).

(** [output.set_len(n)]: of initialised bytes within the capacity. *)
Definition set_len (n : Z) : M unit := fun σ =>
  let v := vector σ in
  if (0 <=? n) && (n <=? v_cap v) && bool_decide (is_Some (read (memory σ) (MkPointer (v_ptr v) 0) n)) then
    set_vector (MkVec (v_ptr v) n (v_cap v)) σ
  else None.

(** [output.extend_from_slice(s)] within the capacity. *)
Definition extend_from_slice (s : bytes) : M unit :=
  let! v := get_vector in
  let! _ := store (MkPointer (v_ptr v) (v_len v)) (zlen s) s in
  set_len (v_len v + zlen s).

(** [drop(output)] *)
Definition drop_vec : M unit := fun σ =>
  let v := vector σ in
  if v_cap v =? 0 then Some (σ, Ok tt) else
  match memory σ !! v_ptr v with
  | Some (Block content) => if zlen content =? v_cap v then remove (v_ptr v) σ else None
  | _ => None
  end.

(** A function with a local vector: its caller gets the vector with the result,
    and on an error the vector is dropped last. *)
Definition returning (body : M unit) (h : heap) : option (heap * result E Vec) :=
  match body (MkState h Vec_new) with
  | Some (σ, Ok _) => Some (memory σ, Ok (vector σ))
  | Some (σ, Err e) =>
      match drop_vec σ with
      | Some (σ, _) => Some (memory σ, Err e)
      | None => None
      end
  | None => None
  end.
End Blocks.

(** ** Simulation

    From a state, the computation is defined and gives what the pure one gives:
    the two values and the state are related by [Q], or the error is the same
    and the state satisfies [E]. *)

Section Simulation.
Context `{Native} {X : Type}.
#[local] Abbreviation M := (@M _ X).

Definition sim {A B} (m : M A) (p : result X B) (σ : State)
    (Q : A -> B -> State -> Prop) (E : State -> Prop) : Prop :=
  exists σ' r, m σ = Some (σ', r) /\
    match r, p with
    | Ok a, Ok b => Q a b σ'
    | Err e, Err e' => e = e' /\ E σ'
    | _, _ => False
    end.

Lemma sim_ret {A B} (a : A) (b : B) σ (Q : A -> B -> State -> Prop) E :
  Q a b σ -> sim (mret a) (Ok b) σ Q E.
Proof. intros HQ. by exists σ, (Ok a). Qed.

Lemma sim_fail {A B} e σ (Q : A -> B -> State -> Prop) (E : State -> Prop) :
  E σ -> sim (mfail e) (Err e) σ Q E.
Proof. intros HE. by exists σ, (Err e). Qed.

Lemma sim_lift {A} (r : result X A) σ (Q : A -> A -> State -> Prop) (E : State -> Prop) :
  (forall a, r = Ok a -> Q a a σ) -> E σ -> sim (lift r) r σ Q E.
Proof. intros HQ HE. exists σ, r. destruct r; [by auto | done]. Qed.

Lemma sim_bind {A B C D} (m : M A) (p : result X B) (k : A -> M C) (q : B -> result X D)
    σ (Q : A -> B -> State -> Prop) (Q' : C -> D -> State -> Prop) E :
  sim m p σ Q E -> (forall a b σ', Q a b σ' -> sim (k a) (q b) σ' Q' E) ->
  sim (mbind m k) (rbind p q) σ Q' E.
Proof.
  intros (σ1 & r & Hm & Hr) Hk. unfold sim, mbind. rewrite Hm.
  destruct r as [a | e], p as [b | e']; try done; [by apply Hk |].
  destruct Hr as [<- HE]. by exists σ1, (Err e).
Qed.

(** A step that the pure computation does not have. *)
Lemma sim_silent {A C D} (m : M A) (k : A -> M C) (q : result X D) σ σ' a
    (Q : C -> D -> State -> Prop) E :
  m σ = Some (σ', Ok a) -> sim (k a) q σ' Q E -> sim (mbind m k) q σ Q E.
Proof. intros Hm. unfold sim, mbind. by rewrite Hm. Qed.

Lemma sim_ext {A B} (m m' : M A) (p : result X B) σ (Q : A -> B -> State -> Prop) E :
  m σ = m' σ -> sim m' p σ Q E -> sim m p σ Q E.
Proof. intros Hm. unfold sim. by rewrite Hm. Qed.

Lemma sim_mono {A B} (m : M A) (p : result X B) σ (Q Q' : A -> B -> State -> Prop) (E E' : State -> Prop) :
  sim m p σ Q E -> (forall a b σ', Q a b σ' -> Q' a b σ') -> (forall σ', E σ' -> E' σ') -> sim m p σ Q' E'.
Proof.
  intros (σ1 & r & Hm & Hr) HQ HE. exists σ1, r. split; [done |].
  destruct r as [a | e], p as [b | e']; try done; [by apply HQ |]. destruct Hr as [-> Hr]. auto.
Qed.

(** On every way out of the scope the destructor is defined. *)
Lemma sim_scoped {A B} (drop : M unit) (m : M A) (p : result X B) σ
    (Q Q' : A -> B -> State -> Prop) (E E' : State -> Prop) :
  sim m p σ Q E ->
  (forall a b σ', Q a b σ' -> exists σ'', drop σ' = Some (σ'', Ok tt) /\ Q' a b σ'') ->
  (forall σ', E σ' -> exists σ'', drop σ' = Some (σ'', Ok tt) /\ E' σ'') ->
  sim (scoped drop m) p σ Q' E'.
Proof.
  intros (σ1 & r & Hm & Hr) HQ HE. unfold sim, scoped. rewrite Hm.
  destruct r as [a | e], p as [b | e']; try done.
  - destruct (HQ _ _ _ Hr) as (σ2 & -> & ?). by exists σ2, (Ok a).
  - destruct Hr as [<- Hr]. destruct (HE _ Hr) as (σ2 & -> & ?). by exists σ2, (Err e).
Qed.
End Simulation.

(** ** Ownership

    [held F bs w]: memory is the blocks and contexts [F] and, apart from them,
    the vector's own block, which holds the vector's bytes [bs], the bytes [w]
    written after them, and spare room. *)

Section Ownership.
Context `{Allocator, Placement} {X : Type}.

Definition owns (v : Vec) (bs w : bytes) (own : heap) : Prop :=
  v_len v = zlen bs /\
  if v_cap v =? 0 then own = ∅ /\ bs = [] /\ w = [] else
  exists spare, own = {[v_ptr v := Block ((Some <$> bs ++ w) ++ spare)]}
    /\ zlen ((Some <$> bs ++ w) ++ spare) = v_cap v.

Definition held (F : heap) (bs w : bytes) (σ : State) : Prop :=
  exists own, owns (vector σ) bs w own /\ own ##ₘ F /\ memory σ = own ∪ F.

(** The slice shows [bs] and keeps doing so while [F] is part of memory. *)
Definition borrows (F : heap) (s : slice) (bs : bytes) : Prop :=
  s_len s = zlen bs /\ read F (s_ptr s) (s_len s) = Some bs.

(** The same, of this vector. *)
Definition held_in (v : Vec) (F : heap) (bs w : bytes) (σ : State) : Prop :=
  held F bs w σ /\ vector σ = v.

(** The allocator as a vector sees it: what fits its spare room is granted
    without asking. *)
Definition with_spare (spare : Z) : Allocator := {| grants r := (wanted r <=? spare) || grants r |}.

Lemma zlen_some (s : bytes) : zlen (Some <$> s) = zlen s.
Proof. unfold zlen. by rewrite length_fmap. Qed.

Lemma mapM_some (s : bytes) : mapM id (Some <$> s) = Some s.
Proof. induction s as [| b s IH]; [done |]. cbn. by rewrite IH. Qed.

Lemma read_mono (F h : heap) p n bs : F ⊆ h -> read F p n = Some bs -> read h p n = Some bs.
Proof.
  intros Hs. unfold read. destruct (n =? 0); [done |].
  destruct (F !! base p) as [c |] eqn:Hl; [| done]. by rewrite (lookup_weaken _ _ _ _ Hl Hs).
Qed.

Lemma borrows_mono (F h : heap) s bs : F ⊆ h -> borrows F s bs -> borrows h s bs.
Proof. intros Hs [Hl Hr]. split; [done | by eapply read_mono]. Qed.

Lemma held_part F bs w σ : held F bs w σ -> F ⊆ memory σ.
Proof. intros (own & _ & Hd & ->). by apply map_union_subseteq_r. Qed.

Lemma held_lookup F bs w σ a c : held F bs w σ -> F !! a = Some c -> memory σ !! a = Some c.
Proof. intros Hh%held_part Ha. by eapply lookup_weaken. Qed.

Lemma held_new F : held F [] [] (MkState F Vec_new).
Proof. exists ∅. split_and!; [done | apply map_disjoint_empty_l | by rewrite map_empty_union]. Qed.

Lemma held_forget F bs w σ : held F bs w σ -> held F bs [] σ.
Proof.
  intros (own & [Hl Ho] & Hd & Hm). exists own. split_and!; [split; [done |] | done | done].
  destruct (v_cap (vector σ) =? 0); [by destruct Ho as (-> & -> & _) |]. destruct Ho as (spare & -> & Hc).
  exists ((Some <$> w) ++ spare). rewrite fmap_app, <- app_assoc in *. by rewrite app_nil_r.
Qed.

Lemma held_len F bs w σ : held F bs w σ -> v_len (vector σ) = zlen bs.
Proof. by intros (own & [? _] & _). Qed.

Lemma held_spare F bs w σ : held F bs w σ -> 0 <= v_cap (vector σ) - v_len (vector σ).
Proof.
  intros (own & [Hl Ho] & _). rewrite Hl. destruct (Z.eqb_spec (v_cap (vector σ)) 0) as [-> |].
  - destruct Ho as (_ & -> & _). done.
  - destruct Ho as (spare & _ & Hc). rewrite zlen_app, zlen_some, zlen_app in Hc.
    pose proof (zlen_nonneg w). pose proof (zlen_nonneg spare). lia.
Qed.

(** *** The rest of memory *)

Lemma held_load F bs w σ s sb :
  held F bs w σ -> borrows F s sb -> load (E := X) (s_ptr s) (s_len s) σ = Some (σ, Ok sb).
Proof. intros Hh%held_part [_ Hr]. unfold load. by rewrite (read_mono _ _ _ _ _ Hh Hr). Qed.

Lemma held_update F bs w σ a c c' :
  held F bs w σ -> F !! a = Some c ->
  exists σ', update (E := X) a c' σ = Some (σ', Ok tt) /\ held (<[a := c']> F) bs w σ' /\ vector σ' = vector σ.
Proof.
  intros (own & Ho & Hd & Hm) Ha. eexists. split_and!; [reflexivity | | done].
  exists own. assert (own !! a = None) as Hn by by eapply map_disjoint_Some_r.
  split_and!; [done | by apply map_disjoint_insert_r | cbn; rewrite Hm; by apply insert_union_r].
Qed.

Lemma held_allocate F bs w σ c :
  held F bs w σ ->
  exists a σ', allocate (E := X) c σ = Some (σ', Ok a) /\ a <> 0 /\ F !! a = None
    /\ held (<[a := c]> F) bs w σ' /\ vector σ' = vector σ.
Proof.
  intros (own & Ho & Hd & Hm). eexists _, _. split_and!; [reflexivity | apply place_nonzero | | | done].
  all: pose proof (place_fresh (memory σ)) as Hf; set (a := place (memory σ)) in *; clearbody a.
  all: rewrite Hm in Hf; apply lookup_union_None in Hf as [Hn Hf].
  - done.
  - exists own. split_and!; [done | by apply map_disjoint_insert_r | cbn; rewrite Hm; by apply insert_union_r].
Qed.

Lemma held_remove F bs w σ a c :
  held (<[a := c]> F) bs w σ -> F !! a = None -> exists σ', remove (E := X) a σ = Some (σ', Ok tt) /\ held F bs w σ'.
Proof.
  intros (own & Ho & Hd & Hm) Ha. eexists. split; [reflexivity |].
  apply map_disjoint_insert_r in Hd as [Hn Hd]. exists own. split_and!; [done | done |].
  cbn. rewrite Hm, delete_union, delete_insert_id, delete_id by done. done.
Qed.

(** *** The vector *)

(** A block for the vector, where the rest of memory is all there is. *)
Lemma held_block σ bs spare cap :
  zlen ((Some <$> bs) ++ spare) = cap -> 0 < cap ->
  exists a σ', allocate (E := X) (Block ((Some <$> bs) ++ spare)) σ = Some (σ', Ok a)
    /\ held (memory σ) bs [] (MkState (memory σ') (MkVec a (zlen bs) cap)).
Proof.
  intros Hc Hp. eexists _, _. split; [reflexivity |].
  pose proof (place_fresh (memory σ)) as Hf. set (a := place (memory σ)) in *. clearbody a.
  exists {[a := Block ((Some <$> bs) ++ spare)]}. split_and!.
  - split; [done |]. cbn [vector v_cap v_ptr]. rewrite (proj2 (Z.eqb_neq cap 0)) by lia. exists spare. by rewrite app_nil_r.
  - by apply map_disjoint_singleton_l.
  - apply insert_union_singleton_l.
Qed.

Lemma held_reserve (e : X) F bs w σ k n :
  held F bs w σ ->
  sim (try_reserve_exact e k n)
    (@reserve (with_spare (v_cap (vector σ) - v_len (vector σ))) _ e k (zlen bs) n) σ
    (fun _ _ σ' => held F bs [] σ' /\ v_cap (vector σ') = Z.max (v_cap (vector σ)) (zlen bs + n)) (held F bs []).
Proof.
  intros Hh. pose proof (held_spare _ _ _ _ Hh) as Hs. apply held_forget in Hh.
  pose proof Hh as (own & [Hl Ho] & Hd & Hm).
  unfold try_reserve_exact, reserve at 2. cbn [grants with_spare wanted]. rewrite <- Hl.
  eapply sim_silent; [reflexivity |]. destruct (Z.leb_spec n (v_cap (vector σ) - v_len (vector σ))) as [| Hn].
  { apply sim_ret. split; [done | lia]. }
  cbn [orb]. unfold reserve. destruct (grants _); [| by exists σ, (Err e)].
  eapply sim_silent; [reflexivity |]. cbv zeta.
  set (room := replicate (Z.to_nat (v_len (vector σ) + n - v_cap (vector σ))) None).
  assert (zlen room = v_len (vector σ) + n - v_cap (vector σ)) as Hr
    by (unfold zlen, room; rewrite length_replicate; lia).
  destruct (v_cap (vector σ) =? 0) eqn:Hz.
  - destruct Ho as (-> & -> & _). rewrite map_empty_union in Hm. zbool.
    destruct (held_block σ [] room (v_len (vector σ) + n)) as (a & σ1 & Ha & Hb); [cbn; lia | lia |].
    eapply sim_silent; [exact Ha |]. eexists _, (Ok tt). split; [reflexivity |].
    rewrite Hl, <- Hm in *. split; [exact Hb | cbn; lia].
  - destruct Ho as (spare & -> & Hc). rewrite app_nil_r in *. zbool.
    set (σ0 := MkState F (vector σ)).
    destruct (held_block σ0 bs (spare ++ room) (v_len (vector σ) + n)) as (a & σ1 & Ha & Hb).
    { rewrite app_assoc, zlen_app, Hc. lia. } { pose proof (zlen_nonneg bs). lia. }
    eapply sim_silent.
    { rewrite Hm, lookup_union_l by (by eapply map_disjoint_Some_l; [exact Hd | apply lookup_singleton_eq]).
      rewrite lookup_singleton_eq. unfold mbind, remove. rewrite Hm, delete_union, delete_singleton_eq, map_empty_union.
      rewrite delete_id by (by eapply map_disjoint_Some_l; [exact Hd | apply lookup_singleton_eq]).
      rewrite <- app_assoc. exact Ha. }
    eexists _, (Ok tt). split; [reflexivity |]. rewrite Hl in *. split; [exact Hb | cbn; lia].
Qed.

Lemma held_capacity F bs w σ :
  held F bs w σ -> v_cap (vector σ) <> 0 ->
  exists spare, memory σ !! v_ptr (vector σ) = Some (Block ((Some <$> bs ++ w) ++ spare))
    /\ zlen ((Some <$> bs ++ w) ++ spare) = v_cap (vector σ) /\ F !! v_ptr (vector σ) = None
    /\ forall content, <[v_ptr (vector σ) := content]> (memory σ) = {[v_ptr (vector σ) := content]} ∪ F.
Proof.
  intros (own & [Hl Ho] & Hd & Hm) Hz. rewrite (proj2 (Z.eqb_neq _ _) Hz) in Ho.
  destruct Ho as (spare & -> & Hc). exists spare. apply map_disjoint_singleton_l in Hd.
  split_and!; [| done | done |]; intros; rewrite Hm.
  - by rewrite lookup_union_l, lookup_singleton_eq.
  - by rewrite insert_union_l, insert_singleton_eq.
Qed.

(** The native code writes into the spare capacity. *)
Lemma held_store F bs σ n s :
  held F bs [] σ -> zlen s <= n -> zlen bs + n <= v_cap (vector σ) ->
  exists σ', store (E := X) (MkPointer (v_ptr (vector σ)) (zlen bs)) n s σ = Some (σ', Ok tt)
    /\ held F bs s σ' /\ vector σ' = vector σ.
Proof.
  intros Hh Hn Hc. unfold store. case_bool_decide as Hs; [subst; by exists σ |].
  assert (0 < zlen s) as Hp by (destruct s; [done | rewrite zlen_cons; pose proof (zlen_nonneg s); lia]).
  pose proof (zlen_nonneg bs). pose proof Hh as (own & [Hl _] & Hd & _).
  destruct (held_capacity _ _ _ _ Hh) as (spare & Ha & Hz & Hf & Hi); [lia |].
  cbn [base displacement]. rewrite Ha, app_nil_r in *.
  rewrite Hz, (proj2 (Z.leb_le 0 _)), (proj2 (Z.leb_le _ (v_cap (vector σ)))), (proj2 (Z.leb_le (zlen s) n)) by lia.
  cbn [andb]. eexists. split_and!; [reflexivity | | done].
  exists {[v_ptr (vector σ) := Block ((Some <$> bs ++ s) ++ zdrop (zlen s) spare)]}.
  rewrite zlen_app, zlen_some in Hz. split_and!.
  - split; [done |]. cbn [vector]. rewrite (proj2 (Z.eqb_neq _ _)) by lia. eexists. split; [reflexivity |].
    rewrite zlen_app, zlen_some, zlen_app, zlen_zdrop by lia. lia.
  - by apply map_disjoint_singleton_l.
  - cbn [memory]. rewrite Hi. do 3 f_equal. rewrite ztake_app_exact by by rewrite zlen_some.
    rewrite fmap_app, <- app_assoc. do 2 f_equal. unfold zdrop.
    rewrite Z2Nat.inj_add, <- drop_drop by lia. f_equal.
    apply (zdrop_app_exact (Some <$> bs) spare). by rewrite zlen_some.
Qed.

(** Its bytes, and those written after them, can be read. *)
Lemma held_read F bs w σ n :
  held F bs w σ -> 0 <= n <= zlen w ->
  read (memory σ) (MkPointer (v_ptr (vector σ)) 0) (zlen bs + n) = Some (bs ++ ztake n w).
Proof.
  intros Hh Hn. unfold read. destruct (Z.eqb_spec (zlen bs + n) 0) as [Hz | Hz].
  { pose proof (zlen_nonneg bs). rewrite (zlen_0_nil bs) by lia. by replace n with 0 by lia. }
  destruct (Z.eq_dec (v_cap (vector σ)) 0) as [Hc | Hc].
  { pose proof Hh as (own & [_ Ho] & _). rewrite Hc in Ho. destruct Ho as (_ & -> & ->).
    change (zlen (@nil byte)) with 0 in *. lia. }
  destruct (held_capacity _ _ _ _ Hh) as (spare & Ha & _ & _ & _); [done |]. cbn [base displacement].
  rewrite Ha. cbn [Z.leb]. rewrite zdrop_0.
  assert (ztake (zlen bs + n) ((Some <$> bs ++ w) ++ spare) = Some <$> bs ++ ztake n w) as ->.
  { transitivity (ztake (zlen bs + n) ((Some <$> bs ++ ztake n w) ++ (Some <$> zdrop n w) ++ spare)).
    - by rewrite (app_assoc (Some <$> bs ++ ztake n w)), <- fmap_app, <- app_assoc, ztake_zdrop.
    - apply ztake_app_exact. by rewrite zlen_some, zlen_app, zlen_ztake. }
  by rewrite zlen_some, zlen_app, zlen_ztake, Z.eqb_refl, mapM_some.
Qed.

Lemma held_set_len F bs w σ n :
  held F bs w σ -> 0 <= n <= zlen w ->
  exists σ', set_len (E := X) (zlen bs + n) σ = Some (σ', Ok tt) /\ held F (bs ++ ztake n w) [] σ'.
Proof.
  intros Hh Hn. pose proof (zlen_nonneg bs). unfold set_len. rewrite (held_read F bs w σ n Hh Hn).
  pose proof Hh as (own & [Hl Ho] & Hd & Hm).
  assert (zlen bs + n <= v_cap (vector σ)) as Hc.
  { destruct (Z.eqb_spec (v_cap (vector σ)) 0) as [Hz |].
    - destruct Ho as (_ & -> & ->). change (zlen (@nil byte)) with 0 in *. lia.
    - destruct Ho as (spare & _ & Hc). rewrite zlen_app, zlen_some, zlen_app in Hc. pose proof (zlen_nonneg spare). lia. }
  rewrite (proj2 (Z.leb_le 0 _)), (proj2 (Z.leb_le _ (v_cap (vector σ)))), bool_decide_eq_true_2 by (eauto || lia).
  eexists. split; [reflexivity |]. exists own. split_and!; [| done | done].
  split; [cbn; by rewrite zlen_app, zlen_ztake |]. cbn [vector v_cap v_ptr]. destruct (_ =? 0).
  - destruct Ho as (-> & -> & ->). split_and!; [done | | done]. by rewrite ztake_all by (change (zlen (@nil byte)) with 0 in *; lia).
  - destruct Ho as (spare & -> & Hs). exists ((Some <$> zdrop n w) ++ spare). rewrite app_nil_r, <- Hs.
    by rewrite app_assoc, <- fmap_app, <- app_assoc, ztake_zdrop.
Qed.

Lemma held_drop F bs w σ :
  held F bs w σ -> exists σ', drop_vec (E := X) σ = Some (σ', Ok tt) /\ memory σ' = F.
Proof.
  intros Hh. unfold drop_vec. destruct (Z.eqb_spec (v_cap (vector σ)) 0) as [Hz | Hz].
  - destruct Hh as (own & [_ Ho] & _ & Hm). rewrite Hz in Ho. destruct Ho as (-> & _).
    exists σ. rewrite Hm, map_empty_union. done.
  - destruct (held_capacity _ _ _ _ Hh) as (spare & Ha & Hc & Hf & _); [done |].
    rewrite Ha, Hc, Z.eqb_refl. eexists. split; [reflexivity |].
    destruct Hh as (own & [_ Ho] & _ & Hm). rewrite (proj2 (Z.eqb_neq _ _) Hz) in Ho. destruct Ho as (sp & -> & _).
    cbn. by rewrite Hm, delete_union, delete_singleton_eq, map_empty_union, delete_id.
Qed.

Lemma held_extend F bs σ s :
  held F bs [] σ -> zlen bs + zlen s <= v_cap (vector σ) ->
  exists σ', extend_from_slice (E := X) s σ = Some (σ', Ok tt) /\ held F (bs ++ s) [] σ'
    /\ v_cap (vector σ') = v_cap (vector σ).
Proof.
  intros Hh Hc. unfold extend_from_slice, mbind, get_vector. rewrite (held_len _ _ _ _ Hh).
  destruct (held_store F bs σ (zlen s) s Hh (Z.le_refl _) Hc) as (σ1 & -> & Hh1 & Hv).
  destruct (held_set_len F bs s σ1 (zlen s) Hh1) as (σ2 & Hs & Hh2); [zlens |].
  exists σ2. rewrite ztake_all in Hh2 by lia. split_and!; [exact Hs | exact Hh2 |].
  unfold set_len in Hs. destruct (_ && _) in Hs; [| done]. injection Hs as <-. cbn. by rewrite Hv.
Qed.

(** What a function with a local vector gives its caller. *)
Definition gives (h : heap) (p : result X bytes) (o : option (heap * result X Vec)) : Prop :=
  exists h' r, o = Some (h', r) /\
    match p with
    | Ok out => exists v, r = Ok v /\ held h out [] (MkState h' v)
    | Err e => r = Err e /\ h' = h
    end.

Lemma returning_gives h (body : @M _ X unit) p :
  sim body p (MkState h Vec_new) (fun _ out => held h out []) (fun σ => exists bs, held h bs [] σ) ->
  gives h p (returning body h).
Proof.
  intros (σ & r & Hb & Hr). unfold gives, returning. rewrite Hb. destruct r as [u | e], p as [out | e']; try done.
  - eexists _, _. split; [reflexivity |]. exists (vector σ). by destruct σ.
  - destruct Hr as [<- [bs Hh]]. destruct (held_drop _ _ _ _ Hh) as (σ' & -> & <-). by eexists _, _.
Qed.
End Ownership.
