(* ===== verification/ZstdzMemory.v ===== *)
(** * The codec's unsafe code ([rust/zstdz/src/lib.rs])

    The two operations of [Zstdz] as they are written: over raw pointers to
    contexts and buffers, with destructors. They are shown to use memory as the
    language and the native library require, and to compute what the pure
    definitions of [Codec] compute. *)

From S2P Require Export Memory.

Module Unsafe.
Import Zstdz.

#[local] Abbreviation M := (@Memory.M _ Error).

Section Operations.
Context `{Allocator, Placement}.

(** ** The calls of [zstd.h]

    A prefix that was lent must still be there, unmodified, when it is used. *)

Definition load_cctx (a : Z) : M (CCtx * option (slice * bytes)) := fun σ =>
  match memory σ !! a with
  | Some (Compressing context prefix) => Some (σ, Ok (context, prefix))
  | _ => None
  end.
Definition load_dctx (a : Z) : M (DCtx * option (slice * bytes)) := fun σ =>
  match memory σ !! a with
  | Some (Decompressing context prefix) => Some (σ, Ok (context, prefix))
  | _ => None
  end.

Definition prefix_valid (prefix : option (slice * bytes)) : M unit := fun σ =>
  match prefix with
  | Some (s, bs) => if bool_decide (read (memory σ) (s_ptr s) (s_len s) = Some bs) then Some (σ, Ok tt) else None
  | None => Some (σ, Ok tt)
  end.

Definition ZSTD_createCCtx : M Z :=
  match create_cctx with
  | Some context => allocate (Compressing context None)
  | None => mret 0
  end.
Definition ZSTD_createDCtx : M Z :=
  match create_dctx with
  | Some context => allocate (Decompressing context None)
  | None => mret 0
  end.

Definition ZSTD_freeCCtx (a : Z) : M unit := let! _ := load_cctx a in remove a.
Definition ZSTD_freeDCtx (a : Z) : M unit := let! _ := load_dctx a in remove a.

Definition ZSTD_CCtx_setParameter (a parameter value : Z) : M Z :=
  let! (context, prefix) := load_cctx a in
  let call := cctx_set_parameter context parameter value in
  let! _ := update a (Compressing call.2 prefix) in
  mret call.1.

Definition ZSTD_DCtx_setMaxWindowSize (a size : Z) : M Z :=
  let! (context, prefix) := load_dctx a in
  let call := dctx_set_max_window_size context size in
  let! _ := update a (Decompressing call.2 prefix) in
  mret call.1.

Definition ZSTD_CCtx_refPrefix (a : Z) (p : pointer) (n : Z) : M Z :=
  let! (context, _) := load_cctx a in
  let! prefix := load p n in
  let call := cctx_ref_prefix context prefix in
  let! _ := update a (Compressing call.2 (Some (MkSlice p n, prefix))) in
  mret call.1.

Definition ZSTD_DCtx_refPrefix (a : Z) (p : pointer) (n : Z) : M Z :=
  let! (context, _) := load_dctx a in
  let! prefix := load p n in
  let call := dctx_ref_prefix context prefix in
  let! _ := update a (Decompressing call.2 (Some (MkSlice p n, prefix))) in
  mret call.1.

(** What the call leaves initialised: the bytes its status counts. *)
Definition returned (call : Z * bytes) : bytes :=
  if is_error call.1 then [] else ztake call.1 call.2.

(** The call writes no further than the capacity it was lent, to a block that
    is not the one it reads. *)
Definition native_write (call : Z * bytes) (dst : pointer) (capacity : Z) (src : pointer) (n : Z) : M Z :=
  if (capacity <? zlen call.2) || ((0 <? capacity) && (0 <? n) && (base dst =? base src)) then undefined else
  let! _ := store dst capacity (returned call) in
  mret call.1.

Definition ZSTD_compress2 (a : Z) (dst : pointer) (capacity : Z) (src : pointer) (n : Z) : M Z :=
  let! (context, prefix) := load_cctx a in
  let! _ := prefix_valid prefix in
  let! target := load src n in
  native_write (compress2 context capacity target) dst capacity src n.

Definition ZSTD_decompressDCtx (a : Z) (dst : pointer) (capacity : Z) (src : pointer) (n : Z) : M Z :=
  let! (context, prefix) := load_dctx a in
  let! _ := prefix_valid prefix in
  let! frame := load src n in
  native_write (decompress_dctx context capacity frame) dst capacity src n.

(** ** The two operations *)

Definition input (s : slice) : pointer := if s_len s =? 0 then null else s_ptr s.

(** [NonNull::new(p).ok_or(OutOfMemory)?] *)
Definition non_null (p : Z) : M Z := if p =? 0 then mfail OutOfMemory else mret p.

(** [checked(call, error)?] *)
Definition checked_io (call : M Z) (error : Error) : M Z :=
  let! status := call in lift (Codec.checked status error).

Definition create_encoder : M Z := let! p := ZSTD_createCCtx in non_null p.
Definition create_decoder : M Z := let! p := ZSTD_createDCtx in non_null p.
Definition drop_encoder (context : Z) : M unit := ZSTD_freeCCtx context.
Definition drop_decoder (context : Z) : M unit := ZSTD_freeDCtx context.

Definition set_parameter (context : Z) (setting : Z * Z) : M unit :=
  let! _ := checked_io (ZSTD_CCtx_setParameter context setting.1 setting.2) CompressionFailed in
  mret tt.

(** From the bound to the published length. *)
Definition compress_into (context : Z) (target : slice) : M unit :=
  let! bound := lift (Codec.checked (compress_bound (s_len target)) CompressionFailed) in
  let! v := get_vector in
  let start := v_len v in
  let! _ := try_reserve_exact OutOfMemory 1 bound in
  let! p := as_mut_ptr in
  let! written := checked_io (ZSTD_compress2 context (MkPointer (base p) (displacement p + start)) bound
                    (input target) (s_len target)) CompressionFailed in
  let! _ := lift (fail_if (bound <? written) CompressionFailed) in
  set_len (start + written).

Definition append_frame (source target : slice) : M unit :=
  let! window := lift (window_log (s_len source) (s_len target)) in
  let! context := create_encoder in
  scoped (drop_encoder context)
    (let parameters := get_cparams 9 (s_len target) (s_len source) in
     let raw_log := bit_length (Z.max (s_len source) (s_len target)) in
     let! cycle_log := lift (ok_or CompressionFailed
       (checked_sub (chain_log parameters) (if btlazy2 constants <=? strategy parameters then 1 else 0))) in
     let! _ := for_each (set_parameter context) (Codec.settings parameters raw_log cycle_log window) in
     let! _ := if s_len source =? 0 then mret 0
               else checked_io (ZSTD_CCtx_refPrefix context (input source) (s_len source)) CompressionFailed in
     compress_into context target).

(** What follows the creation of the context, within its scope. *)
Definition decompress_into (context : Z) (source frame : slice) (expected : Z) : M unit :=
  let! _ := checked_io (ZSTD_DCtx_setMaxWindowSize context MAX_INPUT_LEN) DecompressionFailed in
  let! _ := if s_len source =? 0 then mret 0
            else checked_io (ZSTD_DCtx_refPrefix context (input source) (s_len source)) DecompressionFailed in
  let! destination := if expected =? 0 then mret null else as_mut_ptr in
  let! written := checked_io (ZSTD_decompressDCtx context destination expected (input frame) (s_len frame))
                    DecompressionFailed in
  let! _ := lift (fail_if (negb (written =? expected)) DecompressionFailed) in
  set_len written.

(** The vector is a local of the operation: on success the caller gets it, and
    on an error it is dropped, after the context. *)
Definition decode (source frame : slice) (expected : Z) : heap -> option (heap * result Error Vec) :=
  returning
    (let! _ := lift (window_log (s_len source) expected) in
     let! _ := try_reserve_exact OutOfMemory 0 expected in
     let! context := create_decoder in
     scoped (drop_decoder context) (decompress_into context source frame expected)).
End Operations.
End Unsafe.

#[local] Abbreviation M := (@Memory.M _ Zstdz.Error).

(** What the interface's types and the manual add to [NativeDocumented]: sizes
    are not negative, and compression stays within the capacity. *)
Class NativeBounded `{Native} := {
  compress_bound_nonneg n : is_error (compress_bound n) = false -> 0 <= compress_bound n;
  compress2_within c bound target : 0 <= bound -> zlen (compress2 c bound target).2 <= bound
}.

(** ** Steps

    Both contexts are used the same way: [mk] is the cell and [load] finds it. *)

Section Steps.
Context `{Allocator, Placement}.
Context {C : Type} (mk : C -> option (slice * bytes) -> cell) (load_context : Z -> M (C * option (slice * bytes))).
Context (load_mk : forall σ a c p, memory σ !! a = Some (mk c p) -> load_context a σ = Some (σ, Ok (c, p))).
Context (F : heap) (a : Z) (Ha : F !! a = None) (bs : bytes) (v : Vec).

Definition inside (σ : State) : Prop := exists c p, held (<[a := mk c p]> F) bs [] σ.

Lemma part_insert c : F ⊆ <[a := c]> F.
Proof using Ha. by apply insert_subseteq. Qed.

Lemma input_borrows s sb : borrows F s sb -> borrows F (MkSlice (Unsafe.input s) (s_len s)) sb.
Proof.
  intros [Hl Hr]. split; [done |]. cbn. unfold Unsafe.input. destruct (s_len s =? 0) eqn:Hz; [| done].
  unfold read in *. by rewrite Hz in *.
Qed.

Lemma borrowed s sb c w σ :
  borrows F s sb -> held (<[a := c]> F) bs w σ -> load (E := Zstdz.Error) (Unsafe.input s) (s_len s) σ = Some (σ, Ok sb).
Proof using Ha.
  intros Hs%input_borrows Hh.
  apply (held_load _ _ _ _ (MkSlice (Unsafe.input s) (s_len s)) _ Hh).
  eapply borrows_mono; [apply part_insert | done].
Qed.

(** A call that changes the context and returns a status. *)
Lemma step_update c p p' f e σ :
  held_in v (<[a := mk c p]> F) bs [] σ ->
  sim (Unsafe.checked_io (let! _ := update a (mk (f c).2 p') in mret (f c).1) e) (Codec.checked_call (f c) e) σ
    (fun _ c' σ' => held_in v (<[a := mk c' p']> F) bs [] σ') inside.
Proof.
  intros [Hh Hv]. unfold Codec.checked_call.
  destruct (held_update (X := Zstdz.Error) _ _ _ _ a (mk c p) (mk (f c).2 p') Hh) as (σ1 & Hu & Hh1 & Hv1); [apply lookup_insert_eq |].
  rewrite insert_insert_eq in Hh1.
  unfold Unsafe.checked_io. exists σ1.
  unfold Codec.checked. destruct (is_error (f c).1) eqn:Hc.
  - exists (Err e). unfold mbind, mret, lift. rewrite Hu, Hc. split; [done |]. split; [done |]. by eexists _, _.
  - exists (Ok (f c).1). unfold mbind, mret, lift. rewrite Hu, Hc. split; [done |]. split; [done | by rewrite Hv1].
Qed.

Lemma step_call c p f e σ :
  held_in v (<[a := mk c p]> F) bs [] σ ->
  sim (Unsafe.checked_io
        (let! (c, p) := load_context a in let! _ := update a (mk (f c).2 p) in mret (f c).1) e)
    (Codec.checked_call (f c) e) σ
    (fun _ c' σ' => held_in v (<[a := mk c' p]> F) bs [] σ') inside.
Proof using load_mk.
  intros Hh. eapply sim_ext, (step_update c p p f e σ Hh).
  unfold Unsafe.checked_io, mbind. rewrite (load_mk σ a c p); [done |].
  eapply held_lookup; [apply Hh | apply lookup_insert_eq].
Qed.

(** The prefix is lent unless it is empty. *)
Lemma step_prefix c f e σ source sb :
  borrows F source sb -> held_in v (<[a := mk c None]> F) bs [] σ ->
  sim (if s_len source =? 0 then mret 0 else Unsafe.checked_io
        (let! (c, _) := load_context a in
         let! prefix := load (Unsafe.input source) (s_len source) in
         let! _ := update a (mk (f c prefix).2 (Some (MkSlice (Unsafe.input source) (s_len source), prefix))) in
         mret (f c prefix).1) e)
    (if bool_decide (sb = []) then Ok c else Codec.checked_call (f c sb) e) σ
    (fun _ c' σ' => exists p, held_in v (<[a := mk c' p]> F) bs [] σ' /\
       forall s ps, p = Some (s, ps) -> read F (s_ptr s) (s_len s) = Some ps) inside.
Proof using load_mk Ha.
  intros Hb Hh. pose proof Hb as [Hl _]. case_bool_decide as Hn.
  { subst sb. change (zlen (@nil byte)) with 0 in Hl. rewrite Hl. apply sim_ret. by exists None. }
  destruct (Z.eqb_spec (s_len source) 0) as [Hz |]; [rewrite Hl in Hz; by apply zlen_0_nil in Hz |].
  eapply sim_mono; [| | done].
  - eapply sim_ext, (step_update c None (Some (MkSlice (Unsafe.input source) (s_len source), sb)) (fun c => f c sb) e σ Hh).
    unfold Unsafe.checked_io, mbind. rewrite (load_mk σ a c None).
    + by rewrite (borrowed source sb _ _ σ Hb (proj1 Hh)).
    + eapply held_lookup; [apply Hh | apply lookup_insert_eq].
  - intros ? c' σ' Hh'. eexists. split; [exact Hh' |]. intros s ps [= <- <-].
    by destruct (input_borrows _ _ Hb).
Qed.

(** The call that writes to the vector. *)
Lemma step_write c p call dst capacity src n sb e σ :
  held (<[a := mk c p]> F) bs [] σ ->
  borrows F (MkSlice src n) sb -> zlen call.2 <= capacity ->
  zlen bs + capacity <= v_cap (vector σ) -> dst = MkPointer (v_ptr (vector σ)) (zlen bs) \/ capacity = 0 ->
  sim (Unsafe.checked_io (Unsafe.native_write call dst capacity src n) e) (Codec.checked call.1 e) σ
    (fun written status σ' => written = status /\ status = call.1 /\ is_error status = false
       /\ held (<[a := mk c p]> F) bs (ztake status call.2) σ') inside.
Proof using Ha.
  intros Hh [Hl Hr] Hw Hc Hd. unfold Unsafe.checked_io, Unsafe.native_write.
  pose proof (zlen_nonneg call.2). pose proof (zlen_nonneg bs).
  rewrite (proj2 (Z.ltb_ge _ _) Hw). cbn [orb].
  assert ((0 <? capacity) && (0 <? n) && (base dst =? base src) = false) as ->.
  { destruct (Z.ltb_spec 0 capacity), (Z.ltb_spec 0 n); try done. apply Z.eqb_neq.
    destruct Hd as [-> | ]; [| lia]. cbn. intros Heq. cbn in Hr. unfold read in Hr.
    rewrite (proj2 (Z.eqb_neq n 0)), <- Heq in Hr by lia.
    destruct (held_capacity _ _ _ _ Hh) as (_ & _ & _ & Hf & _); [lia |].
    destruct (F !! _) eqn:Hx in Hr; [| done]. eapply lookup_weaken in Hx; [| apply part_insert]. by rewrite Hx in Hf. }
  assert (zlen (Unsafe.returned call) <= capacity) as Hs.
  { unfold Unsafe.returned. destruct (is_error _); [change (zlen (@nil byte)) with 0; lia |]. unfold zlen, ztake in *. rewrite length_take. lia. }
  assert (exists σ', store (E := Zstdz.Error) dst capacity (Unsafe.returned call) σ = Some (σ', Ok tt)
    /\ held (<[a := mk c p]> F) bs (Unsafe.returned call) σ') as (σ1 & Hst & Hh1).
  { destruct Hd as [-> | ->]; [destruct (held_store (X := Zstdz.Error) _ _ _ _ _ Hh Hs Hc) as (σ1 & ? & ? & _); eauto |].
    assert (Unsafe.returned call = []) as -> by (apply zlen_0_nil; pose proof (zlen_nonneg (Unsafe.returned call)); lia).
    by exists σ. }
  exists σ1. unfold mbind, mret, lift. rewrite Hst.
  unfold Unsafe.returned in Hh1. unfold Codec.checked. destruct (is_error call.1) eqn:Herr.
  - exists (Err e). split; [done |]. split; [done |]. by eexists _, _.
  - exists (Ok call.1). by split.
Qed.

Lemma free_context w c p σ :
  held (<[a := mk c p]> F) bs w σ ->
  exists σ', (let! _ := load_context a in remove a) σ = Some (σ', Ok tt) /\ held F bs w σ'.
Proof using load_mk Ha.
  intros Hh. unfold mbind. rewrite (load_mk σ a c p).
  - by eapply held_remove.
  - eapply held_lookup; [done | apply lookup_insert_eq].
Qed.
End Steps.

(** ** The operations *)

Section Refinement.
Context `{Allocator, Placement, !NativeDocumented, !NativeBounded}.

#[local] Abbreviation encoding := (inside Compressing).
#[local] Abbreviation decoding := (inside Decompressing).

Lemma load_cctx_mk σ a c p :
  memory σ !! a = Some (Compressing c p) -> Unsafe.load_cctx a σ = Some (σ, Ok (c, p)).
Proof. unfold Unsafe.load_cctx. by intros ->. Qed.

Lemma load_dctx_mk σ a c p :
  memory σ !! a = Some (Decompressing c p) -> Unsafe.load_dctx a σ = Some (σ, Ok (c, p)).
Proof. unfold Unsafe.load_dctx. by intros ->. Qed.

(** A fresh context, or none. *)
Lemma step_create {C} (mk : C -> option (slice * bytes) -> cell) (o : option C) v F bs σ :
  held_in v F bs [] σ ->
  sim (let! p := match o with Some c => allocate (mk c None) | None => mret 0 end in Unsafe.non_null p)
    (ok_or Zstdz.OutOfMemory o) σ
    (fun a c σ' => o = Some c /\ F !! a = None /\ held_in v (<[a := mk c None]> F) bs [] σ') (held F bs []).
Proof.
  intros [Hh <-]. destruct o as [c |]; cbn [ok_or].
  - destruct (held_allocate (X := Zstdz.Error) _ _ _ _ (mk c None) Hh) as (a & σ1 & Ha & Hz & Hf & Hh1 & Hv1).
    eapply sim_silent; [exact Ha |]. unfold Unsafe.non_null. rewrite (proj2 (Z.eqb_neq a 0) Hz).
    by apply sim_ret.
  - eapply sim_silent; [done |]. by apply sim_fail.
Qed.

Lemma step_settings F a (Ha : F !! a = None) bs v settings c p σ :
  held_in v (<[a := Compressing c p]> F) bs [] σ ->
  sim (for_each (Unsafe.set_parameter a) settings) (foldM Codec.set_parameter c settings) σ
    (fun _ c' σ' => held_in v (<[a := Compressing c' p]> F) bs [] σ') (encoding F a bs).
Proof.
  revert c σ. induction settings as [| [k x] settings IH]; intros c σ Hh; cbn [for_each foldM].
  - by apply sim_ret.
  - eapply (sim_bind _ _ _ _ _ (fun _ c' σ' => held_in v (<[a := Compressing c' p]> F) bs [] σ'));
      [| intros [] c' σ' Hh'; by apply IH].
    unfold Unsafe.set_parameter, Codec.set_parameter. cbn [fst snd].
    destruct (step_call Compressing Unsafe.load_cctx load_cctx_mk F a bs v c p
      (fun c => cctx_set_parameter c k x) Zstdz.CompressionFailed σ Hh) as (σ1 & r & Hr & Hp).
    exists σ1. destruct r as [n | e].
    + exists (Ok tt). split; [| exact Hp]. unfold mbind at 1. cbv beta in Hr. unfold Unsafe.ZSTD_CCtx_setParameter.
      rewrite Hr. done.
    + exists (Err e). split; [| exact Hp]. unfold mbind at 1. unfold Unsafe.ZSTD_CCtx_setParameter. rewrite Hr. done.
Qed.
(** The prefix a context was lent is still what it was. *)
Lemma prefix_valid_run F a (Ha : F !! a = None) c bs w p σ :
  held (<[a := c]> F) bs w σ ->
  (forall s ps, p = Some (s, ps) -> read F (s_ptr s) (s_len s) = Some ps) ->
  Unsafe.prefix_valid p σ = Some (σ, Ok tt).
Proof.
  intros Hh%held_part Hp. unfold Unsafe.prefix_valid. destruct p as [[s ps] |]; [| done].
  rewrite bool_decide_eq_true_2; [done |]. apply (read_mono F); [| by apply Hp].
  etransitivity; [by apply part_insert | exact Hh].
Qed.

(** What both operations end with: a test of the status, and the bytes it
    counts are published. *)
Lemma step_publish {C} (mk : C -> option (slice * bytes) -> cell) F a bs c p w n (test : bool) (e : Zstdz.Error) σ :
  held (<[a := mk c p]> F) bs w σ -> (test = false -> n = zlen w) ->
  sim (let! _ := lift (fail_if test e) in set_len (zlen bs + n)) (let? _ := fail_if test e in Ok (bs ++ w)) σ
    (fun _ out σ' => exists c p, held (<[a := mk c p]> F) out [] σ') (inside mk F a bs).
Proof.
  intros Hh Hn. destruct test; cbn [fail_if rbind].
  { exists σ, (Err e). split; [done |]. split; [done |]. exists c, p. by eapply held_forget. }
  rewrite Hn by done. eapply sim_silent; [done |].
  destruct (held_set_len (X := Zstdz.Error) _ _ _ _ (zlen w) Hh) as (σ1 & Hs & Hh1); [zlens |].
  rewrite ztake_all in Hh1 by lia. exists σ1, (Ok tt). split; [done |]. by exists c, p.
Qed.

(** The call itself finds its context, its prefix and its input. *)
Lemma step_native {C} (mk : C -> option (slice * bytes) -> cell) load_context
    (load_mk : forall σ a c p, memory σ !! a = Some (mk c p) -> load_context a σ = Some (σ, Ok (c, p)))
    F a (Ha : F !! a = None) bs c p (f : C -> bytes -> Z * bytes) dst capacity src sb e σ :
  held (<[a := mk c p]> F) bs [] σ -> borrows F src sb ->
  (forall s ps, p = Some (s, ps) -> read F (s_ptr s) (s_len s) = Some ps) ->
  zlen (f c sb).2 <= capacity -> zlen bs + capacity <= v_cap (vector σ) ->
  dst = MkPointer (v_ptr (vector σ)) (zlen bs) \/ capacity = 0 ->
  sim (Unsafe.checked_io
        (let! (c, p) := load_context a in
         let! _ := Unsafe.prefix_valid p in
         let! s := load (Unsafe.input src) (s_len src) in
         Unsafe.native_write (f c s) dst capacity (Unsafe.input src) (s_len src)) e)
    (Codec.checked (f c sb).1 e) σ
    (fun written status σ' => written = status /\ status = (f c sb).1 /\ is_error status = false
       /\ held (<[a := mk c p]> F) bs (ztake status (f c sb).2) σ')
    (inside mk F a bs).
Proof.
  intros Hh Hb Hp Hw Hc Hd.
  eapply sim_ext; [| by apply (step_write mk F a Ha bs c p (f c sb) dst capacity _ _ sb e σ Hh (input_borrows F src sb Hb))].
  unfold Unsafe.checked_io, mbind. rewrite (load_mk σ a c p) by (eapply held_lookup; [exact Hh | apply lookup_insert_eq]).
  by rewrite (prefix_valid_run F a Ha _ _ _ _ _ Hh Hp), (borrowed F a Ha bs _ _ _ _ _ Hb Hh).
Qed.

Lemma step_compress_into F a (Ha : F !! a = None) bs v c p target tb σ :
  borrows F target tb -> held_in v (<[a := Compressing c p]> F) bs [] σ ->
  (forall s ps, p = Some (s, ps) -> read F (s_ptr s) (s_len s) = Some ps) ->
  sim (Unsafe.compress_into a target)
    (let? bound := Codec.checked (compress_bound (zlen tb)) Zstdz.CompressionFailed in
     let? _ := @reserve (with_spare (v_cap v - v_len v)) _ Zstdz.OutOfMemory 1 (zlen bs) bound in
     let? written := Codec.checked (compress2 c bound tb).1 Zstdz.CompressionFailed in
     let? _ := fail_if (bound <? written) Zstdz.CompressionFailed in
     Ok (bs ++ ztake written (compress2 c bound tb).2)) σ
    (fun _ out σ' => exists c p, held (<[a := Compressing c p]> F) out [] σ') (encoding F a bs).
Proof.
  intros Hb [Hh <-] Hp. pose proof Hb as [Hl _]. unfold Unsafe.compress_into. rewrite <- Hl.
  eapply sim_bind; [apply (sim_lift _ _ (fun b b' σ' => b = b' /\ σ' = σ /\ is_error b = false /\ b = compress_bound (s_len target))) |].
  { intros b [Hb1 ->]%checked_Ok. done. } { by exists c, p. }
  intros bound b' σ' (<- & -> & Hbe & Hbc). rewrite Hbc in Hbe. apply compress_bound_nonneg in Hbe. rewrite <- Hbc in Hbe.
  eapply sim_silent; [reflexivity |]. cbv zeta.
  eapply sim_bind.
  { eapply sim_mono; [exact (held_reserve _ _ _ _ _ 1 bound Hh) | intros ? ? ? Hx; exact Hx |]. intros ? ?. by exists c, p. }
  intros [] [] σ1 [Hh1 Hc1]. eapply sim_silent; [reflexivity |]. cbn [base displacement].
  rewrite (held_len _ _ _ _ Hh).
  eapply sim_bind.
  { apply (step_native Compressing Unsafe.load_cctx load_cctx_mk F a Ha bs c p
      (fun c s => compress2 c bound s) _ bound target tb _ σ1 Hh1 Hb Hp); [by apply compress2_within | lia | by left]. }
  intros written status σ2 (-> & Hst & He & Hh2). eapply step_publish; [exact Hh2 |].
  intros Ht. rewrite Hst in He. destruct (compress2_frame c bound tb He) as [Hr _]. rewrite Hst.
  symmetry. by apply zlen_ztake.
Qed.
(** Leaving the scope destroys the context. *)
Lemma leave_scope {C} (mk : C -> option (slice * bytes) -> cell) load_context
    (load_mk : forall σ a c p, memory σ !! a = Some (mk c p) -> load_context a σ = Some (σ, Ok (c, p)))
    F a (Ha : F !! a = None) bs (m : M unit) (p : result Zstdz.Error bytes) σ :
  sim m p σ (fun _ out σ' => exists c p, held (<[a := mk c p]> F) out [] σ') (inside mk F a bs) ->
  sim (scoped (let! _ := load_context a in remove a) m) p σ (fun _ out => held F out []) (held F bs []).
Proof.
  intros Hm. eapply sim_scoped; [exact Hm | |].
  - intros _ out σ' (c & q & Hh). exact (free_context mk load_context load_mk F a Ha out [] c q σ' Hh).
  - intros σ' (c & q & Hh). exact (free_context mk load_context load_mk F a Ha bs [] c q σ' Hh).
Qed.

Lemma append_frame_sim F source sb target tb bs σ :
  borrows F source sb -> borrows F target tb -> held F bs [] σ ->
  sim (Unsafe.append_frame source target)
    (@Codec.append_frame (with_spare (v_cap (vector σ) - v_len (vector σ))) _ sb tb bs) σ
    (fun _ out => held F out []) (held F bs []).
Proof.
  intros Hs Ht Hh. pose proof Hs as [Hsl _]. pose proof Ht as [Htl _].
  unfold Unsafe.append_frame, Codec.append_frame. rewrite Hsl, Htl.
  eapply sim_bind; [apply (sim_lift _ _ (fun w w' σ' => w = w' /\ σ' = σ)); done |].
  intros window w' σ' [<- ->].
  eapply sim_bind; [exact (step_create Compressing create_cctx (vector σ) F bs σ (conj Hh eq_refl)) |].
  intros a c σ1 (Hc & Ha & Hh1). eapply (leave_scope Compressing Unsafe.load_cctx load_cctx_mk F a Ha bs). cbv zeta.
  eapply sim_bind; [apply (sim_lift _ _ (fun k k' σ' => k = k' /\ σ' = σ1)); [done | exists c, None; apply Hh1] |].
  intros k k' σ' [<- ->].
  eapply sim_bind; [exact (step_settings F a Ha bs _ _ c None σ1 Hh1) |].
  intros ? c1 σ2 Hh2. rewrite <- Hsl.
  eapply sim_bind; [exact (step_prefix Compressing Unsafe.load_cctx load_cctx_mk F a Ha bs _ c1 cctx_ref_prefix
    Zstdz.CompressionFailed σ2 source sb Hs Hh2) |].
  intros ? c2 σ3 (p & Hh3 & Hp).
  exact (step_compress_into F a Ha bs _ c2 p target tb σ3 Ht Hh3 Hp).
Qed.

(** From the creation of the context to the end of its scope. *)
Lemma decompress_into_sim F source sb frame fb expected v a c (Ha : F !! a = None) σ :
  borrows F source sb -> borrows F frame fb -> 0 <= expected <= v_cap v ->
  held_in v (<[a := Decompressing c None]> F) [] [] σ ->
  sim (Unsafe.decompress_into a source frame expected)
    (let? c := Codec.checked_call (dctx_set_max_window_size c Zstdz.MAX_INPUT_LEN) Zstdz.DecompressionFailed in
     let? c := if bool_decide (sb = []) then Ok c else Codec.checked_call (dctx_ref_prefix c sb) Zstdz.DecompressionFailed in
     let? written := Codec.checked (decompress_dctx c expected fb).1 Zstdz.DecompressionFailed in
     let? _ := fail_if (negb (written =? expected)) Zstdz.DecompressionFailed in
     Ok (ztake written (decompress_dctx c expected fb).2)) σ
    (fun _ out σ' => exists c p, held (<[a := Decompressing c p]> F) out [] σ') (decoding F a []).
Proof.
  intros Hs Hf He Hh. unfold Unsafe.decompress_into.
  eapply sim_bind; [exact (step_call Decompressing Unsafe.load_dctx load_dctx_mk F a [] v c None
    (fun c => dctx_set_max_window_size c Zstdz.MAX_INPUT_LEN) Zstdz.DecompressionFailed σ Hh) |].
  intros ? c1 σ1 Hh1.
  eapply sim_bind; [exact (step_prefix Decompressing Unsafe.load_dctx load_dctx_mk F a Ha [] v c1 dctx_ref_prefix
    Zstdz.DecompressionFailed σ1 source sb Hs Hh1) |].
  intros ? c2 σ2 (p & [Hh2 Hv] & Hp).
  set (destination := if expected =? 0 then null else MkPointer (v_ptr v) 0).
  apply (sim_silent _ _ _ σ2 σ2 destination).
  { unfold destination, as_mut_ptr. destruct (expected =? 0); [done |]. by rewrite <- Hv. }
  eapply sim_bind.
  { apply (step_native Decompressing Unsafe.load_dctx load_dctx_mk F a Ha [] c2 p
      (fun c s => decompress_dctx c expected s) _ expected frame fb _ σ2 Hh2 Hf Hp); rewrite ?Hv; cbn.
    - rewrite decompress_capacity; lia.
    - change (zlen (@nil byte)) with 0. lia.
    - unfold destination. destruct (Z.eqb_spec expected 0); [by right | by left]. }
  intros written status σ3 (-> & Hst & _ & Hh3).
  eapply (step_publish Decompressing F a [] c2 p _ status); [exact Hh3 |].
  intros Ht. apply negb_false_iff, Z.eqb_eq in Ht as ->. symmetry. apply zlen_ztake.
  rewrite decompress_capacity; lia.
Qed.

Lemma decode_gives h source sb frame fb expected :
  0 <= expected -> borrows h source sb -> borrows h frame fb ->
  gives h (@Codec.decode (with_spare 0) _ sb fb expected) (Unsafe.decode source frame expected h).
Proof.
  intros He Hs Hf. pose proof Hs as [Hsl _]. pose proof (held_new h) as Hn.
  apply returning_gives. apply (sim_mono _ _ _ (fun _ out => held h out []) _ (held h [] []));
    [| done | intros σ Hσ; by exists []].
  unfold Codec.decode. rewrite Hsl.
  eapply sim_bind; [apply (sim_lift _ _ (fun w w' σ' => σ' = MkState h Vec_new)); done |]. intros _ _ σ ->.
  eapply sim_bind; [exact (held_reserve _ _ _ _ _ 0 expected Hn) |]. cbn [vector Vec_new v_cap v_len].
  intros _ _ σ1 [Hh1 Hc]. change (zlen (@nil byte)) with 0 in Hc.
  eapply sim_bind; [exact (step_create Decompressing create_dctx _ h [] σ1 (conj Hh1 eq_refl)) |].
  intros a c σ2 (_ & Ha & Hh2). eapply (leave_scope Decompressing Unsafe.load_dctx load_dctx_mk h a Ha []).
  apply (decompress_into_sim h source sb frame fb expected (vector σ1)); [done .. | lia | done].
Qed.
End Refinement.

(** C21: The unsafe code of the codec refines its pure operations. From any
    memory in which the inputs can be read, whatever the allocator grants and
    whatever statuses a documented native library returns, neither operation
    ever meets undefined behaviour: no context or block is used after its end,
    freed twice, read before it is written, or written past its capacity. Each
    returns what the pure operation
    returns; every context is freed on every way out, and apart from the block
    of the output vector, which on an error holds what it held, memory is left
    exactly as it was. *)
Theorem codec_memory_safe `{Allocator, Placement, !NativeDocumented, !NativeBounded}
    F source sb target tb frame fb bs σ expected :
  borrows F source sb -> borrows F target tb -> borrows F frame fb -> held F bs [] σ -> 0 <= expected ->
  (exists σ' r, Unsafe.append_frame source target σ = Some (σ', r) /\
    match @Codec.append_frame (with_spare (v_cap (vector σ) - v_len (vector σ))) _ sb tb bs with
    | Ok out => r = Ok tt /\ held F out [] σ'
    | Err e => r = Err e /\ held F bs [] σ'
    end)
  /\ gives F (@Codec.decode (with_spare 0) _ sb fb expected) (Unsafe.decode source frame expected F).
Proof.
  intros Hs Ht Hf Hh He. split; [| by apply decode_gives].
  destruct (append_frame_sim F source sb target tb bs σ Hs Ht Hh) as (σ' & r & Hr & Hp).
  exists σ', r. split; [exact Hr |]. destruct r as [[] | e], (Codec.append_frame _ _ _) as [out | e']; try done.
  destruct Hp as [-> Hp]. by split.
Qed.

(** Memory with the inputs at 1 and 2 and a vector of four bytes, with room for
    two more, at 3. The system places an allocation after all others. *)
Section Sample.
#[local] Instance sample_native : Native := store_native.

#[local] Instance sample_placement : Placement.
Proof.
  refine {| place h := map_fold (fun k _ top => Z.max (k + 1) top) 1 h |}.
  - intros h. pose proof (proj1 (fold_max_ge (fun k _ => k + 1) 1 h)). lia.
  - intros h. destruct (h !! _) as [c |] eqn:Hc; [| done].
    apply (proj2 (fold_max_ge (fun k _ => k + 1) 1 h)) in Hc. lia.
Defined.

#[local] Instance sample_bounded : NativeBounded.
Proof.
  constructor.
  - intros n Hn. apply Z.ltb_ge. exact Hn.
  - intros c bound target Hb. cbn. destruct (Z.leb_spec (zlen target) bound); [done | exact Hb].
Qed.

Definition inputs : heap :=
  {[1 := Block (Some <$> lit "an old text"); 2 := Block (Some <$> lit "new")]}.
Definition sample : State :=
  MkState ({[3 := Block ((Some <$> lit "head") ++ [None; None])]} ∪ inputs) (MkVec 3 4 6).
Definition old : slice := MkSlice (MkPointer 1 3) 3.
Definition new : slice := MkSlice (MkPointer 2 0) 3.

Lemma sample_held : held inputs (lit "head") [] sample.
Proof.
  exists {[3 := Block ((Some <$> lit "head") ++ [None; None])]}. split_and!; [| | done].
  - split; [vm_compute; reflexivity |]. cbn. by exists [None; None].
  - apply map_disjoint_singleton_l. vm_compute. reflexivity.
Qed.

Lemma codec_memory_safe_witness :
  exists σ', @Unsafe.append_frame plentiful _ _ old new sample = Some (σ', Ok tt)
    /\ held inputs (lit "headnew") [] σ'.
Proof.
  assert (borrows inputs old (lit "old")) as Ho by (split; vm_compute; reflexivity).
  assert (borrows inputs new (lit "new")) as Hn by (split; vm_compute; reflexivity).
  destruct (@codec_memory_safe plentiful _ _ store_documented sample_bounded inputs old (lit "old") new (lit "new")
    new (lit "new") (lit "head") sample 3 Ho Hn Hn sample_held ltac:(vm_compute; discriminate))
    as [(σ' & r & Hr & Hm) _].
  exists σ'. destruct (@Codec.append_frame _ _ _ _ _) as [out | e] eqn:Ha in Hm; vm_compute in Ha; [| discriminate Ha].
  injection Ha as <-. destruct Hm as [-> Hm]. split; [exact Hr | exact Hm].
Defined.

(** The state the operation ends in, evaluated: a new block for the vector, the
    old one and the context gone. *)
Example append_runs :
  match @Unsafe.append_frame plentiful _ _ old new sample with
  | Some (σ, r) => r = Ok tt /\ v_len (vector σ) = 7 /\ v_cap (vector σ) = 519
      /\ read (memory σ) (MkPointer (v_ptr (vector σ)) 0) 7 = Some (lit "headnew")
      /\ map_size (memory σ) = 3%nat
  | None => False
  end.
Proof. vm_compute. split_and!; reflexivity. Qed.
End Sample.
