(* ===== verification/File.v ===== *)
(** * File patches ([rust/src/file.rs])

    Encoding one file against another and applying the patch, over the codec's
    contract. *)

From S2P Require Export FileHeader Zstdz.

Module File.
Inductive Error : Type :=
| OutOfMemory | InvalidMagic | Truncated | SizeMismatch | SourceHashMismatch
| TargetHashMismatch | WindowTooLarge | CompressionFailed | DecompressionFailed
| ResourceLimitExceeded.

#[global] Instance Error_eq_dec : EqDecision Error.
Proof. solve_decision. Defined.

(** [impl From<difz_zstdz::Error>] *)
Definition from_zstdz (e : Zstdz.Error) : Error :=
  match e with
  | Zstdz.OutOfMemory => OutOfMemory
  | Zstdz.WindowTooLarge => WindowTooLarge
  | Zstdz.CompressionFailed => CompressionFailed
  | Zstdz.DecompressionFailed => DecompressionFailed
  end.

(** [impl From<HeaderError>] *)
Definition from_header (e : FileHeader.HeaderError) : Error :=
  match e with
  | FileHeader.InvalidMagic => InvalidMagic
  | FileHeader.Truncated => Truncated
  end.

Definition window_log (source target : Z) : result Error Z :=
  map_err from_zstdz (Zstdz.window_log source target).

Section Operations.
Context `{Allocator, Blake3, Zstd}.

Definition encode (source target : bytes) : result Error bytes :=
  let? _ := window_log (zlen source) (zlen target) in
  let header := FileHeader.MkHeader (blake3 source) (blake3 target) (zlen source) (zlen target) in
  let? _ := reserve OutOfMemory 0 0 FileHeader.HEADER_LEN in
  let output := FileHeader.encode header in
  map_err from_zstdz (append_frame [] source target output).

(** A [maximum] of zero is no limit. *)
Definition apply (source patch : bytes) (maximum : Z) : result Error bytes :=
  let? (header, frame) := map_err from_header (FileHeader.decode_prefix patch) in
  let? _ := fail_if (negb (FileHeader.source_len header =? zlen source)) SizeMismatch in
  let? _ := fail_if (negb (bool_decide (FileHeader.source_hash header = blake3 source)))
              SourceHashMismatch in
  let? _ := fail_if (negb (maximum =? 0) && (maximum <? FileHeader.target_len header))
              ResourceLimitExceeded in
  let? _ := window_log (zlen source) (FileHeader.target_len header) in
  let? output :=
    map_err from_zstdz (decode_frame [] source frame (FileHeader.target_len header)) in
  let? _ := fail_if (negb (bool_decide (FileHeader.target_hash header = blake3 output)))
              TargetHashMismatch in
  Ok output.

(** The header that [encode] writes. *)
Definition header_of (source target : bytes) : FileHeader.Header :=
  FileHeader.MkHeader (blake3 source) (blake3 target) (zlen source) (zlen target).

Lemma header_of_typed source target :
  zlen source <= Zstdz.MAX_INPUT_LEN -> zlen target <= Zstdz.MAX_INPUT_LEN ->
  FileHeader.header_typed (header_of source target).
Proof.
  change Zstdz.MAX_INPUT_LEN with (2 ^ 31). intros Hs Ht.
  constructor; cbn; try apply blake3_length; unfold is_u64; zlens.
Qed.

Lemma file_window_Ok source target w :
  window_log source target = Ok w -> source <= Zstdz.MAX_INPUT_LEN /\ target <= Zstdz.MAX_INPUT_LEN.
Proof. unfold window_log. rewrite map_err_Ok, window_log_Ok. tauto. Qed.

Lemma file_window_total source target :
  source <= Zstdz.MAX_INPUT_LEN -> target <= Zstdz.MAX_INPUT_LEN ->
  exists w, window_log source target = Ok w.
Proof.
  intros. eexists. apply map_err_Ok. apply window_log_Ok. done.
Qed.

Lemma encode_Ok `{!ZstdSafe} source target patch :
  encode source target = Ok patch ->
  zlen source <= Zstdz.MAX_INPUT_LEN /\ zlen target <= Zstdz.MAX_INPUT_LEN
  /\ exists frame, patch = FileHeader.wire (header_of source target) ++ frame.
Proof.
  unfold encode. intros He. inv_ok.
  match goal with Hw : window_log _ _ = Ok _ |- _ => apply file_window_Ok in Hw as [Hs Ht] end.
  apply append_extends in He as [frame ->].
  split_and!; [done | done |]. exists frame. f_equal. apply FileHeader.encode_wire.
  by apply header_of_typed.
Qed.

Lemma encode_run `{!ZstdRoundTrip, !AllocatorTotal} source target :
  zlen source <= Zstdz.MAX_INPUT_LEN -> zlen target <= Zstdz.MAX_INPUT_LEN ->
  exists frame,
    encode source target = Ok (FileHeader.wire (header_of source target) ++ frame)
    /\ forall ks, decode_frame ks source frame (zlen target) = Ok target.
Proof.
  intros Hs Ht. unfold encode. destruct (file_window_total _ _ Hs Ht) as [w ->]. cbn [rbind].
  rewrite reserve_total. cbn [rbind]. fold (header_of source target).
  rewrite FileHeader.encode_wire by by apply header_of_typed.
  destruct (decode_append source target (FileHeader.wire (header_of source target)) Hs Ht)
    as (frame & Ha & Hd). rewrite Ha. exists frame. done.
Qed.

(** What a successful application establishes, whoever made the patch. *)
Lemma apply_Ok `{!ZstdSafe} source patch maximum output :
  apply source patch maximum = Ok output ->
  exists header frame, patch = FileHeader.wire header ++ frame
    /\ FileHeader.header_typed header
    /\ FileHeader.source_len header = zlen source
    /\ FileHeader.source_hash header = blake3 source
    /\ FileHeader.target_len header = zlen output
    /\ FileHeader.target_hash header = blake3 output
    /\ zlen source <= Zstdz.MAX_INPUT_LEN /\ zlen output <= Zstdz.MAX_INPUT_LEN
    /\ (maximum <> 0 -> zlen output <= maximum).
Proof.
  unfold apply. intros Ha. inv_ok.
  match goal with Hd : FileHeader.decode_prefix _ = Ok (?h, ?f) |- _ =>
    apply FileHeader.decode_prefix_Ok in Hd as [Ht ->]; rename h into header; rename f into frame end.
  match goal with Hw : window_log _ _ = Ok _ |- _ => apply file_window_Ok in Hw as [Hs Hl] end.
  rewrite !negb_false_iff in *.
  repeat match goal with Hb : bool_decide _ = true |- _ => apply bool_decide_eq_true in Hb end.
  match goal with Hd : decode_frame _ _ _ _ = Ok _ |- _ => apply decode_exact in Hd;
    [| apply FileHeader.ht_target_len; done] end.
  exists header, frame. zbool. split_and!; try done; lia.
Qed.

(** Applying to a source other than the patch's fails, before decoding. *)
Lemma apply_header source header frame maximum :
  FileHeader.header_typed header ->
  apply source (FileHeader.wire header ++ frame) maximum =
    if negb (FileHeader.source_len header =? zlen source) then Err SizeMismatch
    else if negb (bool_decide (FileHeader.source_hash header = blake3 source))
    then Err SourceHashMismatch
    else if negb (maximum =? 0) && (maximum <? FileHeader.target_len header)
    then Err ResourceLimitExceeded
    else
      let? _ := window_log (zlen source) (FileHeader.target_len header) in
      let? output :=
        map_err from_zstdz (decode_frame [] source frame (FileHeader.target_len header)) in
      if bool_decide (FileHeader.target_hash header = blake3 output)
      then Ok output else Err TargetHashMismatch.
Proof.
  intros Ht. unfold apply. rewrite FileHeader.decode_prefix_wire by done. cbn [map_err rbind].
  destruct (negb (FileHeader.source_len header =? _)); [done |].
  destruct (negb (bool_decide (FileHeader.source_hash header = _))); [done |].
  destruct (_ && _); [done |]. cbn [fail_if rbind].
  destruct (window_log _ _); [| done]. cbn [rbind].
  destruct (decode_frame [] source frame _); [| done]. cbn [map_err rbind].
  by case_bool_decide.
Qed.

Lemma apply_encode_run `{!ZstdRoundTrip, !AllocatorTotal} source target patch maximum :
  encode source target = Ok patch -> maximum = 0 \/ zlen target <= maximum ->
  apply source patch maximum = Ok target.
Proof.
  intros He Hm. assert (zlen source <= Zstdz.MAX_INPUT_LEN /\ zlen target <= Zstdz.MAX_INPUT_LEN)
    as [Hs Ht].
  { unfold encode in He. apply rbind_Ok in He as (w & Hw & _). by apply file_window_Ok in Hw. }
  destruct (encode_run source target Hs Ht) as (frame & E & Hd).
  assert (patch = FileHeader.wire (header_of source target) ++ frame) as -> by congruence.
  unfold apply.
  rewrite FileHeader.decode_prefix_wire by by apply header_of_typed. cbn [map_err rbind header_of
    FileHeader.source_len FileHeader.source_hash FileHeader.target_len FileHeader.target_hash].
  rewrite Z.eqb_refl, !bool_decide_eq_true_2 by done. cbn [negb fail_if rbind].
  replace (negb (maximum =? 0) && (maximum <? zlen target)) with false
    by (symmetry; apply andb_false_iff; destruct Hm as [-> |]; [by left | right; apply Z.ltb_ge; lia]).
  cbn [fail_if rbind]. destruct (file_window_total _ _ Hs Ht) as [w ->]. cbn [rbind].
  rewrite Hd. cbn [map_err rbind]. by rewrite bool_decide_eq_true_2.
Qed.
(** ** The properties of file patches *)

(** C17: Within the size limit encoding succeeds, and applying the patch to the
    source it was made from gives the target, under every output limit that
    allows it. *)
Theorem file_round_trip `{!ZstdRoundTrip, !AllocatorTotal} source target :
  zlen source <= Zstdz.MAX_INPUT_LEN -> zlen target <= Zstdz.MAX_INPUT_LEN ->
  exists patch, encode source target = Ok patch
    /\ forall maximum, maximum = 0 \/ zlen target <= maximum ->
       apply source patch maximum = Ok target.
Proof.
  intros Hs Ht. destruct (encode_run source target Hs Ht) as (frame & He & _).
  eexists. split; [exact He |]. intros maximum Hm. by apply apply_encode_run.
Qed.

(** C18: Whoever made the patch, a successful application means that its header
    states the lengths and hashes of the source given and of the output
    returned, and that both are within the limits. *)
Theorem file_apply_safe `{!ZstdSafe} source patch maximum output :
  apply source patch maximum = Ok output ->
  exists frame,
    patch = FileHeader.encode (header_of source output) ++ frame
    /\ zlen source <= Zstdz.MAX_INPUT_LEN /\ zlen output <= Zstdz.MAX_INPUT_LEN
    /\ (maximum <> 0 -> zlen output <= maximum).
Proof.
  intros (header & frame & -> & Ht & Hsl & Hsh & Htl & Hth & Hb)%apply_Ok. exists frame.
  assert (header = header_of source output) as -> by (destruct header; cbn in *; by subst).
  by rewrite FileHeader.encode_wire.
Qed.

(** C19: A patch made for one source is refused on another before anything is
    decoded: by its length, or else by its hash; and an output over a non-zero
    limit is refused before it is produced. *)
Theorem file_apply_refuses `{!ZstdSafe} source target other patch maximum :
  encode source target = Ok patch ->
  (zlen other <> zlen source -> apply other patch maximum = Err SizeMismatch)
  /\ (zlen other = zlen source -> blake3 other <> blake3 source ->
      apply other patch maximum = Err SourceHashMismatch)
  /\ (0 < maximum < zlen target -> apply source patch maximum = Err ResourceLimitExceeded).
Proof.
  intros (Hs & Ht & frame & ->)%encode_Ok.
  rewrite !apply_header by by apply header_of_typed.
  cbn [header_of FileHeader.source_len FileHeader.source_hash FileHeader.target_len]. split_and!.
  - intros Hn. by rewrite (proj2 (Z.eqb_neq _ _)) by done.
  - intros <- Hn. by rewrite Z.eqb_refl, bool_decide_eq_false_2 by done.
  - intros Hm. rewrite Z.eqb_refl, bool_decide_eq_true_2 by done. cbn [negb].
    rewrite (proj2 (Z.eqb_neq maximum 0)), (proj2 (Z.ltb_lt _ _)) by lia. done.
Qed.
End Operations.

(** Whenever it is made, a patch that is made is the same. *)
Lemma encode_anywhere `{A : Allocator, Blake3, C : Zstd} (A' : Allocator) (C' : Zstd) `{!@AllocatorTotal A'} source target patch :
  (forall output output', @append_frame C [] source target output = Ok output' ->
    @append_frame C' [] source target output = Ok output') ->
  @encode A _ C source target = Ok patch -> @encode A' _ C' source target = Ok patch.
Proof.
  intros Hc He. unfold encode in *. inv_ok.
  match goal with Hw : window_log _ _ = Ok _ |- _ => rewrite Hw end. cbn [rbind].
  rewrite (@reserve_total A' _). cbn [rbind].
  apply map_err_Ok. by apply Hc.
Qed.

Section Sample.
#[local] Existing Instances plentiful toy_blake3 store_native.

Definition sample_old : bytes := lit "the old text".
Definition sample_new : bytes := lit "the new text!".
Definition sample_delta : bytes :=
  match encode sample_old sample_new with
  | Ok patch => patch
  | Err _ => []
  end.

Lemma file_round_trip_witness :
  exists patch, encode sample_old sample_new = Ok patch /\ apply sample_old patch 0 = Ok sample_new.
Proof.
  destruct (file_round_trip sample_old sample_new ltac:(vm_compute; discriminate)
    ltac:(vm_compute; discriminate)) as (patch & He & Ha).
  exists patch. exact (conj He (Ha 0 (or_introl eq_refl))).
Defined.

Lemma file_apply_safe_witness :
  exists frame, sample_delta = FileHeader.encode (header_of sample_old sample_new) ++ frame.
Proof.
  assert (apply sample_old sample_delta 100 = Ok sample_new) as Ha by (vm_compute; reflexivity).
  destruct (file_apply_safe sample_old sample_delta 100 sample_new Ha) as (frame & Hp & _).
  exists frame. exact Hp.
Defined.

Lemma file_apply_refuses_witness :
  apply (lit "other") sample_delta 0 = Err SizeMismatch
  /\ apply (lit "The old text") sample_delta 0 = Err SourceHashMismatch
  /\ apply sample_old sample_delta 5 = Err ResourceLimitExceeded.
Proof.
  assert (encode sample_old sample_new = Ok sample_delta) as He by (vm_compute; reflexivity).
  split; [| split].
  - apply (file_apply_refuses sample_old sample_new _ sample_delta 0 He). vm_compute. discriminate.
  - apply (file_apply_refuses sample_old sample_new (lit "The old text") sample_delta 0 He).
    + reflexivity.
    + vm_compute. discriminate.
  - apply (file_apply_refuses sample_old sample_new sample_old sample_delta 5 He).
    vm_compute. split; reflexivity.
Defined.
End Sample.
End File.
