(* ===== verification/FileMemory.v ===== *)
(** * File patches over raw memory ([rust/src/file.rs])

    The two operations of [File] with their vectors: what they reserve, write,
    return and drop, down to the unsafe code of the codec. They refine the pure
    operations. *)

From S2P Require Export File ZstdzMemory.

Module FileMemory.

Section Operations.
Context `{Allocator, Blake3, Placement}.

#[local] Abbreviation M := (@Memory.M _ File.Error).

(** [?] on a codec's result: the error is converted. *)
Definition converted {A} (m : @Memory.M _ Zstdz.Error A) : M A := fun σ =>
  match m σ with
  | Some (σ, r) => Some (σ, map_err File.from_zstdz r)
  | None => None
  end.

(** [&s[n..]] *)
Definition suffix (n : Z) (s : slice) : slice :=
  MkSlice (MkPointer (base (s_ptr s)) (displacement (s_ptr s) + n)) (s_len s - n).

Definition encode (source target : slice) : heap -> option (heap * result File.Error Vec) :=
  returning
    (let! _ := lift (File.window_log (s_len source) (s_len target)) in
     let! s := load (s_ptr source) (s_len source) in
     let! t := load (s_ptr target) (s_len target) in
     let header := FileHeader.MkHeader (blake3 s) (blake3 t) (s_len source) (s_len target) in
     let! _ := try_reserve_exact File.OutOfMemory 0 FileHeader.HEADER_LEN in
     let! _ := extend_from_slice (FileHeader.encode header) in
     converted (Unsafe.append_frame source target)).

(** [let output = difz_zstdz::decode(..)?] *)
Definition decoded (source frame : slice) (expected : Z) : @Memory.M _ Zstdz.Error unit := fun σ =>
  match Unsafe.decode source frame expected (memory σ) with
  | Some (h, Ok v) => Some (MkState h v, Ok tt)
  | Some (h, Err e) => Some (MkState h (vector σ), Err e)
  | None => None
  end.

Definition apply (source patch : slice) (maximum : Z) : heap -> option (heap * result File.Error Vec) :=
  returning
    (let! p := load (s_ptr patch) (s_len patch) in
     let! (header, _) := lift (map_err File.from_header (FileHeader.decode_prefix p)) in
     let frame := suffix FileHeader.HEADER_LEN patch in
     let! _ := lift (fail_if (negb (FileHeader.source_len header =? s_len source)) File.SizeMismatch) in
     let! s := load (s_ptr source) (s_len source) in
     let! _ := lift (fail_if (negb (bool_decide (FileHeader.source_hash header = blake3 s))) File.SourceHashMismatch) in
     let! _ := lift (fail_if (negb (maximum =? 0) && (maximum <? FileHeader.target_len header))
                       File.ResourceLimitExceeded) in
     let! _ := lift (File.window_log (s_len source) (FileHeader.target_len header)) in
     let! _ := converted (decoded source frame (FileHeader.target_len header)) in
     let! v := get_vector in
     let! output := load (MkPointer (v_ptr v) 0) (v_len v) in
     lift (fail_if (negb (bool_decide (FileHeader.target_hash header = blake3 output))) File.TargetHashMismatch)).
End Operations.

(** ** Slices *)

Section Slices.
Context `{Native}.

Lemma mapM_id (l : list (option byte)) s : mapM id l = Some s -> l = Some <$> s.
Proof.
  revert s. induction l as [| o l IH]; intros s; cbn; [by intros [= <-] |].
  destruct o as [b |]; [| done]. cbn. destruct (mapM id l) as [t |]; [| done]. intros [= <-].
  cbn. f_equal. by apply IH.
Qed.

Lemma borrows_suffix h s bs n :
  0 <= n <= zlen bs -> borrows h s bs -> borrows h (suffix n s) (zdrop n bs).
Proof.
  intros Hn [Hl Hr]. split; [cbn; rewrite zlen_zdrop; lia |]. unfold read in *. cbn [suffix s_ptr s_len base displacement].
  destruct (Z.eqb_spec (s_len s - n) 0) as [Hz | Hz].
  { f_equal. symmetry. apply zlen_0_nil. rewrite zlen_zdrop; lia. }
  rewrite (proj2 (Z.eqb_neq (s_len s) 0)) in Hr by lia. destruct (h !! _) as [[content | |] |]; try done.
  destruct ((0 <=? displacement (s_ptr s)) && _) eqn:Hc; [| done]. zbool. destruct Hc as [Hd Hc]. apply mapM_id in Hr.
  assert (ztake (s_len s - n) (zdrop (displacement (s_ptr s) + n) content) = Some <$> zdrop n bs) as ->.
  { transitivity (zdrop n (ztake (s_len s) (zdrop (displacement (s_ptr s)) content))).
    - unfold ztake, zdrop. rewrite Z2Nat.inj_sub, Z2Nat.inj_add, <- drop_drop, skipn_firstn_comm by lia. done.
    - rewrite Hr. unfold zdrop. by rewrite fmap_drop. }
  rewrite zlen_some, zlen_zdrop, Hl, Z.eqb_refl, mapM_some by lia.
  by rewrite (proj2 (Z.leb_le 0 _)) by lia.
Qed.
End Slices.

(** ** Refinement *)

Section Refinement.
Context `{Allocator, Blake3, Placement, !NativeDocumented, !NativeBounded}.

Lemma sim_converted {A B} (m : @Memory.M _ Zstdz.Error A) (p : result Zstdz.Error B) σ Q E :
  sim m p σ Q E -> sim (converted m) (map_err File.from_zstdz p) σ Q E.
Proof.
  intros (σ' & r & Hm & Hr). exists σ'. unfold converted. rewrite Hm. eexists. split; [reflexivity |].
  destruct r, p; cbn; try done. by destruct Hr as [<- HE].
Qed.

(** A slice that is read, and a check. *)
Lemma sim_load {C D} F bs w σ s sb (k : bytes -> @Memory.M _ File.Error C) (q : result File.Error D) Q E :
  held F bs w σ -> borrows F s sb -> sim (k sb) q σ Q E ->
  sim (let! x := load (s_ptr s) (s_len s) in k x) q σ Q E.
Proof. intros Hh Hb. by apply sim_silent, (held_load F bs w). Qed.

Lemma sim_check {A C D} (r : result File.Error A) (k : A -> @Memory.M _ File.Error C) (q : A -> result File.Error D) σ Q
    (E : State -> Prop) :
  E σ -> (forall a, r = Ok a -> sim (k a) (q a) σ Q E) -> sim (let! a := lift r in k a) (rbind r q) σ Q E.
Proof.
  intros HE Hk. eapply sim_bind; [apply (sim_lift _ _ (fun a b σ' => a = b /\ r = Ok a /\ σ' = σ)); auto |].
  intros a b σ' (<- & Hr & ->). by apply Hk.
Qed.

Definition failed (h : heap) (σ : State) : Prop := exists bs, held h bs [] σ.

Lemma encode_gives h source sb target tb :
  borrows h source sb -> borrows h target tb ->
  gives h (@File.encode (with_spare 0) _ (@zstd_native (with_spare 0) _) sb tb) (encode source target h).
Proof.
  intros Hs Ht. pose proof Hs as [Hsl _]. pose proof Ht as [Htl _]. pose proof (held_new h) as Hn.
  apply returning_gives. unfold File.encode. rewrite Hsl, Htl. fold (failed h).
  apply sim_check; [by exists [] |]. intros w Hw%File.file_window_Ok. rewrite <- Hsl, <- Htl.
  apply (sim_load h [] [] _ _ sb); [done | done |]. apply (sim_load h [] [] _ _ tb); [done | done |].
  rewrite Hsl, Htl. cbv zeta. fold (File.header_of sb tb).
  assert (zlen (FileHeader.encode (File.header_of sb tb)) = FileHeader.HEADER_LEN) as Hl.
  { assert (FileHeader.header_typed (File.header_of sb tb)) by (apply File.header_of_typed; apply Hw).
    by rewrite FileHeader.encode_wire, FileHeader.zlen_wire. }
  set (header := FileHeader.encode (File.header_of sb tb)) in *. clearbody header.
  eapply sim_bind.
  { eapply sim_mono; [exact (held_reserve _ _ _ _ _ 0 FileHeader.HEADER_LEN Hn) | intros ? ? ? Hx; exact Hx |].
    intros σ Hσ. by exists []. }
  intros [] [] σ1 [Hh1 Hc1]. cbn [vector Vec_new v_cap] in Hc1.
  destruct (held_extend (X := File.Error) h [] σ1 header Hh1) as (σ2 & He & Hh2 & Hc2); [rewrite Hl; lia |].
  eapply sim_silent; [exact He |]. apply sim_converted.
  pose proof (append_frame_sim h source sb target tb header σ2 Hs Ht Hh2) as Hf.
  rewrite (held_len _ _ _ _ Hh2), Hc2, Hc1 in Hf. cbn [app] in Hf. rewrite Hl in Hf.
  eapply sim_mono; [exact Hf | done | intros σ Hσ; by exists header].
Qed.

Lemma sim_decoded h source sb frame fb expected :
  0 <= expected -> borrows h source sb -> borrows h frame fb ->
  sim (decoded source frame expected) (@Codec.decode (with_spare 0) _ sb fb expected) (MkState h Vec_new)
    (fun _ out => held h out []) (failed h).
Proof.
  intros He Hs Hf. destruct (decode_gives h source sb frame fb expected He Hs Hf) as (h' & r & Hr & Hp).
  unfold sim, decoded. cbn [memory vector]. rewrite Hr.
  destruct (Codec.decode _ _ _) as [out | e].
  - destruct Hp as (v & -> & Hh). by eexists _, (Ok tt).
  - destruct Hp as [-> ->]. exists (MkState h Vec_new), (Err e). split; [done |]. split; [done |].
    exists []. apply held_new.
Qed.

Lemma apply_gives h source sb patch pb maximum :
  borrows h source sb -> borrows h patch pb ->
  gives h (@File.apply _ (@zstd_native (with_spare 0) _) sb pb maximum) (apply source patch maximum h).
Proof.
  intros Hs Hp. pose proof Hs as [Hsl _]. pose proof (held_new h) as Hn.
  assert (failed h (MkState h Vec_new)) as Hfail by by exists [].
  apply returning_gives. unfold File.apply. fold (failed h).
  apply (sim_load h [] [] _ _ pb); [done | done |].
  apply sim_check; [done |]. intros [header frame] Hd%map_err_Ok. rewrite Hsl.
  apply sim_check; [done |]. intros _ _. rewrite <- Hsl. apply (sim_load h [] [] _ _ sb); [done | done |].
  do 2 (apply sim_check; [done |]; intros _ _). rewrite Hsl. apply sim_check; [done |]. intros _ _.
  apply FileHeader.decode_prefix_Ok in Hd as [Htyped ->].
  assert (borrows h (suffix FileHeader.HEADER_LEN patch) frame) as Hf.
  { pose proof (FileHeader.zlen_wire header Htyped) as Hl. pose proof (zlen_nonneg frame).
    rewrite <- (zdrop_app_exact (FileHeader.wire header) frame FileHeader.HEADER_LEN) by done.
    apply borrows_suffix; [rewrite zlen_app, Hl; split; [done | lia] | done]. }
  eapply sim_bind; [apply sim_converted, (sim_decoded h source sb _ frame); [apply Htyped | done | done] |].
  intros ? out σ Hh. eapply sim_silent; [reflexivity |].
  eapply sim_silent.
  { unfold load. rewrite (held_len _ _ _ _ Hh), <- (Z.add_0_r (zlen out)).
    rewrite (held_read _ _ _ _ 0 Hh) by done. by rewrite app_nil_r. }
  destruct (fail_if _ _) as [[] | e] eqn:Hc.
  - by exists σ, (Ok tt).
  - exists σ, (Err e). cbn. split; [done |]. split; [done | by exists out].
Qed.
End Refinement.

(** The slice a vector lends. *)
Definition as_slice (v : Vec) : slice := MkSlice (MkPointer (v_ptr v) 0) (v_len v).

Lemma vec_lends `{Native} h out h' v : held h out [] (MkState h' v) -> borrows h' (as_slice v) out.
Proof.
  intros Hh. pose proof (held_len _ _ _ _ Hh) as Hl. cbn [vector] in Hl. split; [exact Hl |]. cbn [as_slice s_ptr s_len]. rewrite Hl.
  rewrite <- (Z.add_0_r (zlen out)). pose proof (held_read _ _ _ _ 0 Hh) as Hr. cbn [memory vector] in Hr.
  rewrite Hr by done. by rewrite app_nil_r.
Qed.

(** C20: The file operations refine their pure definitions over raw memory.
    From any memory in which the inputs can be read, and whatever the allocator
    answers, encoding and applying never meet undefined behaviour, the unsafe
    code of the codec included; each returns a vector that holds exactly the
    bytes the pure operation gives, next to memory as it was, or its error with
    memory as it was: on every path what was allocated on the way has been
    freed. Where the library has memory, and so accepts the settings the code
    passes to an idle context, the patch one call returns can be lent to the other, which gives back the target; dropping both vectors leaves
    nothing behind. *)
Theorem file_memory_safe `{Allocator, Blake3, Placement, !NativeDocumented, !NativeBounded}
    h source sb target tb patch pb :
  borrows h source sb -> borrows h target tb -> borrows h patch pb ->
  gives h (@File.encode (with_spare 0) _ (@zstd_native (with_spare 0) _) sb tb) (encode source target h)
  /\ (forall maximum, gives h (@File.apply _ (@zstd_native (with_spare 0) _) sb pb maximum)
       (apply source patch maximum h))
  /\ (NativeAvailable -> AllocatorTotal ->
      zlen sb <= Zstdz.MAX_INPUT_LEN -> zlen tb <= Zstdz.MAX_INPUT_LEN ->
      exists h1 v1 h2 v2, encode source target h = Some (h1, Ok v1)
        /\ apply source (as_slice v1) 0 h1 = Some (h2, Ok v2)
        /\ held h1 tb [] (MkState h2 v2)
        /\ exists σ1 σ2, drop_vec (E := File.Error) (MkState h2 v2) = Some (σ1, Ok tt)
        /\ drop_vec (E := File.Error) (MkState (memory σ1) v1) = Some (σ2, Ok tt) /\ memory σ2 = h).
Proof.
  intros Hs Ht Hp. split_and!; [by apply encode_gives | intros; by apply apply_gives |]. intros Hav Htot Hls Hlt.
  assert (@AllocatorTotal (with_spare 0)) as Htot'.
  { constructor. intros n. cbn. by rewrite grants_all, orb_true_r. }
  pose proof (@native_round_trip (with_spare 0) _ _ Hav Htot') as Hrt.
  destruct (@File.encode_run (with_spare 0) _ (@zstd_native (with_spare 0) _) Hrt Htot' sb tb Hls Hlt) as (frame & He & _).
  destruct (encode_gives h source sb target tb Hs Ht) as (h1 & r1 & Hr1 & Hg1). rewrite He in Hg1.
  destruct Hg1 as (v1 & -> & Hh1).
  pose proof (held_part _ _ _ _ Hh1) as Hpart. cbn [memory] in Hpart.
  destruct (apply_gives h1 source sb (as_slice v1) _ 0 (borrows_mono _ _ _ _ Hpart Hs) (vec_lends _ _ _ _ Hh1))
    as (h2 & r2 & Hr2 & Hg2).
  rewrite (@File.apply_encode_run (with_spare 0) _ (@zstd_native (with_spare 0) _) Hrt Htot' sb tb _ 0 He) in Hg2 by by left.
  destruct Hg2 as (v2 & -> & Hh2).
  destruct (held_drop (X := File.Error) _ _ _ _ Hh2) as (σ1 & Hd1 & Hm1).
  destruct (held_drop (X := File.Error) _ _ _ _ Hh1) as (σ2 & Hd2 & Hm2).
  exists h1, v1, h2, v2. split_and!; [done | done | done |]. exists σ1, σ2. by rewrite Hm1.
Qed.

Section Sample.
#[local] Existing Instances plentiful toy_blake3 sample_native sample_placement sample_bounded.

Lemma file_memory_safe_witness :
  exists h1 v1 h2 v2, encode old new inputs = Some (h1, Ok v1)
    /\ apply old (as_slice v1) 0 h1 = Some (h2, Ok v2)
    /\ held h1 (lit "new") [] (MkState h2 v2).
Proof.
  assert (borrows inputs old (lit "old")) as Ho by (split; vm_compute; reflexivity).
  assert (borrows inputs new (lit "new")) as Hn by (split; vm_compute; reflexivity).
  destruct (@file_memory_safe plentiful toy_blake3 _ _ store_documented sample_bounded inputs old (lit "old") new (lit "new")
    new (lit "new") Ho Hn Hn) as (_ & _ & Hsession).
  destruct (Hsession store_available plentiful_total ltac:(vm_compute; discriminate) ltac:(vm_compute; discriminate))
    as (h1 & v1 & h2 & v2 & He & Ha & Hh & _).
  exists h1, v1, h2, v2. split; [exact He |]. split; [exact Ha | exact Hh].
Defined.

(** Two small inputs, encoded and applied over memory, evaluated. *)
Example session_runs :
  match encode old new inputs with
  | Some (h1, Ok v1) =>
      match apply old (as_slice v1) 0 h1 with
      | Some (h2, Ok v2) => read h2 (s_ptr (as_slice v2)) (v_len v2) = Some (lit "new") /\ map_size h2 = 4%nat
      | _ => False
      end
  | _ => False
  end.
Proof. vm_compute. split; reflexivity. Qed.
End Sample.
End FileMemory.
