(* ===== verification/CApi.v ===== *)
(** * The C boundary ([rust/c-api/src/lib.rs])

    The exported functions over a heap of opaque buffers and output slots: the
    argument checks, the translation of errors and panics into status codes,
    and the ownership of what is returned. *)

From stdpp Require Import gmap.
From S2P Require Export File OmitText.

Module Api.
Inductive Status : Type := InvalidData | WrongSource | Limit | OutOfMemory | Argument | Panic.

#[global] Instance Status_eq_dec : EqDecision Status.
Proof. solve_decision. Defined.

(** [status as i32] *)
Definition code (s : Status) : Z :=
  match s with
  | InvalidData => -1
  | WrongSource => -2
  | Limit => -4
  | OutOfMemory => -5
  | Argument => -6
  | Panic => -7
  end.

(** [impl From<difz_core::file::Error> for Status] *)
Definition from_file (e : File.Error) : Status :=
  match e with
  | File.OutOfMemory => OutOfMemory
  | File.SizeMismatch | File.SourceHashMismatch => WrongSource
  | File.WindowTooLarge | File.ResourceLimitExceeded => Limit
  | File.InvalidMagic | File.Truncated | File.TargetHashMismatch
  | File.CompressionFailed | File.DecompressionFailed => InvalidData
  end.

(** [Buffer]: a vector is its bytes and where they lie in memory. *)
Record Buffer : Type := MkBuffer { bbytes : bytes; as_ptr : Z }.

(** What the library reads and writes: the bytes in memory, its live buffers by
    handle, and the caller's output slots by address. *)
Record Heap : Type := MkHeap {
  memory : Z -> byte;
  owners : gmap Z Buffer;
  out_slots : gmap Z Z;
  word_slots : gmap Z Z
}.

(** [std::slice::from_raw_parts(data, len)] *)
Definition region (h : Heap) (data len : Z) : bytes :=
  (fun i => memory h (data + i)) <$> seqZ 0 len.

(** Memory after the bytes of a vector are written at an address. *)
Definition store (at_ : Z) (s : bytes) (m : Z -> byte) : Z -> byte := fun a =>
  if a <? at_ then m a
  else match s !! Z.to_nat (a - at_) with Some b => b | None => m a end.

(** The allocator of owners (zero when it refuses), where it puts vectors, and
    the addresses that are the caller's own. *)
Class Machine := {
  alloc_owner : Heap -> Z;
  vector_storage : Heap -> bytes -> Z;
  caller : Z -> Prop
}.

(** A call returns or unwinds. *)
Inductive Outcome (A : Type) : Type := Returned (a : A) | Panicked.
Arguments Returned {A} a.
Arguments Panicked {A}.

(** Which calls of the core unwind, by their arguments: the boundary is written
    for any answer. *)
Class Unwinding := {
  encode_unwinds : bytes -> bytes -> bool;
  apply_unwinds : bytes -> bytes -> Z -> bool;
  parse_unwinds : bytes -> bool
}.

(** The closures handed to [guard]: they run on the heap, return a result or
    unwind, and leave the heap as it was when they did; [?] is [and_then]. *)
Definition Closure (A : Type) : Type := Heap -> Heap * Outcome (result Status A).

Definition and_then {A B} (m : Closure A) (k : A -> Closure B) : Closure B := fun h =>
  match m h with
  | (h, Returned (Ok a)) => k a h
  | (h, Returned (Err status)) => (h, Returned (Err status))
  | (h, Panicked) => (h, Panicked)
  end.

(** A call of the core, which does not touch the heap. *)
Definition call {A} (unwinds : bool) (r : result Status A) : Closure A := fun h =>
  (h, if unwinds then Panicked else Returned r).

(** [catch_unwind(AssertUnwindSafe(operation))] *)
Definition guard (operation : Closure unit) (h : Heap) : Heap * Z :=
  match operation h with
  | (h, Returned (Ok _)) => (h, 0)
  | (h, Returned (Err status)) => (h, code status)
  | (h, Panicked) => (h, code Panic)
  end.

(** [out.write(value)] for a handle and for a mask. *)
Definition write_owner (out owner : Z) : Closure unit := fun h =>
  (MkHeap (memory h) (owners h) (<[out := owner]> (out_slots h)) (word_slots h), Returned (Ok tt)).

Definition write_word (out word : Z) : Closure unit := fun h =>
  (MkHeap (memory h) (owners h) (out_slots h) (<[out := word]> (word_slots h)), Returned (Ok tt)).

Section Boundary.
Context `{Machine}.

Definition input (h : Heap) (data len : Z) : result Status bytes :=
  let? _ := fail_if ((isize_max <? len) || negb (len =? 0) && (data =? 0)) Argument in
  if len =? 0 then Ok [] else Ok (region h data len).

(** [input(data, len)?] where the closure runs. *)
Definition borrow (data len : Z) : Closure bytes := fun h => (h, Returned (input h data len)).

(** The vector has been built at [vector_storage]; the owner is allocated for it. *)
Definition own (s : bytes) : Closure Z := fun h =>
  let owner := alloc_owner h in
  if owner =? 0 then (h, Returned (Err OutOfMemory))
  else
    let storage := vector_storage h s in
    (MkHeap (store storage s (memory h)) (<[owner := MkBuffer s storage]> (owners h))
       (out_slots h) (word_slots h), Returned (Ok owner)).

Definition produce (out : Z) (operation : Closure bytes) (h : Heap) : Heap * Z :=
  if out =? 0 then (h, code Argument)
  else guard (and_then (and_then operation own) (write_owner out)) h.

Section Operations.
Context `{Allocator, Blake3, Zstd, Unwinding}.

Definition difz_file_encode (source source_len target target_len max_bytes out : Z) (h : Heap) : Heap * Z :=
  produce out
    (and_then (borrow source source_len) (fun source =>
     and_then (borrow target target_len) (fun target =>
     and_then (call (encode_unwinds source target) (map_err from_file (File.encode source target))) (fun s =>
     call false
       (let? _ := fail_if (negb (max_bytes =? 0) && (max_bytes <? zlen s)) Limit in
        Ok s))))) h.

Definition difz_file_apply (source source_len patch patch_len max_bytes out : Z) (h : Heap) : Heap * Z :=
  produce out
    (and_then (borrow source source_len) (fun source =>
     and_then (borrow patch patch_len) (fun patch =>
     call (apply_unwinds source patch max_bytes) (map_err from_file (File.apply source patch max_bytes))))) h.
End Operations.

(** Calls on a handle that is not live are undefined in C; the model gives
    them no buffer. *)
Definition difz_buffer_data (buffer : Z) (h : Heap) : Z :=
  if buffer =? 0 then 0
  else
    match owners h !! buffer with
    | Some b => if bool_decide (bbytes b = []) then 0 else as_ptr b
    | None => 0
    end.

Definition difz_buffer_len (buffer : Z) (h : Heap) : Z :=
  if buffer =? 0 then 0
  else
    match owners h !! buffer with
    | Some b => zlen (bbytes b)
    | None => 0
    end.

Definition difz_buffer_free (buffer : Z) (h : Heap) : Heap :=
  if buffer =? 0 then h
  else MkHeap (memory h) (delete buffer (owners h)) (out_slots h) (word_slots h).

Definition difz_metadata_omit_parse `{Unwinding} (text len out : Z) (h : Heap) : Heap * Z :=
  if out =? 0 then (h, code Argument)
  else
    guard
      (and_then (borrow text len) (fun text =>
       and_then (call (parse_unwinds text) (map_err (fun _ => InvalidData) (Omit.parse text))) (fun omit =>
       write_word out (Omit.bits omit)))) h.
End Boundary.

(** ** Sessions *)

(** The allocator gives owners that are not live, and places vectors clear of
    the caller's memory and of the live buffers. *)
Class MachineLaws `{Machine} := {
  alloc_fresh h : alloc_owner h <> 0 -> owners h !! alloc_owner h = None;
  storage_nonnull h s : vector_storage h s <> 0;
  storage_separate h s a : vector_storage h s <= a < vector_storage h s + zlen s ->
    ~ caller a
    /\ forall p b, owners h !! p = Some b -> ~ (as_ptr b <= a < as_ptr b + zlen (bbytes b))
}.

(** Every live buffer's bytes are in memory where its pointer says. *)
Definition heap_ok (h : Heap) : Prop :=
  forall p b, owners h !! p = Some b -> as_ptr b <> 0 /\ region h (as_ptr b) (zlen (bbytes b)) = bbytes b.

(** A region the caller lends: its own, live, and holding the bytes. *)
Record lent `{Machine} (h : Heap) (data : Z) (s : bytes) : Prop := {
  lent_nonnull : zlen s <> 0 -> data <> 0;
  lent_length : zlen s <= isize_max;
  lent_bytes : region h data (zlen s) = s;
  lent_own : forall a, data <= a < data + zlen s -> caller a
}.

Lemma region_ext h h' data len :
  (forall a, data <= a < data + len -> memory h a = memory h' a) -> region h data len = region h' data len.
Proof.
  intros Hm. apply list_fmap_ext. intros i z Hz. apply lookup_seqZ in Hz as [-> Hi]. apply Hm. lia.
Qed.

Lemma store_same at_ s m i : 0 <= i < zlen s -> Some (store at_ s m (at_ + i)) = s !! Z.to_nat i.
Proof.
  intros Hi. unfold store. rewrite (proj2 (Z.ltb_ge _ _)) by lia. replace (at_ + i - at_) with i by lia.
  destruct (lookup_lt_is_Some_2 s (Z.to_nat i)) as [b ->]; [unfold zlen in Hi; lia | done].
Qed.

Lemma store_other at_ s m a : ~ (at_ <= a < at_ + zlen s) -> store at_ s m a = m a.
Proof.
  intros Ha. unfold store. destruct (Z.ltb_spec a at_); [done |].
  rewrite lookup_ge_None_2; [done |]. unfold zlen in Ha. lia.
Qed.

Lemma region_store h at_ s :
  region (MkHeap (store at_ s (memory h)) (owners h) (out_slots h) (word_slots h)) at_ (zlen s) = s.
Proof.
  unfold region. cbn [memory]. apply list_eq. intros i. rewrite list_lookup_fmap.
  destruct (decide (i < length s)%nat) as [Hi | Hi].
  - rewrite (proj2 (lookup_seqZ 0 (zlen s) i (Z.of_nat i))) by (unfold zlen; lia).
    change ((fun j => store at_ s (memory h) (at_ + j)) <$> Some (Z.of_nat i))
      with (Some (store at_ s (memory h) (at_ + Z.of_nat i))).
    rewrite store_same by (unfold zlen; lia). by rewrite Nat2Z.id.
  - rewrite (lookup_ge_None_2 s) by lia. rewrite lookup_ge_None_2; [done |].
    rewrite length_seqZ. unfold zlen. lia.
Qed.

(** The heap after a result has been published. *)
Definition published `{Machine} (out : Z) (s : bytes) (h : Heap) : Heap :=
  MkHeap (store (vector_storage h s) s (memory h))
    (<[alloc_owner h := MkBuffer s (vector_storage h s)]> (owners h))
    (<[out := alloc_owner h]> (out_slots h)) (word_slots h).

(** What [produce] answers, by the outcome of its operation. *)
Lemma produce_outcome `{Machine} out (operation : Closure bytes) r h :
  out <> 0 -> operation h = (h, r) ->
  produce out operation h =
    match r with
    | Returned (Ok s) => if alloc_owner h =? 0 then (h, -5) else (published out s h, 0)
    | Returned (Err e) => (h, code e)
    | Panicked => (h, -7)
    end.
Proof.
  intros Ho Hr. unfold produce, guard, and_then. rewrite (proj2 (Z.eqb_neq _ 0)), Hr by done.
  destruct r as [[s | e] |]; [| done..]. unfold own. by destruct (alloc_owner h =? 0).
Qed.

Lemma produce_published `{Machine} out (operation : Closure bytes) s h :
  out <> 0 -> alloc_owner h <> 0 -> operation h = (h, Returned (Ok s)) ->
  produce out operation h = (published out s h, 0).
Proof.
  intros Ho Ha Hs. rewrite (produce_outcome _ _ (Returned (Ok s))) by done.
  by rewrite (proj2 (Z.eqb_neq _ 0)).
Qed.

(** A region [input] refuses: longer than the address space allows, or null
    where there are bytes. *)
Definition refused (data len : Z) : Prop := isize_max < len \/ len <> 0 /\ data = 0.

#[export] Instance refused_dec data len : Decision (refused data len).
Proof. unfold refused. apply _. Defined.

Lemma input_spec h data len :
  input h data len = Err Argument /\ refused data len
  \/ input h data len = Ok (region h data len) /\ ~ refused data len.
Proof.
  unfold input, refused. destruct (Z.ltb_spec isize_max len); cbn; [auto |].
  destruct (Z.eqb_spec len 0) as [-> |]; cbn; [right; split; [done | lia] |].
  destruct (Z.eqb_spec data 0); cbn; [auto | right; split; [done | lia]].
Qed.

(** An omission list naming the families [fs], each once. *)
Definition omission_list (text : bytes) (fs : list Family.Family) : Prop :=
  NoDup fs /\ if bool_decide (text = []) then fs = [] else Forall2 OmitText.padded fs (split_on x2c text).

Lemma borrow_then `{Machine} {B} h data len (k : bytes -> Closure B) :
  and_then (borrow data len) k h =
    if decide (refused data len) then (h, Returned (Err Argument)) else k (region h data len) h.
Proof. unfold and_then, borrow. destruct (input_spec h data len) as [[-> ?] | [-> ?]]; by case_decide. Qed.

(** An operation on two regions: what is refused, and what is answered past that. *)
Lemma produce_regions `{Machine} out data len data' len' (k : bytes -> bytes -> Closure bytes) r h :
  k (region h data len) (region h data' len') h = (h, r) ->
  produce out (and_then (borrow data len) (fun s => and_then (borrow data' len') (k s))) h =
    if decide (out = 0 \/ refused data len \/ refused data' len') then (h, -6)
    else match r with
         | Returned (Ok s) => if decide (alloc_owner h = 0) then (h, -5) else (published out s h, 0)
         | Returned (Err e) => (h, code e)
         | Panicked => (h, -7)
         end.
Proof.
  intros Hr. destruct (decide (out = 0)) as [-> | Ho]; [by rewrite decide_True by auto |].
  destruct (decide (refused data len)).
  { rewrite decide_True by auto. apply (produce_outcome _ _ (Returned (Err Argument))); [done |].
    by rewrite borrow_then, decide_True. }
  destruct (decide (refused data' len')).
  { rewrite decide_True by auto. apply (produce_outcome _ _ (Returned (Err Argument))); [done |].
    by rewrite borrow_then, decide_False, borrow_then, decide_True. }
  rewrite decide_False by tauto. rewrite (produce_outcome _ _ r); [| done |].
  - destruct r as [[s | e] |]; [| done..]. destruct (Z.eqb_spec (alloc_owner h) 0); by case_decide.
  - by rewrite borrow_then, decide_False, borrow_then, decide_False.
Qed.

Section Laws.
Context `{MachineLaws}.

Lemma published_ok out s h : heap_ok h -> heap_ok (published out s h).
Proof.
  intros Hh p b. unfold published. cbn [owners]. rewrite lookup_insert_Some. intros [[<- <-] | [Hne Hb]].
  - cbn [as_ptr bbytes]. split; [apply storage_nonnull |].
    transitivity (region (MkHeap (store (vector_storage h s) s (memory h)) (owners h) (out_slots h) (word_slots h))
      (vector_storage h s) (zlen s)); [done | apply region_store].
  - destruct (Hh p b Hb) as [Hp Hr]. split; [done |]. rewrite <- Hr at 2. apply region_ext.
    intros a Ha. apply store_other. intros Hs. by apply (proj2 (storage_separate h s a Hs) p b Hb).
Qed.

Lemma lent_published out s h data t : lent h data t -> lent (published out s h) data t.
Proof.
  intros []. constructor; try done. rewrite <- lent_bytes0 at 2. apply region_ext.
  intros a Ha. apply store_other. intros Hs. apply (proj1 (storage_separate h s a Hs)). auto.
Qed.

Lemma input_lent h data s : lent h data s -> input h data (zlen s) = Ok s.
Proof.
  intros [Hn Hl Hr _]. unfold input. rewrite (proj2 (Z.ltb_ge _ _)) by done.
  destruct (Z.eqb_spec (zlen s) 0) as [E | E]; cbn [negb andb orb fail_if rbind].
  - by apply zlen_0_nil in E as ->.
  - rewrite (proj2 (Z.eqb_neq _ _)) by auto. cbn [fail_if rbind]. by rewrite Hr.
Qed.

Lemma input_buffer h p b :
  heap_ok h -> p <> 0 -> owners h !! p = Some b -> zlen (bbytes b) <= isize_max ->
  input h (difz_buffer_data p h) (difz_buffer_len p h) = Ok (bbytes b).
Proof.
  intros Hh Hp Hb Hl. destruct (Hh p b Hb) as [Ha Hr].
  unfold difz_buffer_data, difz_buffer_len. rewrite (proj2 (Z.eqb_neq _ _) Hp), Hb.
  unfold input. rewrite (proj2 (Z.ltb_ge _ _)) by done.
  destruct (Z.eqb_spec (zlen (bbytes b)) 0) as [E | E]; cbn [negb andb orb fail_if rbind].
  - by apply zlen_0_nil in E as ->.
  - rewrite bool_decide_eq_false_2 by (intros E'; rewrite E' in E; done).
    rewrite (proj2 (Z.eqb_neq _ _) Ha). cbn [fail_if rbind]. by rewrite Hr.
Qed.
End Laws.

(** No call of the core unwinds. *)
Class Unwindless `{Unwinding} : Prop := {
  encode_returns source target : encode_unwinds source target = false;
  apply_returns source patch maximum : apply_unwinds source patch maximum = false
}.

Section Theorems.
Context `{MachineLaws, Allocator, Blake3, Zstd, Unwinding}.

(** Encoding has no source to mismatch and no limit but the window's. *)
Lemma encode_errors source target e :
  File.encode source target = Err e ->
  e = File.OutOfMemory \/ e = File.WindowTooLarge
  \/ e = File.CompressionFailed \/ e = File.DecompressionFailed.
Proof.
  unfold File.encode, File.window_log, reserve.
  destruct (Zstdz.window_log _ _) as [w | []]; cbn; try (intros [= <-]; auto).
  destruct (grants _); cbn; [| intros [= <-]; auto].
  destruct (append_frame _ _ _) as [s | []]; cbn; intros [= <-]; auto.
Qed.

Lemma call_then {A B} unwinds (r : result Status A) (k : A -> result Status B) h :
  and_then (call unwinds r) (fun a => call false (k a)) h
  = (h, if unwinds then Panicked else Returned (rbind r k)).
Proof. unfold and_then, call. destruct unwinds; [done |]. by destruct r. Qed.

(** The bound on what [difz_file_encode] returns. *)
Lemma limit_then (max_bytes : Z) (s : bytes) :
  (let? _ := fail_if (negb (max_bytes =? 0) && (max_bytes <? zlen s)) Limit in Ok s)
  = if decide (max_bytes <> 0 /\ max_bytes < zlen s) then Err Limit else Ok s.
Proof.
  destruct (Z.eqb_spec max_bytes 0); cbn; [by rewrite decide_False by lia |].
  destruct (Z.ltb_spec max_bytes (zlen s)); cbn; [by rewrite decide_True | by rewrite decide_False by lia].
Qed.

(** A text parses, to the mask of the families, exactly when it lists them. *)
Lemma omission_parses text fs :
  omission_list text fs -> Omit.parse text = Ok (Omit.MkOmit (OmitText.mask_of fs)).
Proof. intros [Hd Hf]. apply OmitText.parse_Ok. eauto. Qed.

Lemma guard_borrow data len (k : bytes -> Closure unit) h :
  guard (and_then (borrow data len) k) h =
    if decide (refused data len) then (h, -6) else guard (k (region h data len)) h.
Proof. unfold guard. rewrite borrow_then. by case_decide. Qed.

(** C30: A whole session through the C interface. Encoding two lent regions
    succeeds and publishes a handle; applying that handle's data to the source
    succeeds and publishes another, whose data and length are the target's;
    freeing both leaves the buffers there were before. *)
Theorem api_session `{!ZstdRoundTrip, !AllocatorTotal, !Unwindless} source target source_at target_at maximum out h :
  heap_ok h -> lent h source_at source -> lent h target_at target ->
  zlen source <= Zstdz.MAX_INPUT_LEN -> zlen target <= Zstdz.MAX_INPUT_LEN ->
  (forall patch, File.encode source target = Ok patch -> zlen patch <= isize_max) ->
  (forall h, alloc_owner h <> 0) -> out <> 0 -> maximum = 0 \/ zlen target <= maximum ->
  exists h1 p h2 q,
    difz_file_encode source_at (zlen source) target_at (zlen target) 0 out h = (h1, 0)
    /\ out_slots h1 !! out = Some p
    /\ difz_file_apply source_at (zlen source) (difz_buffer_data p h1) (difz_buffer_len p h1)
         maximum out h1 = (h2, 0)
    /\ out_slots h2 !! out = Some q
    /\ input h2 (difz_buffer_data q h2) (difz_buffer_len q h2) = Ok target
    /\ heap_ok h2
    /\ owners (difz_buffer_free q (difz_buffer_free p h2)) = owners h.
Proof.
  intros Hh Hs Ht Hsl Htl Hpl Ha Ho Hm.
  destruct (File.encode_run source target Hsl Htl) as (frame & He & _).
  set (patch := FileHeader.wire (File.header_of source target) ++ frame) in *.
  pose proof (File.apply_encode_run source target patch maximum He Hm) as Happly.
  set (h1 := published out patch h). set (h2 := published out target h1).
  set (p := alloc_owner h). set (q := alloc_owner h1).
  assert (heap_ok h1) as Hh1 by by apply published_ok. assert (heap_ok h2) as Hh2 by by apply published_ok.
  assert (owners h1 !! p = Some (MkBuffer patch (vector_storage h patch))) as Hb by apply lookup_insert_eq.
  assert (owners h !! p = None) as Hfp by (apply alloc_fresh, Ha).
  assert (owners h1 !! q = None) as Hfq by (apply alloc_fresh, Ha).
  assert (p <> q) as Hpq by (intros E; rewrite E in Hb; congruence).
  exists h1, p, h2, q. split_and!.
  - unfold difz_file_encode. apply produce_published; [done | apply Ha |].
    unfold and_then, borrow, call. rewrite !input_lent by done. by rewrite encode_returns, He.
  - apply lookup_insert_eq.
  - unfold difz_file_apply. apply produce_published; [done | apply Ha |].
    unfold and_then, borrow, call. rewrite input_lent by by apply lent_published.
    rewrite (input_buffer h1 p _ Hh1 (Ha h) Hb) by by apply Hpl.
    cbn [bbytes]. by rewrite apply_returns, Happly.
  - apply lookup_insert_eq.
  - apply (input_buffer h2 q (MkBuffer target (vector_storage h1 target)));
      [done | apply Ha | apply lookup_insert_eq |]. by destruct Ht.
  - done.
  - unfold difz_buffer_free. rewrite !(proj2 (Z.eqb_neq _ 0)) by apply Ha.
    change (delete q (delete p (<[q := MkBuffer target (vector_storage h1 target)]> (owners h1))) = owners h).
    rewrite delete_insert_ne, delete_insert_eq by done.
    rewrite (delete_id (delete p (owners h1)) q) by (rewrite lookup_delete_ne; done).
    unfold h1, published. cbn [owners]. by apply delete_insert_id.
Qed.

(** C31: What each failing call through the C interface answers, exactly. A
    call that answers anything but zero leaves the heap and every output slot
    as before. The status is -6 exactly for a null output or a region the
    interface refuses, and past that -7 exactly when the core operation
    unwinds: the panic ends at the boundary and publishes nothing. Otherwise
    encoding and applying answer the core's error by the documented code, -4
    for an encoding over its bound, -5 when no owner can be allocated, and zero
    with the bytes published; and an omission list answers zero, with the mask
    of the families it names, exactly when it is one, and -1 when it is not. *)
Theorem api_failures h :
  (forall source source_len target target_len max_bytes out,
     let s := region h source source_len in let t := region h target target_len in
     let '(h', status) := difz_file_encode source source_len target target_len max_bytes out h in
     (status <> 0 -> h' = h)
     /\ (status = -6 <-> out = 0 \/ refused source source_len \/ refused target target_len)
     /\ (status <> -6 ->
         (status = -7 <-> encode_unwinds s t = true)
         /\ (status <> -7 ->
             match File.encode s t with
             | Err File.OutOfMemory => status = -5
             | Err File.WindowTooLarge => status = -4
             | Err e => status = -1 /\ (e = File.CompressionFailed \/ e = File.DecompressionFailed)
             | Ok patch =>
                 if decide (max_bytes <> 0 /\ max_bytes < zlen patch) then status = -4
                 else if decide (alloc_owner h = 0) then status = -5
                 else status = 0 /\ h' = published out patch h
             end)))
  /\ (forall source source_len patch patch_len max_bytes out,
     let s := region h source source_len in let p := region h patch patch_len in
     let '(h', status) := difz_file_apply source source_len patch patch_len max_bytes out h in
     (status <> 0 -> h' = h)
     /\ (status = -6 <-> out = 0 \/ refused source source_len \/ refused patch patch_len)
     /\ (status <> -6 ->
         (status = -7 <-> apply_unwinds s p max_bytes = true)
         /\ (status <> -7 ->
             match File.apply s p max_bytes with
             | Err (File.SizeMismatch | File.SourceHashMismatch) => status = -2
             | Err (File.WindowTooLarge | File.ResourceLimitExceeded) => status = -4
             | Err File.OutOfMemory => status = -5
             | Err _ => status = -1
             | Ok target =>
                 if decide (alloc_owner h = 0) then status = -5
                 else status = 0 /\ h' = published out target h
             end)))
  /\ (forall text len out,
     let s := region h text len in
     let '(h', status) := difz_metadata_omit_parse text len out h in
     (status <> 0 -> h' = h)
     /\ (status = -6 <-> out = 0 \/ refused text len)
     /\ (status <> -6 ->
         (status = -7 <-> parse_unwinds s = true)
         /\ (status <> -7 ->
             (forall fs, omission_list s fs -> status = 0
                /\ h' = MkHeap (memory h) (owners h) (out_slots h)
                          (<[out := OmitText.mask_of fs]> (word_slots h)))
             /\ (~ (exists fs, omission_list s fs) -> status = -1)))).
Proof.
  split_and!; intros.
  - unfold difz_file_encode. erewrite produce_regions by apply call_then. fold s t.
    case_decide as Hr; [naive_solver |].
    destruct (encode_unwinds s t); [naive_solver |]. pose proof (encode_errors s t) as He.
    destruct (File.encode s t) as [patch | e]; cbn.
    + rewrite limit_then. repeat case_decide; naive_solver.
    + destruct (He e eq_refl) as [-> | [-> | [-> | ->]]]; cbn; naive_solver.
  - unfold difz_file_apply. erewrite produce_regions by reflexivity. fold s p.
    case_decide as Hr; [naive_solver |].
    destruct (apply_unwinds s p max_bytes); [naive_solver |].
    destruct (File.apply s p max_bytes) as [target | []]; cbn; try naive_solver.
    case_decide; naive_solver.
  - unfold difz_metadata_omit_parse. rewrite guard_borrow. fold s.
    destruct (Z.eqb_spec out 0); [naive_solver |]. case_decide as Hr; [naive_solver |].
    unfold guard, and_then, call. destruct (parse_unwinds s); [naive_solver |].
    destruct (Omit.parse s) as [omit | e] eqn:Hp; cbn.
    + split_and!; [naive_solver.. |]. intros _. split; [naive_solver |]. intros _. split.
      * intros fs Hl. apply omission_parses in Hl. rewrite Hp in Hl. by injection Hl as ->.
      * intros []. apply OmitText.parse_Ok in Hp as (fs & Hd & _ & Hf). by exists fs.
    + split_and!; [naive_solver.. |]. intros _. split; [naive_solver |]. intros _.
      split; [| done]. intros fs Hl. apply omission_parses in Hl. congruence.
Qed.
End Theorems.

Section Sample.
#[local] Existing Instances plentiful toy_blake3 store_native.

#[local] Instance never_unwinds : Unwinding := {|
  encode_unwinds _ _ := false; apply_unwinds _ _ _ := false; parse_unwinds _ := false
|}.

#[local] Instance never_unwindless : Unwindless.
Proof. by constructor. Defined.

(** A machine whose caller owns the first thousand addresses, and that places
    vectors and owners past everything live. *)
#[local] Instance sample_machine : Machine := {|
  alloc_owner h := 1 + map_fold (fun p _ top => Z.max p top) 0 (owners h);
  vector_storage h _ := map_fold (fun _ b top => Z.max (as_ptr b + zlen (bbytes b)) top) 1000 (owners h);
  caller a := 0 <= a < 1000
|}.

#[local] Instance sample_laws : MachineLaws.
Proof.
  constructor.
  - intros h _. destruct (owners h !! alloc_owner h) as [b |] eqn:Hb; [| done].
    apply (fold_max_ge (fun p _ => p) 0) in Hb. revert Hb. cbn. lia.
  - intros h s. pose proof (proj1 (fold_max_ge (fun _ b => as_ptr b + zlen (bbytes b)) 1000 (owners h))). cbn. lia.
  - intros h s a. cbn. destruct (fold_max_ge (fun _ b => as_ptr b + zlen (bbytes b)) 1000 (owners h)) as [Hs Hm].
    intros Ha. split; [lia |]. intros p b Hb. specialize (Hm p b Hb). cbn in Hm. lia.
Qed.

Definition sample_heap : Heap :=
  MkHeap (store 100 File.sample_old (store 200 File.sample_new (fun _ => x00))) ∅ ∅ ∅.

Lemma sample_lent at_ s :
  region sample_heap at_ (zlen s) = s -> 0 < at_ -> at_ + zlen s <= 1000 -> lent sample_heap at_ s.
Proof.
  intros Hr Hp Hl. pose proof (zlen_nonneg s). constructor; [lia | change isize_max with (2 ^ 63 - 1); lia | done |].
  intros a Ha. cbn. lia.
Qed.

Lemma api_session_witness :
  exists h1 p h2 q,
    difz_file_encode 100 12 200 13 0 8 sample_heap = (h1, 0)
    /\ difz_file_apply 100 12 (difz_buffer_data p h1) (difz_buffer_len p h1) 0 8 h1 = (h2, 0)
    /\ input h2 (difz_buffer_data q h2) (difz_buffer_len q h2) = Ok File.sample_new.
Proof.
  assert (File.encode File.sample_old File.sample_new = Ok File.sample_delta) as He by (vm_compute; reflexivity).
  destruct (api_session File.sample_old File.sample_new 100 200 0 8 sample_heap) as (h1 & p & h2 & q & H1 & _ & H2 & _ & H3 & _).
  - intros p b Hp. exfalso. revert Hp. vm_compute. discriminate.
  - apply sample_lent; [vm_compute; reflexivity | lia | vm_compute; discriminate].
  - apply sample_lent; [vm_compute; reflexivity | lia | vm_compute; discriminate].
  - vm_compute. discriminate.
  - vm_compute. discriminate.
  - intros patch. rewrite He. intros [= <-]. vm_compute. discriminate.
  - intros h. pose proof (proj1 (fold_max_ge (fun p (_ : Buffer) => p) 0 (owners h))). cbn. lia.
  - discriminate.
  - left. reflexivity.
  - exists h1, p, h2, q. exact (conj H1 (conj H2 H3)).
Defined.

(** A core that unwinds on an empty target and on an empty list. *)
#[local] Instance sometimes_unwinds : Unwinding := {|
  encode_unwinds _ target := bool_decide (target = []);
  apply_unwinds _ _ _ := false;
  parse_unwinds text := bool_decide (text = [])
|}.

Definition omit_heap : Heap := MkHeap (store 100 (lit "acl, sparse") (fun _ => x00)) ∅ ∅ ∅.

(** A null region, a panic, a bound exceeded, a list that parses and texts that
    do not. *)
Lemma api_failures_witness :
  difz_file_encode 0 12 200 13 0 8 sample_heap = (sample_heap, -6)
  /\ difz_file_encode 100 12 200 0 0 8 sample_heap = (sample_heap, -7)
  /\ difz_file_encode 100 12 200 13 5 8 sample_heap = (sample_heap, -4)
  /\ fst (difz_metadata_omit_parse 100 12 8 sample_heap) = sample_heap
  /\ difz_metadata_omit_parse 100 11 8 omit_heap
     = (MkHeap (memory omit_heap) ∅ ∅ {[8 := OmitText.mask_of [Family.Acl; Family.Sparse]]}, 0).
Proof.
  destruct (api_failures sample_heap) as (He & _ & Ho). destruct (api_failures omit_heap) as (_ & _ & Hp).
  pose proof (He 0 12 200 13 0 8) as H1. pose proof (He 100 12 200 0 0 8) as H2.
  pose proof (He 100 12 200 13 5 8) as H3. pose proof (Ho 100 12 8) as H4. pose proof (Hp 100 11 8) as H5.
  clear He Ho Hp. split_and!.
  - destruct (difz_file_encode 0 12 200 13 0 8 sample_heap) as [h1 s1].
    assert (s1 = -6) as -> by (apply H1; right; left; right; split; [discriminate | reflexivity]).
    rewrite (proj1 H1); [reflexivity | discriminate].
  - assert (snd (difz_file_encode 100 12 200 0 0 8 sample_heap) = -7) as E by (vm_compute; reflexivity).
    destruct (difz_file_encode 100 12 200 0 0 8 sample_heap) as [h1 s1]. cbn [snd] in E. subst s1.
    rewrite (proj1 H2); [reflexivity | discriminate].
  - assert (snd (difz_file_encode 100 12 200 13 5 8 sample_heap) = -4) as E by (vm_compute; reflexivity).
    destruct (difz_file_encode 100 12 200 13 5 8 sample_heap) as [h1 s1]. cbn [snd] in E. subst s1.
    rewrite (proj1 H3); [reflexivity | discriminate].
  - assert (snd (difz_metadata_omit_parse 100 12 8 sample_heap) = -1) as E by (vm_compute; reflexivity).
    destruct (difz_metadata_omit_parse 100 12 8 sample_heap) as [h1 s1]. cbn [snd] in E. subst s1.
    rewrite (proj1 H4); [reflexivity | discriminate].
  - assert (region omit_heap 100 11 = lit "acl, sparse") as Hr by (vm_compute; reflexivity).
    assert (snd (difz_metadata_omit_parse 100 11 8 omit_heap) = 0) as E by (vm_compute; reflexivity).
    rewrite Hr in H5. destruct (difz_metadata_omit_parse 100 11 8 omit_heap) as [h1 s1]. cbn [snd] in E. subst s1.
    destruct H5 as (_ & _ & H5). destruct (H5 ltac:(discriminate)) as [_ H6].
    destruct (H6 ltac:(discriminate)) as [H7 _]. destruct (H7 [Family.Acl; Family.Sparse]) as [_ ->]; [| reflexivity].
    split; [by apply (bool_decide_unpack _) | vm_compute bool_decide; cbn iota].
    constructor; [by exists 0%nat, 0%nat |]. constructor; [by exists 1%nat, 0%nat | constructor].
Defined.
End Sample.
End Api.
