(* ===== verification/Measurement.v ===== *)
(** * The measurement harness ([rust/consumer/src/measurement.rs])

    The interleaved sweep that times the file operations: calibration, the
    order in which the sizes take turns, and the separation of timing from
    validation and destruction. [MeasurementRun] has the program around it; here
    the fixtures it produces are an argument. *)

From Stdlib Require Import SpecFloat Permutation.
From S2P Require Export File.

Module Measurement.

(** Where the harness panics: its own assertions, and the [unwrap] of a clock
    and of an operation it measures. *)
Inductive Panic : Type :=
| CountOutOfRange
| ClockStopped
| ClockFailed
| IndexOutOfBounds
| WrongOutput
| Unwrapped (e : File.Error).

#[global] Instance Panic_eq_dec : EqDecision Panic.
Proof. solve_decision. Defined.

(** ** Calibration *)

Definition TARGET_SAMPLE_NS : Z := 100000000.
Definition MAX_ITERATIONS : Z := 512.

(** [div_ceil] panics on zero; its only caller has asserted that time passed. *)
Definition div_ceil (a b : Z) : Z := if a mod b =? 0 then a / b else a / b + 1.

Definition calibrated_iterations (cpu_ns : Z) : Z :=
  Z.min (Z.max (div_ceil TARGET_SAMPLE_NS cpu_ns) 1) MAX_ITERATIONS.

(** ** Seeds and fixtures *)

Definition is_ascii_hexdigit (b : byte) : bool :=
  (48 <=? u8 b) && (u8 b <=? 57) || (65 <=? u8 b) && (u8 b <=? 70) || (97 <=? u8 b) && (u8 b <=? 102).

Definition random_seed_argument (seed : bytes) : bytes :=
  if (zlen seed =? 32) && forallb is_ascii_hexdigit seed then lit "0x" ++ seed else seed.

(** [for byte in target.iter_mut().step_by(4093) { *byte ^= 1 }] *)
Definition scattered_edits (source : bytes) : bytes :=
  imap (fun i b => if Z.of_nat i mod 4093 =? 0 then as_u8 (Z.lxor (u8 b) 1) else b) source.

(** [Operation] of [file.rs] and its registered names. *)
Inductive Operation : Type := Encode | Apply.
Definition ALL : list Operation := [Encode; Apply].
Definition name (op : Operation) : bytes :=
  match op with Encode => lit "encode" | Apply => lit "apply" end.

Record Fixture : Type := MkFixture { size : Z; source : bytes; target : bytes; patch : bytes }.

(** ** Samples *)

(** [n as f64], and the division of two such. *)
Definition as_f64 (n : Z) : spec_float := binary_normalize 53 1024 n 0 false.
Definition per_call (total iterations : Z) : spec_float := SFdiv 53 1024 (as_f64 total) (as_f64 iterations).

Record Samples : Type := MkSamples { iterations : Z; wall : list spec_float; cpu : list spec_float }.
Record Sweep : Type := MkSweep { rows : list Samples; order : list Z }.

(** The trait [Clock] over the state of the host: wall and processor time. *)
Class Clock (W : Type) := {
  Start : Type;
  start : W -> result Panic (W * Start);
  elapsed : Start -> W -> result Panic (W * (Z * Z))
}.

(** [std::time::Instant] and [cpu_time::ProcessTime], in nanoseconds; the
    system may fail to tell the processor time. *)
Class NativeTime (W : Type) := {
  Instant : Type;
  ProcessTime : Type;
  now : W -> W * Instant;
  instant_elapsed : Instant -> W -> W * Z;
  try_now : W -> W * option ProcessTime;
  try_elapsed : ProcessTime -> W -> W * option Z
}.

(** [impl Clock for NativeClock] *)
#[export] Instance NativeClock {W} `{NativeTime W} : Clock W := {|
  Start := ProcessTime * Instant;
  start w :=
    let '(w, cpu) := try_now w in
    let? cpu := ok_or ClockFailed cpu in
    let '(w, wall) := now w in
    Ok (w, (cpu, wall));
  elapsed s w :=
    let '(cpu, wall) := s in
    let '(w, wall) := instant_elapsed wall w in
    let '(w, cpu) := try_elapsed cpu w in
    let? cpu := ok_or ClockFailed cpu in
    Ok (w, (wall, cpu))
|}.

Section Sweep.
Context `{Clock W} {T : Type}.
(** The closures, and the destructor of what [work] returns. *)
Context (work : Z -> W -> result Panic (W * T)) (verify : Z -> T -> W -> result Panic W).
Context (release : T -> W -> W).

(** [verify(row, &work(row));] *)
Definition warm (row : Z) (w : W) (_ : Z) : result Panic W :=
  let? (w, output) := work row w in
  let? w := verify row output w in
  Ok (release output w).

(** One row of the first loop. *)
Definition calibrate (st : W * list Samples) (row : Z) : result Panic (W * list Samples) :=
  let '(w, rows) := st in
  let? w := foldM (warm row) w (seqZ 0 3) in
  let? (w, s) := start w in
  let? (w, calibrated) := work row w in
  let? (w, (_, cpu)) := elapsed s w in
  let? _ := fail_if (negb (0 <? cpu)) ClockStopped in
  let? w := verify row calibrated w in
  let w := release calibrated w in
  Ok (w, rows ++ [MkSamples (calibrated_iterations cpu) [] []]).

(** One timed call; the sums are [u128], and the build is a release build. *)
Definition timed (row : Z) (st : W * Z * Z) (_ : Z) : result Panic (W * Z * Z) :=
  let '(w, wall, cpu) := st in
  let? (w, s) := start w in
  let? (w, output) := work row w in
  let? (w, (elapsed_wall, elapsed_cpu)) := elapsed s w in
  let wall := (wall + elapsed_wall) mod 2 ^ 128 in
  let cpu := (cpu + elapsed_cpu) mod 2 ^ 128 in
  let? w := verify row output w in
  Ok (release output w, wall, cpu).

(** Whose turn it is: the rounds rotate the rows, forwards and backwards. *)
Definition turn_row (count round position : Z) : Z :=
  if round mod 2 =? 0 then (round + position) mod count else (round + count - position) mod count.

Definition SweepState : Type := W * list Samples * list Z.

Definition sample (count round : Z) (st : SweepState) (position : Z) : result Panic SweepState :=
  let '(w, rows, order) := st in
  let row := turn_row count round position in
  let order := order ++ [row] in
  let? samples := ok_or IndexOutOfBounds (rows !! Z.to_nat row) in
  let? (w, total_wall, total_cpu) := foldM (timed row) (w, 0, 0) (seqZ 0 (iterations samples)) in
  let? _ := fail_if (negb ((0 <? total_wall) && (0 <? total_cpu))) ClockStopped in
  let samples :=
    MkSamples (iterations samples)
      (wall samples ++ [per_call total_wall (iterations samples)])
      (cpu samples ++ [per_call total_cpu (iterations samples)]) in
  Ok (w, <[Z.to_nat row := samples]> rows, order).

Definition sample_rows (count : Z) (w : W) : result Panic (W * Sweep) :=
  let? _ := fail_if (negb ((1 <=? count) && (count <=? 16))) CountOutOfRange in
  let? (w, rows) := foldM calibrate (w, []) (seqZ 0 count) in
  let? (w, rows, order) :=
    foldM (fun st round => foldM (sample count round) st (seqZ 0 count)) (w, rows, []) (seqZ 0 5) in
  Ok (w, MkSweep rows order).
End Sweep.

Section Run.
Context `{Allocator, Blake3, Zstd, Clock W}.

Definition execute (op : Operation) (f : Fixture) : result Panic bytes :=
  map_err Unwrapped
    match op with
    | Encode => File.encode (source f) (target f)
    | Apply => File.apply (source f) (patch f) 0
    end.

Definition expected (op : Operation) (f : Fixture) : bytes :=
  match op with Encode => patch f | Apply => target f end.

(** The closures [run] passes to [sample_rows]. *)
Definition work_on (op : Operation) (fixtures : list Fixture) (index : Z) (w : W) : result Panic (W * bytes) :=
  let? f := ok_or IndexOutOfBounds (fixtures !! Z.to_nat index) in
  let? output := execute op f in
  Ok (w, output).

Definition verify_on (op : Operation) (fixtures : list Fixture) (index : Z) (output : bytes) (w : W) :
    result Panic W :=
  let? f := ok_or IndexOutOfBounds (fixtures !! Z.to_nat index) in
  let? _ := fail_if (negb (bool_decide (output = expected op f))) WrongOutput in
  Ok w.

(** The sweep of [run], over the fixtures it has built. *)
Definition measure (op : Operation) (fixtures : list Fixture) (w : W) : result Panic (W * Sweep) :=
  sample_rows (work_on op fixtures) (verify_on op fixtures) (fun _ w => w) (zlen fixtures) w.
End Run.

(** ** Calibration is the smallest bounded batch *)

Lemma div_ceil_spec a b : 0 < b -> (div_ceil a b - 1) * b < a <= div_ceil a b * b.
Proof.
  intros Hb. unfold div_ceil. pose proof (Z.div_mod a b ltac:(lia)) as Hd.
  pose proof (Z.mod_pos_bound a b Hb). destruct (Z.eqb_spec (a mod b) 0); nia.
Qed.

(** A batch meets the target unless it is the largest, and no smaller one does. *)
Definition smallest_batch (n c : Z) : Prop :=
  1 <= n <= MAX_ITERATIONS
  /\ (c * MAX_ITERATIONS < TARGET_SAMPLE_NS -> n = MAX_ITERATIONS)
  /\ (TARGET_SAMPLE_NS <= c * MAX_ITERATIONS ->
      TARGET_SAMPLE_NS <= n * c /\ (n = 1 \/ (n - 1) * c < TARGET_SAMPLE_NS)).

Lemma calibrated_smallest c : 0 < c -> smallest_batch (calibrated_iterations c) c.
Proof.
  intros Hc. pose proof (div_ceil_spec TARGET_SAMPLE_NS c Hc) as Hd.
  unfold smallest_batch, calibrated_iterations, MAX_ITERATIONS in *.
  assert (1 <= div_ceil TARGET_SAMPLE_NS c) by (unfold TARGET_SAMPLE_NS in *; nia).
  set (d := div_ceil TARGET_SAMPLE_NS c) in *. set (t := TARGET_SAMPLE_NS) in *.
  rewrite Z.max_l by lia. destruct (Z.min_spec d 512) as [[Hl ->] | [Hl ->]].
  - split; [lia |]. split; [nia |]. intros _. split; [lia | right; lia].
  - split; [lia |]. split; [done |]. intros Ht. split; [lia | right; nia].
Qed.

(** ** The order of a sweep *)

Definition round_order (count round : Z) : list Z := turn_row count round <$> seqZ 0 count.
Definition schedule (count rounds : Z) : list Z := seqZ 0 rounds ≫= round_order count.

Lemma turn_row_range count round position : 0 < count -> 0 <= turn_row count round position < count.
Proof. intros Hc. unfold turn_row. destruct (_ =? 0); by apply Z.mod_pos_bound. Qed.

(** Even rounds go forwards and odd ones backwards, each from one row further. *)
Lemma round_order_lookup count round p :
  0 <= p < count -> round_order count round !! Z.to_nat p
    = Some (if Z.even round then (round + p) mod count else (round - p) mod count).
Proof.
  intros Hp. unfold round_order. rewrite list_lookup_fmap.
  rewrite (proj2 (lookup_seqZ 0 count (Z.to_nat p) p)) by lia. cbn [fmap option_fmap option_map]. f_equal.
  unfold turn_row. rewrite Zmod_even. destruct (Z.even round); [done |]. cbn [Z.eqb].
  replace (round + count - p) with (round - p + 1 * count) by lia. apply Z.mod_add. lia.
Qed.

(** Every round gives every row one turn. *)
Lemma round_order_permutation count round : 0 < count -> seqZ 0 count ≡ₚ round_order count round.
Proof.
  intros Hc. apply submseteq_length_Permutation.
  - apply NoDup_submseteq; [apply NoDup_seqZ |]. intros x Hx%elem_of_seqZ. apply list_elem_of_fmap.
    unfold turn_row. destruct (round mod 2 =? 0).
    + exists ((x - round) mod count). rewrite Z.add_mod_idemp_r by lia. split.
      * replace (round + (x - round)) with x by lia. symmetry. apply Z.mod_small. lia.
      * apply elem_of_seqZ. pose proof (Z.mod_pos_bound (x - round) count Hc). lia.
    + exists ((round - x) mod count). rewrite Zminus_mod_idemp_r. split.
      * replace (round + count - (round - x)) with (x + 1 * count) by lia. rewrite Z.mod_add by lia.
        symmetry. apply Z.mod_small. lia.
      * apply elem_of_seqZ. pose proof (Z.mod_pos_bound (round - x) count Hc). lia.
  - unfold round_order. by rewrite length_fmap.
Qed.

(** How often a row has had its turn. *)
Definition turns (row : Z) (order : list Z) : nat := length (filter (fun x => x = row) order).

Lemma turns_app row a b : turns row (a ++ b) = (turns row a + turns row b)%nat.
Proof. unfold turns. by rewrite list.filter_app, length_app. Qed.

Lemma turns_round row count round : 0 <= row < count -> turns row (round_order count round) = 1%nat.
Proof.
  intros Hr. unfold turns. rewrite <- round_order_permutation by lia.
  replace 1%nat with (length [row]) by done. apply Permutation_length.
  apply NoDup_Permutation; [apply list.NoDup_filter, NoDup_seqZ | apply NoDup_singleton |].
  intros x. rewrite list_elem_of_filter, elem_of_seqZ, list_elem_of_singleton. lia.
Qed.

Lemma schedule_S count n : schedule count (Z.of_nat (S n)) = schedule count (Z.of_nat n) ++ round_order count (Z.of_nat n).
Proof.
  unfold schedule. rewrite seqZ_S, bind_app. cbn. by rewrite app_nil_r.
Qed.

Lemma turns_schedule row count n : 0 <= row < count -> turns row (schedule count (Z.of_nat n)) = n.
Proof.
  intros Hr. induction n as [| n IH]; [done |]. rewrite schedule_S, turns_app, IH, turns_round by done. lia.
Qed.

(** ** The protocol of a sweep *)

(** Nanoseconds of a [Duration]: those of 64-bit seconds. *)
Definition nanos (n : Z) : Prop := 0 < n < 2 ^ 94.

(** What the clock and the closures are to each other: a clock that is started
    only when nothing runs and no output is alive, work that is done once per
    start and read off before anything else, and outputs that are checked and
    destroyed with the clock stopped. *)
Record Probe `{Clock W} {T : Type}
    (work : Z -> W -> result Panic (W * T)) (verify : Z -> T -> W -> result Panic W) (release : T -> W -> W)
    (idle : W -> Prop) (running : Start -> W -> Prop) (worked : Z -> Start -> T -> W -> Prop)
    (held : Z -> T -> W -> Prop) (count : Z) : Prop := {
  probe_start w : idle w -> exists w' s, start w = Ok (w', s) /\ running s w';
  probe_warm row w : 0 <= row < count -> idle w ->
    exists w' t, work row w = Ok (w', t) /\ held row t w';
  probe_work row s w : 0 <= row < count -> running s w ->
    exists w' t, work row w = Ok (w', t) /\ worked row s t w';
  probe_elapsed row s t w : worked row s t w ->
    exists w' wall cpu, elapsed s w = Ok (w', (wall, cpu)) /\ held row t w' /\ nanos wall /\ nanos cpu;
  probe_verify row t w : held row t w -> exists w', verify row t w = Ok w' /\ held row t w';
  probe_release row t w : held row t w -> idle (release t w)
}.

(** What the clock said of one call: wall and processor time. *)
Definition Reading : Type := Z * Z.

(** What a sweep does to the host: calls that are not timed, and calls between
    a start of the clock and its reading. *)
Inductive Event : Type := Warm (row : Z) | Timed (row : Z) (r : Reading).

Section Events.
Context `{Clock W} {T : Type}.
Context (work : Z -> W -> result Panic (W * T)) (verify : Z -> T -> W -> result Panic W) (release : T -> W -> W).

(** An output is checked and destroyed. *)
Definition checked (row : Z) (t : T) (w w' : W) : Prop :=
  exists w1, verify row t w = Ok w1 /\ w' = release t w1.

Definition happens (e : Event) (w w' : W) : Prop :=
  match e with
  | Warm row => exists w1 t, work row w = Ok (w1, t) /\ checked row t w1 w'
  | Timed row r =>
      exists w1 s w2 t w3, start w = Ok (w1, s) /\ work row w1 = Ok (w2, t)
        /\ elapsed s w2 = Ok (w3, r) /\ checked row t w3 w'
  end.

Fixpoint history (es : list Event) (w w' : W) : Prop :=
  match es with
  | [] => w = w'
  | e :: es => exists w1, happens e w w1 /\ history es w1 w'
  end.

Lemma history_app es es' w w1 w' : history es w w1 -> history es' w1 w' -> history (es ++ es') w w'.
Proof.
  revert w. induction es as [| e es IH]; intros w; cbn; [by intros -> |].
  intros (w2 & He & Hes) Hes'. eauto.
Qed.

Lemma history_1 e w w' : happens e w w' -> history [e] w w'.
Proof. intros He. by exists w'. Qed.
End Events.

(** The first loop: three calls of a row, and one more that calibrates it. *)
Definition calibration_events (row : nat) (r : Reading) : list Event :=
  [Warm (Z.of_nat row); Warm (Z.of_nat row); Warm (Z.of_nat row); Timed (Z.of_nat row) r].

(** The second: a row's turn is its batch of readings. *)
Definition batch_events (batch : Z * list Reading) : list Event := Timed (fst batch) <$> snd batch.

Definition sweep_events (calibrations : list Reading) (batches : list (Z * list Reading)) : list Event :=
  concat (imap calibration_events calibrations) ++ (batches ≫= batch_events).

(** The batches of one row. *)
Definition batches_of (row : Z) (batches : list (Z * list Reading)) : list (list Reading) :=
  snd <$> filter (fun b => fst b = row) batches.

Definition total (f : Reading -> Z) (batch : list Reading) : Z := foldr (fun r n => f r + n) 0 batch.

Lemma batches_of_turns row batches : length (batches_of row batches) = turns row (fst <$> batches).
Proof.
  unfold batches_of, turns. rewrite length_fmap. induction batches as [| [r b] l IH]; [done |].
  cbn [fmap list_fmap fst]. destruct (decide (r = row)).
  - rewrite !filter_cons_True by done. cbn. by rewrite IH.
  - by rewrite !filter_cons_False by done.
Qed.

(** What a row's numbers are, by what the clock said: the iterations come from
    the processor time of its calibration, and a sample from the sum over its
    batch of so many calls. *)
Record sampled (calibration : Reading) (batches : list (list Reading)) (s : Samples) : Prop := {
  sampled_iterations : iterations s = calibrated_iterations (snd calibration);
  sampled_batch : smallest_batch (iterations s) (snd calibration);
  sampled_size : Forall (fun b => zlen b = iterations s) batches;
  sampled_wall : wall s = (fun b => per_call (total fst b) (iterations s)) <$> batches;
  sampled_cpu : cpu s = (fun b => per_call (total snd b) (iterations s)) <$> batches
}.

Section Protocol.
Context `{Clock W} {T : Type}.
Context (work : Z -> W -> result Panic (W * T)) (verify : Z -> T -> W -> result Panic W) (release : T -> W -> W).
Context (idle : W -> Prop) (running : Start -> W -> Prop) (worked : Z -> Start -> T -> W -> Prop).
Context (held : Z -> T -> W -> Prop) (count : Z).
Context (Hp : Probe work verify release idle running worked held count).

(** One start, one call, one reading. *)
Lemma probe_call row w :
  0 <= row < count -> idle w ->
  exists w1 s w2 t w3 ew ec w4,
    start w = Ok (w1, s) /\ work row w1 = Ok (w2, t) /\ elapsed s w2 = Ok (w3, (ew, ec))
    /\ verify row t w3 = Ok w4 /\ idle (release t w4) /\ nanos ew /\ nanos ec
    /\ history work verify release [Timed row (ew, ec)] w (release t w4).
Proof using Hp.
  intros Hr Hw. destruct (probe_start _ _ _ _ _ _ _ _ Hp w Hw) as (w1 & s & Hs & Hrun).
  destruct (probe_work _ _ _ _ _ _ _ _ Hp row s w1 Hr Hrun) as (w2 & t & Ht & Hk).
  destruct (probe_elapsed _ _ _ _ _ _ _ _ Hp row s t w2 Hk) as (w3 & ew & ec & He & Hh & Hew & Hec).
  destruct (probe_verify _ _ _ _ _ _ _ _ Hp row t w3 Hh) as (w4 & Hv & Hh').
  exists w1, s, w2, t, w3, ew, ec, w4. split_and!; [done.. | | done | done |].
  - by apply (probe_release _ _ _ _ _ _ _ _ Hp row).
  - apply history_1. exists w1, s, w2, t, w3. split_and!; [done.. |]. by exists w4.
Qed.

Lemma warm_run row w i :
  0 <= row < count -> idle w ->
  exists w', warm work verify release row w i = Ok w' /\ idle w' /\ history work verify release [Warm row] w w'.
Proof using Hp.
  intros Hr Hw. unfold warm. destruct (probe_warm _ _ _ _ _ _ _ _ Hp row w Hr Hw) as (w1 & t & Ht & Hh).
  rewrite Ht. cbn [rbind]. destruct (probe_verify _ _ _ _ _ _ _ _ Hp row t w1 Hh) as (w2 & Hv & Hh').
  rewrite Hv. cbn [rbind]. eexists. split; [done |]. split; [by apply (probe_release _ _ _ _ _ _ _ _ Hp row) |].
  apply history_1. exists w1, t. split; [done |]. by exists w2.
Qed.

Lemma calibrate_run row w rows :
  Z.of_nat row < count -> idle w ->
  exists w' s c, calibrate work verify release (w, rows) (Z.of_nat row) = Ok (w', rows ++ [s])
    /\ idle w' /\ sampled c [] s /\ history work verify release (calibration_events row c) w w'.
Proof using Hp.
  intros Hr Hw. unfold calibrate. set (z := Z.of_nat row) in *.
  change (seqZ 0 3) with [0; 1; 2]. cbn [foldM].
  destruct (warm_run z w 0) as (w1 & -> & Hw1 & H1); [lia | done |]. cbn [rbind].
  destruct (warm_run z w1 1) as (w2 & -> & Hw2 & H2); [lia | done |]. cbn [rbind].
  destruct (warm_run z w2 2) as (w3 & -> & Hw3 & H3); [lia | done |]. cbn [rbind].
  destruct (probe_call z w3) as (w4 & s & w5 & t & w6 & ew & ec & w7 & -> & Ht & He & Hv & Hi & _ & [Hec _] & H4);
    [lia | done |].
  cbn [rbind]. rewrite Ht. cbn [rbind]. rewrite He. cbn [rbind].
  rewrite (proj2 (Z.ltb_lt 0 ec)) by done. cbn [negb fail_if rbind]. rewrite Hv. cbn [rbind].
  eexists _, _, (ew, ec). split; [done |]. split_and!; [done | |].
  - constructor; cbn; [done | by apply calibrated_smallest | constructor | done | done].
  - exact (history_app _ _ _ [Warm z] _ _ _ _ H1 (history_app _ _ _ [Warm z] _ _ _ _ H2
      (history_app _ _ _ [Warm z] _ _ _ _ H3 H4))).
Qed.

Lemma total_app f a b : total f (a ++ b) = total f a + total f b.
Proof. unfold total. induction a as [| r a IH]; cbn; [done | lia]. Qed.

(** A batch: its totals are the sums of what the clock said, and neither vanish
    nor overflow. *)
Lemma batch_run row w n :
  0 <= row < count -> 1 <= n <= MAX_ITERATIONS -> idle w ->
  exists w' batch,
    foldM (timed work verify release row) (w, 0, 0) (seqZ 0 n) = Ok (w', total fst batch, total snd batch)
    /\ idle w' /\ zlen batch = n /\ 0 < total fst batch /\ 0 < total snd batch
    /\ history work verify release (batch_events (row, batch)) w w'.
Proof using Hp.
  intros Hr Hn Hw. unfold MAX_ITERATIONS in Hn.
  destruct (foldM_run (timed work verify release row)
    (fun i st => exists batch, idle (fst (fst st)) /\ length batch = i
       /\ snd (fst st) = total fst batch /\ snd st = total snd batch
       /\ (forall t, t = snd (fst st) \/ t = snd st -> Z.of_nat i <= t <= Z.of_nat i * 2 ^ 94)
       /\ history work verify release (batch_events (row, batch)) w (fst (fst st))) (w, 0, 0) (seqZ 0 n))
    as ([[w' tw] tc] & Hf & batch & Hi & Hl & Hw' & Hc' & Ht & Hh).
  { exists []. cbn. split_and!; [done.. | lia | done]. }
  { intros i x [[w1 tw] tc] Hx (batch & Hi & Hl & Hw1 & Hc1 & Ht & Hh). cbn [fst snd] in *. unfold timed.
    apply lookup_seqZ in Hx as [_ Hx]. pose proof (Ht tw ltac:(auto)). pose proof (Ht tc ltac:(auto)).
    destruct (probe_call row w1 Hr Hi)
      as (w2 & s & w3 & t & w4 & ew & ec & w5 & -> & Hk & He & Hv & Hi5 & Hew & Hec & Hone).
    cbn [rbind]. rewrite Hk. cbn [rbind]. rewrite He. cbn [rbind]. rewrite Hv. cbn [rbind].
    unfold nanos in *. eexists. split; [done |].
    exists (batch ++ [(ew, ec)]). cbn [fst snd]. rewrite !total_app, length_app. cbn.
    rewrite !Z.mod_small by lia. split_and!; [done | lia.. | |].
    - intros t' [-> | ->]; lia.
    - unfold batch_events. cbn [fst snd]. rewrite fmap_app. by eapply history_app. }
  cbn [fst snd] in *. rewrite length_seqZ in Ht, Hl. exists w', batch. subst tw tc.
  pose proof (Ht (total fst batch) ltac:(auto)). pose proof (Ht (total snd batch) ltac:(auto)).
  unfold zlen. split_and!; [done | done | lia.. | done].
Qed.

(** The state of a sweep after the turns whose batches are given. *)
Definition progress (w0 : W) (calibrations : list Reading) (batches : list (Z * list Reading))
    (st : @SweepState W) : Prop :=
  let '(w, rows, order) := st in
  idle w /\ order = fst <$> batches /\ length rows = length calibrations
  /\ history work verify release (sweep_events calibrations batches) w0 w
  /\ forall j s c, rows !! j = Some s -> calibrations !! j = Some c ->
       sampled c (batches_of (Z.of_nat j) batches) s.

Lemma sampled_more c bs s b :
  sampled c bs s -> zlen b = iterations s ->
  sampled c (bs ++ [b]) (MkSamples (iterations s) (wall s ++ [per_call (total fst b) (iterations s)])
    (cpu s ++ [per_call (total snd b) (iterations s)])).
Proof.
  intros [Hi Hb Hz Hw Hc] Hl. constructor; cbn; [done | done | | by rewrite fmap_app, Hw | by rewrite fmap_app, Hc].
  apply Forall_app. split; [done | by constructor].
Qed.

Lemma batches_of_app row a b : batches_of row (a ++ b) = batches_of row a ++ batches_of row b.
Proof. unfold batches_of. by rewrite list.filter_app, fmap_app. Qed.

Lemma sample_run w0 calibrations batches round st position :
  0 < count -> zlen calibrations = count -> progress w0 calibrations batches st ->
  exists st' batch, sample work verify release count round st position = Ok st'
    /\ progress w0 calibrations (batches ++ [(turn_row count round position, batch)]) st'.
Proof using Hp.
  intros Hc Hcal. destruct st as [[w rows] order]. intros (Hw & -> & Hl & Hh & Hs). unfold sample.
  pose proof (turn_row_range count round position Hc) as Hr. set (row := turn_row count round position) in *.
  destruct (lookup_lt_is_Some_2 calibrations (Z.to_nat row)) as [c Hrowc]; [unfold zlen in Hcal; lia |].
  destruct (lookup_lt_is_Some_2 rows (Z.to_nat row)) as [s Hrow]; [unfold zlen in Hcal; lia |].
  rewrite Hrow. cbn [ok_or rbind]. pose proof (Hs _ _ _ Hrow Hrowc) as Hsam. rewrite Z2Nat.id in Hsam by lia.
  destruct (sampled_batch _ _ _ Hsam) as [Hn _].
  destruct (batch_run row w (iterations s) Hr Hn Hw) as (w' & batch & -> & Hw' & Hz & Htw & Htc & Hb). cbn [rbind].
  rewrite !(proj2 (Z.ltb_lt 0 _)) by lia. cbn [andb negb fail_if rbind]. eexists _, batch. split; [done |].
  unfold progress. split_and!; [done | by rewrite fmap_app | by rewrite length_insert | |].
  - unfold sweep_events. rewrite bind_app, app_assoc. cbn [mbind list_bind]. rewrite app_nil_r.
    by eapply history_app.
  - intros j s' c' Hj Hjc. rewrite batches_of_app. apply list_lookup_insert_Some in Hj as [(<- & <- & _) | [Hne Hj]].
    + rewrite Z2Nat.id by lia. assert (c' = c) as -> by congruence.
      unfold batches_of at 2. rewrite filter_cons_True, filter_nil by done. by apply sampled_more.
    + unfold batches_of at 2. rewrite filter_cons_False, filter_nil; [rewrite app_nil_r; by apply Hs |].
      cbn. intros E. apply Hne. lia.
Qed.

Lemma round_run w0 calibrations batches round st :
  0 < count -> zlen calibrations = count -> progress w0 calibrations batches st ->
  exists st' more, foldM (sample work verify release count round) st (seqZ 0 count) = Ok st'
    /\ fst <$> more = round_order count round /\ progress w0 calibrations (batches ++ more) st'.
Proof using Hp.
  intros Hc Hcal Hst.
  destruct (foldM_run (sample work verify release count round)
    (fun i st => exists more, fst <$> more = turn_row count round <$> seqZ 0 (Z.of_nat i)
       /\ progress w0 calibrations (batches ++ more) st) st (seqZ 0 count))
    as (st' & Hf & more & Hm & Hi).
  - exists []. split; [done |]. by rewrite app_nil_r.
  - intros i x st1 Hx (more & Hm & H1). apply lookup_seqZ in Hx as [-> Hx].
    destruct (sample_run w0 calibrations _ round st1 (0 + Z.of_nat i) Hc Hcal H1) as (st2 & batch & Hs & H2).
    exists st2. split; [exact Hs |]. exists (more ++ [(turn_row count round (0 + Z.of_nat i), batch)]).
    rewrite seqZ_S, !fmap_app, Hm. split; [done |]. by rewrite app_assoc.
  - exists st', more. rewrite length_seqZ, Z2Nat.id in Hm by lia. done.
Qed.

Lemma calibrations_run w :
  0 <= count -> idle w ->
  exists w' rows calibrations,
    foldM (calibrate work verify release) (w, []) (seqZ 0 count) = Ok (w', rows)
    /\ zlen calibrations = count /\ progress w calibrations [] (w', rows, []).
Proof using Hp.
  intros Hc Hw.
  destruct (foldM_run (calibrate work verify release)
    (fun i st => exists calibrations, length calibrations = i /\ progress w calibrations [] (st, []))
    (w, []) (seqZ 0 count)) as ([w1 rows1] & Hf & cs & Hl & Hs).
  { by exists []. }
  { intros i x [w2 rows2] Hx (cs & Hl & Hw2 & _ & Hl2 & Hh & Hs2). apply lookup_seqZ in Hx as [-> Hx]. rewrite Z.add_0_l.
    destruct (calibrate_run i w2 rows2 ltac:(lia) Hw2) as (w3 & s & c & -> & Hw3 & Hs & Hh3).
    eexists. split; [done |]. exists (cs ++ [c]). rewrite length_app. cbn [length]. split; [lia |].
    unfold progress. split_and!; [done | done | rewrite !length_app; cbn; lia | |].
    - unfold sweep_events. cbn [mbind list_bind]. rewrite app_nil_r, imap_app, concat_app. cbn [imap concat].
      rewrite app_nil_r, Nat.add_0_r, Hl. eapply history_app; [| exact Hh3].
      unfold sweep_events in Hh. by rewrite app_nil_r in Hh.
    - intros j s' c' [Hj | [Hj Hs']]%lookup_app_Some Hc'.
      + rewrite lookup_app_l in Hc' by (apply lookup_lt_Some in Hj; lia). by apply (Hs2 j).
      + rewrite lookup_app_r in Hc' by lia. apply list_lookup_singleton_Some in Hs' as [_ <-].
        by apply list_lookup_singleton_Some in Hc' as [_ <-]. }
  rewrite length_seqZ in Hl. exists w1, rows1, cs. unfold zlen. split_and!; [done | lia | done].
Qed.

Lemma sample_rows_run w :
  1 <= count <= 16 -> idle w ->
  exists w' sweep calibrations batches,
    sample_rows work verify release count w = Ok (w', sweep)
    /\ fst <$> batches = schedule count 5 /\ zlen calibrations = count
    /\ progress w calibrations batches (w', rows sweep, order sweep).
Proof using Hp.
  intros Hc Hw. unfold sample_rows.
  rewrite (proj2 (Z.leb_le 1 count)), (proj2 (Z.leb_le count 16)) by lia. cbn [andb negb fail_if rbind].
  destruct (calibrations_run w ltac:(lia) Hw) as (w1 & rows1 & cs & -> & Hcs & H1). cbn [rbind].
  destruct (foldM_run (fun st round => foldM (sample work verify release count round) st (seqZ 0 count))
    (fun i st => exists batches, fst <$> batches = schedule count (Z.of_nat i) /\ progress w cs batches st)
    (w1, rows1, []) (seqZ 0 5)) as ([[w2 rows2] order2] & -> & batches & Hb & H2).
  - by exists [].
  - intros i x st Hx (batches & Hb & Hst). apply lookup_seqZ in Hx as [-> Hx].
    destruct (round_run w cs batches (0 + Z.of_nat i) st ltac:(lia) Hcs Hst) as (st' & more & Hf & Hm & Hst').
    exists st'. split; [exact Hf |]. exists (batches ++ more). by rewrite schedule_S, fmap_app, Hb, Hm.
  - cbn [rbind]. by eexists _, _, cs, batches.
Qed.
End Protocol.

(** C38: A sweep of 1 to 16 rows over a working clock completes, and its report
    is what the clock said. What happens to the host is, in this order: every
    row is called three times untimed and once to calibrate it, and then every
    row has one turn in each of five rounds, alternately forwards and backwards
    and each from one row further, a turn being as many timed calls as the row
    has iterations. A timed call is one start of the clock, one run
    of the work and one reading; its output is checked and destroyed only
    then, and before the next start. The iterations of a row are those of the
    processor time measured in its own calibration, the smallest batch of at
    most 512 calls that meets the target; and a sample is the sum of its turn's
    readings, of the one clock or the other, divided by them. *)
Theorem sweep_protocol `{Clock W} {T} work verify (release : T -> W -> W) idle running worked held count w :
  Probe work verify release idle running worked held count ->
  1 <= count <= 16 -> idle w ->
  exists w' sweep calibrations batches,
    sample_rows work verify release count w = Ok (w', sweep) /\ idle w'
    /\ history work verify release (sweep_events calibrations batches) w w'
    /\ fst <$> batches = order sweep
    /\ order sweep = seqZ 0 5 ≫= round_order count
    /\ (forall round p, 0 <= p < count -> round_order count round !! Z.to_nat p
          = Some (if Z.even round then (round + p) mod count else (round - p) mod count))
    /\ (forall round, round_order count round ≡ₚ seqZ 0 count)
    /\ zlen (rows sweep) = count /\ zlen calibrations = count
    /\ (forall row s c, rows sweep !! row = Some s -> calibrations !! row = Some c ->
        length (batches_of (Z.of_nat row) batches) = 5%nat
        /\ sampled c (batches_of (Z.of_nat row) batches) s).
Proof.
  intros Hp Hc Hw.
  destruct (sample_rows_run work verify release idle running worked held count Hp w Hc Hw)
    as (w' & sweep & cs & batches & Hs & Hb & Hcs & Hw' & Ho & Hl & Hh & Hf).
  exists w', sweep, cs, batches. split_and!; [done.. | by rewrite Ho, Hb | | | unfold zlen in *; lia | done |].
  1: intros; apply round_order_lookup; lia.
  2: { intros row s c Hr Hc'. split; [| by apply Hf]. rewrite batches_of_turns, Hb.
       apply turns_schedule with (n := 5%nat). apply lookup_lt_Some in Hr. unfold zlen in *; lia. }
  intros round. symmetry. apply round_order_permutation. lia.
Qed.

(** ** The sweep of the file operations *)

(** A clock that answers, and has advanced whenever it is read after it was
    started. *)
Class ClockLaws `{Clock W} := {
  clock_running : Start -> W -> Prop;
  clock_starts w : exists w' s, start w = Ok (w', s) /\ clock_running s w';
  clock_advances s w : clock_running s w ->
    exists w' wall cpu, elapsed s w = Ok (w', (wall, cpu)) /\ nanos wall /\ nanos cpu
}.

(** A fixture as the harness builds it, its patch from an encoder that agrees
    with this one. *)
Definition fixture_ok `{Allocator, Blake3, Zstd} (f : Fixture) : Prop :=
  zlen (source f) <= Zstdz.MAX_INPUT_LEN /\ target f = scattered_edits (source f)
  /\ File.encode (source f) (target f) = Ok (patch f).

Section Composed.
Context `{Allocator, Blake3, Zstd, Clock W}.

Lemma execute_expected `{!ZstdRoundTrip, !AllocatorTotal} op f :
  fixture_ok f -> execute op f = Ok (expected op f).
Proof.
  intros (_ & _ & He). unfold execute. destruct op; [by rewrite He |].
  by rewrite (File.apply_encode_run (source f) (target f) (patch f) 0 He) by auto.
Qed.

(** The closures of [run] over correct fixtures keep the protocol. *)
Lemma probe_fixtures `{!ClockLaws} op fixtures :
  Forall (fun f => execute op f = Ok (expected op f)) fixtures ->
  Probe (work_on op fixtures) (verify_on op fixtures) (fun _ w => w)
    (fun _ => True) clock_running
    (fun row s t w => clock_running s w /\ exists f, fixtures !! Z.to_nat row = Some f /\ t = expected op f)
    (fun row t _ => exists f, fixtures !! Z.to_nat row = Some f /\ t = expected op f) (zlen fixtures).
Proof.
  intros Hf.
  assert (forall row (w : W), 0 <= row < zlen fixtures -> exists t, work_on op fixtures row w = Ok (w, t)
    /\ exists f, fixtures !! Z.to_nat row = Some f /\ t = expected op f) as Hwork.
  { intros row w Hr. destruct (lookup_lt_is_Some_2 fixtures (Z.to_nat row)) as [f Hl]; [unfold zlen in Hr; lia |].
    unfold work_on. rewrite Hl. cbn [ok_or rbind].
    rewrite list.Forall_lookup in Hf. rewrite (Hf _ _ Hl). cbn [rbind]. eauto 6. }
  constructor.
  - intros w _. apply clock_starts.
  - intros row w Hr _. destruct (Hwork row w Hr) as (t & Ht). eauto.
  - intros row s w Hr Hs. destruct (Hwork row w Hr) as (t & Ht & Hk). eauto 6.
  - intros row s t w [Hs Hk]. destruct (clock_advances s w Hs) as (w' & ew & ec & He & Hew & Hec). eauto 8.
  - intros row t w (f & Hl & ->). exists w. unfold verify_on. rewrite Hl. cbn [ok_or rbind].
    rewrite bool_decide_eq_true_2 by done. cbn [negb fail_if rbind]. eauto.
  - done.
Qed.

(** A sweep that completes has checked every fixture. *)
Lemma measure_sound op fixtures w r :
  measure op fixtures w = Ok r -> Forall (fun f => execute op f = Ok (expected op f)) fixtures.
Proof.
  intros Hm. apply list.Forall_lookup. intros i f Hf. unfold measure, sample_rows in Hm.
  apply rbind_Ok in Hm as (_ & _ & Hm). apply rbind_Ok in Hm as (st & Hc & _).
  destruct (foldM_each _ _ _ _ (Z.of_nat i) Hc) as ([w1 rows1] & st2 & Hs).
  { apply elem_of_seqZ. apply lookup_lt_Some in Hf. unfold zlen. lia. }
  unfold calibrate in Hs. apply rbind_Ok in Hs as (w2 & Hw & _).
  destruct (foldM_each _ _ _ _ 0 Hw) as (w3 & w4 & Hw'); [by apply elem_of_seqZ |]. clear Hw. rename Hw' into Hw.
  unfold warm, work_on, verify_on in Hw. rewrite Nat2Z.id, Hf in Hw. cbn [ok_or rbind] in Hw.
  destruct (execute op f) as [output | e]; [| done]. cbn [rbind ok_or] in Hw.
  destruct (decide (output = expected op f)) as [-> | Hne]; [done |].
  by rewrite bool_decide_eq_false_2 in Hw by done.
Qed.

(** A measurement is reported exactly when every fixture's operation gives
    the expected output, the native patch for encoding and the target for
    applying; in particular over fixtures whose native patch is the one this
    encoder makes. *)
Lemma measure_correct `{!ClockLaws} op fixtures (w : W) :
  1 <= zlen fixtures <= 16 ->
  ((exists r, measure op fixtures w = Ok r) <->
     Forall (fun f => execute op f = Ok (expected op f)) fixtures)
  /\ (ZstdRoundTrip -> AllocatorTotal -> Forall fixture_ok fixtures ->
     exists r, measure op fixtures w = Ok r).
Proof.
  intros Hl.
  assert (Forall (fun f => execute op f = Ok (expected op f)) fixtures ->
    exists r, measure op fixtures w = Ok r) as Hrun.
  { intros Hf. destruct (sample_rows_run _ _ _ _ _ _ _ _ (probe_fixtures op fixtures Hf) w Hl I)
      as (w' & sweep & _ & _ & Hm & _). eauto. }
  split.
  - split; [intros [r Hr]; by eapply measure_sound | exact Hrun].
  - intros Hz Ha Hf. apply Hrun. eapply list.Forall_impl; [exact Hf |]. intros f. apply execute_expected.
Qed.
End Composed.

(** A native clock that gains a fixed time at every reading of the processor's,
    and two small fixtures. *)
Section Sample.
#[local] Existing Instances plentiful toy_blake3 store_native.

#[local] Instance sample_time : NativeTime Z := {|
  Instant := Z;
  ProcessTime := Z;
  now w := (w, w);
  instant_elapsed s w := (w, w + 70000000 - s);
  try_now w := (w, Some w);
  try_elapsed s w := (w + 70000000, Some (w + 70000000 - s))
|}.

Definition sample_fixture (source : bytes) : Fixture :=
  let target := scattered_edits source in
  MkFixture (zlen source) source target
    match File.encode source target with Ok patch => patch | Err _ => [] end.

(** A row of which two calls meet the target, over three rows. *)
Lemma sweep_protocol_witness :
  exists w' sweep,
    sample_rows (fun row (w : Z) => Ok (w, row)) (fun row (t : Z) w => if t =? row then Ok w else Err WrongOutput)
      (fun _ w => w) 3 0 = Ok (w', sweep)
    /\ order sweep = [0; 1; 2; 1; 0; 2; 2; 0; 1; 0; 2; 1; 1; 2; 0]
    /\ exists s c, rows sweep !! 1%nat = Some s /\ iterations s = calibrated_iterations c /\ iterations s = 2.
Proof.
  assert (Probe (fun row (w : Z) => Ok (w, row)) (fun row (t : Z) w => if t =? row then Ok w else Err WrongOutput)
    (fun _ w => w) (fun _ => True) (fun s w => s = (w, w)) (fun row s t w => s = (w, w) /\ t = row)
    (fun row t _ => t = row) 3) as Hp.
  { constructor.
    - intros w _. exists w, (w, w). split; reflexivity.
    - intros row w _ _. exists w, row. split; reflexivity.
    - intros row s w _ Hs. exists w, row. split; [reflexivity | split; [exact Hs | reflexivity]].
    - intros row s t w [Hs Ht]. exists (w + 70000000), (w + 70000000 - w), (w + 70000000 - w). subst s.
      split; [reflexivity |]. split; [exact Ht |]. unfold nanos. lia.
    - intros row t w Ht. exists w. rewrite Ht, Z.eqb_refl. split; reflexivity.
    - intros row t w _. exact I. }
  assert (1 <= 3 <= 16) as Hc by lia.
  destruct (sweep_protocol _ _ _ _ _ _ _ 3 0 Hp Hc I) as (w' & sweep & cs & bs & Hs & _ & _ & _ & Ho & _ & _ & Hl & Hcl & Hr).
  exists w', sweep. split; [exact Hs |]. split; [rewrite Ho; vm_compute; reflexivity |].
  destruct (rows sweep !! 1%nat) as [s |] eqn:E; [| apply lookup_ge_None in E; unfold zlen in Hl; lia].
  destruct (cs !! 1%nat) as [c |] eqn:Ec; [| apply lookup_ge_None in Ec; unfold zlen in Hcl; lia].
  exists s, (snd c). split; [reflexivity |]. split; [exact (sampled_iterations _ _ _ (proj2 (Hr 1%nat s c E Ec))) |].
  assert (exists w2 s2, sample_rows (fun row (w : Z) => Ok (w, row))
    (fun row (t : Z) w => if t =? row then Ok w else Err WrongOutput) (fun _ w => w) 3 0 = Ok (w2, s2)
    /\ (iterations <$> rows s2 !! 1%nat) = Some 2) as (w2 & s2 & Hs2 & Hi)
    by (do 2 eexists; split; [vm_compute; reflexivity | reflexivity]).
  rewrite Hs in Hs2. injection Hs2 as <- <-. rewrite E in Hi. injection Hi as Hi. exact Hi.
Defined.

Definition sample_fixtures : list Fixture := [sample_fixture (lit "one fixture"); sample_fixture (lit "and another")].

Lemma measure_correct_witness :
  exists r, measure Apply sample_fixtures 0 = Ok r.
Proof.
  assert (ClockLaws (W := Z)) as laws.
  { refine (@Build_ClockLaws Z _ (fun s w => s = (w, w)) _ _).
    - intros w. exists w, (w, w). split; reflexivity.
    - intros s w E. exists (w + 70000000), (w + 70000000 - w), (w + 70000000 - w). subst s.
      split; [reflexivity |]. unfold nanos. lia. }
  assert (1 <= zlen sample_fixtures <= 16) as Hl by (vm_compute; split; discriminate).
  apply (proj2 (measure_correct Apply sample_fixtures 0 Hl)); [typeclasses eauto.. |].
  apply list.Forall_cons_2; [| apply list.Forall_cons_2; [| apply list.Forall_nil_2]].
  - split; [vm_compute; discriminate |]. split; [reflexivity | vm_compute; reflexivity].
  - split; [vm_compute; discriminate |]. split; [reflexivity | vm_compute; reflexivity].
Defined.
End Sample.
End Measurement.
