(* ===== verification/MeasurementRun.v ===== *)
(** * One measurement ([run] of [rust/consumer/src/measurement.rs])

    The host's side of the harness: its arguments, the scratch directory, the
    programs that provide the fixtures, and the report. File system, programs
    and JSON are the host's; the order in which they are used, and what is
    removed when, are the program's. *)

From stdpp Require Import gmap.
From S2P Require Export Measurement.
#[local] Open Scope Z_scope.

Module Run.
Import Measurement.

(** Where the harness panics. *)
Inductive Fault : Type :=
| DebugBuild | ArgumentCount | UnknownOperation | BadSize | SizeOutOfRange
| Io | Spawn | ProviderFailed | ProviderLength | OracleFailed | NoParameters
| Swept (p : Panic).

(** How a run ends that does not return: by a panic, by the panic of the
    destructor of the scratch directory, or by an abort, that destructor having
    panicked while another panic unwound. *)
Inductive Exit : Type := Panicked (e : Fault) | CleanupFailed | Aborted.

Inductive Node : Type := Directory | Regular (data : bytes).

Record Output : Type := MkOutput { success : bool; stdout : bytes }.

(** The numbers in a report: for each fixture its size, its parameters, the
    length of its patch and its samples; and the sizes in the order of their
    turns. *)
Record Report (V : Type) : Type := MkReport {
  r_operation : bytes; r_seed : bytes;
  r_order : list (list Z); r_rows : list (Z * V * Z * Samples)
}.
Arguments MkReport {V} r_operation r_seed r_order r_rows.

(** The host: [F] is what the calls act on, and [V] a JSON value.
    [native_parameters] is what the text compiled in parses to: a value, which
    may be an array of records with a size. *)
Class Host (F V : Type) := {
  debug_assertions : bool;
  temp_dir : bytes;
  process_id : bytes;
  DIFZ_RANDOM : bytes;
  DIFZ_ORACLE : bytes;
  native_parameters : option (option (list (option Z * V)));
  json : Report V -> bytes;
  create_dir : bytes -> F -> F * bool;
  write : bytes -> bytes -> F -> F * bool;
  exists_at : bytes -> F -> bool;
  remove_file : bytes -> F -> F * bool;
  read_file : bytes -> F -> F * option bytes;
  remove_dir_all : bytes -> F -> F * bool;
  command : bytes -> list bytes -> F -> F * option Output;
  println : bytes -> F -> F * bool
}.

(** ** Arguments *)

(** [str::parse::<usize>()] *)
Fixpoint parse_digits (n : Z) (s : bytes) : option Z :=
  match s with
  | [] => Some n
  | b :: s =>
      if is_ascii_digit b then
        match checked_mul n 10 with
        | Some n => match checked_add n (u8 b - 48) with Some n => parse_digits n s | None => None end
        | None => None
        end
      else None
  end.
Definition parse_usize (s : bytes) : option Z :=
  match s with
  | [] => None
  | x2b :: [] => None
  | x2b :: s => parse_digits 0 s
  | s => parse_digits 0 s
  end.

(** [to_string] of a [usize] *)
Fixpoint digits (fuel : nat) (n : Z) : bytes :=
  match fuel with
  | O => []
  | S fuel => (if n <? 10 then [] else digits fuel (n / 10)) ++ [as_u8 (48 + n mod 10)]
  end.
Definition to_string (n : Z) : bytes := digits 20 n.

(** [Path::join] of a relative name *)
Definition join (p name : bytes) : bytes := if ends_with (lit "/") p then p ++ name else p ++ lit "/" ++ name.

(** [slice::chunks] *)
Fixpoint chunks {A} (fuel : nat) (n : nat) (l : list A) : list (list A) :=
  match fuel, l with
  | S fuel, _ :: _ => take n l :: chunks fuel n (drop n l)
  | _, _ => []
  end.

Section Effects.
Context {F E : Type}.

(** A panic unwinds; what the host has seen stays. *)
Definition IO (A : Type) : Type := F -> F * result E A.

Definition ret {A} (a : A) : IO A := fun f => (f, Ok a).
Definition bind {A B} (m : IO A) (k : A -> IO B) : IO B := fun f =>
  match m f with
  | (f, Ok a) => k a f
  | (f, Err e) => (f, Err e)
  end.
Definition of_result {A} (r : result E A) : IO A := fun f => (f, r).
(** [call.unwrap()] of an I/O operation without a value, and of one with. *)
Definition unwrap (e : E) (call : F -> F * bool) : IO unit := fun f =>
  let (f, ok) := call f in (f, fail_if (negb ok) e).
Definition unwrap_some {A} (e : E) (call : F -> F * option A) : IO A := fun f =>
  let (f, o) := call f in (f, ok_or e o).
End Effects.

Notation "'let*' x ':=' m 'in' k" := (bind m (fun x => k))
  (at level 10, x pattern, m at level 100, k at level 200,
   format "'[v' 'let*'  x  ':='  m  'in' '/' k ']'") : difz_scope.

(** A [for] loop that pushes what each turn makes. *)
Fixpoint each {F E A B} (f : A -> @IO F E B) (l : list A) : @IO F E (list B) :=
  match l with
  | [] => ret []
  | x :: l => let* y := f x in let* ys := each f l in ret (y :: ys)
  end.

Section Operations.
Context `{Allocator, Blake3, Zstd, NativeTime W, Host F V}.

(** ** Fixtures *)

Definition provider_bytes (seed : bytes) (length : Z) : @IO F Fault bytes :=
  let* random := unwrap_some Spawn
    (command DIFZ_RANDOM [lit "--seed"; seed; lit "-b"; lit "-c"; to_string length]) in
  let* _ := of_result (fail_if (negb (success random)) ProviderFailed) in
  let* _ := of_result (fail_if (negb (zlen (stdout random) =? length)) ProviderLength) in
  ret (stdout random).

Definition seeded_bytes (seed : bytes) (length : Z) : @IO F Fault bytes :=
  provider_bytes (random_seed_argument seed) length.

Definition oracle_arguments (a b p : bytes) : list bytes := [lit "--no-progress"; a; b; lit "-o"; p].

(** One turn of the loop over the sizes. *)
Definition build_fixture (scratch seed : bytes) (parameters : option (list (option Z * V))) (n : Z) : @IO F Fault (Fixture * V) :=
  let* source := seeded_bytes seed n in
  let target := scattered_edits source in
  let a := join scratch (lit "source") in
  let b := join scratch (lit "target") in
  let p := join scratch (lit "patch") in
  let* _ := unwrap Io (write a source) in
  let* _ := unwrap Io (write b target) in
  let* _ := fun f => if exists_at p f then unwrap Io (remove_file p) f else ret tt f in
  let* native := unwrap_some Spawn (command DIFZ_ORACLE (oracle_arguments a b p)) in
  let* _ := of_result (fail_if (negb (success native)) OracleFailed) in
  let* patch := unwrap_some Io (read_file p) in
  let* rows := of_result (ok_or NoParameters parameters) in
  let* found := of_result (ok_or NoParameters (find (fun row => bool_decide (row.1 = Some n)) rows)) in
  ret (MkFixture n source target patch, found.2).

(** ** The report *)

Definition report_of (op : Operation) (seed : bytes) (fixtures : list (Fixture * V)) (sweep : Sweep) : Report V :=
  let sizes := (fun f => size f.1) <$> fixtures in
  MkReport (name op) seed
    (map (fun indices => map (fun i => sizes !!! Z.to_nat i) indices)
       (chunks (length (order sweep)) (length fixtures) (order sweep)))
    (zip_with (fun f samples => (size f.1, f.2, zlen (patch f.1), samples)) fixtures (rows sweep)).

(** ** The scratch directory *)

(** [drop(scratch)]: its failure panics, which aborts if the scope is left by a
    panic. *)
Definition drop_scratch {A} (scratch : bytes) (r : result Fault A) : @IO F Exit A := fun f =>
  let (f, removed) := remove_dir_all scratch f in
  (f, if removed then map_err Panicked r else Err (if is_ok r then CleanupFailed else Aborted)).

Definition scoped {A} (scratch : bytes) (m : @IO F Fault A) : @IO F Exit A := fun f =>
  let (f, r) := m f in drop_scratch scratch r f.

(** What happens while the scratch directory exists. *)
Definition body (op : Operation) (sizes : list Z) (seed scratch : bytes) (clock : W) : @IO F Fault unit :=
  let* parameters := of_result (ok_or NoParameters native_parameters) in
  let* fixtures := each (build_fixture scratch seed parameters) sizes in
  let* (_, sweep) := of_result (map_err Swept (measure op (fst <$> fixtures) clock)) in
  unwrap Io (println (json (report_of op seed fixtures sweep))).

Definition directory : bytes := join temp_dir (lit "difz-rust-measure-" ++ process_id).

(** The asserts and [unwrap]s on the arguments: the operation, the sizes and
    the seed. *)
Definition arguments (args : list bytes) : result Fault (Operation * list Z * bytes) :=
  let? _ := fail_if debug_assertions DebugBuild in
  match args with
  | [operation; sizes; seed] =>
      let? op := ok_or UnknownOperation (find (fun op => bool_decide (name op = operation)) ALL) in
      let? sizes := ok_or BadSize (mapM parse_usize (split_on x2c sizes)) in
      let? _ := fail_if (negb (negb (bool_decide (sizes = []))
                  && forallb (fun n => (0 <? n) && (n <=? Z.shiftl 1 24)) sizes)) SizeOutOfRange in
      Ok (op, sizes, seed)
  | _ => Err ArgumentCount
  end.

Definition run (args : list bytes) (clock : W) : @IO F Exit unit :=
  let* (op, sizes, seed) := of_result (map_err Panicked (arguments args)) in
  let* _ := unwrap (Panicked Io) (create_dir directory) in
  scoped directory (body op sizes seed directory clock).
End Operations.

(** ** What the host does *)

#[export] Instance byte_countable : Countable byte := inj_countable Byte.to_N Byte.of_N Byte.of_to_N.

(** The path and what lies beneath it. *)
Definition within (p q : bytes) : bool := bool_decide (q = p) || starts_with (join p []) q.

(** The manuals: each call changes what it names and nothing else; creation
    refuses a path that exists, and nothing lies beneath one that does not. *)
Class HostDocumented `{Host F V} := {
  files : F -> gmap bytes Node;
  printed : F -> list bytes;
  create_dir_ok p f f' : create_dir p f = (f', true) ->
    (forall q, within p q = true -> files f !! q = None)
    /\ files f' = <[p := Directory]> (files f) /\ printed f' = printed f;
  create_dir_err p f f' : create_dir p f = (f', false) -> files f' = files f /\ printed f' = printed f;
  write_only p s f : (forall q, q <> p -> files (write p s f).1 !! q = files f !! q)
    /\ printed (write p s f).1 = printed f;
  remove_file_only p f : (forall q, q <> p -> files (remove_file p f).1 !! q = files f !! q)
    /\ printed (remove_file p f).1 = printed f;
  read_file_pure p f : files (read_file p f).1 = files f /\ printed (read_file p f).1 = printed f;
  random_pure args f : files (command DIFZ_RANDOM args f).1 = files f
    /\ printed (command DIFZ_RANDOM args f).1 = printed f;
  oracle_only a b p f :
    (forall q, q <> p -> files (command DIFZ_ORACLE (oracle_arguments a b p) f).1 !! q = files f !! q)
    /\ printed (command DIFZ_ORACLE (oracle_arguments a b p) f).1 = printed f;
  remove_dir_all_ok p f f' : remove_dir_all p f = (f', true) ->
    files f' = filter (fun kv => within p kv.1 = false) (files f);
  remove_dir_all_only p f : (forall q, within p q = false -> files (remove_dir_all p f).1 !! q = files f !! q)
    /\ printed (remove_dir_all p f).1 = printed f;
  println_ok s f f' : println s f = (f', true) -> files f' = files f /\ printed f' = printed f ++ [s];
  println_err s f f' : println s f = (f', false) -> files f' = files f /\ printed f' = printed f
}.

Lemma join_within p name : within p (join p name) = true.
Proof.
  unfold within. apply orb_true_iff. right. apply starts_with_true. exists name.
  unfold join. destruct (ends_with _ _); [by rewrite app_nil_r | by rewrite <- !app_assoc].
Qed.

(** ** Triples

    A precondition, what holds after a value, and what holds after a panic. *)

Definition triple {F X A} (P : F -> Prop) (m : @IO F X A) (Q : A -> F -> Prop) (E : F -> Prop) : Prop :=
  forall f, P f -> match m f with (f', Ok a) => Q a f' | (f', Err _) => E f' end.

Section Triples.
Context {F X : Type}.

Lemma triple_bind {A B} P (m : @IO F X A) Q (k : A -> @IO F X B) R E :
  triple P m Q E -> (forall a, triple (Q a) (k a) R E) -> triple P (bind m k) R E.
Proof.
  intros Hm Hk f Hf. specialize (Hm f Hf). unfold bind. destruct (m f) as [f' [a | e]]; [by apply Hk | done].
Qed.

Lemma triple_ret {A} (P : F -> Prop) (a : A) (Q : A -> F -> Prop) E :
  (forall f, P f -> Q a f) -> triple P (ret a : @IO F X A) Q E.
Proof. intros HQ f Hf. by apply HQ. Qed.

(** A fact that does not depend on the host. *)
Lemma triple_pure {A} (φ : Prop) (P : F -> Prop) (m : @IO F X A) Q E :
  (φ -> triple P m Q E) -> triple (fun f => P f /\ φ) m Q E.
Proof. intros Hm f [Hf Hφ]. by apply Hm. Qed.

Lemma triple_weaken {A} (P P' : F -> Prop) (m : @IO F X A) Q E :
  (forall f, P' f -> P f) -> triple P m Q E -> triple P' m Q E.
Proof. intros HP Hm f Hf. by apply Hm, HP. Qed.

(** A check, whose outcome is remembered. *)
Lemma triple_check {A} (P : F -> Prop) (r : result X A) (E : F -> Prop) :
  (forall f, P f -> E f) -> triple P (of_result r : @IO F X A) (fun a f => P f /\ r = Ok a) E.
Proof. intros HE f Hf. destruct r; cbn; auto. Qed.

Lemma triple_each {A B} (P : F -> Prop) (g : A -> @IO F X B) (R : A -> B -> Prop) E l :
  (forall x, triple P (g x) (fun y f => P f /\ R x y) E) ->
  triple P (each g l) (fun ys f => P f /\ Forall2 R l ys) E.
Proof.
  intros Hg. induction l as [| x l IH]; cbn [each].
  - apply triple_ret. auto.
  - eapply triple_bind; [apply Hg |]. intros y. apply triple_pure. intros Hy.
    eapply triple_bind; [exact IH |]. intros ys. apply triple_ret. intros f [Hf Hys]. auto.
Qed.
End Triples.

(** ** A run *)

Create HintDb run.

Section Restores.
Context `{Allocator, Blake3, Zstd, NativeTime W, Host F V, !HostDocumented}.
Context (scratch : bytes) (f0 : F).

(** Only the scratch directory has changed, and nothing has been printed. *)
Definition outside (f : F) : Prop :=
  (forall q, within scratch q = false -> files f !! q = files f0 !! q) /\ printed f = printed f0.

Lemma not_joined name q : within scratch q = false -> q <> join scratch name.
Proof. intros Hq ->. by rewrite join_within in Hq. Qed.

Lemma outside_step f f' :
  outside f -> (forall q, within scratch q = false -> files f' !! q = files f !! q) -> printed f' = printed f -> outside f'.
Proof. intros [Hf Hp] Hf' Hp'. split; [intros q Hq; rewrite Hf' by done; auto | congruence]. Qed.

(** Calls that act within the scratch directory. *)
Lemma triple_unwrap e call :
  (forall f, outside f -> outside (call f).1) -> triple outside (unwrap (E := Fault) e call) (fun _ => outside) outside.
Proof.
  intros Hc f Hf. unfold unwrap. specialize (Hc f Hf). destruct (call f) as [f' []]; exact Hc.
Qed.

Lemma triple_unwrap_some {A} e (call : F -> F * option A) :
  (forall f, outside f -> outside (call f).1) -> triple outside (unwrap_some (E := Fault) e call) (fun _ => outside) outside.
Proof.
  intros Hc f Hf. unfold unwrap_some. specialize (Hc f Hf). destruct (call f) as [f' []]; exact Hc.
Qed.

Lemma write_outside name s f : outside f -> outside (write (join scratch name) s f).1.
Proof.
  intros Hf. destruct (write_only (join scratch name) s f) as [Hw Hp].
  eapply outside_step; [exact Hf | | exact Hp]. intros q Hq. by apply Hw, not_joined.
Qed.
Lemma remove_outside name f : outside f -> outside (remove_file (join scratch name) f).1.
Proof.
  intros Hf. destruct (remove_file_only (join scratch name) f) as [Hw Hp].
  eapply outside_step; [exact Hf | | exact Hp]. intros q Hq. by apply Hw, not_joined.
Qed.
Lemma oracle_outside a b name f :
  outside f -> outside (command DIFZ_ORACLE (oracle_arguments a b (join scratch name)) f).1.
Proof.
  intros Hf. destruct (oracle_only a b (join scratch name) f) as [Hw Hp].
  eapply outside_step; [exact Hf | | exact Hp]. intros q Hq. by apply Hw, not_joined.
Qed.
Lemma random_outside args f : outside f -> outside (command DIFZ_RANDOM args f).1.
Proof.
  intros Hf. destruct (random_pure args f) as [Hw Hp]. eapply outside_step; [exact Hf | | exact Hp]. by rewrite Hw.
Qed.
Lemma read_outside p f : outside f -> outside (read_file p f).1.
Proof.
  intros Hf. destruct (read_file_pure p f) as [Hw Hp]. eapply outside_step; [exact Hf | | exact Hp]. by rewrite Hw.
Qed.
#[local] Hint Resolve write_outside remove_outside oracle_outside random_outside read_outside : run.

(** A fixture of the size that was asked for. *)
Definition fixture_of (n : Z) (x : Fixture * V) : Prop :=
  size x.1 = n /\ zlen (source x.1) = n /\ target x.1 = scattered_edits (source x.1).

Lemma seeded_outside seed n :
  triple outside (seeded_bytes seed n) (fun s f => outside f /\ zlen s = n) outside.
Proof.
  unfold seeded_bytes, provider_bytes. eapply triple_bind; [apply triple_unwrap_some; eauto with run |].
  intros random. eapply triple_bind; [apply triple_check; auto |].
  intros []. apply triple_pure. intros _. eapply triple_bind; [apply triple_check; auto |].
  intros []. apply triple_pure. intros Hl%fail_if_Ok. zbool. apply triple_ret. auto.
Qed.

Lemma build_outside seed parameters n :
  triple outside (build_fixture scratch seed parameters n) (fun x f => outside f /\ fixture_of n x) outside.
Proof.
  unfold build_fixture. eapply triple_bind; [apply seeded_outside |].
  intros s. apply triple_pure. intros Hs. cbv zeta.
  do 2 (eapply triple_bind; [apply triple_unwrap; eauto with run | intros []]).
  eapply (triple_bind _ _ (fun _ => outside)).
  { intros f Hf. destruct (exists_at _ _); [| exact Hf]. apply (triple_unwrap Io); [eauto with run | exact Hf]. }
  intros []. eapply triple_bind; [apply triple_unwrap_some; eauto with run |].
  intros native. eapply triple_bind; [apply triple_check; auto |]. intros []. apply triple_pure. intros _.
  eapply triple_bind; [apply triple_unwrap_some; eauto with run |]. intros patch.
  eapply triple_bind; [apply triple_check; auto |]. intros rows. apply triple_pure. intros _.
  eapply triple_bind; [apply triple_check; auto |]. intros found. apply triple_pure. intros _.
  apply triple_ret. intros f Hf. done.
Qed.

(** What a completed run reports: the sweep over fixtures of the sizes asked
    for, each of whose outputs was the expected one. *)
Definition reported (op : Operation) (sizes : list Z) (seed : bytes) (clock : W) (s : bytes) : Prop :=
  exists fixtures clock' sweep, s = json (report_of op seed fixtures sweep)
    /\ Forall2 fixture_of sizes fixtures
    /\ measure op (fst <$> fixtures) clock = Ok (clock', sweep)
    /\ Forall (fun f => execute op f = Ok (expected op f)) (fst <$> fixtures).

Lemma body_outside op sizes seed clock :
  triple outside (body op sizes seed scratch clock)
    (fun _ f => (forall q, within scratch q = false -> files f !! q = files f0 !! q)
       /\ exists s, printed f = printed f0 ++ [s] /\ reported op sizes seed clock s) outside.
Proof.
  unfold body. eapply triple_bind; [apply triple_check; auto |]. intros parameters. apply triple_pure. intros _.
  eapply triple_bind; [apply triple_each; intros n; apply build_outside |].
  intros fixtures. apply triple_pure. intros Hsizes.
  eapply triple_bind; [apply triple_check; auto |]. intros [clock' sweep]. apply triple_pure.
  intros Hm%map_err_Ok f [Hf Hp]. unfold unwrap.
  destruct (println _ f) as [f' []] eqn:Hpr; cbn [negb fail_if].
  - apply println_ok in Hpr as [Hf' Hp']. rewrite Hf', Hp', Hp. split; [done |]. eexists. split; [done |].
    exists fixtures, clock', sweep. split_and!; [done | done | done | by eapply measure_sound].
  - apply println_err in Hpr as [Hf' Hp']. unfold outside. by rewrite Hf', Hp'.
Qed.

(** The scope: the scratch directory is removed however the body ends. *)
Lemma scope_restores op sizes seed clock f :
  (forall q, within scratch q = true -> files f0 !! q = None) -> outside f ->
  let (f', r) := scoped scratch (body op sizes seed scratch clock) f in
  (forall q, within scratch q = false -> files f' !! q = files f0 !! q)
  /\ (r <> Err CleanupFailed -> r <> Err Aborted -> files f' = files f0)
  /\ match r with
     | Ok _ | Err CleanupFailed => exists s, printed f' = printed f0 ++ [s] /\ reported op sizes seed clock s
     | Err (Panicked _ | Aborted) => printed f' = printed f0
     end.
Proof.
  intros Hn Ho. unfold scoped, drop_scratch. pose proof (body_outside op sizes seed clock f Ho) as Hb.
  destruct (body op sizes seed scratch clock f) as [f2 r].
  assert (forall q, within scratch q = false -> files f2 !! q = files f0 !! q) as Hf2 by (destruct r; apply Hb).
  destruct (remove_dir_all_only scratch f2) as [Hr Hpr].
  destruct (remove_dir_all scratch f2) as [f3 removed] eqn:Hrm. cbn [fst] in Hr, Hpr. rewrite Hpr. split_and!.
  - intros q Hq. rewrite Hr; auto.
  - intros Hc Ha. destruct removed; [| by destruct r]. apply remove_dir_all_ok in Hrm. rewrite Hrm.
    apply map_eq. intros q. rewrite map_lookup_filter. destruct (within scratch q) eqn:Hq.
    + rewrite Hn by done. destruct (files f2 !! q); [| done]. cbn. by rewrite Hq.
    + rewrite Hf2 by done. destruct (files f0 !! q); [| done]. cbn. by rewrite Hq.
  - destruct r as [u | e], removed; cbn; apply Hb.
Qed.
End Restores.

(** C39: A run removes what it created and nothing else. On a host that behaves
    as its manuals say, whatever the programs, the clock and the file system
    answer, no path outside the scratch directory ever changes; a directory that
    exists already is refused and left alone; and however the run ends, by a
    panic anywhere too, the files are those it started with, unless the removal
    itself fails. It prints one report, of a sweep over fixtures of the sizes
    asked for whose every output was the expected one, when it returns and when
    all that failed is the removal; ending in any other way it has printed
    nothing. *)
Theorem run_restores_files `{Allocator, Blake3, Zstd, NativeTime W, Host F V, !HostDocumented} args (clock : W) f :
  let (f', r) := run args clock f in
  (forall q, within directory q = false -> files f' !! q = files f !! q)
  /\ (r <> Err CleanupFailed -> r <> Err Aborted -> files f' = files f)
  /\ match r with
     | Ok _ | Err CleanupFailed => exists op sizes seed s, arguments args = Ok (op, sizes, seed)
         /\ printed f' = printed f ++ [s] /\ reported op sizes seed clock s
     | Err (Panicked _ | Aborted) => printed f' = printed f
     end.
Proof.
  unfold run, bind at 1, of_result. destruct (arguments args) as [[[op sizes] seed] | e] eqn:Ha; [| by split_and!].
  unfold bind, unwrap. cbn [map_err]. destruct (create_dir directory f) as [f1 []] eqn:Hc; cbn [negb fail_if].
  2: { apply create_dir_err in Hc as [Hf Hp]. rewrite Hf, Hp. by split_and!. }
  apply create_dir_ok in Hc as (Hn & Hf1 & Hp1).
  assert (outside directory f f1) as Ho.
  { split; [| done]. intros q Hq. rewrite Hf1, lookup_insert_ne; [done |]. intros <-.
    unfold within in Hq. by rewrite bool_decide_eq_true_2 in Hq. }
  pose proof (scope_restores directory f op sizes seed clock f1 Hn Ho) as Hs.
  destruct (scoped _ _ f1) as [f' r]. destruct Hs as (Hout & Hin & Hprint). split_and!; [done.. |].
  destruct r as [u | []]; [| done | | done]; destruct Hprint as (s & Hs); by exists op, sizes, seed, s.
Qed.

(** ** A host for evaluations

    Its files, and what it has printed; the provider gives zeros, and the native
    program is this encoder. *)
Section Sample.
#[local] Existing Instances plentiful toy_blake3 store_native.
(** A clock whose processor time advances when it is read, and that tells none
    before the origin. *)
#[local] Instance sample_time : NativeTime Z := {|
  Instant := Z;
  ProcessTime := Z;
  now w := (w, w);
  instant_elapsed s w := (w, w + 70000000 - s);
  try_now w := (w, if w <? 0 then None else Some w);
  try_elapsed s w := (w + 70000000, Some (w + 70000000 - s))
|}.

Definition Machine : Type := gmap bytes Node * list bytes.

Definition sample_command (program : bytes) (args : list bytes) (f : Machine) : Machine * option Output :=
  if bool_decide (program = lit "random") then
    (f, match args !! 4%nat ≫= parse_usize with
        | Some n => Some (MkOutput true (zeros (Z.to_nat n)))
        | None => None
        end)
  else
    match args with
    | [_; a; b; _; p] =>
        match f.1 !! a, f.1 !! b with
        | Some (Regular s), Some (Regular t) =>
            match File.encode s t with
            | Ok patch => ((<[p := Regular patch]> f.1, f.2), Some (MkOutput true []))
            | Err _ => (f, Some (MkOutput false []))
            end
        | _, _ => (f, Some (MkOutput false []))
        end
    | _ => (f, None)
    end.

#[local] Instance sample_host : Host Machine Z := {|
  debug_assertions := false;
  temp_dir := lit "/tmp";
  process_id := lit "42";
  DIFZ_RANDOM := lit "random";
  DIFZ_ORACLE := lit "difz";
  native_parameters := Some (Some [(Some 3, 30); (Some 5, 70)]);
  json r := concat ((fun row => to_string row.1.1.1 ++ lit " " ++ to_string row.1.2 ++ lit ";") <$> r_rows _ r);
  create_dir p f :=
    if bool_decide (filter (fun kv => within p kv.1 = true) f.1 = ∅)
    then ((<[p := Directory]> f.1, f.2), true) else (f, false);
  write p s f := ((<[p := Regular s]> f.1, f.2), true);
  exists_at p f := bool_decide (is_Some (f.1 !! p));
  remove_file p f := ((delete p f.1, f.2), true);
  read_file p f := (f, match f.1 !! p with Some (Regular s) => Some s | _ => None end);
  remove_dir_all p f := ((filter (fun kv => within p kv.1 = false) f.1, f.2), true);
  command := sample_command;
  println s f := ((f.1, f.2 ++ [s]), true)
|}.

Lemma sample_oracle a b p f :
  (forall q, q <> p -> (sample_command (lit "difz") (oracle_arguments a b p) f).1.1 !! q = f.1 !! q)
  /\ (sample_command (lit "difz") (oracle_arguments a b p) f).1.2 = f.2.
Proof.
  unfold sample_command, oracle_arguments. rewrite bool_decide_eq_false_2 by (vm_compute; discriminate).
  destruct (f.1 !! a) as [[| s] |], (f.1 !! b) as [[| t] |]; try done.
  destruct (File.encode s t); [| done]. split; [| done]. intros q Hq. by apply lookup_insert_ne.
Qed.

#[local] Instance sample_documented : HostDocumented.
Proof.
  refine {| files := fst; printed := snd |}; cbn -[filter].
  - intros p f f'. case_bool_decide as He; [| done]. intros [= <-]. split_and!; [| done | done].
    intros q Hq. destruct (f.1 !! q) as [x |] eqn:Hx; [| done].
    assert (filter (fun kv => within p kv.1 = true) f.1 !! q = Some x) as Hy by by apply map_lookup_filter_Some.
    by rewrite He, lookup_empty in Hy.
  - intros p f f'. case_bool_decide; [done |]. by intros [= <-].
  - intros p s f. split; [| done]. intros q Hq. by apply lookup_insert_ne.
  - intros p f. split; [| done]. intros q Hq. by apply lookup_delete_ne.
  - done.
  - done.
  - apply sample_oracle.
  - by intros p f f' [= <-].
  - intros p f. split; [| done]. intros q Hq. rewrite map_lookup_filter. destruct (f.1 !! q); [| done]. cbn. by rewrite Hq.
  - by intros s f f' [= <-].
  - done.
Defined.

Definition started : Machine := ({[lit "/tmp/other" := Regular (lit "kept")]}, []).
Definition sample_args : list bytes := [lit "apply"; lit "5,3"; lit "7"].

(** A run that reports, and one whose clock fails once the sweep has begun. *)
Lemma run_restores_files_witness :
  (exists f', run sample_args 0 started = (f', Ok tt) /\ fst f' = fst started
     /\ exists s, snd f' = [s] /\ reported Apply [5; 3] (lit "7") 0 s)
  /\ exists f', run sample_args (-1) started = (f', Err (Panicked (Swept ClockFailed)))
     /\ fst f' = fst started /\ snd f' = [].
Proof.
  split.
  - pose proof (run_restores_files sample_args 0 started) as Hr.
    assert ((run sample_args 0 started).2 = Ok tt) as Hok by (vm_compute; reflexivity).
    destruct (run sample_args 0 started) as [f' r]. cbn in Hok. subst r. exists f'. split; [reflexivity |].
    destruct Hr as (_ & Hf & Hp). split; [apply Hf; discriminate |].
    destruct Hp as (op & sizes & seed & s & Ha & Hs & Hm). exists s. split; [exact Hs |].
    vm_compute in Ha. injection Ha as <- <- <-. exact Hm.
  - pose proof (run_restores_files sample_args (-1) started) as Hr.
    assert ((run sample_args (-1) started).2 = Err (Panicked (Swept ClockFailed))) as He by (vm_compute; reflexivity).
    destruct (run sample_args (-1) started) as [f' r]. cbn in He. subst r. exists f'. split; [reflexivity |].
    destruct Hr as (_ & Hf & Hp). split; [apply Hf; discriminate | exact Hp].
Defined.
End Sample.
End Run.
