(* ===== verification/Consumer.v ===== *)
(** * The example consumer ([rust/consumer/src/main.rs])

    The program that checks the library from outside: its modes, and the
    assertions it makes about file patches and, with [--allocation-proof], about
    refused allocations. Allocations the program does not make fallible, which
    end the process when they are refused, are taken to succeed. *)

From S2P Require Export MeasurementRun MetadataNormalize MetadataDecode.

Module Consumer.
Import (notations) Run.

(** Where it panics. *)
Inductive Failure : Type :=
| Unwrapped (e : File.Error)
| UnwrappedHeader (e : FileHeader.HeaderError)
| UnwrappedMetadata (e : Metadata.Error)
| Assertion
| Output
| Measure (e : Run.Exit).

Definition assert (b : bool) : result Failure unit := fail_if (negb b) Assertion.

Definition expected_model (op : Measurement.Operation) : bytes := lit "linear".

Definition source : bytes := lit "binary" ++ [x00] ++ lit "source" ++ [xff].
Definition target : bytes := lit "binary" ++ [x00] ++ lit "TARGET" ++ [x80; x00].

(** [wrong[0] ^= 1] *)
Definition wrong : bytes :=
  match source with b :: s => as_u8 (Z.lxor (u8 b) 1) :: s | [] => [] end.

(** [header.target_len = n] *)
Definition set_target_len (n : Z) (h : FileHeader.Header) : FileHeader.Header :=
  FileHeader.MkHeader (FileHeader.source_hash h) (FileHeader.target_hash h) (FileHeader.source_len h) n.

Section Checks.
Context `{A : Allocator, Blake3, C : Zstd}.

(** The call of [apply] numbered [k], for the codec. *)
Definition nth_apply (k : Z) : bytes -> bytes -> Z -> result File.Error bytes :=
  @File.apply _ (codec_at k C).

(** The assertions of every run; the altered patch is used again. *)
Definition file_checks : result Failure bytes :=
  let? patch := map_err Unwrapped (File.encode source target) in
  let? applied := map_err Unwrapped (nth_apply 2 source patch 0) in
  let? _ := assert (bool_decide (applied = target)) in
  let? _ := assert (negb (is_ok (nth_apply 3 (lit "wrong source") patch 0))) in
  let? (header, frame) := map_err UnwrappedHeader (FileHeader.decode_prefix patch) in
  let header := set_target_len (Z.shiftl 1 30) header in
  let huge := FileHeader.encode header ++ frame in
  let? _ := assert (bool_decide (nth_apply 4 wrong huge 0 = Err File.SourceHashMismatch)) in
  let? _ := assert (bool_decide (nth_apply 5 source huge 1 = Err File.ResourceLimitExceeded)) in
  Ok huge.

(** [format!("alias-{index:02}")] *)
Definition alias (index : Z) : bytes :=
  lit "alias-" ++ [as_u8 (48 + index / 10); as_u8 (48 + index mod 10)].

Definition attributes (value : bytes) : list Xattr :=
  (fun index => MkXattr XattrClass.Logical (alias index) value) <$> seqZ 0 64.

Definition many_attributes (value : bytes) : Metadata :=
  MkMetadata (reverse (attributes value)) [] None times_default 0 None [] None.

(** The assertions of [--allocation-proof], and the line printed between. *)
Definition metadata_checks (value : bytes) : result Failure unit :=
  let? metadata := map_err UnwrappedMetadata (normalize (many_attributes value) Omit.default) in
  assert (bool_decide (@MetadataCanonical.encode (at_moment 7 A) metadata = Err OutOfMemory)).

Definition decode_check : result Failure unit :=
  assert (bool_decide (@MetadataDecode.decode (at_moment 8 A) (le32 u32_max) = Err TruncatedMetadata)).

Context `{Measurement.NativeTime W, Run.Host F V}.
(** The text compiled in, and the library's JSON writer. *)
Context (native_parameters_text : bytes) (declarations : list (bytes * bytes) -> bytes).

Definition print (s : bytes) : @Run.IO F Failure unit := Run.unwrap Output (Run.println s).

Definition allocation_proof (huge : bytes) : @Run.IO F Failure unit :=
  let* _ := Run.of_result (assert (bool_decide (nth_apply 6 source huge 0 = Err File.OutOfMemory))) in
  let* _ := Run.of_result (metadata_checks (zeros (Z.to_nat (Z.shiftl 64 20)))) in
  let* _ := print (lit "PASS canonical metadata output allocation failure is recoverable") in
  Run.of_result decode_check.

(** [args] without the program's name. *)
Definition main (args : list bytes) (clock : W) : @Run.IO F Failure unit :=
  let mode := head args in
  if bool_decide (mode = Some (lit "--native-parameters")) then print native_parameters_text
  else if bool_decide (mode = Some (lit "--declarations")) then
    print (declarations ((fun op => (Measurement.name op, expected_model op)) <$> Measurement.ALL))
  else if bool_decide (mode = Some (lit "--measure")) then fun f =>
    let (f, r) := Run.run (tail args) clock f in (f, map_err Measure r)
  else
    let* huge := Run.of_result file_checks in
    let* _ :=
      if bool_decide (mode = Some (lit "--allocation-proof")) then allocation_proof huge else Run.ret tt in
    print (lit "PASS transitive Cargo consumer: binary prefix round trip and wrong-source rejection").
End Checks.

(** ** The checks pass *)

Section Passes.
Context `{Allocator, Blake3, Native, !NativeDocumented, !NativeAvailable}.
Context (Hgrants : forall r, wanted r < 2 ^ 30 -> grants r = true).
Context (Hbound : compress_bound (zlen target) < 2 ^ 30) (Hhash : blake3 source <> blake3 wrong).

(** The header the consumer alters. *)
Definition huge_header : FileHeader.Header := set_target_len (Z.shiftl 1 30) (File.header_of source target).

Lemma header_typed : FileHeader.header_typed (File.header_of source target).
Proof. by apply File.header_of_typed; vm_compute. Qed.

Lemma huge_typed : FileHeader.header_typed huge_header.
Proof. destruct header_typed. constructor; [done | done | done |]. split; by vm_compute. Qed.

Lemma wrong_apply frame :
  nth_apply 4 wrong (FileHeader.encode huge_header ++ frame) 0 = Err File.SourceHashMismatch.
Proof.
  unfold nth_apply. rewrite FileHeader.encode_wire, File.apply_header by apply huge_typed.
  cbn [huge_header set_target_len File.header_of FileHeader.source_len FileHeader.source_hash].
  replace (zlen wrong) with (zlen source) by (vm_compute; reflexivity).
  by rewrite Z.eqb_refl, bool_decide_eq_false_2.
Qed.

Lemma limited_apply frame :
  nth_apply 5 source (FileHeader.encode huge_header ++ frame) 1 = Err File.ResourceLimitExceeded.
Proof.
  unfold nth_apply. rewrite FileHeader.encode_wire, File.apply_header by apply huge_typed.
  cbn [huge_header set_target_len File.header_of FileHeader.source_len FileHeader.source_hash].
  by rewrite Z.eqb_refl, bool_decide_eq_true_2.
Qed.

(** The target the altered patch announces is asked for, and refused. *)
Lemma refused_apply frame :
  grants (MkRequest [6; 0] 0 (2 ^ 30)) = false ->
  nth_apply 6 source (FileHeader.encode huge_header ++ frame) 0 = Err File.OutOfMemory.
Proof.
  intros Hr. unfold nth_apply. rewrite FileHeader.encode_wire, File.apply_header by apply huge_typed.
  cbn [huge_header set_target_len File.header_of FileHeader.source_len FileHeader.source_hash FileHeader.target_len].
  rewrite Z.eqb_refl, bool_decide_eq_true_2 by done. change (Z.shiftl 1 30) with (2 ^ 30). cbn [negb andb Z.eqb].
  destruct (File.file_window_total (zlen source) (2 ^ 30)) as [w ->]; [by vm_compute | by vm_compute |].
  cbn [rbind decode_frame zstd_native codec_at at_path foldl]. unfold Codec.decode.
  rewrite (proj2 (window_log_Ok (zlen source) (2 ^ 30) _)) by (split_and!; [by vm_compute | by vm_compute | reflexivity]).
  cbn [rbind]. by rewrite reserve_refused.
Qed.

Lemma file_checks_pass : exists frame, file_checks = Ok (FileHeader.encode huge_header ++ frame).
Proof.
  assert (zlen source <= Zstdz.MAX_INPUT_LEN) as Hs by by vm_compute.
  assert (zlen target <= Zstdz.MAX_INPUT_LEN) as Ht by by vm_compute.
  destruct (append_frame_run source target (FileHeader.wire (File.header_of source target)) Hs Ht) as (frame & Hf & Ha).
  assert (File.encode source target = Ok (FileHeader.wire (File.header_of source target) ++ frame)) as He.
  { unfold File.encode. destruct (File.file_window_total _ _ Hs Ht) as [w ->]. cbn [rbind].
    rewrite reserve_granted by by apply Hgrants. cbn [rbind]. fold (File.header_of source target).
    rewrite FileHeader.encode_wire by apply header_typed. cbn [append_frame zstd_native]. by rewrite Ha by by apply Hgrants. }
  assert (nth_apply 2 source (FileHeader.wire (File.header_of source target) ++ frame) 0 = Ok target) as Happ.
  { unfold nth_apply. rewrite File.apply_header by apply header_typed.
    cbn [File.header_of FileHeader.source_len FileHeader.source_hash FileHeader.target_len FileHeader.target_hash].
    rewrite Z.eqb_refl, !bool_decide_eq_true_2 by done. cbn [negb andb Z.eqb].
    destruct (File.file_window_total _ _ Hs Ht) as [w ->]. cbn [rbind decode_frame zstd_native codec_at].
    rewrite (decode_run _ source target frame) by (done || by apply Hgrants; vm_compute).
    cbn [map_err rbind]. by rewrite bool_decide_eq_true_2. }
  exists frame. unfold file_checks. rewrite He. cbn [map_err rbind]. rewrite Happ. cbn [map_err rbind].
  rewrite bool_decide_eq_true_2 by done. cbn [assert negb fail_if rbind].
  unfold nth_apply at 1. rewrite (File.apply_header (lit "wrong source")) by apply header_typed.
  replace (FileHeader.source_len (File.header_of source target) =? zlen (lit "wrong source")) with false by by vm_compute.
  cbn [negb is_ok assert fail_if rbind].
  rewrite FileHeader.decode_prefix_wire by apply header_typed. cbn [map_err rbind]. fold huge_header.
  rewrite wrong_apply, limited_apply, !bool_decide_eq_true_2 by done. done.
Qed.
End Passes.

(** ** The refused allocation

    Sixty-four attributes share a value of 64 MiB; their record takes more than
    four gibibytes. *)

Section Aliases.
Context (value : bytes) (Hvalue : zlen value = 2 ^ 26).

Lemma many_typed : metadata_typed (many_attributes value).
Proof. by constructor. Qed.

Definition alias_check (index : Z) : bool :=
  bool_decide (validate_xattr_name XattrClass.Logical (alias index) = Ok tt) && (zlen (alias index) =? 8).

Lemma alias_ok index : 0 <= index < 64 -> validate_xattr_name XattrClass.Logical (alias index) = Ok tt /\ zlen (alias index) = 8.
Proof.
  intros Hi. assert (alias_check index = true) as [Hn Hl]%andb_true_iff by (apply (all_below 64); [by vm_compute | done]).
  split; [by apply bool_decide_eq_true in Hn | by apply Z.eqb_eq].
Qed.

Lemma attributes_each (P : Xattr -> Prop) :
  (forall index, 0 <= index < 64 -> P (MkXattr XattrClass.Logical (alias index) value)) -> Forall P (attributes value).
Proof.
  intros HP. unfold attributes. apply Forall_fmap, list.Forall_forall. intros i Hi%elem_of_seqZ. apply HP. lia.
Qed.

Lemma many_normalizable : normalizable (many_attributes value).
Proof.
  constructor; cbn [many_attributes xattrs aces native_acl times holes hardlink_to]; try done.
  - rewrite reverse_Permutation. apply attributes_each. intros i Hi.
    split; [by apply alias_ok | cbn; rewrite Hvalue; by vm_compute].
  - rewrite reverse_Permutation.
    change (xattr_key <$> attributes value)
      with (xattr_key <$> attributes []).
    apply (bool_decide_unpack _). vm_compute. exact I.
  - constructor.
Qed.
(** The record's exact size. *)
Lemma bind_length {A} (w : A -> bytes) l k : Forall (fun x => zlen (w x) = k) l -> zlen (l ≫= w) = zlen l * k.
Proof.
  induction 1 as [| x l Hx _ IH]; [done |]. rewrite bind_cons, zlen_app, zlen_cons, IH, Hx. lia.
Qed.

Lemma record_length :
  zlen (metadata_wire (normal_form (many_attributes value))) = 64 * (2 ^ 26 + 17) + 20.
Proof.
  rewrite metadata_wire_eq. unfold normal_form.
  cbn [xattrs aces native_acl times finder_flags finder_info holes hardlink_to many_attributes].
  set (sorted := sort_by xattr_cmp (reverse (attributes value))).
  assert (sorted ≡ₚ attributes value) as Hp by (unfold sorted, sort_by; rewrite merge_sort_Permutation; apply reverse_Permutation).
  assert (zlen sorted = 64) as Hl by (unfold zlen; rewrite Hp; vm_compute; reflexivity).
  assert (Forall (fun x => zlen (concat (write_xattr x)) = 2 ^ 26 + 17) sorted) as Hf.
  { rewrite Hp. apply attributes_each. intros i Hi. unfold write_xattr. cbn [concat xclass xname xvalue].
    destruct (alias_ok i Hi) as [_ Ha]. autorewrite with zlen. rewrite Ha, Hvalue. zlen_nil. lia. }
  clearbody sorted. rewrite !zlen_app. unfold vector_wire at 1. rewrite zlen_app, (bind_length _ _ _ Hf), Hl, zlen_le32.
  match goal with |- _ + ?rest = _ => replace rest with 16 by (vm_compute; reflexivity) end. lia.
Qed.

Lemma metadata_checks_pass `{Allocator} :
  (forall r, 2 ^ 30 <= wanted r -> grants r = false) -> metadata_checks value = Ok tt.
Proof.
  intros Hr. unfold metadata_checks.
  rewrite (proj2 (normalize_iff _ Omit.default (MkCanonicalMetadata (normal_form (many_attributes value))) many_typed))
    by (rewrite omit_none; split; [apply many_normalizable | done]).
  cbn [map_err rbind]. unfold MetadataCanonical.encode. rewrite encoded_len_eq. cbn [metadata].
  rewrite record_length, (proj2 (Z.leb_le _ u64_max)) by by vm_compute. cbn [rbind].
  rewrite reserve_refused by (apply Hr; by vm_compute). cbn [rbind]. by rewrite bool_decide_eq_true_2.
Qed.
End Aliases.

(** ** A whole run *)

(** Modes that do not run the checks. *)
Definition other_mode (args : list bytes) : bool :=
  bool_decide (head args ∈ [Some (lit "--native-parameters"); Some (lit "--declarations"); Some (lit "--measure")]).

Definition proof_line : bytes := lit "PASS canonical metadata output allocation failure is recoverable".
Definition pass_line : bytes :=
  lit "PASS transitive Cargo consumer: binary prefix round trip and wrong-source rejection".

Section Runs.
Context `{Allocator, Blake3, Native, !NativeDocumented, !NativeAvailable}.
Context `{Measurement.NativeTime W, Run.Host F V, !Run.HostDocumented}.
Context (text : bytes) (declarations : list (bytes * bytes) -> bytes).

Lemma print_run s f :
  (Run.println s f).2 = true ->
  exists f', print s f = (f', Ok tt) /\ Run.files f' = Run.files f /\ Run.printed f' = Run.printed f ++ [s].
Proof.
  intros Hp. unfold print, Run.unwrap. destruct (Run.println s f) as [f' ok] eqn:E. cbn in Hp. subst ok.
  exists f'. split; [done | by apply Run.println_ok].
Qed.

(** The value's length, without making it. *)
Lemma zlen_value : zlen (zeros (Z.to_nat (Z.shiftl 64 20))) = 2 ^ 26.
Proof. rewrite zlen_zeros, Z2Nat.id by by vm_compute. by vm_compute. Qed.

Lemma decode_passes : decode_check = Ok tt.
Proof. by vm_compute. Qed.

(** C40: The consumer's own assertions hold. Over a native library that behaves
    as documented and has memory, a hash that tells its two sources apart and an allocator
    that grants what is below one gibibyte, a plain run of the program passes
    every assertion and prints its one line; with [--allocation-proof], where
    larger requests are refused, it passes those too, on a record of four
    gibibytes, and prints both lines. No file is touched. *)
Theorem consumer_passes args (clock : W) f :
  (forall r, wanted r < 2 ^ 30 -> grants r = true) -> compress_bound (zlen target) < 2 ^ 30 ->
  blake3 source <> blake3 wrong -> (forall s f, (Run.println s f).2 = true) ->
  other_mode args = false ->
  let proof := bool_decide (head args = Some (lit "--allocation-proof")) in
  (proof = true -> forall r, 2 ^ 30 <= wanted r -> grants r = false) ->
  exists f', main text declarations args clock f = (f', Ok tt)
    /\ Run.files f' = Run.files f
    /\ Run.printed f' = Run.printed f ++ (if proof then [proof_line; pass_line] else [pass_line]).
Proof.
  intros Hg Hb Hh Hprint Ho proof Hr. unfold other_mode in Ho. apply bool_decide_eq_false in Ho.
  rewrite !not_elem_of_cons in Ho. destruct Ho as (Hm1 & Hm2 & Hm3 & _).
  assert (forall s f, exists f', print s f = (f', Ok tt) /\ Run.files f' = Run.files f /\ Run.printed f' = Run.printed f ++ [s])
    as Hprint' by (intros s f1; apply print_run, Hprint).
  unfold main. rewrite !bool_decide_eq_false_2 by done.
  destruct (file_checks_pass Hg Hb Hh) as [frame Hc]. unfold Run.bind at 1, Run.of_result at 1. rewrite Hc.
  fold proof. destruct proof.
  - destruct (Hprint' proof_line f) as (f1 & Hrun1 & Hf1 & Hp1).
    destruct (Hprint' pass_line f1) as (f2 & Hrun2 & Hf2 & Hp2).
    unfold allocation_proof, Run.bind, Run.of_result.
    rewrite refused_apply, bool_decide_eq_true_2 by (done || by apply Hr). cbn [assert negb fail_if].
    rewrite metadata_checks_pass by (by apply Hr || apply zlen_value).
    fold proof_line pass_line. rewrite Hrun1, decode_passes, Hrun2. exists f2. split; [done |].
    rewrite Hf2, Hf1, Hp2, Hp1, <- app_assoc. done.
  - destruct (Hprint' pass_line f) as (f1 & Hrun1 & Hf1 & Hp1). exists f1. unfold Run.bind, Run.ret.
    fold pass_line. by rewrite Hrun1.
Qed.
End Runs.

Section Sample.
#[local] Instance one_gibibyte : Allocator := {| grants r := wanted r <? 2 ^ 30 |}.
#[local] Existing Instances toy_blake3 store_native Run.sample_time Run.sample_host Run.sample_documented.

Lemma consumer_passes_witness :
  exists f', main [] (fun _ => []) [lit "--allocation-proof"] (0 : Z) Run.started = (f', Ok tt)
    /\ Run.printed f' = [proof_line; pass_line].
Proof.
  assert (compress_bound (zlen target) < 2 ^ 30) as Hb by (vm_compute; reflexivity).
  assert (blake3 source <> blake3 wrong) as Hh by (vm_compute; discriminate).
  assert (other_mode [lit "--allocation-proof"] = false) as Ho by (vm_compute; reflexivity).
  assert (forall s f, (Run.println s f).2 = true) as Hp by (intros s f; reflexivity).
  destruct (@consumer_passes one_gibibyte toy_blake3 store_native store_documented store_available Z Run.sample_time
    Run.Machine Z Run.sample_host Run.sample_documented [] (fun _ => []) [lit "--allocation-proof"] 0 Run.started
    (fun r => proj2 (Z.ltb_lt (wanted r) (2 ^ 30))) Hb Hh Hp Ho (fun _ r => proj2 (Z.ltb_ge (wanted r) (2 ^ 30)))) as (f' & Hm & _ & Hs).
  exists f'. split; [exact Hm |]. rewrite Hs. vm_compute. reflexivity.
Defined.
End Sample.
End Consumer.
