(* ===== verification/TreePatch.v ===== *)
(** * The tree-patch envelope ([rust/src/tree_patch.rs])

    The 120-byte header of a [DIFZTREE] version 2 patch, its checksum, and the
    bounds on descriptor counts that decoding it establishes. *)

From S2P Require Export MetadataBorrow File PathFilter DirectoryCanonical.

Module Tree.
Definition HEADER_LEN : Z := 120.
Definition CHECKSUM_OFFSET : Z := 88.
Definition VERSION : Z := 2.

Inductive Error : Type :=
| LimitExceeded | UnexpectedEndOfInput | InvalidMagic | UnsupportedVersion | PatchHashMismatch
| ReaderTooOld | UnsupportedFlags | InvalidRule | InvalidOperation | InvalidPath
| InvalidPayload | OmittedMetadataPresent | TrailingData | OutOfMemory
| Metadata (e : Metadata.Error) | Snapshot (e : Directory.Error) | Filter (e : Filter.Error)
| File (e : File.Error)
| SourceHashMismatch | TargetHashMismatch | MissingSourceEntry | SourceKindMismatch.

Record EnvelopeLimits : Type := MkEnvelopeLimits {
  max_patch_bytes : Z;
  max_entries : Z;
  max_rules : Z
}.

(** [EnvelopeLimits::default()] *)
Definition envelope_default : EnvelopeLimits :=
  MkEnvelopeLimits (Z.shiftl 16 30) 1000000 4096.

Record Header : Type := MkHeader {
  needed_reader : Z;
  root_metadata : bool;
  omit : Omit.Omit;
  rule_count : Z;
  entry_count : Z;
  source_hash : bytes;
  target_hash : bytes
}.

#[global] Instance Header_eq_dec : EqDecision Header.
Proof. solve_decision. Defined.

Section Operations.
Context `{Blake3}.

Definition checksum (prefix body : bytes) : bytes :=
  let h := hasher_update hasher_new (lit "DIFZTREE-PATCH" ++ [x02]) in
  let h := hasher_update h prefix in
  let h := hasher_update h body in
  hasher_finalize h.

Definition flags_of (h : Header) : Z :=
  Z.lor (Z.shiftl (Omit.bits (omit h)) 1) (if root_metadata h then 1 else 0).

(** [Header::encode] *)
Definition encode (h : Header) (body : bytes) : bytes :=
  let buf := zeros (Z.to_nat HEADER_LEN) in
  let buf := write_at 0 (lit "DIFZTREE") buf in
  let buf := write_at 8 (le16 VERSION) buf in
  let buf := write_at 10 (le16 (needed_reader h)) buf in
  let buf := write_at 12 (le32 (flags_of h)) buf in
  let buf := write_at 16 (le32 (rule_count h)) buf in
  let buf := write_at 20 (le32 (entry_count h)) buf in
  let buf := write_at 24 (source_hash h) buf in
  let buf := write_at 56 (target_hash h) buf in
  let hash := checksum (ztake CHECKSUM_OFFSET buf) body in
  write_at CHECKSUM_OFFSET hash buf.

(** [&encoded[a..a + n]] of the fixed array *)
Definition sub (a n : Z) (encoded : bytes) : bytes := ztake n (zdrop a encoded).

Definition word (encoded : bytes) (offset : Z) : Z := of_le (sub offset 4 encoded).

(** [Header::decode_prefix] *)
Definition decode_prefix (s : bytes) (limits : EnvelopeLimits) : result Error (Header * bytes) :=
  let? _ := fail_if (max_patch_bytes limits <? zlen s) LimitExceeded in
  let? encoded := ok_or UnexpectedEndOfInput (get_range 0 HEADER_LEN s) in
  let? _ := fail_if (negb (bool_decide (sub 0 8 encoded = lit "DIFZTREE"))) InvalidMagic in
  let? _ := fail_if (negb (of_le (sub 8 2 encoded) =? VERSION)) UnsupportedVersion in
  let body := zdrop HEADER_LEN s in
  let? _ :=
    fail_if (negb (bool_decide (checksum (ztake CHECKSUM_OFFSET encoded) body
                                = zdrop CHECKSUM_OFFSET encoded))) PatchHashMismatch in
  let needed_reader := of_le (sub 10 2 encoded) in
  let? _ := fail_if (VERSION <? needed_reader) ReaderTooOld in
  let flags := word encoded 12 in
  (* [flags & !0x7f != 0], on [u32] *)
  let? _ := fail_if (negb (Z.land flags (Z.lxor u32_max 127) =? 0)) UnsupportedFlags in
  let? omit := map_err (fun _ => UnsupportedFlags) (Omit.from_bits (Z.shiftr flags 1)) in
  let rules := word encoded 16 in
  let entries := word encoded 20 in
  let? _ := fail_if ((max_rules limits <? rules) || (max_entries limits <? entries))
              LimitExceeded in
  let? _ := fail_if ((zlen body / 9 <? rules) || ((zlen body - rules * 9) / 41 <? entries))
              UnexpectedEndOfInput in
  Ok (MkHeader needed_reader (negb (Z.land flags 1 =? 0)) omit rules entries
        (sub 24 32 encoded) (sub 56 32 encoded), body).

(** ** The wire form *)

Record header_typed (h : Header) : Prop := {
  ht_reader : is_u16 (needed_reader h);
  ht_omit : 0 <= Omit.bits (omit h) < 64;
  ht_rules : is_u32 (rule_count h);
  ht_entries : is_u32 (entry_count h);
  ht_source_hash : zlen (source_hash h) = 32;
  ht_target_hash : zlen (target_hash h) = 32
}.

Definition prefix (h : Header) : bytes :=
  lit "DIFZTREE" ++ le16 VERSION ++ le16 (needed_reader h) ++ le32 (flags_of h)
  ++ le32 (rule_count h) ++ le32 (entry_count h) ++ source_hash h ++ target_hash h.

Definition wire (h : Header) (body : bytes) : bytes := prefix h ++ checksum (prefix h) body.

Lemma zlen_checksum p b : zlen (checksum p b) = 32.
Proof. apply blake3_length. Qed.

Lemma zlen_prefix h : header_typed h -> zlen (prefix h) = CHECKSUM_OFFSET.
Proof.
  intros []. unfold prefix. autorewrite with zlen. by rewrite ht_source_hash0, ht_target_hash0.
Qed.

Lemma tree_zlen_wire h body : header_typed h -> zlen (wire h body) = HEADER_LEN.
Proof. intros Ht. unfold wire. by rewrite zlen_app, zlen_prefix, zlen_checksum. Qed.

(** The counts a decoded header promises about its body: the descriptors they
    announce fit in it at their least size. *)
Definition counts_fit (h : Header) (body : bytes) : Prop :=
  rule_count h * 9 + entry_count h * 41 <= zlen body.

Lemma counts_fit_iff h body :
  is_u32 (rule_count h) -> is_u32 (entry_count h) ->
  (zlen body / 9 <? rule_count h) || ((zlen body - rule_count h * 9) / 41 <? entry_count h) = false
  <-> counts_fit h body.
Proof.
  unfold counts_fit, is_u32. intros Hr He. zbool. pose proof (zlen_nonneg body).
  pose proof (Z.div_mod (zlen body) 9). pose proof (Z.mod_pos_bound (zlen body) 9).
  pose proof (Z.div_mod (zlen body - rule_count h * 9) 41).
  pose proof (Z.mod_pos_bound (zlen body - rule_count h * 9) 41). lia.
Qed.

(** ** Flags: six omission bits above the root bit *)

Lemma flags_facts h :
  0 <= Omit.bits (omit h) < 64 ->
  0 <= flags_of h < 128 /\ Z.shiftr (flags_of h) 1 = Omit.bits (omit h)
  /\ negb (Z.land (flags_of h) 1 =? 0) = root_metadata h.
Proof.
  intros Hb. unfold flags_of. revert Hb. generalize (Omit.bits (omit h)). intros b Hb.
  set (ok (r : bool) (b : Z) := let f := Z.lor (Z.shiftl b 1) (if r then 1 else 0) in
    (0 <=? f) && (f <? 128) && (Z.shiftr f 1 =? b) && Bool.eqb (negb (Z.land f 1 =? 0)) r).
  assert (ok (root_metadata h) b = true) as Hok.
  { apply (all_below 64); [| done]. by destruct (root_metadata h). }
  unfold ok in Hok. rewrite !andb_true_iff, Z.leb_le, Z.ltb_lt, Z.eqb_eq, eqb_true_iff in Hok. tauto.
Qed.

Lemma flags_rebuilt flags :
  0 <= flags < 128 ->
  Z.lor (Z.shiftl (Z.shiftr flags 1) 1) (if negb (Z.land flags 1 =? 0) then 1 else 0) = flags
  /\ 0 <= Z.shiftr flags 1 < 64.
Proof.
  intros Hf. set (ok (f : Z) :=
    (Z.lor (Z.shiftl (Z.shiftr f 1) 1) (if negb (Z.land f 1 =? 0) then 1 else 0) =? f)
    && (0 <=? Z.shiftr f 1) && (Z.shiftr f 1 <? 64)).
  assert (ok flags = true) as Hok by (by apply (all_below 128)).
  unfold ok in Hok. rewrite !andb_true_iff, Z.leb_le, Z.ltb_lt, Z.eqb_eq in Hok. tauto.
Qed.

(** ** Encoding and decoding *)

Lemma tree_encode_wire h body : header_typed h -> encode h body = wire h body.
Proof.
  intros Ht. pose proof (zlen_prefix h Ht) as Hp. destruct Ht. unfold encode.
  change (zeros (Z.to_nat HEADER_LEN)) with ([] ++ zeros 120). cbv zeta.
  rewrite (write_next 120 112 []) by done. rewrite app_nil_l.
  rewrite (write_next 112 110) by (autorewrite with zlen; done).
  rewrite (write_next 110 108) by (autorewrite with zlen; done).
  rewrite (write_next 108 104) by (autorewrite with zlen; done).
  rewrite (write_next 104 100) by (autorewrite with zlen; done).
  rewrite (write_next 100 96) by (autorewrite with zlen; done).
  rewrite (write_next 96 64) by (rewrite ?ht_source_hash0; autorewrite with zlen; done).
  rewrite (write_next 64 32)
    by (rewrite ?ht_target_hash0; autorewrite with zlen; rewrite ?ht_source_hash0; done).
  rewrite <- !app_assoc. rewrite !(app_assoc _ _ (zeros 32)). fold (prefix h).
  rewrite ztake_app_exact by done.
  rewrite (write_next 32 0) by (rewrite ?zlen_checksum; done).
  by rewrite app_nil_r.
Qed.

Lemma sub_app pre s rest a n : a = zlen pre -> n = zlen s -> sub a n (pre ++ s ++ rest) = s.
Proof.
  intros -> ->. unfold sub. rewrite zdrop_app_exact by done. by apply ztake_app_exact.
Qed.

Lemma sub_split a n b s : 0 <= a -> 0 <= n -> b = a + n -> zdrop a s = sub a n s ++ zdrop b s.
Proof.
  intros Ha Hn ->. unfold sub. rewrite <- (ztake_zdrop n (zdrop a s)) at 1. f_equal.
  unfold zdrop. rewrite drop_drop. f_equal. lia.
Qed.

Lemma zlen_sub a n s : 0 <= a -> 0 <= n -> a + n <= zlen s -> zlen (sub a n s) = n.
Proof. intros. unfold sub. apply zlen_ztake. rewrite zlen_zdrop by lia. lia. Qed.

(** What decoding asks beyond the field types. *)
Definition acceptable (limits : EnvelopeLimits) (h : Header) (body : bytes) : Prop :=
  needed_reader h <= VERSION /\ rule_count h <= max_rules limits
  /\ entry_count h <= max_entries limits /\ counts_fit h body
  /\ HEADER_LEN + zlen body <= max_patch_bytes limits.

(** The fields of a header's wire form. *)
Lemma sub_wire h body :
  header_typed h ->
  sub 0 8 (wire h body) = lit "DIFZTREE" /\ sub 8 2 (wire h body) = le16 VERSION
  /\ sub 10 2 (wire h body) = le16 (needed_reader h)
  /\ sub 12 4 (wire h body) = le32 (flags_of h)
  /\ sub 16 4 (wire h body) = le32 (rule_count h)
  /\ sub 20 4 (wire h body) = le32 (entry_count h)
  /\ sub 24 32 (wire h body) = source_hash h /\ sub 56 32 (wire h body) = target_hash h
  /\ ztake CHECKSUM_OFFSET (wire h body) = prefix h
  /\ zdrop CHECKSUM_OFFSET (wire h body) = checksum (prefix h) body.
Proof.
  intros Ht. pose proof (zlen_prefix h Ht) as Hp. destruct Ht.
  assert (ztake CHECKSUM_OFFSET (wire h body) = prefix h
    /\ zdrop CHECKSUM_OFFSET (wire h body) = checksum (prefix h) body) as [Hk Hd].
  { unfold wire. by rewrite ztake_app_exact, zdrop_app_exact. }
  split_and!; try done; unfold wire, prefix; rewrite <- !app_assoc.
  - rewrite (app_assoc _ (le16 VERSION)), (app_assoc _ (le16 (needed_reader h))),
      (app_assoc _ (le32 (flags_of h))), (app_assoc _ (le32 (rule_count h))),
      (app_assoc _ (le32 (entry_count h))).
    apply sub_app; autorewrite with zlen; done.
  - rewrite (app_assoc _ (le16 VERSION)), (app_assoc _ (le16 (needed_reader h))),
      (app_assoc _ (le32 (flags_of h))), (app_assoc _ (le32 (rule_count h))),
      (app_assoc _ (le32 (entry_count h))), (app_assoc _ (source_hash h)).
    apply sub_app; autorewrite with zlen; rewrite ?ht_source_hash0; done.
Qed.

Lemma flags_mask h :
  0 <= Omit.bits (omit h) < 64 -> Z.land (flags_of h) (Z.lxor u32_max 127) = 0.
Proof.
  intros Ho. destruct (flags_facts h Ho) as (Hf & _).
  change (Z.lxor u32_max 127) with (Z.shiftl (Z.ones (32 - 7)) 7).
  apply high_bits_zero; [lia | lia |]. change (2 ^ 7) with 128. lia.
Qed.

Lemma tree_decode_prefix_wire limits h body :
  header_typed h -> acceptable limits h body ->
  decode_prefix (wire h body ++ body) limits = Ok (h, body).
Proof.
  intros Ht (Hr & Hmr & Hme & Hc & Hmax). pose proof (tree_zlen_wire h body Ht) as Hl.
  destruct (sub_wire h body Ht) as (S1 & S2 & S3 & S4 & S5 & S6 & S7 & S8 & S9 & S10).
  destruct Ht. unfold decode_prefix, word.
  rewrite zlen_app, Hl, (proj2 (Z.ltb_ge _ _) Hmax). cbn [fail_if rbind].
  rewrite (get_range_app [] (wire h body) body) by done. cbn [ok_or rbind].
  rewrite S1, S2, S3, S4, S5, S6, S7, S8, S9, S10, zdrop_app_exact by done.
  rewrite !bool_decide_eq_true_2 by done. cbn [negb fail_if rbind].
  rewrite of_le_le16 by done. cbn [Z.eqb VERSION Pos.eqb negb fail_if rbind].
  destruct (flags_facts h ht_omit0) as (Hf & Hfs & Hfr).
  rewrite !of_le_le16, !of_le_le32 by (done || (unfold is_u32; lia)).
  change 2 with VERSION. rewrite (proj2 (Z.ltb_ge _ _) Hr). cbn [fail_if rbind].
  rewrite flags_mask, Z.eqb_refl, Hfs, Hfr by done. cbn [negb fail_if rbind].
  assert (Omit.from_bits (Omit.bits (omit h)) = Ok (omit h)) as ->.
  { apply omit_from_bits_Ok; [unfold is_u32; lia |]. split; [lia |]. by destruct (omit h). }
  cbn [map_err rbind].
  rewrite (proj2 (Z.ltb_ge _ _) Hmr), (proj2 (Z.ltb_ge _ _) Hme). cbn [orb fail_if rbind].
  rewrite (proj2 (counts_fit_iff h body ht_rules0 ht_entries0) Hc). cbn [fail_if rbind].
  by destruct h.
Qed.

(** A whole header's worth of bytes is its fields in order. *)
Lemma sub_chain encoded :
  zlen encoded = 120 ->
  ztake CHECKSUM_OFFSET encoded =
    sub 0 8 encoded ++ sub 8 2 encoded ++ sub 10 2 encoded ++ sub 12 4 encoded
    ++ sub 16 4 encoded ++ sub 20 4 encoded ++ sub 24 32 encoded ++ sub 56 32 encoded.
Proof.
  intros Hl. apply (app_inv_tail (zdrop CHECKSUM_OFFSET encoded)).
  rewrite ztake_zdrop, <- !app_assoc. change CHECKSUM_OFFSET with 88.
  rewrite <- (sub_split 56 32 88), <- (sub_split 24 32 56), <- (sub_split 20 4 24),
    <- (sub_split 16 4 20), <- (sub_split 12 4 16), <- (sub_split 10 2 12),
    <- (sub_split 8 2 10), <- (sub_split 0 8 8) by lia.
  done.
Qed.

Lemma tree_decode_prefix_Ok limits s h body :
  decode_prefix s limits = Ok (h, body) ->
  s = wire h body ++ body /\ header_typed h /\ acceptable limits h body.
Proof.
  unfold decode_prefix, word. intros Hd. inv_ok. zbool.
  match goal with Hg : get_range 0 HEADER_LEN s = Some ?e |- _ =>
    apply (get_range_after []) in Hg as (body & Hs & Hl); [| done]; rename e into encoded end.
  cbn [app] in Hs. subst s. rewrite zlen_app in *. change (HEADER_LEN - 0) with 120 in Hl.
  rewrite zdrop_app_exact in * by done.
  repeat match goal with Hb : bool_decide _ = true |- _ => apply bool_decide_eq_true in Hb end.
  rename H2 into Hmagic, H3 into Hversion, H4 into Hsum, H5 into Hreader, H6 into Hflags,
    H7 into Homit, H8 into Hlimits, H9 into Hfit.
  assert (is_u16 (of_le (sub 10 2 encoded)) /\ is_u32 (of_le (sub 12 4 encoded))
    /\ is_u32 (of_le (sub 16 4 encoded)) /\ is_u32 (of_le (sub 20 4 encoded)))
    as (Tr & Tf & Tc & Te).
  { split_and!; (apply of_le_u16 || apply of_le_u32); apply zlen_sub; lia. }
  change (Z.lxor u32_max 127) with (Z.shiftl (Z.ones (32 - 7)) 7) in Hflags.
  apply high_bits_zero in Hflags; [| lia | exact Tf].
  destruct (flags_rebuilt (of_le (sub 12 4 encoded))) as [Hrebuilt Hbits];
    [unfold is_u32 in Tf; lia |].
  apply omit_from_bits_Ok in Homit as [_ ->]; [| unfold is_u32; lia].
  match goal with |- _ = wire ?h _ ++ _ /\ _ => set (header := h) end.
  assert (wire header body = encoded) as Hwire.
  { rewrite <- (ztake_zdrop CHECKSUM_OFFSET encoded), <- Hsum. unfold wire.
    assert (prefix header = ztake CHECKSUM_OFFSET encoded) as ->; [| done].
    rewrite sub_chain by done. unfold prefix, flags_of, header. cbn.
    rewrite Hrebuilt, Hmagic, !le32_of_le by (apply zlen_sub; lia).
    rewrite <- Hversion, !le16_of_le by (apply zlen_sub; lia). done. }
  rewrite Hwire. split; [done |]. split.
  - constructor; cbn; (done || apply zlen_sub; lia).
  - unfold acceptable, counts_fit. change HEADER_LEN with 120. cbn.
    pose proof (Z.div_mod (zlen body) 9). pose proof (Z.mod_pos_bound (zlen body) 9).
    pose proof (Z.div_mod (zlen body - of_le (sub 16 4 encoded) * 9) 41).
    pose proof (Z.mod_pos_bound (zlen body - of_le (sub 16 4 encoded) * 9) 41).
    split_and!; lia.
Qed.
(** [Header::decode_prefix] accepts exactly what [Header::encode] writes for
    a header within the limits whose counts fit the body: the header and the
    body it returns are those that were written. *)
Lemma tree_header_iff s limits h body :
  decode_prefix s limits = Ok (h, body) <->
  header_typed h /\ acceptable limits h body /\ s = encode h body ++ body.
Proof.
  split.
  - intros (-> & Ht & Ha)%tree_decode_prefix_Ok. by rewrite tree_encode_wire.
  - intros (Ht & Ha & ->). rewrite tree_encode_wire by done. by apply tree_decode_prefix_wire.
Qed.
End Operations.
End Tree.
