(* ===== verification/TreePatchDecode.v ===== *)
(** * Decoding a tree patch ([rust/src/tree_patch_decode.rs])

    The body grammar over the checked reader, the parsed patch, and both
    directions of the wire contract: what decodes is exactly the encoding of a
    well-formed patch. *)

From S2P Require Export TreePatch.

Module Decode.
Record Limits : Type := MkLimits {
  envelope : Tree.EnvelopeLimits;
  max_path_bytes : Z;
  max_pattern_bytes : Z;
  max_symlink_bytes : Z;
  max_payload_bytes : Z
}.

(** [Limits::default()] *)
Definition limits_default : Limits :=
  MkLimits Tree.envelope_default 4096 4096 65536 (Z.shiftl 8 30).

Module Operation.
Inductive Operation : Type :=
| Directory | Symlink | FileCopy | FileRaw | FileDelta | FileHardlink.

#[global] Instance Operation_eq_dec : EqDecision Operation.
Proof. solve_decision. Defined.

Definition tag (o : Operation) : byte :=
  match o with
  | Directory => x01 | Symlink => x02 | FileCopy => x03
  | FileRaw => x04 | FileDelta => x05 | FileHardlink => x06
  end.

Definition try_from (b : byte) : result Tree.Error Operation :=
  match b with
  | x01 => Ok Directory | x02 => Ok Symlink | x03 => Ok FileCopy
  | x04 => Ok FileRaw | x05 => Ok FileDelta | x06 => Ok FileHardlink
  | _ => Err Tree.InvalidOperation
  end.
End Operation.

Record DecodedEntry : Type := MkDecodedEntry {
  dpath : bytes;
  dmode : Z;
  doperation : Operation.Operation;
  dpayload : bytes;
  dmetadata : CanonicalMetadata
}.

#[global] Instance decoded_view : View DecodedEntry := {|
  structure e :=
    MkShape (dpath e) (dmode e)
      match doperation e with
      | Operation.Directory => Kind.Directory
      | Operation.Symlink => Kind.Symlink
      | Operation.FileCopy | Operation.FileRaw | Operation.FileDelta | Operation.FileHardlink =>
          Kind.File
      end
      (dpayload e)
|}.

Record ParsedPatch : Type := MkParsedPatch {
  pheader : Tree.Header;
  prules : list Rule;
  pentries : list DecodedEntry;
  proot : CanonicalMetadata
}.

(** ** The reader *)

Definition reader_take (c : cursor) (length : Z) : result Tree.Error (bytes * cursor) :=
  take_raw Tree.UnexpectedEndOfInput c length.
Definition reader_byte : cursor -> result Tree.Error (byte * cursor) :=
  get_byte Tree.UnexpectedEndOfInput.
Definition reader_u16 : cursor -> result Tree.Error (Z * cursor) :=
  get_uint Tree.UnexpectedEndOfInput 2.
Definition reader_u32 : cursor -> result Tree.Error (Z * cursor) :=
  get_uint Tree.UnexpectedEndOfInput 4.
Definition reader_u64 : cursor -> result Tree.Error (Z * cursor) :=
  get_uint Tree.UnexpectedEndOfInput 8.
Definition reader_length (length limit : Z) : result Tree.Error Z :=
  let? _ := fail_if (limit <? length) Tree.LimitExceeded in Ok length.
Definition reader_length32 (limit : Z) (c : cursor) : result Tree.Error (Z * cursor) :=
  let? (n, c) := reader_u32 c in
  let? n := reader_length n limit in
  Ok (n, c).

(** ** Omission *)

Definition family_present (m : Metadata) (f : Family.Family) : bool :=
  match f with
  | Family.Xattr => negb (bool_decide (xattrs m = []))
  | Family.Acl => negb (bool_decide (aces m = [])) || bool_decide (is_Some (native_acl m))
  | Family.Timestamps =>
      bool_decide (is_Some (mtime (times m))) || bool_decide (is_Some (atime (times m)))
      || bool_decide (is_Some (btime (times m)))
  | Family.Finder => negb (finder_flags m =? 0) || bool_decide (is_Some (finder_info m))
  | Family.Sparse => negb (bool_decide (holes m = []))
  | Family.Hardlink => bool_decide (is_Some (hardlink_to m))
  end.

Definition has_omitted (m : Metadata) (omit : Omit.Omit) : bool :=
  existsb (fun f => Omit.contains omit f && family_present m f) Family.ALL.

Lemma has_omitted_false m omit :
  has_omitted m omit = false <->
  forall f, Omit.contains omit f = true -> family_present m f = false.
Proof.
  unfold has_omitted. rewrite <- not_true_iff_false, existsb_exists. split.
  - intros Hn f Hf. apply not_true_iff_false. intros Hp. apply Hn. exists f.
    split; [destruct f; simpl; tauto | by rewrite Hf, Hp].
  - intros Hf (f & _ & [Ho Hp]%andb_true_iff). rewrite Hf in Hp; done.
Qed.

(** A projected record has nothing of the omitted families. *)
Lemma has_omitted_projected omit m : has_omitted (omit_families omit m) omit = false.
Proof.
  apply has_omitted_false. intros f Hf. rewrite omit_families_eq. unfold omitted.
  destruct f; unfold family_present; cbn; by rewrite Hf.
Qed.

(** ** The body *)

Definition action_tag (a : Action.Action) : byte :=
  match a with Action.Include => x01 | Action.Exclude => x02 end.
Definition action_try_from (b : byte) : result Tree.Error Action.Action :=
  match b with
  | x01 => Ok Action.Include
  | x02 => Ok Action.Exclude
  | _ => Err Tree.InvalidRule
  end.

Section Body.
Context `{A : Allocator} (limits : Limits).

(** One turn of the loop over the rules. *)
Definition read_rule (c : cursor) : result Tree.Error (Rule * cursor) :=
  let? (tag, c) := reader_byte c in
  let? action := action_try_from tag in
  let? (flags, c) := reader_byte c in
  let? _ := fail_if (negb (bool_decide (flags = x00))) Tree.InvalidRule in
  let? (reserved, c) := reader_u16 c in
  let? _ := fail_if (negb (reserved =? 0)) Tree.InvalidRule in
  let? (length, c) := reader_length32 (max_pattern_bytes limits) c in
  let? _ := fail_if (length =? 0) Tree.InvalidRule in
  let? (pattern, c) := reader_take c length in
  let? _ := fail_if (negb (is_utf8 pattern)) (Tree.Snapshot Directory.InvalidUtf8) in
  Ok (MkRule action pattern, c).

(** A length-prefixed metadata record. *)
Definition read_canonical (c : cursor) : result Tree.Error (CanonicalMetadata * cursor) :=
  let? (length, c) := reader_length32 (max_payload_bytes limits) c in
  let? (s, c) := reader_take c length in
  let? m := map_err Tree.Metadata (@MetadataDecode.decode (at_moment (offset c) A) s) in
  Ok (m, c).

(** The operation's demands on its payload, then on a hardlink reference. *)
Definition check_operation (operation : Operation.Operation) (payload : bytes) (m : Metadata) :
    result Tree.Error unit :=
  let? _ :=
    match operation with
    | Operation.Directory | Operation.FileCopy =>
        fail_if (negb (bool_decide (payload = []))) Tree.InvalidPayload
    | Operation.Symlink => fail_if (max_symlink_bytes limits <? zlen payload) Tree.LimitExceeded
    | Operation.FileHardlink =>
        fail_if (negb (bool_decide (hardlink_to m = Some payload)))
          (Tree.Snapshot InvalidHardlinkRelation)
    | Operation.FileRaw | Operation.FileDelta => Ok tt
    end in
  fail_if (bool_decide (is_Some (hardlink_to m))
           && negb (bool_decide (operation = Operation.FileHardlink)))
    (Tree.Snapshot InvalidHardlinkRelation).

(** One turn of the loop over the entries. *)
Definition read_entry (omit : Omit.Omit) (c : cursor) : result Tree.Error (DecodedEntry * cursor) :=
  let? (tag, c) := reader_byte c in
  let? operation := Operation.try_from tag in
  let? (flags, c) := reader_byte c in
  let? _ := fail_if (negb (bool_decide (flags = x00))) Tree.UnsupportedFlags in
  let? (mode, c) := reader_u16 c in
  let? (path_length, c) := reader_length32 (max_path_bytes limits) c in
  let? _ := fail_if (path_length =? 0) Tree.InvalidPath in
  let? (payload_length, c) := reader_u64 c in
  let? payload_length := reader_length payload_length (max_payload_bytes limits) in
  let? (path, c) := reader_take c path_length in
  let? (payload, c) := reader_take c payload_length in
  let? (m, c) := read_canonical c in
  let? _ := fail_if (has_omitted (metadata m) omit) Tree.OmittedMetadataPresent in
  let? _ := check_operation operation payload (metadata m) in
  Ok (MkDecodedEntry path mode operation payload m, c).

Definition read_root (h : Tree.Header) (c : cursor) : result Tree.Error (CanonicalMetadata * cursor) :=
  if Tree.root_metadata h then
    let? (root, c) := read_canonical c in
    let? _ := fail_if (has_omitted (metadata root) (Tree.omit h)) Tree.OmittedMetadataPresent in
    let? _ := fail_if (is_empty (metadata root)) (Tree.Metadata BadMetadata) in
    let? _ := fail_if (negb (bool_decide (holes (metadata root) = [])))
                (Tree.Snapshot InvalidSparseExtent) in
    let? _ := fail_if (bool_decide (is_Some (hardlink_to (metadata root))))
                (Tree.Snapshot InvalidHardlinkRelation) in
    Ok (root, c)
  else Ok (canonical_default, c).

(** [ParsedPatch::decode] *)
Definition decode `{Blake3} (s : bytes) : result Tree.Error ParsedPatch :=
  let? (header, body) := Tree.decode_prefix s (envelope limits) in
  let c := Cursor body 0 in
  let? _ := reserve Tree.OutOfMemory 0 0 (Tree.rule_count header) in
  let? (rules, c) := read_many read_rule (Z.to_nat (Tree.rule_count header)) c in
  let? _ :=
    if bool_decide (rules = []) then Ok tt
    else
      let? _ := map_err Tree.Filter (@Filter.compile (at_moment 2 A) rules) in Ok tt in
  let? _ := reserve Tree.OutOfMemory 1 0 (Tree.entry_count header) in
  let? (entries, c) :=
    read_many (read_entry (Tree.omit header)) (Z.to_nat (Tree.entry_count header)) c in
  let? (root, c) := read_root header c in
  let? _ := fail_if (negb (offset c =? zlen body)) Tree.TrailingData in
  let? _ := map_err Tree.Snapshot (DirectoryStructure.validate entries) in
  Ok (MkParsedPatch header rules entries root).
End Body.

Lemma operation_try_from_tag o : Operation.try_from (Operation.tag o) = Ok o.
Proof. by destruct o. Qed.
Lemma operation_try_from_Ok b o : Operation.try_from b = Ok o -> b = Operation.tag o.
Proof. destruct b; simpl; try done; by intros [= <-]. Qed.
Lemma action_try_from_tag a : action_try_from (action_tag a) = Ok a.
Proof. by destruct a. Qed.
Lemma action_try_from_Ok b a : action_try_from b = Ok a -> b = action_tag a.
Proof. destruct b; simpl; try done; by intros [= <-]. Qed.

(** ** Wire contracts *)

Lemma wire_reader_take n :
  0 <= n -> Wire (fun c => reader_take c n) id (fun s => zlen s = n).
Proof. apply wire_take. Qed.
#[global] Instance wire_reader_byte : Wire reader_byte (fun b => [b]) (fun _ => True).
Proof. apply wire_byte. Qed.
#[global] Instance wire_reader_u16 : Wire reader_u16 le16 is_u16.
Proof. apply wire_u16. Qed.
#[global] Instance wire_reader_u32 : Wire reader_u32 le32 is_u32.
Proof. apply wire_u32. Qed.
#[global] Instance wire_reader_u64 : Wire reader_u64 le64 is_u64.
Proof. apply wire_u64. Qed.

Lemma reader_length_Ok n limit m : reader_length n limit = Ok m <-> n <= limit /\ m = n.
Proof.
  unfold reader_length. rewrite rbind_seq_Ok, fail_if_Ok, Z.ltb_ge. naive_solver.
Qed.

#[global] Instance wire_reader_length32 limit :
  Wire (reader_length32 limit) le32 (fun n => is_u32 n /\ n <= limit).
Proof.
  wire_start.
  - intros n c pre rest [Hn Hl] Hc. unfold reader_length32.
    wire_read wire_reader_u32 n; [done |].
    rewrite (proj2 (reader_length_Ok n limit n)) by done. wire_done.
  - intros n c c' pre rest Hc Hr. unfold reader_length32 in Hr. inv_ok.
    match goal with Hl : reader_length _ _ = Ok _ |- _ => apply reader_length_Ok in Hl as [Hl ->] end.
    wire_inv. wire_split. done.
Qed.

Definition blob_wire (s : bytes) : bytes := le32 (zlen s) ++ s.

Definition rule_wire (r : Rule) : bytes :=
  [action_tag (raction r)] ++ [x00] ++ le16 0 ++ blob_wire (rpattern r).
Definition canonical_wire (m : CanonicalMetadata) : bytes := blob_wire (metadata_wire (metadata m)).
Definition entry_wire (e : DecodedEntry) : bytes :=
  [Operation.tag (doperation e)] ++ [x00] ++ le16 (dmode e) ++ le32 (zlen (dpath e))
  ++ le64 (zlen (dpayload e)) ++ dpath e ++ dpayload e ++ canonical_wire (dmetadata e).

(** [take_inv] inverts the next [take] of the hypotheses. *)
Ltac take_inv :=
  match goal with
  | Hc : at_rest ?c ?pre ?rest, Hr : reader_take ?c ?n = Ok (?s, ?c') |- _ =>
      let r := fresh "rest" in
      let Hc' := fresh "Hc" in
      destruct (take_raw_Ok Tree.UnexpectedEndOfInput c pre rest n s c' Hc)
        as (r & -> & <- & Hc' & _);
        [unfold is_u32, is_u64 in *; lia | exact Hr |]; clear Hc Hr
  end.

(** What the body grammar establishes of each record. *)
Section Wire.
Context `{Allocator} (limits : Limits).

Record rule_wf (r : Rule) : Prop := {
  rw_nonempty : rpattern r <> [];
  rw_length : zlen (rpattern r) <= max_pattern_bytes limits;
  rw_u32 : is_u32 (zlen (rpattern r));
  rw_utf8 : is_utf8 (rpattern r) = true
}.

Record canonical_wf (m : CanonicalMetadata) : Prop := {
  cw_typed : metadata_typed (metadata m);
  cw_canonical : canonical (metadata m);
  cw_u32 : is_u32 (zlen (metadata_wire (metadata m)));
  cw_length : zlen (metadata_wire (metadata m)) <= max_payload_bytes limits
}.

Record entry_wf (omit : Omit.Omit) (e : DecodedEntry) : Prop := {
  ew_mode : is_u16 (dmode e);
  ew_path_nonempty : dpath e <> [];
  ew_path_u32 : is_u32 (zlen (dpath e));
  ew_path_length : zlen (dpath e) <= max_path_bytes limits;
  ew_payload_u64 : is_u64 (zlen (dpayload e));
  ew_payload_length : zlen (dpayload e) <= max_payload_bytes limits;
  ew_metadata : canonical_wf (dmetadata e);
  ew_omitted : has_omitted (metadata (dmetadata e)) omit = false;
  ew_operation : check_operation limits (doperation e) (dpayload e) (metadata (dmetadata e)) = Ok tt
}.

Record root_wf (h : Tree.Header) (m : CanonicalMetadata) : Prop := {
  tw_metadata : canonical_wf m;
  tw_omitted : has_omitted (metadata m) (Tree.omit h) = false;
  tw_nonempty : is_empty (metadata m) = false;
  tw_holes : holes (metadata m) = [];
  tw_link : hardlink_to (metadata m) = None
}.

Lemma zlen_neq_0 {A} (s : list A) : (zlen s =? 0) = false <-> s <> [].
Proof.
  rewrite Z.eqb_neq. split; [intros Hs -> | intros Hs H0]; [done |]. by apply zlen_0_nil in H0.
Qed.

#[global] Instance wire_rule_read : Wire (read_rule limits) rule_wire rule_wf.
Proof.
  wire_start.
  - intros [a p] c pre rest [] Hc. unfold read_rule, rule_wire, blob_wire in *. cbn in *.
    wire_read wire_reader_byte (action_tag a); [done |].
    rewrite action_try_from_tag. cbn [rbind].
    wire_read wire_reader_byte x00; [done |]. cbn [fail_if negb bool_decide rbind].
    wire_read wire_reader_u16 0; [done |]. cbn [Z.eqb negb fail_if rbind].
    wire_read (wire_reader_length32 (max_pattern_bytes limits)) (zlen p); [done |].
    rewrite (proj2 (zlen_neq_0 p)) by done. cbn [fail_if rbind].
    wire_read (wire_reader_take (zlen p) (zlen_nonneg p)) p; [done |].
    rewrite rw_utf9. cbn [negb fail_if rbind]. wire_done.
  - intros x c c' pre rest Hc Hr. unfold read_rule in Hr. inv_ok.
    match goal with Ha : action_try_from _ = Ok _ |- _ => apply action_try_from_Ok in Ha as -> end.
    zbool. wire_inv. take_inv.
    match goal with Hb : bool_decide _ = true |- _ => apply bool_decide_eq_true in Hb end.
    unfold rule_wire, blob_wire. cbn. subst. wire_split.
    destruct Hw2. constructor; try done. by apply zlen_neq_0, Z.eqb_neq.
Qed.

#[global] Instance wire_canonical_sound : WireSound (read_canonical limits) canonical_wire canonical_wf.
Proof.
  split. intros x c c' pre rest Hc Hr. unfold read_canonical in Hr. inv_ok. wire_inv. take_inv.
  match goal with Hd : MetadataDecode.decode ?s = Ok _ |- _ =>
    apply metadata_decode_Ok in Hd as (-> & Ht & Hcan) end.
  - unfold canonical_wire, blob_wire. wire_split. destruct Hw. by constructor.
  - match goal with Hr : at_rest _ _ _ |- _ => destruct Hr as (_ & _ & Hmax) end.
    rewrite !zlen_app in Hmax. zlens.
Qed.

#[global] Instance wire_canonical `{!AllocatorTotal} : Wire (read_canonical limits) canonical_wire canonical_wf.
Proof.
  split; [| apply _]. intros [m] c pre rest [] Hc. unfold read_canonical, canonical_wire, blob_wire in *.
  cbn [metadata] in *.
  wire_read (wire_reader_length32 (max_payload_bytes limits)) (zlen (metadata_wire m)); [done |].
  wire_read (wire_reader_take _ (zlen_nonneg (metadata_wire m))) (metadata_wire m); [done |].
  rewrite metadata_decode_wire by (done || (unfold is_u32, usize_max in *; lia)). cbn [map_err rbind]. wire_done.
Qed.

#[global] Instance wire_entry_sound omit :
  WireSound (read_entry limits omit) entry_wire (entry_wf omit).
Proof.
  split. intros x c c' pre rest Hc Hr. unfold read_entry in Hr. inv_ok.
  match goal with Ho : Operation.try_from _ = Ok _ |- _ => apply operation_try_from_Ok in Ho as -> end.
  match goal with Hl : reader_length _ _ = Ok _ |- _ => apply reader_length_Ok in Hl as [Hlen ->] end.
  zbool. wire_inv. do 2 take_inv. wire_inv.
  match goal with Hb : bool_decide _ = true |- _ => apply bool_decide_eq_true in Hb end.
  unfold entry_wire. cbn. subst. wire_split.
  destruct Hw2. constructor; try done. by apply zlen_neq_0, Z.eqb_neq.
Qed.

#[global] Instance wire_entry `{!AllocatorTotal} omit :
  Wire (read_entry limits omit) entry_wire (entry_wf omit).
Proof.
  split; [| apply _]. intros [path mode op payload m] c pre rest [] Hc.
  unfold read_entry, entry_wire in *. cbn in *.
  wire_read wire_reader_byte (Operation.tag op); [done |].
  rewrite operation_try_from_tag. cbn [rbind].
  wire_read wire_reader_byte x00; [done |]. cbn [fail_if negb bool_decide rbind].
  wire_read wire_reader_u16 mode; [done |].
  wire_read (wire_reader_length32 (max_path_bytes limits)) (zlen path); [done |].
  rewrite (proj2 (zlen_neq_0 path)) by done. cbn [fail_if rbind].
  wire_read wire_reader_u64 (zlen payload); [done |].
  rewrite (proj2 (reader_length_Ok (zlen payload) _ (zlen payload))) by done. cbn [rbind].
  wire_read (wire_reader_take _ (zlen_nonneg path)) path; [done |].
  wire_read (wire_reader_take _ (zlen_nonneg payload)) payload; [done |].
  wire_read wire_canonical m; [done |].
  rewrite ew_omitted0, ew_operation0. cbn [fail_if rbind]. wire_done.
Qed.

(** The root record is present exactly when the header's flag says so. *)
Definition root_wire (h : Tree.Header) (m : CanonicalMetadata) : bytes :=
  if Tree.root_metadata h then canonical_wire m else [].
Definition root_ok (h : Tree.Header) (m : CanonicalMetadata) : Prop :=
  if Tree.root_metadata h then root_wf h m else m = canonical_default.

#[global] Instance wire_root_sound h : WireSound (read_root limits h) (root_wire h) (root_ok h).
Proof.
  split. intros x c c' pre rest Hc Hr. unfold read_root, root_wire, root_ok in *.
  destruct (Tree.root_metadata h); inv_ok.
  - wire_inv. rewrite !negb_false_iff in *.
    repeat match goal with
    | Hb : bool_decide _ = true |- _ => apply bool_decide_eq_true in Hb
    | Hb : bool_decide _ = false |- _ => apply bool_decide_eq_false in Hb
    end. wire_split. constructor; try done. by apply eq_None_not_Some.
  - exists rest. by rewrite app_nil_r.
Qed.

#[global] Instance wire_root `{!AllocatorTotal} h : Wire (read_root limits h) (root_wire h) (root_ok h).
Proof.
  split; [| apply _]. intros m c pre rest Hwf Hc. unfold read_root, root_wire, root_ok in *.
  destruct (Tree.root_metadata h).
  - destruct Hwf. wire_read wire_canonical m; [done |].
    rewrite tw_omitted0, tw_nonempty0, tw_holes0, tw_link0, bool_decide_eq_true_2 by done.
    rewrite bool_decide_eq_false_2 by (intros [? [=]]). cbn [negb fail_if rbind]. wire_done.
  - subst m. exists c. by rewrite app_nil_r.
Qed.
End Wire.

(** ** Whole patches *)

Definition body_wire (p : ParsedPatch) : bytes :=
  (prules p ≫= rule_wire) ++ (pentries p ≫= entry_wire) ++ root_wire (pheader p) (proot p).

Section Patch.
Context `{Al : Allocator, Blake3} (limits : Limits).

Definition patch_wire (p : ParsedPatch) : bytes :=
  Tree.wire (pheader p) (body_wire p) ++ body_wire p.

Record patch_wf (p : ParsedPatch) : Prop := {
  pw_header : Tree.header_typed (pheader p);
  pw_acceptable : Tree.acceptable (envelope limits) (pheader p) (body_wire p);
  pw_rule_count : Tree.rule_count (pheader p) = zlen (prules p);
  pw_rules : Forall (rule_wf limits) (prules p);
  pw_filter : Forall (fun r => Filter.bare_pattern r <> []) (prules p);
  pw_entry_count : Tree.entry_count (pheader p) = zlen (pentries p);
  pw_entries : Forall (entry_wf limits (Tree.omit (pheader p))) (pentries p);
  pw_root : root_ok limits (pheader p) (proot p);
  pw_hierarchy : hierarchy (pentries p)
}.

Lemma decoded_modes_typed es omit : Forall (entry_wf limits omit) es -> modes_typed es.
Proof. intros He. eapply list.Forall_impl; [exact He |]. by intros e []. Qed.

Lemma is_u32_to_nat {A} n (l : list A) : is_u32 n -> length l = Z.to_nat n -> n = zlen l.
Proof. unfold is_u32, zlen. lia. Qed.

Lemma patch_decode_Ok s p :
  zlen s <= usize_max -> decode limits s = Ok p -> s = patch_wire p /\ patch_wf p.
Proof.
  intros Hs Hd. unfold decode in Hd. inv_ok.
  match goal with Hp : Tree.decode_prefix _ _ = Ok (?h, ?b) |- _ =>
    rename h into header, b into body;
    apply Tree.tree_decode_prefix_Ok in Hp as (-> & Ht & Hacc) end.
  rewrite zlen_app in Hs. pose proof (zlen_nonneg (Tree.wire header body)).
  assert (at_rest (Cursor body 0) [] body) as Hc by (apply at_rest_start; lia).
  wire_inv.
  match goal with
  | Hr : at_rest ?c ?pre ?rest, Ho : negb (offset ?c =? _) = false |- _ =>
      assert (rest = []) as ->
        by (destruct Hr as (_ & Hoff & _); apply zlen_0_nil; rewrite Hoff in Ho; zbool;
          rewrite !zlen_app in Ho; zlen_nil; lia)
  end.
  rewrite app_nil_r in *. destruct Hw as [Hnr Hwr], Hw0 as [Hne Hwe].
  match goal with Hv : validate _ = Ok _ |- _ =>
    apply validate_hierarchy in Hv; [| by eapply decoded_modes_typed] end.
  split; [done |]. destruct Ht. constructor; cbn [pheader prules pentries proot]; try done.
  - by apply is_u32_to_nat.
  - match goal with Hf : (if bool_decide (?l = []) then _ else _) = _ |- _ =>
      destruct (decide (l = [])) as [-> | Hn]; [constructor | rewrite bool_decide_eq_false_2 in Hf by done] end.
    inv_ok. match goal with Hc : Filter.compile _ = Ok _ |- _ => exact (Filter.compile_patterns _ _ Hc) end.
  - by apply is_u32_to_nat.
Qed.

Lemma patch_decode_wire `{!AllocatorTotal} p :
  patch_wf p -> zlen (patch_wire p) <= usize_max -> decode limits (patch_wire p) = Ok p.
Proof.
  intros [] Hs. unfold decode, patch_wire in *.
  rewrite Tree.tree_decode_prefix_wire by done. cbn [rbind].
  rewrite zlen_app in Hs. pose proof (zlen_nonneg (Tree.wire (pheader p) (body_wire p))).
  assert (at_rest (Cursor (body_wire p) 0) [] (body_wire p)) as Hc by (apply at_rest_start; lia).
  rewrite <- (app_nil_r (body_wire p)) in Hc at 2.
  rewrite reserve_total. cbn [rbind]. unfold body_wire at 2 in Hc.
  wire_read (wire_many (read_rule limits) rule_wire (rule_wf limits)
    (Z.to_nat (Tree.rule_count (pheader p)))) (prules p).
  { split; [rewrite pw_rule_count0; unfold zlen; lia | done]. }
  assert ((if bool_decide (prules p = []) then Ok tt
    else let? _ := map_err Tree.Filter (@Filter.compile (at_moment 2 Al) (prules p)) in Ok tt) = Ok tt) as ->.
  { case_bool_decide as Hr; [done |]. by destruct (@Filter.compile_total (at_moment 2 Al) _ _ pw_filter0) as [f ->]. }
  cbn [rbind]. rewrite reserve_total. cbn [rbind].
  wire_read (wire_many (read_entry limits (Tree.omit (pheader p))) entry_wire
    (entry_wf limits (Tree.omit (pheader p))) (Z.to_nat (Tree.entry_count (pheader p)))) (pentries p).
  { split; [rewrite pw_entry_count0; unfold zlen; lia | done]. }
  wire_read (wire_root limits (pheader p)) (proot p); [done |].
  match goal with Hr : at_rest ?c _ [] |- context [offset ?c =? _] =>
    destruct Hr as (_ & -> & _) end.
  replace (_ =? _) with true by (symmetry; apply Z.eqb_eq; unfold body_wire; by rewrite <- !app_assoc).
  cbn [negb fail_if rbind].
  rewrite (proj2 (validate_hierarchy (pentries p) (decoded_modes_typed _ _ pw_entries0)) pw_hierarchy0).
  cbn [map_err rbind]. by destruct p.
Qed.
(** C4: [ParsedPatch::decode] accepts exactly the encodings of well-formed
    patches: the records in the order the header counts them, nothing after
    them, every record within the limits, the rules compiling, the paths a
    sorted and complete hierarchy. What it returns is the patch that was
    encoded, so no two patches share an encoding. *)
Theorem patch_decode_iff `{!AllocatorTotal} s p :
  zlen s <= usize_max ->
  decode limits s = Ok p <-> s = patch_wire p /\ patch_wf p.
Proof.
  intros Hs. split; [by apply patch_decode_Ok |].
  intros [-> Hwf]. by apply patch_decode_wire.
Qed.
End Patch.

(** A patch to the empty snapshot with one rule. *)
Section Sample.
#[local] Existing Instances plentiful toy_blake3.

Definition small_rule : Rule := MkRule Action.Include (lit "a*").
Definition small_patch : ParsedPatch :=
  MkParsedPatch (Tree.MkHeader 2 false (Omit.MkOmit 0) 1 0 (zeros 32) (zeros 32))
    [small_rule] [] canonical_default.

Lemma patch_decode_iff_witness :
  zlen (patch_wire small_patch) <= usize_max
  /\ decode limits_default (patch_wire small_patch) = Ok small_patch
  /\ patch_wf limits_default small_patch.
Proof.
  assert (zlen (patch_wire small_patch) <= usize_max) as Hl by (vm_compute; discriminate).
  assert (decode limits_default (patch_wire small_patch) = Ok small_patch) as Hd
    by (vm_compute; reflexivity).
  split; [exact Hl |]. split; [exact Hd |].
  exact (proj2 (proj1 (patch_decode_iff limits_default (patch_wire small_patch) small_patch Hl) Hd)).
Defined.
End Sample.
End Decode.
