(* ===== verification/TreePatchEncode.v ===== *)
(** * Creating a tree patch ([rust/src/tree_patch_encode.rs])

    Projection of a snapshot on the retained metadata families, the choice of an
    operation for each target entry, and the bounded writer. *)

From S2P Require Export TreePatchDecode Samples.

Module Encode.
Import Decode.

Record CreateOptions : Type := MkCreateOptions { orules : list Rule; oomit : Omit.Omit }.

Section Project.
Context `{A : Allocator}.

Definition project_entry (omit : Omit.Omit) (projected : list Entry) (e : Entry) :
    result Tree.Error (list Entry) :=
  let? m := map_err Tree.Metadata
    (@borrowing_omitting (at_moment (zlen projected) A) (emetadata e) omit) in
  Ok (projected ++ [MkEntry (epath e) (econtent e) m]).

(** Contents are borrowed unchanged. *)
Definition project (source : CanonicalSnapshot.CanonicalSnapshot) (omit : Omit.Omit) :
    result Tree.Error CanonicalSnapshot.CanonicalSnapshot :=
  let s := CanonicalSnapshot.snapshot source in
  let? _ := reserve Tree.OutOfMemory 0 0 (zlen (entries s)) in
  let? projected := foldM (project_entry omit) [] (entries s) in
  let? root := map_err Tree.Metadata
    (@borrowing_omitting (at_moment (zlen projected) A) (root s) omit) in
  map_err Tree.Snapshot (CanonicalSnapshot.new (MkSnapshot projected root)).
End Project.

(** ** The writer: its bytes; [maximum] bounds them *)

Section Writer.
Context `{A : Allocator} (maximum : Z).

Definition put (w s : bytes) : result Tree.Error bytes :=
  let? length := ok_or Tree.LimitExceeded (checked_add (zlen w) (zlen s)) in
  let? _ := fail_if (maximum <? length) Tree.LimitExceeded in
  let? _ := reserve Tree.OutOfMemory 0 (zlen w) (zlen s) in
  Ok (w ++ s).

Definition put_metadata (limit : Z) (w : bytes) (m : CanonicalMetadata) : result Tree.Error bytes :=
  let? s := map_err Tree.Metadata (@MetadataCanonical.encode (at_moment (zlen w) A) m) in
  let? _ := fail_if (limit <? zlen s) Tree.LimitExceeded in
  let? _ := fail_if (u32_max <? zlen s) Tree.LimitExceeded in
  let? w := put w (le32 (zlen s)) in
  put w s.

Definition put_rule (limits : Limits) (w : bytes) (r : Rule) : result Tree.Error bytes :=
  let? _ := fail_if (bool_decide (rpattern r = []) || (max_pattern_bytes limits <? zlen (rpattern r)))
              Tree.LimitExceeded in
  let? w := put w [action_tag (raction r); x00; x00; x00] in
  let? w := put w (le32 (zlen (rpattern r))) in
  put w (rpattern r).
End Writer.

Section Choose.
Context `{Allocator, Blake3, Zstd}.

(** The operation and payload that reproduce a target entry from [source]. *)
Definition choose (limits : Limits) (source : Snapshot) (e : Entry) :
    result Tree.Error (Operation.Operation * bytes) :=
  match econtent e with
  | Content.Directory _ => Ok (Operation.Directory, [])
  | Content.Symlink target =>
      let? _ := fail_if (max_symlink_bytes limits <? zlen target) Tree.LimitExceeded in
      Ok (Operation.Symlink, target)
  | Content.File _ data =>
      match hardlink_to (metadata (emetadata e)) with
      | Some link => Ok (Operation.FileHardlink, link)
      | None =>
          match find_path (entries source) (epath e) ≫= (entries source !!.) with
          | Some old =>
              match econtent old with
              | Content.File _ previous =>
                  if bool_decide (previous = data) then Ok (Operation.FileCopy, [])
                  else
                    let? delta := map_err Tree.File (File.encode previous data) in
                    Ok (Operation.FileDelta, delta)
              | Content.Directory _ | Content.Symlink _ => Ok (Operation.FileRaw, data)
              end
          | None => Ok (Operation.FileRaw, data)
          end
      end
  end.

End Choose.

Section Create.
Context `{A : Allocator, Blake3, C : Zstd}.

Definition put_entry (maximum : Z) (limits : Limits) (source : Snapshot) (w : bytes) (e : Entry) :
    result Tree.Error bytes :=
  let? (operation, payload) := @choose (at_moment (zlen w) A) _ (codec_at (zlen w) C) limits source e in
  let? _ := fail_if (max_payload_bytes limits <? zlen payload) Tree.LimitExceeded in
  let? w := put maximum w [Operation.tag operation; x00] in
  let? w := put maximum w (le16 (mbits (Content.mode (econtent e)))) in
  let? w := put maximum w (le32 (zlen (epath e))) in
  let? w := put maximum w (le64 (zlen payload)) in
  let? w := put maximum w (epath e) in
  let? w := put maximum w payload in
  put_metadata maximum (max_payload_bytes limits) w (emetadata e).

Definition create (source target : CanonicalSnapshot.CanonicalSnapshot) (options : CreateOptions) :
    result Tree.Error bytes :=
  let (rules, omit) := options in
  let limits := limits_default in
  let? (source, target) :=
    if Omit.bits omit =? 0 then Ok (source, target)
    else
      let? source := @project (at_moment 1 A) source omit in
      let? target := @project (at_moment 2 A) target omit in
      Ok (source, target) in
  let? _ := fail_if (Tree.max_rules (envelope limits) <? zlen rules) Tree.LimitExceeded in
  let? _ := map_err Tree.Filter (@Filter.compile (at_moment 3 A) rules) in
  let s := CanonicalSnapshot.snapshot source in
  let t := CanonicalSnapshot.snapshot target in
  let header :=
    Tree.MkHeader 2 (negb (is_empty (metadata (root t)))) omit (zlen rules) (zlen (entries t))
      (CanonicalSnapshot.hash source) (CanonicalSnapshot.hash target) in
  let maximum := Tree.max_patch_bytes (envelope limits) in
  let? output := put maximum [] (zeros (Z.to_nat Tree.HEADER_LEN)) in
  let? output := foldM (put_rule maximum limits) output rules in
  let? output := foldM (put_entry maximum limits s) output (entries t) in
  let? output :=
    if Tree.root_metadata header
    then put_metadata maximum (max_payload_bytes limits) output (root t)
    else Ok output in
  let encoded := Tree.encode header (zdrop Tree.HEADER_LEN output) in
  Ok (write_at 0 encoded output).
End Create.

(** ** Projection *)

(** Every entry and the root, without the omitted families. *)
Definition omit_canonical_metadata (omit : Omit.Omit) (m : CanonicalMetadata) : CanonicalMetadata :=
  MkCanonicalMetadata (omit_families omit (metadata m)).
Definition omit_entry (omit : Omit.Omit) (e : Entry) : Entry :=
  MkEntry (epath e) (econtent e) (omit_canonical_metadata omit (emetadata e)).
Definition omit_snapshot (omit : Omit.Omit) (s : Snapshot) : Snapshot :=
  MkSnapshot (omit_entry omit <$> entries s) (omit_canonical_metadata omit (root s)).

(** What the type [CanonicalSnapshot] guarantees: its snapshot was validated,
    and so was each metadata record in it. *)
Record snapshot_wf (s : Snapshot) : Prop := {
  sw_snapshot : canonical_snapshot s;
  sw_entries : Forall (fun e => entry_typed e /\ canonical (metadata (emetadata e))) (entries s);
  sw_root_typed : metadata_typed (metadata (root s));
  sw_root : canonical (metadata (root s))
}.

(** The invariant, checked. *)
Definition snapshot_check (s : Snapshot) : bool :=
  forallb (fun e => bool_decide (entry_typed e /\ canonical (metadata (emetadata e)))) (entries s)
  && bool_decide (metadata_typed (metadata (root s))) && bool_decide (canonical (metadata (root s)))
  && is_ok (CanonicalSnapshot.new s).

Lemma snapshot_check_wf s : snapshot_check s = true -> snapshot_wf s.
Proof.
  unfold snapshot_check. rewrite !andb_true_iff, !bool_decide_eq_true, forallb_forall.
  intros [[[He Ht] Hc] [c Hn]%is_ok_Ok].
  assert (Forall (fun e => entry_typed e /\ canonical (metadata (emetadata e))) (entries s)) as Hf.
  { apply list.Forall_forall. intros e Hin%list_elem_of_In.
    by apply (bool_decide_eq_true (_ /\ _)), He. }
  apply snapshot_new_ok in Hn as [Hn _]; [by constructor |].
  eapply list.Forall_impl; [exact Hf | by intros e []].
Qed.

Lemma project_fold_Ok `{Allocator} omit es projected projected' :
  foldM (project_entry omit) projected es = Ok projected' ->
  projected' = projected ++ (omit_entry omit <$> es).
Proof.
  revert projected. induction es as [| e es IH]; intros projected; cbn [foldM].
  - intros [= ->]. by rewrite app_nil_r.
  - intros Hp. apply rbind_Ok in Hp as (p1 & Hp1 & Hp). unfold project_entry in Hp1. inv_ok.
    match goal with Hb : borrowing_omitting _ _ = Ok ?m |- _ =>
      apply borrowing_omitting_Ok in Hb; destruct m as [m']; cbn [metadata] in Hb; subst m' end.
    apply IH in Hp as ->. rewrite fmap_cons, <- app_assoc. done.
Qed.

Lemma project_Ok `{Allocator} source omit c :
  project source omit = Ok c ->
  CanonicalSnapshot.snapshot c = omit_snapshot omit (CanonicalSnapshot.snapshot source).
Proof.
  unfold project. intros Hp. inv_ok.
  match goal with Hf : foldM (project_entry _) _ _ = Ok _ |- _ => apply project_fold_Ok in Hf as -> end.
  match goal with Hb : borrowing_omitting _ _ = Ok ?m |- _ =>
    apply borrowing_omitting_Ok in Hb; destruct m as [m']; cbn [metadata] in Hb; subst m' end.
  unfold CanonicalSnapshot.new in Hp. inv_ok. done.
Qed.

Lemma omit_entry_typed omit e :
  entry_typed e /\ canonical (metadata (emetadata e)) ->
  entry_typed (omit_entry omit e) /\ canonical (metadata (emetadata (omit_entry omit e))).
Proof.
  intros [[Hm Ht] Hc]. split; [constructor; [done | by apply omit_typed] | by apply omit_canonical].
Qed.

Lemma omitted_cases {A} omit f (none some : A) :
  omitted omit f none some = none \/ omitted omit f none some = some.
Proof. unfold omitted. destruct (Omit.contains omit f); auto. Qed.

Lemma shared_metadata_equal_iff m1 m2 :
  shared_metadata_equal m1 m2 = true <->
  xattrs m1 = xattrs m2 /\ aces m1 = aces m2 /\ native_acl m1 = native_acl m2
  /\ times m1 = times m2 /\ finder_flags m1 = finder_flags m2
  /\ finder_info m1 = finder_info m2 /\ holes m1 = holes m2.
Proof.
  unfold shared_metadata_equal. rewrite !andb_true_iff, !bool_decide_eq_true, Z.eqb_eq. tauto.
Qed.

Lemma shared_omit omit m1 m2 :
  shared_metadata_equal m1 m2 = true ->
  shared_metadata_equal (omit_families omit m1) (omit_families omit m2) = true.
Proof.
  rewrite !shared_metadata_equal_iff, !omit_families_eq. cbn. intros. destruct_and!.
  split_and!; congruence.
Qed.

(** Projection keeps every guarantee of a snapshot. *)
Lemma omit_snapshot_wf omit s : snapshot_wf s -> snapshot_wf (omit_snapshot omit s).
Proof.
  intros [[Hh Hho Hli Hrh Hrl] He Hrt Hr]. constructor; cbn.
  - constructor; cbn.
    + eapply hierarchy_outline; [| exact Hh]. rewrite <- list_fmap_compose. by apply list_fmap_ext.
    + rewrite Forall_fmap. eapply list.Forall_impl; [exact Hho |]. intros e Hholes. cbn.
      rewrite omit_families_eq. cbn. destruct (omitted_cases omit Family.Sparse [] (holes (metadata (emetadata e))))
        as [-> | ->]; [constructor | done].
    + rewrite Forall_fmap. eapply list.Forall_impl; [exact Hli |]. intros e Hlink path. cbn.
      rewrite omit_families_eq at 1. cbn.
      destruct (omitted_cases omit Family.Hardlink None (hardlink_to (metadata (emetadata e))))
        as [-> | ->]; [done |]. intros Hpath.
      destruct (Hlink path Hpath) as (t & Ht & Hp & Hlt & Hf & Hc & Hn & Hsh).
      exists (omit_entry omit t). cbn. split_and!; try done.
      * by apply list_elem_of_fmap_2.
      * rewrite omit_families_eq. cbn. rewrite Hn. unfold omitted. by case_match.
      * by apply shared_omit.
    + rewrite omit_families_eq. cbn. rewrite Hrh. unfold omitted. by case_match.
    + rewrite omit_families_eq. cbn. rewrite Hrl. unfold omitted. by case_match.
  - rewrite Forall_fmap. eapply list.Forall_impl; [exact He |]. apply omit_entry_typed.
  - by apply omit_typed.
  - by apply omit_canonical.
Qed.

Lemma project_fold_total `{AllocatorTotal} omit es projected :
  Forall (fun e => canonical (metadata (emetadata e))) es ->
  foldM (project_entry omit) projected es = Ok (projected ++ (omit_entry omit <$> es)).
Proof.
  revert projected. induction es as [| e es IH]; intros projected He; cbn [foldM].
  - by rewrite app_nil_r.
  - apply Forall_cons_iff in He as [Hc He]. unfold project_entry at 1.
    rewrite borrowing_omitting_total by done. cbn [map_err rbind]. rewrite IH by done.
    by rewrite fmap_cons, <- app_assoc.
Qed.

Lemma project_total `{AllocatorTotal} source omit :
  snapshot_wf (CanonicalSnapshot.snapshot source) ->
  project source omit =
    Ok (CanonicalSnapshot.MkCanonicalSnapshot (omit_snapshot omit (CanonicalSnapshot.snapshot source))).
Proof.
  intros Hs. pose proof (omit_snapshot_wf omit _ Hs) as Ho. destruct Hs as [_ He _ Hr]. unfold project.
  rewrite reserve_total. cbn [rbind].
  rewrite project_fold_total by (eapply list.Forall_impl; [exact He | by intros ? []]). cbn [rbind app].
  rewrite borrowing_omitting_total by done. cbn [map_err rbind].
  fold (omit_canonical_metadata omit (root (CanonicalSnapshot.snapshot source))).
  fold (omit_snapshot omit (CanonicalSnapshot.snapshot source)).
  assert (CanonicalSnapshot.new (omit_snapshot omit (CanonicalSnapshot.snapshot source)) =
    Ok (CanonicalSnapshot.MkCanonicalSnapshot (omit_snapshot omit (CanonicalSnapshot.snapshot source))))
    as ->; [| done].
  apply snapshot_new_ok; [| split; [by destruct Ho | done]].
  destruct Ho as [_ Ho _ _]. eapply list.Forall_impl; [exact Ho | by intros ? []].
Qed.

(** The empty mask omits nothing. *)
Lemma omit_nothing omit s : Omit.bits omit = 0 -> omit_snapshot omit s = s.
Proof.
  destruct omit as [b]. cbn. intros ->. fold Omit.default. unfold omit_snapshot.
  assert (forall m, omit_canonical_metadata (Omit.MkOmit 0) m = m) as Hm.
  { intros [m]. exact (f_equal MkCanonicalMetadata (omit_none m)). }
  rewrite Hm. destruct s as [es r]. cbn. f_equal. rewrite <- (list_fmap_id es) at 2.
  apply list_fmap_ext. intros _ [p c m] _. unfold omit_entry. cbn. by rewrite Hm.
Qed.

(** ** What the writer writes *)

Section WriterFacts.
Context `{Allocator} (maximum : Z).

Lemma put_Ok w s w' : put maximum w s = Ok w' -> w' = w ++ s /\ zlen w' <= maximum.
Proof.
  unfold put. intros Hp. inv_ok.
  match goal with Hc : checked_add _ _ = Some _ |- _ => apply checked_add_Some in Hc as [-> _] end.
  zbool. rewrite zlen_app. split; [done | lia].
Qed.

Lemma put_rule_Ok limits w r w' :
  is_utf8 (rpattern r) = true -> max_pattern_bytes limits <= u32_max ->
  put_rule maximum limits w r = Ok w' ->
  w' = w ++ rule_wire r /\ rule_wf limits r /\ zlen w' <= maximum.
Proof.
  intros Hu Hm. unfold put_rule. intros Hp. inv_ok.
  repeat match goal with Hw : put _ _ _ = Ok _ |- _ => apply put_Ok in Hw as [-> ?] end.
  match goal with Hb : _ || _ = false |- _ => apply orb_false_iff in Hb as [Hn Hl] end.
  apply bool_decide_eq_false in Hn. zbool. split_and!.
  - unfold rule_wire, blob_wire. rewrite <- !app_assoc. done.
  - constructor; try done. unfold is_u32, u32_max in *. zlens.
  - done.
Qed.

Lemma put_metadata_Ok limits w m w' :
  metadata_typed (metadata m) -> canonical (metadata m) ->
  put_metadata maximum (max_payload_bytes limits) w m = Ok w' ->
  w' = w ++ canonical_wire m /\ canonical_wf limits m /\ zlen w' <= maximum.
Proof.
  intros Ht Hc. unfold put_metadata. intros Hp. inv_ok.
  match goal with He : MetadataCanonical.encode _ = Ok _ |- _ => apply metadata_encode_Ok in He as [-> _] end.
  repeat match goal with Hw : put _ _ _ = Ok _ |- _ => apply put_Ok in Hw as [-> ?] end.
  zbool. split_and!.
  - unfold canonical_wire, blob_wire. by rewrite <- app_assoc.
  - constructor; try done. unfold is_u32, u32_max in *. zlens.
  - done.
Qed.
End WriterFacts.

(** The descriptor written for a target entry. *)
Definition descriptor (e : Entry) (operation : Operation.Operation) (payload : bytes) : DecodedEntry :=
  MkDecodedEntry (epath e) (mbits (Content.mode (econtent e))) operation payload (emetadata e).

(** A choice that is made at one moment is made at every other. *)
Lemma choose_anywhere `{A : Allocator, Blake3, C : Zstd} (A' : Allocator) (C' : Zstd) `{!@AllocatorTotal A'} limits source e r :
  (forall s t output output', @append_frame C [] s t output = Ok output' ->
    @append_frame C' [] s t output = Ok output') ->
  @choose A _ C limits source e = Ok r -> @choose A' _ C' limits source e = Ok r.
Proof.
  intros Hc. unfold choose. destruct (econtent e) as [| mode data |]; [done | | done].
  destruct (hardlink_to _); [done |]. destruct (_ ≫= _) as [old |]; [| done].
  destruct (econtent old) as [| m previous |]; [done | | done]. case_bool_decide; [done |].
  intros (delta & Hd%map_err_Ok & Hr)%rbind_Ok.
  by rewrite (@File.encode_anywhere A _ C A' C' _ previous data delta (Hc _ _) Hd).
Qed.

Section Choice.
Context `{Al : Allocator, Blake3, C : Zstd}.

Definition chosen (limits : Limits) (source : Snapshot) (e : Entry) (d : DecodedEntry) : Prop :=
  exists operation payload, choose limits source e = Ok (operation, payload)
    /\ d = descriptor e operation payload.

(** The kind of the operation is the kind of the entry, and what it demands of
    its payload holds. *)
Lemma choose_operation limits source e operation payload :
  choose limits source e = Ok (operation, payload) ->
  (hardlink_to (metadata (emetadata e)) <> None -> exists mode data, econtent e = Content.File mode data) ->
  check_operation limits operation payload (metadata (emetadata e)) = Ok tt
  /\ outline (structure (descriptor e operation payload)) = outline (structure e).
Proof.
  unfold choose, descriptor, check_operation. intros Hc Hl.
  cbn [structure decoded_view entry_view dpath dmode doperation dpayload].
  destruct (econtent e) as [mode | mode data | target] eqn:Ec.
  - injection Hc as <- <-. cbn [negb bool_decide fail_if rbind Content.mode].
    destruct (hardlink_to (metadata (emetadata e))); [| done].
    destruct Hl as (? & ? & [=]). done.
  - destruct (hardlink_to (metadata (emetadata e))) as [link |] eqn:Eh.
    + injection Hc as <- <-. rewrite bool_decide_eq_true_2 by done.
      split; [| done]. by rewrite (bool_decide_eq_true_2 (_ = Operation.FileHardlink)), andb_false_r.
    + rewrite (bool_decide_eq_false_2 (is_Some None)) by (intros [? [=]]). cbn [andb fail_if].
      destruct (_ ≫= _) as [old |]; [| by injection Hc as <- <-].
      destruct (econtent old) as [| m previous |]; [by injection Hc as <- <- | | by injection Hc as <- <-].
      case_bool_decide; inv_ok; done.
  - inv_ok. match goal with Hb : (_ <? _) = false |- _ => rewrite Hb end. cbn [fail_if rbind].
    destruct (hardlink_to (metadata (emetadata e))); [| done].
    destruct Hl as (? & ? & [=]). done.
Qed.

(** What the writer needs of a target entry. *)
Record entry_ready (omit : Omit.Omit) (e : Entry) : Prop := {
  er_path : path_ok (epath e);
  er_typed : entry_typed e;
  er_canonical : canonical (metadata (emetadata e));
  er_link : hardlink_to (metadata (emetadata e)) <> None ->
    exists mode data, econtent e = Content.File mode data;
  er_omitted : has_omitted (metadata (emetadata e)) omit = false
}.

Lemma chosen_at `{!AllocatorTotal, !ZstdSteady} k limits source e operation payload :
  @choose (at_moment k Al) _ (codec_at k C) limits source e = Ok (operation, payload)
  <-> choose limits source e = Ok (operation, payload).
Proof.
  split.
  - refine (@choose_anywhere (at_moment k Al) _ (codec_at k C) Al C _ _ _ _ _ _).
    intros s t output output'. apply (append_steady [k] []).
  - refine (@choose_anywhere Al _ C (at_moment k Al) (codec_at k C) _ _ _ _ _ _).
    intros s t output output'. apply (append_steady [] [k]).
Qed.

Lemma put_entry_Ok `{!AllocatorTotal, !ZstdSteady} maximum omit source w e w' :
  entry_ready omit e -> put_entry maximum limits_default source w e = Ok w' ->
  exists d, chosen limits_default source e d /\ w' = w ++ entry_wire d
    /\ entry_wf limits_default omit d /\ outline (structure d) = outline (structure e)
    /\ zlen w' <= maximum.
Proof.
  intros [Hpath [Hmode Ht] Hcan Hlink Hom] Hp. unfold put_entry in Hp. inv_ok.
  match goal with Hc : choose _ _ _ = Ok (?o, ?p) |- _ =>
    apply chosen_at in Hc; destruct (choose_operation _ _ _ _ _ Hc Hlink) as [Hop Hout];
    exists (descriptor e o p); assert (chosen limits_default source e (descriptor e o p))
      by (exists o, p; done); rename p into payload end.
  repeat match goal with Hw : put _ _ _ = Ok _ |- _ => apply put_Ok in Hw as [-> ?] end.
  apply put_metadata_Ok in Hp as (-> & Hcw & Hmax); [| done | done].
  assert (zlen (epath e) <= 4096) as Hpl by by destruct Hpath.
  pose proof (path_ok_not_nil _ Hpath). zbool. split_and!; try done.
  - unfold entry_wire, descriptor. cbn. rewrite <- !app_assoc. done.
  - change (max_payload_bytes limits_default) with 8589934592 in *.
    constructor; cbn; try done; unfold is_u32, is_u64; zlens.
Qed.

Lemma put_entries_Ok `{!AllocatorTotal, !ZstdSteady} maximum omit source es w w' :
  Forall (entry_ready omit) es -> foldM (put_entry maximum limits_default source) w es = Ok w' ->
  exists ds, Forall2 (chosen limits_default source) es ds /\ w' = w ++ (ds ≫= entry_wire)
    /\ Forall (entry_wf limits_default omit) ds
    /\ (outline ∘ structure) <$> ds = (outline ∘ structure) <$> es
    /\ (zlen w <= maximum -> zlen w' <= maximum).
Proof.
  revert w. induction es as [| e es IH]; intros w He; cbn [foldM].
  - intros [= ->]. exists []. rewrite app_nil_r. split_and!; done || constructor.
  - apply Forall_cons_iff in He as [He Hes]. intros Hp. apply rbind_Ok in Hp as (w1 & Hp1 & Hp).
    destruct (put_entry_Ok _ _ _ _ _ _ He Hp1) as (d & Hd & -> & Hwf & Ho & Hmax).
    destruct (IH _ Hes Hp) as (ds & Hds & Hw & Hwfs & Hos & Hm). subst w'.
    exists (d :: ds). rewrite bind_cons, app_assoc. split_and!; try done.
    + by constructor.
    + by constructor.
    + rewrite !fmap_cons, Hos. f_equal. exact Ho.
    + auto.
Qed.

Lemma put_rules_Ok maximum rules w w' :
  Forall (fun r => is_utf8 (rpattern r) = true) rules ->
  foldM (put_rule maximum limits_default) w rules = Ok w' ->
  w' = w ++ (rules ≫= rule_wire) /\ Forall (rule_wf limits_default) rules
  /\ (zlen w <= maximum -> zlen w' <= maximum).
Proof.
  revert w. induction rules as [| r rules IH]; intros w Hu; cbn [foldM].
  - intros [= ->]. rewrite app_nil_r. split_and!; done || constructor.
  - apply Forall_cons_iff in Hu as [Hu Hus]. intros Hp. apply rbind_Ok in Hp as (w1 & Hp1 & Hp).
    apply put_rule_Ok in Hp1 as (-> & Hr & Hm); [| done | done].
    destruct (IH _ Hus Hp) as (-> & Hrs & Hmax). rewrite bind_cons, app_assoc.
    split_and!; [done | by constructor | auto].
Qed.
End Choice.

(** The least sizes of the descriptors, which the header's counts are checked
    against. *)
Lemma rule_wire_minimum limits r : rule_wf limits r -> 9 <= zlen (rule_wire r).
Proof.
  intros []. unfold rule_wire, blob_wire. autorewrite with zlen. zlen_nil.
  assert (zlen (rpattern r) <> 0) by (by apply Z.eqb_neq, zlen_neq_0). zlens.
Qed.

Lemma entry_wire_minimum limits omit d : entry_wf limits omit d -> 41 <= zlen (entry_wire d).
Proof.
  intros []. unfold entry_wire, canonical_wire, blob_wire. autorewrite with zlen. zlen_nil.
  assert (zlen (dpath d) <> 0) by (by apply Z.eqb_neq, zlen_neq_0).
  pose proof (metadata_wire_minimum (metadata (dmetadata d))). zlens.
Qed.

(** ** What [create] creates *)

Section CreateFacts.
Context `{Al : Allocator, Blake3, Zstd}.

(** The snapshot in the scope of the mask. *)
Definition scoped (omit : Omit.Omit) (c : CanonicalSnapshot.CanonicalSnapshot) :
    CanonicalSnapshot.CanonicalSnapshot :=
  CanonicalSnapshot.MkCanonicalSnapshot (omit_snapshot omit (CanonicalSnapshot.snapshot c)).

Definition header_of (options : CreateOptions) (source target : CanonicalSnapshot.CanonicalSnapshot) :
    Tree.Header :=
  let source := scoped (oomit options) source in
  let target := scoped (oomit options) target in
  let t := CanonicalSnapshot.snapshot target in
  Tree.MkHeader 2 (negb (is_empty (metadata (root t)))) (oomit options) (zlen (orules options))
    (zlen (entries t)) (CanonicalSnapshot.hash source) (CanonicalSnapshot.hash target).

Definition patch_of options source target (ds : list DecodedEntry) : ParsedPatch :=
  MkParsedPatch (header_of options source target) (orules options) ds
    (root (CanonicalSnapshot.snapshot (scoped (oomit options) target))).

Lemma scoped_nothing omit c : Omit.bits omit = 0 -> scoped omit c = c.
Proof. intros Ho. unfold scoped. rewrite omit_nothing by done. by destruct c. Qed.

Lemma scoped_choice omit source target r :
  (if Omit.bits omit =? 0 then Ok (source, target)
   else
     let? source := @project (at_moment 1 Al) source omit in
     let? target := @project (at_moment 2 Al) target omit in
     Ok (source, target)) = Ok r ->
  r = (scoped omit source, scoped omit target).
Proof.
  destruct (Z.eqb_spec (Omit.bits omit) 0) as [E |].
  - intros [= <-]. by rewrite !scoped_nothing.
  - intros Hp. inv_ok.
    repeat match goal with Hq : project ?s _ = Ok ?c |- _ =>
      apply project_Ok in Hq; destruct c as [c']; cbn in Hq; subst c' end. done.
Qed.

Lemma entries_ready omit s :
  snapshot_wf s -> Forall (entry_ready omit) (entries (omit_snapshot omit s)).
Proof.
  intros Hs. pose proof (omit_snapshot_wf omit s Hs) as [[Hh _ Hli _ _] He _ _].
  rewrite list.Forall_forall in He. pose proof (hier_shapes _ Hh) as Hsh.
  rewrite list.Forall_forall in Hsh. rewrite list.Forall_forall in Hli.
  apply list.Forall_forall. intros e Hin. destruct (He e Hin) as [Ht Hc].
  constructor; try done.
  - pose proof (shape_path _ (Hsh e Hin)) as Hp. unfold structure, entry_view in Hp.
    by destruct (econtent e).
  - intros Hn. destruct (hardlink_to _) as [path |] eqn:E; [| done].
    by destruct (Hli e Hin path E) as (_ & _ & _ & _ & Hf & _).
  - cbn in Hin. apply list_elem_of_fmap in Hin as (e0 & -> & _). apply has_omitted_projected.
Qed.

Lemma tree_header_of_typed options source target :
  snapshot_wf (CanonicalSnapshot.snapshot target) -> 0 <= Omit.bits (oomit options) < 64 ->
  zlen (orules options) <= 4096 -> Tree.header_typed (header_of options source target).
Proof.
  intros Ht Ho Hr. pose proof (omit_snapshot_wf (oomit options) _ Ht) as [[Hh _ _ _ _] _ _ _].
  apply hier_length in Hh. change MAX_ENTRIES with 1000000 in Hh.
  cbn in Hh. constructor; cbn; try done; try apply blake3_length; unfold is_u32; zlens.
Qed.

Lemma put_root_Ok maximum h w m w' :
  Tree.root_metadata h = negb (is_empty (metadata m)) ->
  metadata_typed (metadata m) -> canonical (metadata m) ->
  has_omitted (metadata m) (Tree.omit h) = false ->
  holes (metadata m) = [] -> hardlink_to (metadata m) = None ->
  (if Tree.root_metadata h then put_metadata maximum (max_payload_bytes limits_default) w m
   else Ok w) = Ok w' ->
  w' = w ++ root_wire h m /\ root_ok limits_default h m
  /\ (zlen w <= maximum -> zlen w' <= maximum).
Proof.
  intros Hm Ht Hc Ho Hh Hl Hp. unfold root_wire, root_ok. destruct (Tree.root_metadata h).
  - apply put_metadata_Ok in Hp as (-> & Hcw & Hmax); [| done | done].
    split_and!; [done | | done]. constructor; try done. by destruct (is_empty _).
  - injection Hp as <-. rewrite app_nil_r. split_and!; [done | | done].
    symmetry in Hm. apply negb_false_iff, is_empty_default in Hm. destruct m as [m].
    cbn in Hm. by subst m.
Qed.

(** Filling in the header leaves the body. *)
Lemma fill_header h body :
  Tree.header_typed h ->
  write_at 0 (Tree.encode h (zdrop Tree.HEADER_LEN (zeros (Z.to_nat Tree.HEADER_LEN) ++ body)))
    (zeros (Z.to_nat Tree.HEADER_LEN) ++ body)
  = Tree.wire h body ++ body.
Proof.
  intros Ht. rewrite zdrop_app_exact, Tree.tree_encode_wire by done.
  apply (write_at_app []); [done |]. by rewrite Tree.tree_zlen_wire.
Qed.

(** What the writer wrote is within the decoder's limits. *)
Lemma patch_of_wf options source target ds :
  snapshot_wf (CanonicalSnapshot.snapshot target) ->
  Tree.header_typed (header_of options source target) ->
  zlen (orules options) <= 4096 ->
  Forall (fun r => Filter.bare_pattern r <> []) (orules options) ->
  Forall (rule_wf limits_default) (orules options) ->
  Forall (entry_wf limits_default (oomit options)) ds ->
  (outline ∘ structure) <$> ds =
    (outline ∘ structure) <$> entries (CanonicalSnapshot.snapshot (scoped (oomit options) target)) ->
  root_ok limits_default (header_of options source target)
    (root (CanonicalSnapshot.snapshot (scoped (oomit options) target))) ->
  Tree.HEADER_LEN + zlen (body_wire (patch_of options source target ds))
    <= Tree.max_patch_bytes (envelope limits_default) ->
  patch_wf limits_default (patch_of options source target ds).
Proof.
  intros Ht Hh Hn Hf Hr He Ho Hroot Hmax.
  pose proof (omit_snapshot_wf (oomit options) _ Ht) as [[Hhier _ _ _ _] _ _ _].
  pose proof (hier_length _ Hhier) as Hlen.
  assert (zlen ds = zlen (entries (CanonicalSnapshot.snapshot (scoped (oomit options) target)))) as Hds.
  { unfold zlen. apply (f_equal length) in Ho. rewrite !length_fmap in Ho. by rewrite Ho. }
  constructor; try done.
  - split_and!; [done | done | done | | done]. unfold Tree.counts_fit, body_wire.
    cbn [patch_of pheader prules pentries header_of Tree.rule_count Tree.entry_count].
    rewrite <- Hds, !zlen_app.
    pose proof (zlen_bind_min rule_wire _ 9 _ (rule_wire_minimum limits_default) Hr).
    pose proof (zlen_bind_min entry_wire _ 41 _ (entry_wire_minimum limits_default (oomit options)) He).
    zlens.
  - eapply hierarchy_outline; [symmetry; exact Ho | exact Hhier].
Qed.

Lemma create_Ok `{!AllocatorTotal, !ZstdSteady} options source target patch :
  snapshot_wf (CanonicalSnapshot.snapshot target) -> 0 <= Omit.bits (oomit options) < 64 ->
  Forall (fun r => is_utf8 (rpattern r) = true) (orules options) ->
  create source target options = Ok patch ->
  exists ds,
    Forall2 (chosen limits_default (CanonicalSnapshot.snapshot (scoped (oomit options) source)))
      (entries (CanonicalSnapshot.snapshot (scoped (oomit options) target))) ds
    /\ patch = patch_wire (patch_of options source target ds)
    /\ patch_wf limits_default (patch_of options source target ds).
Proof.
  intros Ht Ho Hu. destruct options as [rules omit]. unfold create. cbn [oomit orules] in *.
  intros Hc. apply rbind_Ok in Hc as (st & Hst%scoped_choice & Hc). subst st.
  inv_ok. zbool. change (Tree.max_rules (envelope limits_default)) with 4096 in *.
  match goal with |- context [Tree.encode ?h _] =>
    change h with (header_of (MkCreateOptions rules omit) source target) in * end.
  pose proof (tree_header_of_typed (MkCreateOptions rules omit) source target Ht Ho ltac:(done)) as Hh.
  pose proof (omit_snapshot_wf omit _ Ht) as [[_ _ _ Hrh Hrl] _ Hrt Hr].
  match goal with Hp : put _ [] _ = Ok _ |- _ => apply put_Ok in Hp as [-> Hmax0] end.
  match goal with Hp : foldM (put_rule _ _) _ _ = Ok _ |- _ =>
    apply put_rules_Ok in Hp as (-> & Hrules & Hmax1); [| done] end.
  match goal with Hp : foldM (put_entry _ _ _) _ _ = Ok _ |- _ =>
    apply (put_entries_Ok _ omit) in Hp as (ds & Hds & -> & Hwfs & Hout & Hmax2);
      [| by apply entries_ready] end.
  match goal with Hp : (if _ then put_metadata _ _ _ _ else _) = Ok _ |- _ =>
    apply (put_root_Ok _ (header_of (MkCreateOptions rules omit) source target)) in Hp
      as (-> & Hroot & Hmax3); try done; [| apply has_omitted_projected] end.
  specialize (Hmax3 (Hmax2 (Hmax1 Hmax0))). clear Hmax0 Hmax1 Hmax2.
  exists ds. split; [done |]. rewrite app_nil_l, <- !app_assoc in *.
  change ((rules ≫= rule_wire) ++ (ds ≫= entry_wire) ++ root_wire _ _)
    with (body_wire (patch_of (MkCreateOptions rules omit) source target ds)) in *.
  split; [by apply fill_header |]. apply patch_of_wf; try done.
  { match goal with Hf : Filter.compile _ = Ok _ |- _ => exact (Filter.compile_patterns _ _ Hf) end. }
  by rewrite zlen_app in Hmax3.
Qed.
End CreateFacts.

(** ** When [create] succeeds

    The writer refuses nothing but what the decoder's limits refuse. *)

Section CreateTotal.
Context `{AllocatorTotal, Blake3, Zstd, !ZstdSteady} (maximum : Z).
Context (maximum_usize : maximum <= usize_max).

Lemma put_total w s : zlen (w ++ s) <= maximum -> put maximum w s = Ok (w ++ s).
Proof.
  rewrite zlen_app. intros Hs. unfold put.
  rewrite (proj2 (checked_add_Some _ _ _)) by (split; [done | unfold u64_max, usize_max in *; lia]).
  cbn [ok_or rbind]. rewrite (proj2 (Z.ltb_ge _ _)) by lia. cbn [fail_if rbind]. by grant.
Qed.

(** [puts] runs the writer's calls, given a bound on all they write. *)
Ltac puts :=
  repeat (rewrite put_total by (rewrite ?zlen_app in *; zlens); cbn [rbind]).

Lemma put_rule_total limits w r :
  rule_wf limits r -> zlen (w ++ rule_wire r) <= maximum ->
  put_rule maximum limits w r = Ok (w ++ rule_wire r).
Proof.
  intros [Hn Hl _ _] Hm. unfold put_rule, rule_wire, blob_wire in *.
  rewrite bool_decide_eq_false_2, (proj2 (Z.ltb_ge _ _) Hl) by done. cbn [orb fail_if rbind].
  change [action_tag (raction r); x00; x00; x00] with ([action_tag (raction r)] ++ [x00] ++ le16 0).
  puts. by rewrite <- !app_assoc.
Qed.

Lemma put_metadata_total limits w m :
  canonical_wf limits m -> zlen (w ++ canonical_wire m) <= maximum ->
  put_metadata maximum (max_payload_bytes limits) w m = Ok (w ++ canonical_wire m).
Proof.
  intros [_ _ Hu Hl] Hm. unfold put_metadata, canonical_wire, blob_wire in *. unfold is_u32 in Hu.
  rewrite encode_total by (unfold u64_max; lia). cbn [map_err rbind].
  rewrite (proj2 (Z.ltb_ge _ _) Hl), (proj2 (Z.ltb_ge u32_max _)) by (unfold u32_max; lia).
  cbn [fail_if rbind]. puts. by rewrite <- app_assoc.
Qed.

Lemma put_entry_total limits omit source w e d :
  chosen limits source e d -> entry_wf limits omit d -> zlen (w ++ entry_wire d) <= maximum ->
  put_entry maximum limits source w e = Ok (w ++ entry_wire d).
Proof.
  intros (op & payload & Hc & ->) [] Hm. unfold put_entry, entry_wire in *.
  cbn [descriptor dpath dmode doperation dpayload dmetadata] in *.
  rewrite (proj2 (chosen_at _ _ _ _ _ _) Hc). cbn [rbind]. rewrite (proj2 (Z.ltb_ge _ _) ew_payload_length0). cbn [fail_if rbind].
  change [Operation.tag op; x00] with ([Operation.tag op] ++ [x00]).
  puts. rewrite (put_metadata_total limits) by (done || (rewrite ?zlen_app in *; zlens)).
  by rewrite <- !app_assoc.
Qed.

Lemma put_rules_total limits rules w :
  Forall (rule_wf limits) rules -> zlen (w ++ (rules ≫= rule_wire)) <= maximum ->
  foldM (put_rule maximum limits) w rules = Ok (w ++ (rules ≫= rule_wire)).
Proof.
  intros Hr. revert w. induction Hr as [| r rules Hr Hrs IH]; intros w Hm; cbn [foldM].
  - by rewrite app_nil_r.
  - rewrite bind_cons, app_assoc in *. rewrite put_rule_total by (done || (rewrite ?zlen_app in *; zlens)).
    by apply IH.
Qed.

Lemma put_entries_total limits omit source es ds w :
  Forall2 (chosen limits source) es ds -> Forall (entry_wf limits omit) ds ->
  zlen (w ++ (ds ≫= entry_wire)) <= maximum ->
  foldM (put_entry maximum limits source) w es = Ok (w ++ (ds ≫= entry_wire)).
Proof.
  intros Hc. revert w. induction Hc as [| e d es ds He Hes IH]; intros w Hd Hm; cbn [foldM].
  - by rewrite app_nil_r.
  - apply Forall_cons_iff in Hd as [Hd Hds]. rewrite bind_cons, app_assoc in *.
    erewrite put_entry_total by (done || (rewrite ?zlen_app in *; zlens)). by apply IH.
Qed.

Lemma put_root_total limits h w m :
  root_ok limits h m -> zlen (w ++ root_wire h m) <= maximum ->
  (if Tree.root_metadata h then put_metadata maximum (max_payload_bytes limits) w m else Ok w)
  = Ok (w ++ root_wire h m).
Proof.
  unfold root_ok, root_wire. destruct (Tree.root_metadata h); [| by rewrite app_nil_r].
  intros [] ?. by apply put_metadata_total.
Qed.
End CreateTotal.

Section CreateIff.
Context `{Al : Allocator, !AllocatorTotal, Blake3, Zstd, !ZstdSteady}.

(** The snapshots that [create] compares. *)
Lemma scoped_total omit source target :
  snapshot_wf (CanonicalSnapshot.snapshot source) -> snapshot_wf (CanonicalSnapshot.snapshot target) ->
  (if Omit.bits omit =? 0 then Ok (source, target)
   else
     let? source := @project (at_moment 1 Al) source omit in
     let? target := @project (at_moment 2 Al) target omit in
     Ok (source, target)) = Ok (scoped omit source, scoped omit target).
Proof.
  intros Hs Ht. destruct (Z.eqb_spec (Omit.bits omit) 0); [by rewrite !scoped_nothing |].
  by rewrite !project_total by done.
Qed.

Lemma create_total options source target ds :
  snapshot_wf (CanonicalSnapshot.snapshot source) -> snapshot_wf (CanonicalSnapshot.snapshot target) ->
  0 <= Omit.bits (oomit options) < 64 ->
  Forall2 (chosen limits_default (CanonicalSnapshot.snapshot (scoped (oomit options) source)))
    (entries (CanonicalSnapshot.snapshot (scoped (oomit options) target))) ds ->
  patch_wf limits_default (patch_of options source target ds) ->
  create source target options = Ok (patch_wire (patch_of options source target ds)).
Proof.
  intros Hs Ht Hom Hc Hwf. destruct options as [rules omit]. cbn [oomit] in *.
  destruct Hwf as [Hh Hacc _ Hr Hf _ He Hroot _]. destruct Hacc as (_ & Hn & _ & _ & Hmax).
  cbn [patch_of pheader prules pentries proot orules oomit] in *. unfold create.
  rewrite scoped_total by done. cbn [rbind].
  change (Tree.rule_count _) with (zlen rules) in Hn.
  rewrite (proj2 (Z.ltb_ge _ _) Hn). cbn [fail_if rbind].
  destruct (@Filter.compile_total (at_moment 3 Al) _ rules Hf) as [f ->].
  cbn [map_err rbind].
  match goal with |- context [Tree.encode ?h _] =>
    change h with (header_of (MkCreateOptions rules omit) source target) end.
  change (Tree.max_patch_bytes (envelope limits_default)) with 17179869184 in *.
  set (P := patch_of (MkCreateOptions rules omit) source target ds) in *.
  assert (body_wire P = (rules ≫= rule_wire) ++ (ds ≫= entry_wire)
    ++ root_wire (header_of (MkCreateOptions rules omit) source target) (proot P)) as Hb by done.
  set (Z0 := zeros (Z.to_nat Tree.HEADER_LEN)).
  assert (zlen (Z0 ++ body_wire P) <= 17179869184) as Hz by by rewrite zlen_app.
  rewrite Hb, !app_assoc in Hz.
  assert (forall a b : bytes, zlen (a ++ b) <= 17179869184 -> zlen a <= 17179869184) as Hpre
    by (intros a b; rewrite zlen_app; zlens).
  rewrite (put_total 17179869184) by done. cbn [rbind app].
  rewrite (put_rules_total 17179869184) by (done || by eapply Hpre, Hpre). cbn [rbind].
  erewrite (put_entries_total 17179869184) by (done || by eapply Hpre). cbn [rbind].
  rewrite (put_root_total 17179869184) by done. cbn [rbind].
  change (root (CanonicalSnapshot.snapshot (scoped omit target))) with (proot P).
  rewrite <- !app_assoc, <- Hb. f_equal. by apply fill_header.
Qed.
End CreateIff.

(** Omitting twice is omitting once. *)
Lemma omit_families_idemp omit m : omit_families omit (omit_families omit m) = omit_families omit m.
Proof.
  rewrite (omit_families_eq omit (omit_families omit m)), omit_families_eq.
  unfold omitted. cbn. repeat case_match; done.
Qed.

Lemma omit_snapshot_idemp omit s : omit_snapshot omit (omit_snapshot omit s) = omit_snapshot omit s.
Proof.
  unfold omit_snapshot. cbn. rewrite <- list_fmap_compose. f_equal.
  - apply list_fmap_ext. intros _ e _. unfold compose, omit_entry, omit_canonical_metadata. cbn.
    by rewrite omit_families_idemp.
  - unfold omit_canonical_metadata. cbn. by rewrite omit_families_idemp.
Qed.

(** ** The properties of creation *)

Section Properties.
Context `{AllocatorTotal, Blake3, Zstd, !ZstdSteady}.

(** C5: Creation succeeds exactly when every target entry, in the scope of the
    mask, has an operation that reproduces it from the source and the patch
    that lists those operations is within the decoder's default limits; what is
    created is that patch's encoding. The codec is any whose frames do not depend
    on where in the run it is called. *)
Theorem tree_create_iff options source target patch :
  snapshot_wf (CanonicalSnapshot.snapshot source) ->
  snapshot_wf (CanonicalSnapshot.snapshot target) ->
  0 <= Omit.bits (oomit options) < 64 ->
  Forall (fun r => is_utf8 (rpattern r) = true) (orules options) ->
  create source target options = Ok patch <->
  exists ds,
    Forall2 (chosen limits_default (CanonicalSnapshot.snapshot (scoped (oomit options) source)))
      (entries (CanonicalSnapshot.snapshot (scoped (oomit options) target))) ds
    /\ patch = patch_wire (patch_of options source target ds)
    /\ patch_wf limits_default (patch_of options source target ds).
Proof.
  intros Hs Ht Ho Hu. split; [by apply create_Ok |].
  intros (ds & Hc & -> & Hwf). by apply create_total.
Qed.

(** C6: Projecting a snapshot on the families that a mask retains always gives a
    canonical snapshot: the same paths and contents in the same order, every
    metadata record without the omitted families and otherwise unchanged.
    Projecting again changes nothing. *)
Theorem project_canonical source omit :
  snapshot_wf (CanonicalSnapshot.snapshot source) ->
  exists c, project source omit = Ok c
    /\ snapshot_wf (CanonicalSnapshot.snapshot c)
    /\ epath <$> entries (CanonicalSnapshot.snapshot c)
       = epath <$> entries (CanonicalSnapshot.snapshot source)
    /\ econtent <$> entries (CanonicalSnapshot.snapshot c)
       = econtent <$> entries (CanonicalSnapshot.snapshot source)
    /\ (metadata ∘ emetadata) <$> entries (CanonicalSnapshot.snapshot c)
       = (omit_families omit ∘ metadata ∘ emetadata) <$> entries (CanonicalSnapshot.snapshot source)
    /\ metadata (root (CanonicalSnapshot.snapshot c))
       = omit_families omit (metadata (root (CanonicalSnapshot.snapshot source)))
    /\ project c omit = Ok c.
Proof.
  intros Hs. pose proof (omit_snapshot_wf omit _ Hs) as Ho.
  eexists. split; [by apply project_total |]. cbn [CanonicalSnapshot.snapshot].
  split; [done |]. split_and!;
    try (cbn; rewrite <- list_fmap_compose; by apply list_fmap_ext); [done |].
  rewrite project_total by done. cbn [CanonicalSnapshot.snapshot].
  by rewrite omit_snapshot_idemp.
Qed.
End Properties.

(** ** On the sample snapshots *)

Section Sample.
#[local] Existing Instances plentiful toy_blake3 store_native.

Definition sample_options : CreateOptions :=
  MkCreateOptions [MkRule Action.Exclude (lit "*.tmp")] (Omit.MkOmit 2).
Definition sample_patch : bytes :=
  match create source_snapshot target_snapshot sample_options with
  | Ok patch => patch
  | Err _ => []
  end.

Lemma tree_create_iff_witness :
  create source_snapshot target_snapshot sample_options = Ok sample_patch
  /\ exists ds, sample_patch = patch_wire (patch_of sample_options source_snapshot target_snapshot ds)
    /\ length ds = 6%nat.
Proof.
  assert (create source_snapshot target_snapshot sample_options = Ok sample_patch) as Hc
    by (vm_compute; reflexivity).
  split; [exact Hc |].
  apply tree_create_iff in Hc.
  - destruct Hc as (ds & Hds & Hp & _). exists ds. split; [exact Hp |].
    exact (eq_sym (Forall2_length Hds)).
  - apply snapshot_check_wf. vm_compute. reflexivity.
  - apply snapshot_check_wf. vm_compute. reflexivity.
  - vm_compute. split; [discriminate | reflexivity].
  - repeat constructor.
Defined.

Lemma project_canonical_witness :
  exists c, project target_snapshot (Omit.MkOmit 18) = Ok c
    /\ snapshot_wf (CanonicalSnapshot.snapshot c).
Proof.
  assert (snapshot_wf sample_target) as Ht by (apply snapshot_check_wf; vm_compute; reflexivity).
  destruct (project_canonical target_snapshot (Omit.MkOmit 18) Ht) as (c & Hc & Hw & _).
  exists c. exact (conj Hc Hw).
Defined.
End Sample.
End Encode.
