(* ===== verification/TreePatchApply.v ===== *)
(** * Applying a tree patch ([rust/src/tree_patch_apply.rs])

    Reconstruction of the target snapshot, and the theorems that tie the
    decoder, the encoder and the application together. *)

From S2P Require Export TreePatchEncode.

Module Apply.
Import Decode Encode.

Record ApplyLimits : Type := MkApplyLimits { lpatch : Limits; max_output_bytes : Z }.

(** [ApplyLimits::default()] *)
Definition apply_limits_default : ApplyLimits := MkApplyLimits limits_default (Z.shiftl 64 30).

Section Expand.
Context `{Allocator, Blake3, Zstd}.

Definition account (remaining bytes : Z) : result Tree.Error Z :=
  ok_or Tree.LimitExceeded (checked_sub remaining bytes).

Definition delta (source patch : bytes) (remaining : Z) : result Tree.Error bytes :=
  let? (header, _) :=
    map_err (fun e => Tree.File (File.from_header e)) (FileHeader.decode_prefix patch) in
  if remaining <? FileHeader.target_len header then
    let? _ := fail_if (negb (FileHeader.source_len header =? zlen source))
                (Tree.File File.SizeMismatch) in
    let? _ := fail_if (negb (bool_decide (FileHeader.source_hash header = blake3 source)))
                (Tree.File File.SourceHashMismatch) in
    let? _ := map_err Tree.File (File.window_log (zlen source) (FileHeader.target_len header)) in
    Err Tree.LimitExceeded
  else map_err Tree.File (File.apply source patch 0).

(** The loop's state: the entries built so far; for each, whether it owns its
    bytes ([Cow::Owned]); and the output still allowed. *)
Record State : Type := MkState { built : list Entry; owned : list bool; remaining : Z }.

Definition invalid_link : Tree.Error := Tree.Snapshot InvalidHardlinkRelation.

(** The content of one entry, whether its bytes are owned, and the output
    still allowed. *)
Definition expand (source : Snapshot) (st : State) (d : DecodedEntry) (mode : Mode) :
    result Tree.Error (Content.Content * bool * Z) :=
  match doperation d with
  | Operation.Directory => Ok (Content.Directory mode, false, remaining st)
  | Operation.Symlink =>
      let? remaining := account (remaining st) (zlen (dpayload d)) in
      Ok (Content.Symlink (dpayload d), false, remaining)
  | Operation.FileRaw =>
      let? remaining := account (remaining st) (zlen (dpayload d)) in
      Ok (Content.File mode (dpayload d), false, remaining)
  | (Operation.FileCopy | Operation.FileDelta) as operation =>
      let? index := ok_or Tree.MissingSourceEntry (find_path (entries source) (dpath d)) in
      let? old := ok_or Tree.MissingSourceEntry (entries source !! index) in
      match econtent old with
      | Content.File _ data =>
          if bool_decide (operation = Operation.FileCopy) then
            let? remaining := account (remaining st) (zlen data) in
            Ok (Content.File mode data, false, remaining)
          else
            let? data := delta data (dpayload d) (remaining st) in
            let? remaining := account (remaining st) (zlen data) in
            Ok (Content.File mode data, true, remaining)
      | Content.Directory _ | Content.Symlink _ => Err Tree.SourceKindMismatch
      end
  | Operation.FileHardlink =>
      let? index := ok_or invalid_link (find_path (built st) (dpayload d)) in
      let? target := ok_or invalid_link (built st !! index) in
      let? _ := fail_if (bool_decide (is_Some (hardlink_to (metadata (emetadata target)))))
                  invalid_link in
      match econtent target with
      | Content.File _ data =>
          let? remaining := account (remaining st) (zlen data) in
          let own := default false (owned st !! index) in
          let? _ := if own : bool then reserve Tree.OutOfMemory 0 0 (zlen data) else Ok tt in
          Ok (Content.File mode data, own, remaining)
      | Content.Directory _ | Content.Symlink _ => Err invalid_link
      end
  end.

End Expand.

Section Operations.
Context `{A : Allocator, Blake3, C : Zstd}.

(** One turn of the loop. *)
Definition step (source : Snapshot) (st : State) (d : DecodedEntry) : result Tree.Error State :=
  let? mode := map_err Tree.Snapshot (mode_from_bits (dmode d)) in
  let index := zlen (built st) in
  let? (co, remaining) :=
    @expand (at_moment index (at_moment 5 A)) _ (codec_at index (codec_at 5 C)) source st d mode in
  let (content, own) := co : Content.Content * bool in
  Ok (MkState (built st ++ [MkEntry (dpath d) content (dmetadata d)]) (owned st ++ [own]) remaining).

Definition apply (source : CanonicalSnapshot.CanonicalSnapshot) (patch : bytes)
    (limits : ApplyLimits) : result Tree.Error CanonicalSnapshot.CanonicalSnapshot :=
  let? parsed := decode (lpatch limits) patch in
  let header := pheader parsed in
  let? masked :=
    if Omit.bits (Tree.omit header) =? 0 then Ok source
    else @project (at_moment 3 A) source (Tree.omit header) in
  let? _ := fail_if (negb (bool_decide (CanonicalSnapshot.hash masked = Tree.source_hash header)))
              Tree.SourceHashMismatch in
  let? _ := reserve Tree.OutOfMemory 4 0 (zlen (pentries parsed)) in
  let? st := foldM (step (CanonicalSnapshot.snapshot source))
               (MkState [] [] (max_output_bytes limits)) (pentries parsed) in
  let? result :=
    map_err Tree.Snapshot (CanonicalSnapshot.new (MkSnapshot (built st) (proot parsed))) in
  let? _ := fail_if (negb (bool_decide (CanonicalSnapshot.hash result = Tree.target_hash header)))
              Tree.TargetHashMismatch in
  Ok result.
End Operations.

(** ** What a successful application establishes *)

Definition content_bytes (e : Entry) : Z := zlen (Content.data (econtent e)).

Lemma account_Ok r n r' : account r n = Ok r' <-> r' = r - n /\ n <= r.
Proof. unfold account. by rewrite ok_or_Ok, checked_sub_Some. Qed.

(** Every entry costs the bytes it publishes, directories nothing. *)
Lemma expand_budget `{Allocator, Blake3, Zstd} source st d mode content own r :
  expand source st d mode = Ok (content, own, r) ->
  r = remaining st - zlen (Content.data content) /\ zlen (Content.data content) <= remaining st
  \/ (exists m, content = Content.Directory m) /\ r = remaining st.
Proof.
  unfold expand. intros He.
  destruct (doperation d); inv_ok; try (right; eauto; fail); left;
    repeat (case_match; inv_ok; try done);
    match goal with Ha : account _ _ = Ok _ |- _ => apply account_Ok in Ha as [-> ?] end; done.
Qed.

Section Safety.
Context `{Al : Allocator, Blake3, Zstd}.

Lemma masked_Ok source omit c :
  (if Omit.bits omit =? 0 then Ok source else @project (at_moment 3 Al) source omit) = Ok c ->
  c = scoped omit source.
Proof.
  destruct (Z.eqb_spec (Omit.bits omit) 0) as [E |].
  - intros [= <-]. by rewrite scoped_nothing.
  - intros Hp%project_Ok. destruct c as [c]. cbn in Hp. by subst c.
Qed.

Lemma step_budget source st d st' :
  step source st d = Ok st' ->
  exists e, built st' = built st ++ [e] /\ epath e = dpath d /\ emetadata e = dmetadata d
    /\ remaining st' = remaining st - content_bytes e
    /\ (0 <= remaining st -> 0 <= remaining st').
Proof.
  unfold step. intros Hs. apply rbind_Ok in Hs as (mode & _ & Hs).
  apply rbind_Ok in Hs as ([[content own] r] & He & [= <-]). cbn [built remaining].
  apply expand_budget in He. exists (MkEntry (dpath d) content (dmetadata d)).
  unfold content_bytes. cbn. destruct He as [[-> Hb] | [[m ->] ->]]; cbn in *.
  - split_and!; done || lia.
  - zlen_nil. split_and!; done || lia.
Qed.

Definition total_bytes (es : list Entry) : Z := foldr (fun e n => content_bytes e + n) 0 es.

Lemma total_bytes_cons e es : total_bytes (e :: es) = content_bytes e + total_bytes es.
Proof. done. Qed.

(** The loop rebuilds the listed entries and spends their bytes. *)
Lemma fold_step_Ok source st ds st' :
  foldM (step source) st ds = Ok st' -> 0 <= remaining st ->
  exists es, built st' = built st ++ es
    /\ epath <$> es = dpath <$> ds /\ emetadata <$> es = dmetadata <$> ds
    /\ total_bytes es + remaining st' = remaining st /\ 0 <= remaining st'.
Proof.
  revert st. induction ds as [| d ds IH]; intros st; cbn [foldM].
  - intros [= ->] Hr. exists []. rewrite app_nil_r. split_and!; done || (cbn; lia).
  - intros Hs Hr. apply rbind_Ok in Hs as (st1 & Hst1 & Hs).
    destruct (step_budget _ _ _ _ Hst1) as (e & Hb & Hp & Hm & Hrem & Hpos).
    destruct (IH st1 Hs (Hpos Hr)) as (es & Hbs & Hps & Hms & Ht & Hr').
    exists (e :: es). rewrite Hbs, Hb, <- app_assoc, !fmap_cons, Hp, Hm, Hps, Hms.
    rewrite total_bytes_cons. split_and!; done || lia.
Qed.

(** Every entry built has a mode in range and metadata that was decoded. *)
Lemma step_typed source st d st' :
  is_u16 (dmode d) -> metadata_typed (metadata (dmetadata d)) ->
  step source st d = Ok st' -> Forall entry_typed (built st) -> Forall entry_typed (built st').
Proof.
  intros Hd Hm. unfold step. intros Hs Hb. apply rbind_Ok in Hs as (mode & Hmode & Hs).
  apply rbind_Ok in Hs as ([[content own] r] & He & [= <-]). cbn [built].
  apply map_err_Ok in Hmode. apply mode_from_bits_Ok in Hmode as [Hmask ->]; [| done].
  apply Forall_app. split; [done |]. apply Forall_singleton. constructor; [| done].
  cbn [econtent]. assert (Content.mode content = MkMode (dmode d) \/ Content.mode content = MkMode MODE_MASK) as [-> | ->];
    [| done | done].
  unfold expand in He. destruct (doperation d); inv_ok; auto; repeat (case_match; inv_ok; try done); auto.
Qed.

Lemma fold_step_typed source st ds st' :
  Forall (fun d => is_u16 (dmode d) /\ metadata_typed (metadata (dmetadata d))) ds ->
  foldM (step source) st ds = Ok st' -> Forall entry_typed (built st) -> Forall entry_typed (built st').
Proof.
  revert st. induction ds as [| d ds IH]; intros st Hd; cbn [foldM].
  - by intros [= ->].
  - apply Forall_cons_iff in Hd as [[Hm Ht] Hd]. intros Hs Hb.
    apply rbind_Ok in Hs as (st1 & Hst1 & Hs). eapply IH; [done | exact Hs |].
    by eapply step_typed.
Qed.

(** Success means: the patch is a well-formed encoding, the source is the one
    it was made for, and the result is a canonical snapshot with the listed
    paths and metadata, the promised identity, and no more bytes than allowed. *)
Lemma tree_apply_Ok source patch limits c :
  zlen patch <= usize_max -> 0 <= max_output_bytes limits ->
  apply source patch limits = Ok c ->
  exists p, patch = patch_wire p /\ patch_wf (lpatch limits) p
    /\ CanonicalSnapshot.hash (scoped (Tree.omit (pheader p)) source) = Tree.source_hash (pheader p)
    /\ CanonicalSnapshot.hash c = Tree.target_hash (pheader p)
    /\ canonical_snapshot (CanonicalSnapshot.snapshot c)
    /\ epath <$> entries (CanonicalSnapshot.snapshot c) = dpath <$> pentries p
    /\ emetadata <$> entries (CanonicalSnapshot.snapshot c) = dmetadata <$> pentries p
    /\ root (CanonicalSnapshot.snapshot c) = proot p
    /\ total_bytes (entries (CanonicalSnapshot.snapshot c)) <= max_output_bytes limits.
Proof.
  intros Hp Hmax. unfold apply. intros Ha. inv_ok.
  match goal with Hd : decode _ _ = Ok ?q |- _ =>
    apply patch_decode_Ok in Hd as [-> Hwf]; [| done]; rename q into p end.
  match goal with Hm : (if _ then Ok source else _) = Ok _ |- _ => apply masked_Ok in Hm as -> end.
  rewrite !negb_false_iff in *.
  repeat match goal with Hb : bool_decide _ = true |- _ => apply bool_decide_eq_true in Hb end.
  match goal with Hf : foldM _ _ _ = Ok ?s |- _ =>
    rename s into st; pose proof Hf as Hty; apply fold_step_Ok in Hf as (es & Hb & Hps & Hms & Ht & Hr);
      [| done] end.
  cbn [built remaining app] in *. subst es.
  apply fold_step_typed in Hty; [| | constructor].
  2: { eapply list.Forall_impl; [apply (pw_entries _ _ Hwf) |]. by intros d [? ? ? ? ? ? [] ? ?]. }
  match goal with Hn : CanonicalSnapshot.new _ = Ok _ |- _ =>
    apply snapshot_new_ok in Hn as [Hcs ->]; [| done] end.
  cbn [CanonicalSnapshot.snapshot entries root] in *.
  exists p. split_and!; try done. lia.
Qed.
End Safety.

(** ** Application inverts creation *)

Section ExpandChosen.
Context `{AllocatorTotal, Blake3, Zstd, !ZstdSafe, !ZstdRoundTrip}.

(** Projection does not move the entries. *)
Lemma find_path_omit omit (l : list Entry) path : find_path (omit_entry omit <$> l) path = find_path l path.
Proof. apply search_key_fmap. rewrite <- list_fmap_compose. by apply list_fmap_ext. Qed.

Lemma lookup_source omit source path old :
  find_path (entries (omit_snapshot omit source)) path
    ≫= (entries (omit_snapshot omit source) !!.) = Some old ->
  exists index old', find_path (entries source) path = Some index
    /\ entries source !! index = Some old' /\ econtent old' = econtent old.
Proof.
  cbn. rewrite find_path_omit. destruct (find_path (entries source) path) as [i |]; [| done]. cbn.
  rewrite list_lookup_fmap. intros (o & Ho & ->)%fmap_Some. eauto.
Qed.

Lemma delta_encode previous data patch remaining :
  File.encode previous data = Ok patch -> zlen data <= remaining ->
  delta previous patch remaining = Ok data.
Proof.
  intros He Hr. unfold delta.
  destruct (File.encode_Ok _ _ _ He) as (Hs & Ht & frame & Hp). rewrite Hp at 1.
  rewrite FileHeader.decode_prefix_wire by by apply File.header_of_typed.
  cbn [map_err rbind File.header_of FileHeader.target_len].
  rewrite (proj2 (Z.ltb_ge _ _) Hr). apply map_err_Ok.
  apply File.apply_encode_run; auto.
Qed.

(** The earlier file that a reference names is found among those built. *)
Lemma find_link before e rest path :
  StronglySorted (key_lt path_of) (before ++ e :: rest) -> link_in (before ++ e :: rest) e path ->
  exists index target mode data, find_path before path = Some index /\ before !! index = Some target
    /\ hardlink_to (metadata (emetadata target)) = None
    /\ econtent target = Content.File mode data /\ econtent e = Content.File mode data.
Proof.
  intros Hs Hl. apply check_hardlink_ok in Hl; [| done].
  unfold CanonicalSnapshot.check_hardlink in Hl.
  destruct (econtent e) as [| mode data |] eqn:Ee; try done. inv_ok.
  match goal with Ht : before !! _ = Some ?t |- _ => destruct (econtent t) as [| m d |] eqn:Et end;
    try done. inv_ok.
  repeat (apply orb_false_iff in Hl as [Hl ?]). apply bool_decide_eq_false in Hl.
  rewrite !negb_false_iff in *.
  repeat match goal with Hb : bool_decide _ = true |- _ => apply bool_decide_eq_true in Hb end. subst.
  eexists _, _, _, _. split_and!; try done. by apply eq_None_not_Some.
Qed.

Lemma account_total r n : n <= r -> account r n = Ok (r - n).
Proof. intros. by apply account_Ok. Qed.

(** The operation chosen for an entry expands to its content. *)
Lemma expand_chosen omit source st before e rest op payload :
  StronglySorted (key_lt path_of) (before ++ e :: rest) ->
  (forall path, hardlink_to (metadata (emetadata e)) = Some path ->
    link_in (before ++ e :: rest) e path) ->
  choose limits_default (omit_snapshot omit source) e = Ok (op, payload) ->
  built st = before -> content_bytes e <= remaining st ->
  exists own, expand source st (descriptor e op payload) (Content.mode (econtent e))
    = Ok (econtent e, own, remaining st - content_bytes e).
Proof.
  intros Hs Hli Hc Hb Hr. unfold content_bytes in *. unfold choose in Hc.
  destruct (econtent e) as [mode | mode data | target] eqn:Ee; cbn [Content.data Content.mode] in *.
  - injection Hc as <- <-. zlen_nil. rewrite Z.sub_0_r. by exists false.
  - destruct (hardlink_to (metadata (emetadata e))) as [link |] eqn:Eh.
    + injection Hc as <- <-.
      destruct (find_link before e rest link Hs (Hli link eq_refl))
        as (index & target & m & d & Hf & Hi & Hn & Et & Ee'). rewrite Ee in Ee'. injection Ee' as <- <-.
      unfold expand. cbn [doperation dpayload descriptor]. rewrite Hb, Hf. cbn [ok_or rbind].
      rewrite Hi. cbn [ok_or rbind].
      rewrite Hn, bool_decide_eq_false_2 by (intros [? [=]]). cbn [fail_if rbind].
      rewrite Et, account_total by done. cbn [rbind].
      destruct (default false (owned st !! index)); rewrite ?reserve_total; cbn [rbind]; eauto.
    + destruct (_ ≫= _) as [old |] eqn:Eo.
      * apply lookup_source in Eo as (index & old' & Hf & Hi & Ec). rewrite <- Ec in Hc.
        destruct (econtent old') as [| m previous |] eqn:Eold.
        { injection Hc as <- <-. unfold expand. cbn [doperation dpayload descriptor].
          rewrite account_total by done. eauto. }
        { case_bool_decide as Heq.
          - injection Hc as <- <-. subst previous. unfold expand. cbn [doperation dpath descriptor].
            rewrite Hf. cbn [ok_or rbind]. rewrite Hi. cbn [ok_or rbind]. rewrite Eold.
            rewrite bool_decide_eq_true_2 by done. rewrite account_total by done. eauto.
          - inv_ok. match goal with Hf : File.encode _ _ = Ok _ |- _ => rename Hf into Henc end.
            unfold expand. cbn [doperation dpath dpayload descriptor].
            rewrite Hf. cbn [ok_or rbind]. rewrite Hi. cbn [ok_or rbind]. rewrite Eold.
            rewrite bool_decide_eq_false_2 by done.
            rewrite (delta_encode _ _ _ _ Henc Hr). cbn [rbind]. rewrite account_total by done. eauto. }
        { injection Hc as <- <-. unfold expand. cbn [doperation dpayload descriptor].
          rewrite account_total by done. eauto. }
      * injection Hc as <- <-. unfold expand. cbn [doperation dpayload descriptor].
        rewrite account_total by done. eauto.
  - inv_ok. unfold expand. cbn [doperation dpayload descriptor].
    rewrite account_total by done. eauto.
Qed.

End ExpandChosen.

Section RoundTrip.
Context `{Al : Allocator, !AllocatorTotal, Blake3, C : Zstd, !ZstdSafe, !ZstdRoundTrip}.

(** One turn rebuilds the entry its descriptor was chosen for. *)
Lemma step_chosen omit source t st before e rest d :
  snapshot_wf t -> entries t = before ++ e :: rest ->
  chosen limits_default (omit_snapshot omit source) e d ->
  built st = before -> content_bytes e <= remaining st ->
  exists st', step source st d = Ok st' /\ built st' = before ++ [e]
    /\ remaining st' = remaining st - content_bytes e.
Proof.
  intros [[Hh Hho Hli _ _] He _ _] Ht (op & payload & Hc & ->) Hb Hr.
  assert (e ∈ entries t) as Hin by (rewrite Ht; set_solver).
  pose proof (hier_shapes _ Hh) as Hsh. rewrite list.Forall_forall in Hsh, He, Hli.
  specialize (Hsh e Hin). specialize (He e Hin). specialize (Hli e Hin).
  pose proof (hier_sorted _ Hh) as Hs. rewrite Ht in Hs, Hli.
  assert (mode_from_bits (mbits (Content.mode (econtent e))) = Ok (Content.mode (econtent e))) as Hm.
  { apply mode_from_bits_Ok; [by destruct He as [[] _] |].
    apply shape_mode in Hsh. unfold structure, entry_view in Hsh.
    destruct (econtent e) as [m | m ? | ?]; cbn in *; split; try done; by destruct m. }
  pose (k := zlen (built st)). apply (chosen_at 5), (chosen_at k) in Hc.
  destruct (@expand_chosen (at_moment k (at_moment 5 Al)) _ _ (codec_at k (codec_at 5 C)) _ _
    omit source st before e rest op payload Hs Hli Hc Hb Hr) as [own Hx].
  eexists. unfold step. cbn [dmode descriptor]. rewrite Hm. cbn [map_err rbind]. fold k. rewrite Hx.
  cbn [rbind]. split; [reflexivity |]. cbn [built remaining]. rewrite Hb. by destruct e.
Qed.

Lemma fold_chosen omit source t st before es ds :
  snapshot_wf t -> entries t = before ++ es ->
  Forall2 (chosen limits_default (omit_snapshot omit source)) es ds ->
  built st = before -> total_bytes es <= remaining st ->
  exists st', foldM (step source) st ds = Ok st' /\ built st' = entries t.
Proof.
  intros Ht. revert before ds st. induction es as [| e es IH]; intros before ds st He Hf Hb Hr.
  - apply Forall2_nil_inv_l in Hf as ->. exists st. rewrite He, app_nil_r. done.
  - apply Forall2_cons_inv_l in Hf as (d & ds' & Hd & Hf & ->).
    rewrite total_bytes_cons in Hr. pose proof (zlen_nonneg (Content.data (econtent e))).
    assert (0 <= total_bytes es) as Hpos.
    { clear. induction es as [| e es IH]; [done |]. rewrite total_bytes_cons. unfold content_bytes. zlens. }
    destruct (step_chosen omit source t st before e es d Ht He Hd Hb) as (st1 & E & Hb1 & Hr1); [lia |].
    cbn [foldM]. rewrite E. cbn [rbind].
    apply (IH (before ++ [e])); [by rewrite <- app_assoc | done | done | lia].
Qed.

Lemma apply_create_run options source target patch limits :
  snapshot_wf (CanonicalSnapshot.snapshot source) -> snapshot_wf (CanonicalSnapshot.snapshot target) ->
  0 <= Omit.bits (oomit options) < 64 ->
  Forall (fun r => is_utf8 (rpattern r) = true) (orules options) ->
  create source target options = Ok patch -> zlen patch <= usize_max ->
  lpatch limits = limits_default ->
  total_bytes (entries (CanonicalSnapshot.snapshot target)) <= max_output_bytes limits ->
  apply source patch limits = Ok (scoped (oomit options) target).
Proof.
  intros Hs Ht Ho Hu Hc Hlen Hlim Hmax.
  destruct (create_Ok options source target patch Ht Ho Hu Hc) as (ds & Hds & -> & Hwf).
  unfold apply. rewrite Hlim, patch_decode_wire by done. cbn [rbind].
  cbn [patch_of pheader header_of Tree.omit].
  assert ((if Omit.bits (oomit options) =? 0 then Ok source else @project (at_moment 3 Al) source (oomit options))
    = Ok (scoped (oomit options) source)) as ->.
  { destruct (Z.eqb_spec (Omit.bits (oomit options)) 0); [by rewrite scoped_nothing |].
    by apply project_total. }
  cbn [rbind Tree.source_hash Tree.target_hash pentries proot patch_of header_of].
  rewrite bool_decide_eq_true_2 by done. cbn [negb fail_if rbind].
  rewrite reserve_total. cbn [rbind].
  pose proof (omit_snapshot_wf (oomit options) _ Ht) as Hst.
  destruct (fold_chosen (oomit options) (CanonicalSnapshot.snapshot source) _
    (MkState [] [] (max_output_bytes limits)) [] _ ds Hst eq_refl Hds eq_refl) as (st' & -> & Hb).
  { cbn [remaining]. etrans; [| exact Hmax]. apply Z.eq_le_incl.
    change (total_bytes (omit_entry (oomit options) <$> entries (CanonicalSnapshot.snapshot target))
      = total_bytes (entries (CanonicalSnapshot.snapshot target))). clear.
    induction (entries (CanonicalSnapshot.snapshot target)) as [| e es IH]; [done |].
    rewrite fmap_cons, !total_bytes_cons, IH. done. }
  cbn [rbind]. rewrite Hb.
  assert (CanonicalSnapshot.new (MkSnapshot
      (entries (omit_snapshot (oomit options) (CanonicalSnapshot.snapshot target)))
      (root (CanonicalSnapshot.snapshot (scoped (oomit options) target))))
    = Ok (scoped (oomit options) target)) as ->.
  { apply snapshot_new_ok; [| split; [by destruct Hst | done]].
    destruct Hst as [_ Hst _ _]. eapply list.Forall_impl; [exact Hst | by intros ? []]. }
  cbn [map_err rbind]. by rewrite bool_decide_eq_true_2.
Qed.

Lemma patch_wire_bounded p : patch_wf limits_default p -> zlen (patch_wire p) <= usize_max.
Proof.
  intros [Ht (_ & _ & _ & _ & Hmax) _ _ _ _ _ _ _]. unfold patch_wire.
  rewrite zlen_app, Tree.tree_zlen_wire by done.
  change (Tree.max_patch_bytes (envelope limits_default)) with 17179869184 in Hmax.
  unfold usize_max. lia.
Qed.

(** The patch is decoded, and its source is compared, before anything else. *)
Lemma apply_gate limits source p :
  patch_wf (lpatch limits) p -> zlen (patch_wire p) <= usize_max ->
  snapshot_wf (CanonicalSnapshot.snapshot source) ->
  CanonicalSnapshot.hash (scoped (Tree.omit (pheader p)) source) <> Tree.source_hash (pheader p) ->
  apply source (patch_wire p) limits = Err Tree.SourceHashMismatch.
Proof.
  intros Hwf Hlen Hs Hh. unfold apply. rewrite patch_decode_wire by done. cbn [rbind].
  assert ((if Omit.bits (Tree.omit (pheader p)) =? 0 then Ok source
    else @project (at_moment 3 Al) source (Tree.omit (pheader p))) = Ok (scoped (Tree.omit (pheader p)) source)) as ->.
  { destruct (Z.eqb_spec (Omit.bits (Tree.omit (pheader p))) 0); [by rewrite scoped_nothing |].
    by apply project_total. }
  cbn [rbind]. by rewrite bool_decide_eq_false_2.
Qed.
End RoundTrip.

(** ** The properties of tree patches *)

Section Properties.
Context `{AllocatorTotal, Blake3, Zstd, !ZstdSafe, !ZstdRoundTrip}.

(** C1: Applying a created patch to the source it was created from succeeds and
    gives the target, without the metadata families that the patch omits (the
    target itself when it omits none). *)
Theorem tree_round_trip options source target patch limits :
  snapshot_wf (CanonicalSnapshot.snapshot source) ->
  snapshot_wf (CanonicalSnapshot.snapshot target) ->
  0 <= Omit.bits (oomit options) < 64 ->
  Forall (fun r => is_utf8 (rpattern r) = true) (orules options) ->
  create source target options = Ok patch ->
  lpatch limits = limits_default ->
  total_bytes (entries (CanonicalSnapshot.snapshot target)) <= max_output_bytes limits ->
  apply source patch limits = Ok (scoped (oomit options) target)
  /\ (Omit.bits (oomit options) = 0 -> scoped (oomit options) target = target).
Proof.
  intros Hs Ht Ho Hu Hc Hl Hm. split; [| by apply scoped_nothing].
  eapply apply_create_run; try done.
  destruct (create_Ok options source target patch Ht Ho Hu Hc) as (ds & _ & -> & Hwf).
  by apply patch_wire_bounded.
Qed.

(** C2: Whoever made the patch, a successful application means that the patch is
    a well-formed encoding whose source identity is that of the snapshot it was
    applied to, and that the result is a canonical snapshot with the identity,
    the paths, the metadata and the root that the patch lists, publishing no
    more bytes than allowed. *)
Theorem tree_apply_safe source patch limits result :
  zlen patch <= usize_max -> 0 <= max_output_bytes limits ->
  apply source patch limits = Ok result ->
  exists p, decode (lpatch limits) patch = Ok p
    /\ CanonicalSnapshot.hash (scoped (Tree.omit (pheader p)) source) = Tree.source_hash (pheader p)
    /\ CanonicalSnapshot.hash result = Tree.target_hash (pheader p)
    /\ canonical_snapshot (CanonicalSnapshot.snapshot result)
    /\ epath <$> entries (CanonicalSnapshot.snapshot result) = dpath <$> pentries p
    /\ emetadata <$> entries (CanonicalSnapshot.snapshot result) = dmetadata <$> pentries p
    /\ root (CanonicalSnapshot.snapshot result) = proot p
    /\ total_bytes (entries (CanonicalSnapshot.snapshot result)) <= max_output_bytes limits.
Proof.
  intros Hp Hm Ha. destruct (tree_apply_Ok source patch limits result Hp Hm Ha)
    as (p & -> & Hwf & Hr). exists p. split; [by apply patch_decode_wire | done].
Qed.

(** C3: A created patch is refused with [SourceHashMismatch] on any snapshot
    whose identity, in the scope of the patch, differs from that of its source. *)
Theorem tree_wrong_source options source target other patch limits :
  snapshot_wf (CanonicalSnapshot.snapshot target) ->
  snapshot_wf (CanonicalSnapshot.snapshot other) ->
  0 <= Omit.bits (oomit options) < 64 ->
  Forall (fun r => is_utf8 (rpattern r) = true) (orules options) ->
  create source target options = Ok patch ->
  lpatch limits = limits_default ->
  CanonicalSnapshot.hash (scoped (oomit options) other)
    <> CanonicalSnapshot.hash (scoped (oomit options) source) ->
  apply other patch limits = Err Tree.SourceHashMismatch.
Proof.
  intros Ht Hs Ho Hu Hc Hl Hh.
  destruct (create_Ok options source target patch Ht Ho Hu Hc) as (ds & _ & -> & Hwf).
  apply apply_gate; [by rewrite Hl | by apply patch_wire_bounded | done | done].
Qed.
End Properties.

(** ** On the sample snapshots *)

Section Sample.
#[local] Existing Instances plentiful toy_blake3 store_native.

Lemma tree_round_trip_witness :
  create source_snapshot target_snapshot sample_options = Ok sample_patch
  /\ apply source_snapshot sample_patch apply_limits_default
     = Ok (scoped (Omit.MkOmit 2) target_snapshot).
Proof.
  split; [vm_compute; reflexivity |].
  apply (tree_round_trip sample_options source_snapshot target_snapshot sample_patch
    apply_limits_default).
  - apply snapshot_check_wf. vm_compute. reflexivity.
  - apply snapshot_check_wf. vm_compute. reflexivity.
  - vm_compute. split; [discriminate | reflexivity].
  - repeat constructor.
  - vm_compute. reflexivity.
  - reflexivity.
  - vm_compute. discriminate.
Defined.

Lemma tree_apply_safe_witness :
  exists result p, apply source_snapshot sample_patch apply_limits_default = Ok result
    /\ decode limits_default sample_patch = Ok p
    /\ CanonicalSnapshot.hash result = Tree.target_hash (pheader p).
Proof.
  exists (scoped (Omit.MkOmit 2) target_snapshot).
  assert (apply source_snapshot sample_patch apply_limits_default
    = Ok (scoped (Omit.MkOmit 2) target_snapshot)) as Ha by (vm_compute; reflexivity).
  destruct (tree_apply_safe source_snapshot sample_patch apply_limits_default _
    ltac:(by vm_compute) ltac:(by vm_compute) Ha) as (p & Hd & _ & Ht & _).
  exists p. exact (conj Ha (conj Hd Ht)).
Defined.

Lemma tree_wrong_source_witness :
  apply target_snapshot sample_patch apply_limits_default = Err Tree.SourceHashMismatch.
Proof.
  apply (tree_wrong_source sample_options source_snapshot target_snapshot target_snapshot
    sample_patch apply_limits_default).
  - apply snapshot_check_wf. vm_compute. reflexivity.
  - apply snapshot_check_wf. vm_compute. reflexivity.
  - vm_compute. split; [discriminate | reflexivity].
  - repeat constructor.
  - vm_compute. reflexivity.
  - reflexivity.
  - vm_compute. discriminate.
Defined.
End Sample.
End Apply.
