(* ===== verification/Recovery.v ===== *)
(** * Recovery from refused allocations

    The code reserves memory before it uses it and reports a refusal as an
    error. Here every operation is compared with itself over an allocator that
    never refuses: a refusal ends the operation with an out-of-memory error, at
    whatever depth, and is never swallowed, so no result but that error depends
    on the allocator. *)

From S2P Require Export SymlinkTransport LinuxAcl TreePatchApply.

(** The errors that report a refusal. *)
Class Exhaustion (E : Type) := { exhausted : E -> bool }.

(** The first computation gives the second's result, or reports a refusal. *)
Definition recovers `{Exhaustion E} {A} (m m' : result E A) : Prop :=
  m = m' \/ exists e, m = Err e /\ exhausted e = true.

Create HintDb recovery.

Section Rules.
Context `{Exhaustion E}.

Lemma recovers_same {A} (m : result E A) : recovers m m.
Proof. by left. Qed.

Lemma recovers_bind {A B} (m m' : result E A) (k k' : A -> result E B) :
  recovers m m' -> (forall a, recovers (k a) (k' a)) -> recovers (rbind m k) (rbind m' k').
Proof.
  intros [-> | (e & -> & He)] Hk; [| right; by exists e]. destruct m' as [a | e]; [apply Hk | by left].
Qed.

Lemma recovers_map_err `{Exhaustion E'} {A} (f : E -> E') (m m' : result E A) :
  (forall e, exhausted e = true -> exhausted (f e) = true) ->
  recovers m m' -> recovers (map_err f m) (map_err f m').
Proof.
  intros Hf [-> | (e & -> & He)]; [by left |]. right. exists (f e). auto.
Qed.

Lemma recovers_foldM {S A} (f f' : S -> A -> result E S) s l :
  (forall s x, recovers (f s x) (f' s x)) -> recovers (foldM f s l) (foldM f' s l).
Proof.
  intros Hf. revert s. induction l as [| x l IH]; intros s; [by left |]. cbn [foldM].
  by apply recovers_bind.
Qed.

Lemma recovers_read_many {A} n (read read' : cursor -> result E (A * cursor)) c :
  (forall c, recovers (read c) (read' c)) -> recovers (read_many read n c) (read_many read' n c).
Proof.
  intros Hr. revert c. induction n as [| n IH]; intros c; [by left |]. cbn [read_many].
  apply recovers_bind; [done |]. intros [x c1]. apply recovers_bind; [done |]. intros [xs c2]. by left.
Qed.
End Rules.

(** The second allocator is one that grants everything, like [plentiful]. *)
Lemma recovers_reserve `{Exhaustion E} (small big : Allocator) `{!@AllocatorTotal big} (e : E) k p n :
  exhausted e = true -> recovers (@reserve small E e k p n) (@reserve big E e k p n).
Proof.
  intros He. rewrite (@reserve_total big _). unfold reserve.
  destruct (@grants small _); [by left | right; by exists e].
Qed.

(** Loops whose turns agree until one reports a refusal. *)
Lemma recovers_iterate `{Exhaustion E} {S A} (turn turn' : S -> S + result E A) measure measure' dec dec' s :
  (forall s, turn s = turn' s \/ exists e, turn s = inr (Err e) /\ exhausted e = true) ->
  recovers (iterate turn measure dec s) (iterate turn' measure' dec' s).
Proof.
  intros Ht. apply iterate_both. intros s0. destruct (Ht s0) as [-> | (e & -> & He)].
  - destruct (turn' s0); [done | by left].
  - destruct (turn' s0); [intros b |]; right; by exists e.
Qed.

#[export] Hint Extern 1 (recovers (@reserve _ _ _ _ _ _) _) => apply recovers_reserve; [apply _ | reflexivity] : recovery.
#[export] Hint Extern 1 (AllocatorTotal) => apply _ : recovery.

(** Both sides run the same code: the rules follow it. *)
Ltac recover_step :=
  match goal with
  | |- recovers ?m ?m => apply recovers_same
  | |- recovers (rbind (rbind _ _) _) _ => rewrite !rbind_assoc
  | |- recovers (rbind _ _) _ => apply recovers_bind; [| intros ?]
  | |- recovers (foldM _ _ _) _ => apply recovers_foldM; intros ? ?
  | |- recovers (read_many _ _ _) _ => apply recovers_read_many; intros ?
  | |- recovers (map_err _ _) _ => apply recovers_map_err; [by intros [] |]
  | |- recovers (match ?x with _ => _ end) _ => destruct x
  | |- recovers (let _ := _ in _) _ => cbv zeta
  end.
Ltac recover := repeat (cbv beta zeta; first [solve [eauto 2 with recovery nocore] | recover_step]).

(** ** Metadata and its clients *)

#[export] Instance metadata_exhaustion : Exhaustion Metadata.Error :=
  {| exhausted e := bool_decide (e = Metadata.OutOfMemory) |}.
#[export] Instance filter_exhaustion : Exhaustion Filter.Error :=
  {| exhausted e := match e with Filter.OutOfMemory => true | _ => false end |}.
#[export] Instance zstd_exhaustion : Exhaustion Zstdz.Error :=
  {| exhausted e := bool_decide (e = Zstdz.OutOfMemory) |}.
#[export] Instance file_exhaustion : Exhaustion File.Error :=
  {| exhausted e := bool_decide (e = File.OutOfMemory) |}.
#[export] Instance symlinks_exhaustion : Exhaustion Symlinks.Error :=
  {| exhausted e := match e with Symlinks.OutOfMemory => true | Symlinks.Metadata e => exhausted e | _ => false end |}.
#[export] Instance acl_exhaustion : Exhaustion Acl.Error :=
  {| exhausted e := bool_decide (e = Acl.OutOfMemory) |}.
#[export] Instance tree_exhaustion : Exhaustion Tree.Error :=
  {| exhausted e :=
       match e with
       | Tree.OutOfMemory => true
       | Tree.Metadata e => exhausted e
       | Tree.Filter e => exhausted e
       | Tree.File e => exhausted e
       | _ => false
       end |}.

Section Metadata.
Context (small big : Allocator) `{!@AllocatorTotal big}.

Lemma metadata_encode_recovers c :
  recovers (@MetadataCanonical.encode small c) (@MetadataCanonical.encode big c).
Proof using All. unfold MetadataCanonical.encode. recover. Qed.

Lemma metadata_decode_recovers s :
  recovers (@MetadataDecode.decode small s) (@MetadataDecode.decode big s).
Proof using All. unfold MetadataDecode.decode, read_metadata, read_vector, cursor_vector. recover. Qed.

Lemma borrowing_recovers c omit :
  recovers (@borrowing_omitting small c omit) (@borrowing_omitting big c omit).
Proof using All. unfold borrowing_omitting, borrow_family. recover. Qed.
End Metadata.
#[export] Hint Resolve metadata_encode_recovers metadata_decode_recovers borrowing_recovers : recovery.

(** ** Path filters *)

Section Scanning.
Context (small big : Allocator) `{!@AllocatorTotal big}.
Import Filter.

Lemma push_recovers {A} (values : list A) value :
  recovers (@push small A values value) (@push big A values value).
Proof using All. unfold push. recover. Qed.
#[local] Hint Resolve push_recovers : recovery.

Lemma scan_members_recovers chars j members :
  recovers (@scan_members small chars j members) (@scan_members big chars j members).
Proof using All.
  apply recovers_iterate. intros [j0 m0]. unfold scan_turn.
  destruct (chars !! j0) as [c |]; [| by left]. destruct (c =? CLOSE); [by left |]. cbv zeta.
  match goal with |- context [@push small _ ?l ?x] =>
    destruct (push_recovers l x) as [-> | (e & -> & He)]; [by left | right; by exists e] end.
Qed.
#[local] Hint Resolve scan_members_recovers : recovery.

Lemma scan_class_recovers chars i : recovers (@scan_class small chars i) (@scan_class big chars i).
Proof using All. unfold scan_class. recover. Qed.
End Scanning.
#[export] Hint Resolve scan_class_recovers : recovery.

Section Patterns.
Context (small big : Allocator) `{!@AllocatorTotal big}.
Import Filter.

Lemma next_token_recovers chars i classes c :
  recovers (@next_token small chars i classes c) (@next_token big chars i classes c).
Proof using All. unfold next_token. recover. Qed.

Lemma compile_from_recovers chars st :
  recovers (@compile_from small chars st) (@compile_from big chars st).
Proof using All.
  apply recovers_iterate. intros [i classes tokens]. unfold compile_turn. cbn [at_index classes_remain].
  destruct (chars !! i) as [c |]; [| by left].
  destruct (next_token_recovers chars i classes c) as [-> | (e & -> & He)]; [by left | right; by exists e].
Qed.
#[local] Hint Resolve compile_from_recovers : recovery.

Lemma compile_pattern_recovers pattern :
  recovers (@compile_pattern small pattern) (@compile_pattern big pattern).
Proof using All. unfold compile_pattern, characters. recover. Qed.

Lemma includes_recovers f path : recovers (@includes small f path) (@includes big f path).
Proof using All. unfold includes, characters. recover. Qed.
End Patterns.
#[export] Hint Resolve compile_pattern_recovers includes_recovers : recovery.

Lemma compile_recovers (small big : Allocator) `{!@AllocatorTotal big} rules :
  recovers (@Filter.compile small rules) (@Filter.compile big rules).
Proof. unfold Filter.compile, Filter.compile_rule. recover. Qed.
#[export] Hint Resolve compile_recovers : recovery.

(** ** Files

    A codec over a refusing allocator against one over a generous one. *)

Class ZstdRecovers (Z1 Z2 : Zstd) := {
  append_recovers ks source target output :
    recovers (@append_frame Z1 ks source target output) (@append_frame Z2 ks source target output);
  decode_recovers ks source frame expected :
    recovers (@decode_frame Z1 ks source frame expected) (@decode_frame Z2 ks source frame expected)
}.

#[export] Instance codec_at_recovers k Z1 Z2 : ZstdRecovers Z1 Z2 -> ZstdRecovers (codec_at k Z1) (codec_at k Z2).
Proof. intros [Ha Hd]. constructor; intros; cbn; auto. Qed.

(** The codec of [zstdz] itself is such a pair. *)
Section Codecs.
Context (small big : Allocator) `{!@AllocatorTotal big, Native}.

Lemma codec_append_recovers source target output :
  recovers (@Codec.append_frame small _ source target output) (@Codec.append_frame big _ source target output).
Proof using All. unfold Codec.append_frame. recover. Qed.

Lemma codec_decode_recovers source frame expected :
  recovers (@Codec.decode small _ source frame expected) (@Codec.decode big _ source frame expected).
Proof using All. unfold Codec.decode. recover. Qed.
End Codecs.

#[export] Instance zstd_native_recovers small big `{!@AllocatorTotal big, Native} :
  ZstdRecovers (@zstd_native small _) (@zstd_native big _).
Proof.
  constructor; intros; cbn [append_frame decode_frame zstd_native].
  - apply codec_append_recovers, _.
  - apply codec_decode_recovers, _.
Qed.
#[export] Hint Resolve append_recovers decode_recovers : recovery.
#[export] Hint Extern 1 (ZstdRecovers _ _) => apply _ : recovery.

Section Files.
Context (small big : Allocator) `{!@AllocatorTotal big, Blake3} (Z1 Z2 : Zstd) `{!ZstdRecovers Z1 Z2}.

Lemma file_encode_recovers source target :
  recovers (@File.encode small _ Z1 source target) (@File.encode big _ Z2 source target).
Proof using All. unfold File.encode. recover. Qed.

Lemma file_apply_recovers source patch maximum :
  recovers (@File.apply _ Z1 source patch maximum) (@File.apply _ Z2 source patch maximum).
Proof using ZstdRecovers0. unfold File.apply. recover. Qed.
End Files.
#[export] Hint Resolve file_encode_recovers file_apply_recovers : recovery.

(** ** Tree patches *)

Section Writing.
Context (small big : Allocator) `{!@AllocatorTotal big}.
Import Decode Encode.

Lemma project_recovers source omit :
  recovers (@project small source omit) (@project big source omit).
Proof using All. unfold project, project_entry. recover. Qed.

Lemma put_recovers maximum w s : recovers (@put small maximum w s) (@put big maximum w s).
Proof using All. unfold put. recover. Qed.
#[local] Hint Resolve put_recovers : recovery.

Lemma put_metadata_recovers maximum limit w m :
  recovers (@put_metadata small maximum limit w m) (@put_metadata big maximum limit w m).
Proof using All. unfold put_metadata. recover. Qed.

Lemma put_rule_recovers maximum limits w r :
  recovers (@put_rule small maximum limits w r) (@put_rule big maximum limits w r).
Proof using All. unfold put_rule. recover. Qed.

Lemma decode_patch_recovers `{Blake3} limits s :
  recovers (@Decode.decode small limits _ s) (@Decode.decode big limits _ s).
Proof using All. unfold Decode.decode, read_rule, read_entry, read_root, read_canonical. recover. Qed.
End Writing.

Section Choosing.
Context (small big : Allocator) `{!@AllocatorTotal big, Blake3} (Z1 Z2 : Zstd) `{!ZstdRecovers Z1 Z2}.
Import Decode Encode Apply.

Lemma choose_recovers limits source e :
  recovers (@choose small _ Z1 limits source e) (@choose big _ Z2 limits source e).
Proof using All. unfold choose. recover. Qed.

Lemma delta_recovers source patch remaining :
  recovers (@delta _ Z1 source patch remaining) (@delta _ Z2 source patch remaining).
Proof using ZstdRecovers0. unfold delta. recover. Qed.
#[local] Hint Resolve delta_recovers : recovery.

Lemma expand_recovers source st d mode :
  recovers (@expand small _ Z1 source st d mode) (@expand big _ Z2 source st d mode).
Proof using All. unfold expand. recover. Qed.
End Choosing.
#[export] Hint Resolve project_recovers put_recovers put_metadata_recovers put_rule_recovers choose_recovers
  decode_patch_recovers expand_recovers : recovery.

Section Trees.
Context (small big : Allocator) `{!@AllocatorTotal big, Blake3} (Z1 Z2 : Zstd) `{!ZstdRecovers Z1 Z2}.
Import Decode Encode Apply.

Lemma create_recovers source target options :
  recovers (@create small _ Z1 source target options) (@create big _ Z2 source target options).
Proof using All. destruct options as [rules omit]. unfold create, put_entry. recover.
Qed.

Lemma apply_recovers source patch limits :
  recovers (@Apply.apply small _ Z1 source patch limits) (@Apply.apply big _ Z2 source patch limits).
Proof using All. unfold Apply.apply, step. recover. Qed.
End Trees.

(** ** Transports and access lists *)

Section Transports.
Context (small big : Allocator) `{!@AllocatorTotal big}.

Lemma put_record_recovers s record :
  recovers (@Symlinks.put_record small s record) (@Symlinks.put_record big s record).
Proof using All. unfold Symlinks.put_record. recover. Qed.
#[local] Hint Resolve put_record_recovers : recovery.

Lemma transport_encode_recovers t :
  recovers (@Symlinks.encode small t) (@Symlinks.encode big t).
Proof using All. unfold Symlinks.encode. recover. Qed.

Lemma read_record_recovers c :
  recovers (@Symlinks.read_record small c) (@Symlinks.read_record big c).
Proof using All. unfold Symlinks.read_record. recover. Qed.
#[local] Hint Resolve read_record_recovers : recovery.

Lemma read_records_recovers n records c :
  recovers (@Symlinks.read_records small n records c) (@Symlinks.read_records big n records c).
Proof using All.
  revert records c. induction n as [| n IH]; intros records c; cbn [Symlinks.read_records];
    [apply recovers_same |]. recover.
Qed.
#[local] Hint Resolve read_records_recovers : recovery.

Lemma transport_decode_recovers s :
  recovers (@Symlinks.decode small s) (@Symlinks.decode big s).
Proof using All. unfold Symlinks.decode. recover. Qed.

Lemma portable_recovers acl : recovers (@Acl.portable small acl) (@Acl.portable big acl).
Proof using All. unfold Acl.portable, Acl.portable_entry, Acl.principal_name, Acl.decimal. recover. Qed.

Lemma encode_portable_recovers m :
  recovers (@Acl.encode_portable small m) (@Acl.encode_portable big m).
Proof using All. unfold Acl.encode_portable. recover. Qed.

Lemma acl_encode_recovers l : recovers (@Acl.encode small l) (@Acl.encode big l).
Proof using All. unfold Acl.encode. recover. Qed.
End Transports.

(** C22: Refused allocations are recoverable everywhere. Whatever the allocator
    grants, any one request of a run alone or any others, over the codec of
    [zstdz] each operation of the portable core and of [zstdz] either returns
    what it returns when memory is unlimited, error or result, or reports the
    refusal itself: encoding, decoding and projecting metadata, making and
    applying file patches, creating, decoding and applying tree patches,
    compiling and running filters, the two calls of the codec, and the
    transports of symlinks and access lists. *)
Theorem allocation_recoverable (small : Allocator) `{Blake3, Native} :
  (forall c, recovers (@MetadataCanonical.encode small c) (@MetadataCanonical.encode plentiful c))
  /\ (forall s, recovers (@MetadataDecode.decode small s) (@MetadataDecode.decode plentiful s))
  /\ (forall c omit, recovers (@borrowing_omitting small c omit) (@borrowing_omitting plentiful c omit))
  /\ (forall source target output,
       recovers (@Codec.append_frame small _ source target output)
         (@Codec.append_frame plentiful _ source target output))
  /\ (forall source frame expected,
       recovers (@Codec.decode small _ source frame expected) (@Codec.decode plentiful _ source frame expected))
  /\ (forall source target,
       recovers (@File.encode small _ (@zstd_native small _) source target)
         (@File.encode plentiful _ (@zstd_native plentiful _) source target))
  /\ (forall source patch maximum,
       recovers (@File.apply _ (@zstd_native small _) source patch maximum)
         (@File.apply _ (@zstd_native plentiful _) source patch maximum))
  /\ (forall source omit, recovers (@Encode.project small source omit) (@Encode.project plentiful source omit))
  /\ (forall source target options,
       recovers (@Encode.create small _ (@zstd_native small _) source target options)
         (@Encode.create plentiful _ (@zstd_native plentiful _) source target options))
  /\ (forall limits s, recovers (@Decode.decode small limits _ s) (@Decode.decode plentiful limits _ s))
  /\ (forall source patch limits,
       recovers (@Apply.apply small _ (@zstd_native small _) source patch limits)
         (@Apply.apply plentiful _ (@zstd_native plentiful _) source patch limits))
  /\ (forall rules, recovers (@Filter.compile small rules) (@Filter.compile plentiful rules))
  /\ (forall f path, recovers (@Filter.includes small f path) (@Filter.includes plentiful f path))
  /\ (forall t, recovers (@Symlinks.encode small t) (@Symlinks.encode plentiful t))
  /\ (forall s, recovers (@Symlinks.decode small s) (@Symlinks.decode plentiful s))
  /\ (forall acl, recovers (@Acl.portable small acl) (@Acl.portable plentiful acl))
  /\ (forall m, recovers (@Acl.encode_portable small m) (@Acl.encode_portable plentiful m))
  /\ (forall l, recovers (@Acl.encode small l) (@Acl.encode plentiful l)).
Proof.
  split_and!; intros.
  - apply metadata_encode_recovers; apply _.
  - apply metadata_decode_recovers; apply _.
  - apply borrowing_recovers; apply _.
  - apply codec_append_recovers; apply _.
  - apply codec_decode_recovers; apply _.
  - apply file_encode_recovers; apply _.
  - apply file_apply_recovers; apply _.
  - apply project_recovers; apply _.
  - apply create_recovers; apply _.
  - apply decode_patch_recovers; apply _.
  - apply apply_recovers; apply _.
  - apply compile_recovers; apply _.
  - apply includes_recovers; apply _.
  - apply transport_encode_recovers; apply _.
  - apply transport_decode_recovers; apply _.
  - apply portable_recovers; apply _.
  - apply encode_portable_recovers; apply _.
  - apply acl_encode_recovers; apply _.
Qed.

(** A machine that refuses one request of a run, which is for two bytes like the
    one before it, and one that grants at most a thousand elements at once. *)
Section Sample.
#[local] Existing Instances toy_blake3 store_native.

Definition refusing (refused : Request) : Allocator := {| grants r := negb (bool_decide (r = refused)) |}.

Definition created (A : Allocator) : result Tree.Error bytes :=
  @Encode.create A _ (@zstd_native A _) source_snapshot target_snapshot Encode.sample_options.

(** After the header and the rules, the mode of the first entry: the second
    request of that size and the only one refused. *)
Example one_refusal :
  is_ok (created plentiful) = true
  /\ created (refusing (MkRequest [0] (Tree.HEADER_LEN + zlen (Encode.orules Encode.sample_options ≫= Decode.rule_wire) + 2) 2))
     = Err Tree.OutOfMemory
  /\ created (refusing (MkRequest [0] 1 2)) = created plentiful.
Proof. split_and!; vm_compute; reflexivity. Qed.

Lemma small_machine_recovers :
  @File.encode (at_most 1000) _ (@zstd_native (at_most 1000) _) (zeros 2000) (zeros 2000) = Err File.OutOfMemory
  /\ is_ok (@File.encode plentiful _ (@zstd_native plentiful _) (zeros 2000) (zeros 2000)) = true
  /\ is_ok (@File.encode (at_most 1000) _ (@zstd_native (at_most 1000) _) (zeros 20) (zeros 20)) = true.
Proof. split_and!; vm_compute; reflexivity. Qed.
End Sample.
