(* ===== verification/Reservation.v ===== *)
(** * What the decoders reserve

    A count that comes from the input is checked against what the input can
    still hold before memory is reserved for it. Here the decoders run over two
    allocators that grant as many elements at once as the input has bytes: they
    never notice the difference. *)

From S2P Require Export Recovery.

Section Within.
Context (small big : Allocator) (B : Z) (HS : grants_up_to B small) (HB : grants_up_to B big).

Lemma reserve_within {E} (e : E) k p n : n <= B -> @reserve small E e k p n = @reserve big E e k p n.
Proof using HS HB. intros Hn. by rewrite !(reserve_up_to _ B) by done. Qed.

(** Sequencing two computations that agree. *)
Lemma bind_same {E X Y} (m m' : result E X) (k k' : X -> result E Y) :
  m = m' -> (forall x, m' = Ok x -> k x = k' x) -> rbind m k = rbind m' k'.
Proof. intros -> Hk. destruct m'; [by apply Hk | done]. Qed.

Lemma foldM_same {E X S} (f f' : S -> X -> result E S) s l :
  (forall s x, x ∈ l -> f s x = f' s x) -> foldM f s l = foldM f' s l.
Proof.
  revert s. induction l as [| x l IH]; intros s Hf; [done |]. cbn [foldM].
  apply bind_same; [apply Hf; by left |]. intros s' _. apply IH. intros. apply Hf. by right.
Qed.

(** ** Readers over a slice of at most [B] bytes

    They agree, and leave the slice as it is and the offset no smaller. *)

Definition room (c : cursor) : Prop := 0 <= offset c /\ zlen (cbytes c) <= B.

Definition inside {E X} (c : cursor) (m m' : result E (X * cursor)) : Prop :=
  m = m' /\ forall x c', m' = Ok (x, c') -> cbytes c' = cbytes c /\ offset c <= offset c'.

Lemma inside_room {E X} c (m m' : result E (X * cursor)) x c' :
  inside c m m' -> room c -> m' = Ok (x, c') -> room c'.
Proof. intros [_ Hi] [Ho Hb] Hm. destruct (Hi x c' Hm) as [Hc Hl]. split; [lia | by rewrite Hc]. Qed.

Lemma inside_same {E X} c (m m' : result E (X * cursor)) : inside c m m' -> m = m'.
Proof. by intros [? _]. Qed.

Lemma inside_ok {E X} c (x : X) : @inside E X c (Ok (x, c)) (Ok (x, c)).
Proof. split; [done |]. intros ? ? [= _ <-]. split; [done | lia]. Qed.

Lemma inside_err {E X} c (e : E) : @inside E X c (Err e) (Err e).
Proof. by split. Qed.

Lemma inside_bind {E X Y} c (m m' : result E (X * cursor)) (k k' : X * cursor -> result E (Y * cursor)) :
  room c -> inside c m m' ->
  (forall x c', room c' -> m' = Ok (x, c') -> inside c' (k (x, c')) (k' (x, c'))) ->
  inside c (rbind m k) (rbind m' k').
Proof.
  intros Hc Hm Hk. split.
  - apply bind_same; [apply Hm |]. intros [x c'] Hx. apply Hk; [by eapply inside_room | done].
  - intros y c2 ([x c'] & Hx & Hy)%rbind_Ok. destruct (proj2 Hm x c' Hx) as [Hb Ho].
    destruct (Hk x c' (inside_room _ _ _ _ _ Hm Hc Hx) Hx) as [_ Hi].
    destruct (Hi y c2 Hy) as [Hb' Ho']. split; [congruence | lia].
Qed.

(** A step that does not read. *)
Lemma inside_pure {E X Y} c (m m' : result E X) (k k' : X -> result E (Y * cursor)) :
  m = m' -> (forall x, m' = Ok x -> inside c (k x) (k' x)) -> inside c (rbind m k) (rbind m' k').
Proof.
  intros -> Hk. destruct m' as [x | e]; [by apply Hk | apply inside_err].
Qed.

Lemma inside_take {E} (e : E) c n : inside c (take_raw e c n) (take_raw e c n).
Proof.
  split; [done |]. intros s c' Ht. unfold take_raw in Ht. inv_ok. cbn. split; [done |].
  match goal with Hg : get_range _ _ _ = Some _ |- _ => unfold get_range in Hg;
    destruct (_ && _) eqn:Hr in Hg; [| done] end. zbool. lia.
Qed.

(** What is taken is no longer than the slice. *)
Lemma take_length {E} (e : E) c n s c' : take_raw e c n = Ok (s, c') -> zlen s <= zlen (cbytes c).
Proof.
  intros Ht. unfold take_raw in Ht. inv_ok.
  match goal with Hg : get_range _ _ _ = Some _ |- _ => unfold get_range in Hg;
    destruct (_ && _); [injection Hg as <- | done] end.
  unfold zlen, ztake, zdrop. rewrite length_take, length_drop. lia.
Qed.

Lemma take_within {E} (e : E) c n s c' : room c -> take_raw e c n = Ok (s, c') -> zlen s <= B.
Proof. intros [_ Hb] Ht%take_length. lia. Qed.

Lemma inside_many {E X} (read read' : cursor -> result E (X * cursor)) n c :
  room c -> (forall c, room c -> inside c (read c) (read' c)) ->
  inside c (read_many read n c) (read_many read' n c).
Proof.
  intros Hc Hr. revert c Hc. induction n as [| n IH]; intros c Hc; cbn [read_many]; [apply inside_ok |].
  apply inside_bind; [done | by apply Hr |]. intros x c1 Hc1 _.
  apply inside_bind; [done | by apply IH |]. intros xs c2 _ _. apply inside_ok.
Qed.
End Within.

Create HintDb within.

(** The rules follow the readers' code. *)
Ltac inside_step :=
  match goal with
  | |- inside _ (Ok _) _ => apply inside_ok
  | |- inside _ (Err _) _ => apply inside_err
  | |- inside _ (take_raw _ _ _) _ => apply inside_take
  | |- inside _ (rbind (take_raw _ _ _) _) _ => eapply inside_bind; [eassumption | apply inside_take |]; intros ? ? ? ?
  | |- inside _ (read_many _ _ _) _ => eapply inside_many; [eassumption |]; intros ? ?
  | |- inside _ (rbind (rbind _ _) _) _ => rewrite !rbind_assoc
  | |- inside _ (rbind (Ok _) _) _ => cbn [rbind]
  | |- inside _ (rbind (Err _) _) _ => apply inside_err
  | |- inside _ (match ?x with _ => _ end) _ => destruct x eqn:?
  | |- inside _ (rbind (match ?x with _ => _ end) _) _ => destruct x eqn:?
  | |- inside _ (rbind _ _) _ =>
      eapply inside_bind; [eassumption | solve [eauto 2 with within nocore] |]; intros ? ? ? ?
  | |- inside _ (rbind _ _) _ => apply inside_pure; [try reflexivity | intros ? ?]
  end.
Ltac inside := repeat (cbv beta zeta iota; inside_step).

(** A slice that has been taken is within the bound. *)
Ltac taken :=
  match goal with
  | Ht : take_raw _ ?c _ = Ok (?s, _), Hc : room ?b ?c |- zlen ?s <= ?b => exact (take_within b _ c _ s _ Hc Ht)
  end.

(** Both allocators grant what the bound allows at every moment. *)
#[export] Hint Resolve at_moment_up_to : within.
Ltac moments := eauto 3 with within nocore.

Section Metadata.
Context (small big : Allocator) (B : Z) (HS : grants_up_to B small) (HB : grants_up_to B big).

Lemma vector_inside {A} minimum (read : cursor -> result Metadata.Error (A * cursor)) c :
  1 <= minimum -> room B c -> (forall c, room B c -> inside c (read c) (read c)) ->
  inside c (@read_vector small A minimum read c) (@read_vector big A minimum read c).
Proof using All.
  intros Hm Hc Hr. unfold read_vector, cursor_vector, cursor_u32, get_uint. inside; [| by apply Hr].
  apply (reserve_within small big B HS HB).
  match goal with Hf : fail_if _ _ = Ok _, Hr : room B ?c |- _ <= B =>
    apply fail_if_Ok, Z.ltb_ge in Hf; destruct Hr as [Ho Hb]; etransitivity; [exact Hf |];
    pose proof (zlen_nonneg (cbytes c)) end.
  apply Z.div_le_upper_bound; nia.
Qed.

Lemma metadata_inside c :
  room B c -> inside c (@read_metadata small c) (@read_metadata big c).
Proof using All.
  intros Hc. unfold read_metadata.
  eapply inside_bind; [exact Hc | apply vector_inside; [lia | exact Hc |] |].
  { intros c1 Hc1. unfold read_xattr, cursor_byte, get_byte, cursor_blob, get_blob, get_uint. inside. }
  intros xs c1 Hc1 _. eapply inside_bind; [exact Hc1 | apply vector_inside; [lia | exact Hc1 |] |].
  { intros c2 Hc2. unfold read_ace, cursor_byte, get_byte, cursor_blob, get_blob, get_uint. inside. }
  intros as_ c2 Hc2 _. eapply inside_bind; [exact Hc2 | |].
  { unfold read_native_acl, cursor_byte, get_byte, cursor_blob, get_blob, get_uint. inside. }
  intros acl c3 Hc3 _. eapply inside_bind; [exact Hc3 | |].
  { unfold read_times, cursor_byte, get_byte, read_time_if, cursor_time, cursor_take. inside. }
  intros ts c4 Hc4 _. unfold cursor_u32, get_uint. eapply inside_bind; [exact Hc4 | inside |].
  intros flags c5 Hc5 _. eapply inside_bind; [exact Hc5 | |].
  { unfold read_finder_info, cursor_byte, get_byte, cursor_array. inside. }
  intros info c6 Hc6 _. eapply inside_bind; [exact Hc6 | apply vector_inside; [lia | exact Hc6 |] |].
  { intros c7 Hc7. unfold read_hole, cursor_u64, get_uint. inside. }
  intros hs c7 Hc7 _. eapply inside_bind; [exact Hc7 | |].
  { unfold read_hardlink, cursor_byte, get_byte, cursor_blob, get_blob, get_uint. inside. }
  intros link c8 _ _. apply inside_ok.
Qed.

Lemma metadata_decode_within s :
  zlen s <= B -> @MetadataDecode.decode small s = @MetadataDecode.decode big s.
Proof using All.
  intros Hs. unfold MetadataDecode.decode. apply bind_same; [| done].
  apply inside_same with (Cursor s 0). apply metadata_inside. by split.
Qed.

End Metadata.

(** ** Filters *)

Section Scanning.
Context (small big : Allocator) (B : Z) (HS : grants_up_to B small) (HB : grants_up_to B big).
Import Filter.
Context (HB1 : 1 <= B).

Lemma push_within {A} (values : list A) value : @push small A values value = @push big A values value.
Proof using All. unfold push. by rewrite (reserve_within small big B HS HB). Qed.

Lemma scan_class_within chars i : @scan_class small chars i = @scan_class big chars i.
Proof using All.
  unfold scan_class.
  apply bind_same; [destruct (char_is _ _ CLOSE); [| done]; apply bind_same; [apply push_within | done] |].
  intros [j ms] _. apply bind_same; [| done].
  apply (iterate_both _ _ _ _ _ _ eq). intros [j0 m0]. unfold scan_turn.
  destruct (chars !! j0) as [c |]; [| done]. destruct (c =? CLOSE); [done |]. cbv zeta. rewrite push_within.
  by destruct (push _ _).
Qed.
End Scanning.

Section Patterns.
Context (small big : Allocator) (B : Z) (HS : grants_up_to B small) (HB : grants_up_to B big).
Import Filter.
Context (HB1 : 1 <= B).

Lemma compile_from_within chars st : @compile_from small chars st = @compile_from big chars st.
Proof using All.
  apply (iterate_both _ _ _ _ _ _ eq). intros [i classes tokens]. unfold compile_turn. cbn [at_index classes_remain].
  destruct (chars !! i) as [c |]; [| done].
  assert (@next_token small chars i classes c = @next_token big chars i classes c) as ->.
  { unfold next_token. by rewrite (scan_class_within (at_moment (Z.of_nat i) small) (at_moment (Z.of_nat i) big) B)
      by (done || moments). }
  by destruct (next_token _ _ _ _) as [[[? ?] ?] |].
Qed.

Lemma str_chars_length text : zlen (str_chars text) <= zlen text.
Proof.
  unfold str_chars, zlen. destruct (chars_of text) as [cs |] eqn:Hc; cbn; [| lia].
  apply chars_of_length in Hc. lia.
Qed.

Lemma compile_pattern_within pattern :
  zlen pattern <= B -> @compile_pattern small pattern = @compile_pattern big pattern.
Proof using All.
  intros Hp. unfold compile_pattern, characters. rewrite (reserve_within small big B HS HB) by done.
  apply bind_same; [done |]. intros chars (u & _ & [= <-])%rbind_Ok.
  pose proof (str_chars_length pattern). rewrite (reserve_within small big B HS HB) by lia.
  apply bind_same; [done |]. intros _ _. apply compile_from_within.
Qed.

End Patterns.

Lemma compile_within (small big : Allocator) B rules :
  grants_up_to B small -> grants_up_to B big -> 1 <= B ->
  zlen rules <= B -> Forall (fun r => zlen (rpattern r) <= B) rules ->
  @Filter.compile small rules = @Filter.compile big rules.
Proof.
  intros HS HB HB1 Hl Hr. unfold Filter.compile. rewrite (reserve_within small big B HS HB) by done.
  apply bind_same; [done |]. intros _ _. apply bind_same; [| done].
  apply foldM_same. intros [compiled included] rule Hin. unfold Filter.compile_rule.
  rewrite list.Forall_forall in Hr. specialize (Hr rule Hin).
  destruct (strip_prefix [x21] (rpattern rule)) as [pattern |] eqn:Hs; (apply bind_same; [done |]; intros _ _);
    (apply bind_same; [apply (compile_pattern_within _ _ B); [moments | moments | done |] | done]); [| done].
  apply strip_prefix_Some in Hs. rewrite Hs, zlen_app in Hr. change (zlen [x21]) with 1 in Hr. lia.
Qed.

(** ** Symlink transports *)

Section Transports.
Context (small big : Allocator) (B : Z) (HS : grants_up_to B small) (HB : grants_up_to B big).

Lemma record_inside c :
  room B c -> inside c (@Symlinks.read_record small c) (@Symlinks.read_record big c).
Proof using All.
  intros Hc. unfold Symlinks.read_record, Symlinks.read_observed, Symlinks.reader_word, Symlinks.reader_byte,
    Symlinks.reader_take, get_byte, get_uint. inside.
  all: f_equal; apply (metadata_decode_within _ _ B); [moments | moments | taken].
Qed.

Lemma records_inside n records c :
  room B c -> inside c (@Symlinks.read_records small n records c) (@Symlinks.read_records big n records c).
Proof using All.
  revert records c. induction n as [| n IH]; intros records c Hc; cbn [Symlinks.read_records]; [apply inside_ok |].
  eapply inside_bind; [exact Hc | by apply record_inside |]. intros record c1 Hc1 _.
  apply inside_pure; [done |]. intros _ _. by apply IH.
Qed.

Lemma transport_decode_within s :
  zlen s <= B -> @Symlinks.decode small s = @Symlinks.decode big s.
Proof using All.
  intros Hs. unfold Symlinks.decode. apply bind_same; [done |]. intros _ _.
  assert (room B (Cursor s 0)) as H0 by by split.
  apply bind_same; [done |]. intros [magic c] Hc. pose proof (inside_room _ _ _ _ _ _ (inside_take _ _ _) H0 Hc) as Hr.
  apply bind_same; [done |]. intros _ _. apply bind_same; [done |]. intros [count c1] Hc1.
  assert (inside c (Symlinks.reader_word c) (Symlinks.reader_word c)) as Hw
    by (unfold Symlinks.reader_word, get_uint; inside).
  pose proof (inside_room _ _ _ _ _ _ Hw Hr Hc1) as Hr1.
  apply bind_same; [done |]. intros _ Hf%fail_if_Ok%Z.ltb_ge. pose proof (zlen_nonneg s).
  rewrite (reserve_within small big B HS HB).
  2: { destruct Hr1 as [Ho _]. etransitivity; [exact Hf |]. apply Z.div_le_upper_bound; lia. }
  apply bind_same; [done |]. intros _ _. apply bind_same; [| done].
  apply inside_same with c1. by apply records_inside.
Qed.

End Transports.

(** ** Tree patches *)

Section Trees.
Context (small big : Allocator) (B : Z) (HS : grants_up_to B small) (HB : grants_up_to B big).
Import Decode.
Context (limits : Limits).

Lemma canonical_inside c :
  room B c -> inside c (@read_canonical small limits c) (@read_canonical big limits c).
Proof using All.
  intros Hc. unfold read_canonical, reader_length32, reader_u32, reader_take, get_uint. inside.
  f_equal. apply (metadata_decode_within _ _ B); [moments | moments | taken].
Qed.
#[local] Hint Resolve canonical_inside : within.

Lemma entry_inside omit c :
  room B c -> inside c (@read_entry small limits omit c) (@read_entry big limits omit c).
Proof using All.
  intros Hc. unfold read_entry, reader_length32, reader_byte, reader_u16, reader_u32, reader_u64, reader_take,
    get_byte, get_uint. inside.
Qed.

Lemma root_inside h c :
  room B c -> inside c (@read_root small limits h c) (@read_root big limits h c).
Proof using All.
  intros Hc. unfold read_root. destruct (Tree.root_metadata h); [| apply inside_ok].
  eapply inside_bind; [eassumption | by apply canonical_inside |]. intros m c1 Hc1 _. inside.
Qed.

Lemma rule_inside c : room B c -> inside c (read_rule limits c) (read_rule limits c).
Proof.
  intros Hc. unfold read_rule, reader_length32, reader_byte, reader_u16, reader_u32, reader_take,
    get_byte, get_uint. inside.
Qed.

Lemma elem_bind_length {A} (w : A -> bytes) x l : x ∈ l -> zlen (w x) <= zlen (l ≫= w).
Proof.
  induction l as [| y l IH]; intros Hx; [by apply not_elem_of_nil in Hx |]. rewrite bind_cons, zlen_app.
  pose proof (zlen_nonneg (w y)). pose proof (zlen_nonneg (l ≫= w)).
  apply elem_of_cons in Hx as [-> | Hx%IH]; lia.
Qed.

(** The rules that are read number as announced, and their patterns are parts
    of the body. *)
Lemma rules_read body n rules c :
  zlen body <= usize_max -> read_many (read_rule limits) n (Cursor body 0) = Ok (rules, c) ->
  zlen rules = Z.of_nat n /\ Forall (fun r => zlen (rpattern r) <= zlen body) rules.
Proof.
  intros Hb Hr.
  destruct (wire_sound (WireSound := wire_many_sound (read_rule limits) rule_wire (rule_wf limits) n) rules (Cursor body 0) c [] body
    (at_rest_start body Hb) Hr) as (rest & -> & [Hn _] & _).
  split; [unfold zlen; lia |]. apply list.Forall_forall. intros r Hin.
  pose proof (elem_bind_length rule_wire r rules Hin) as Hl. rewrite zlen_app.
  assert (zlen (rpattern r) <= zlen (rule_wire r))
    by (unfold rule_wire, blob_wire; autorewrite with zlen; zlen_nil; lia).
  pose proof (zlen_nonneg rest). lia.
Qed.

Lemma patch_decode_within `{Blake3} s :
  zlen s <= B -> zlen s <= usize_max ->
  @Decode.decode small limits _ s = @Decode.decode big limits _ s.
Proof using All.
  intros Hs Hmax. unfold Decode.decode. apply bind_same; [done |]. intros [h body] Hd.
  apply Tree.tree_decode_prefix_Ok in Hd as (Hsb & Ht & (_ & _ & _ & Hfit & _)). unfold Tree.counts_fit in Hfit.
  pose proof (Tree.tree_zlen_wire h body Ht) as Hwire. pose proof (f_equal zlen Hsb) as Hlen.
  rewrite zlen_app, Hwire in Hlen. change Tree.HEADER_LEN with 120 in Hlen.
  pose proof (Tree.ht_rules h Ht) as Hrc. pose proof (Tree.ht_entries h Ht) as Hec. unfold is_u32 in *.
  rewrite !(reserve_within small big B HS HB) by lia.
  assert (room B (Cursor body 0)) as H0 by (split; cbn; lia).
  apply bind_same; [done |]. intros _ _. apply bind_same; [done |]. intros [rules c] Hr.
  pose proof (inside_room _ _ _ _ _ _ (inside_many B _ _ _ _ H0 rule_inside) H0 Hr) as Hc.
  apply rules_read in Hr as [Hl Hp]; [| lia]. apply bind_same.
  { destruct (bool_decide (rules = [])); [done |]. rewrite (compile_within (at_moment 2 small) (at_moment 2 big) B rules); [done | moments | moments | lia | lia |].
    eapply list.Forall_impl; [exact Hp |]. cbn. lia. }
  intros _ _. apply bind_same; [done |]. intros _ _. apply bind_same.
  { apply inside_same with c. apply (inside_many B); [done |]. intros c1 Hc1. by apply entry_inside. }
  intros [entries c1] He.
  assert (room B c1) as Hc1.
  { eapply inside_room; [| exact Hc | exact He]. apply (inside_many B); [done |].
    intros c2 Hc2. destruct (entry_inside (Tree.omit h) c2 Hc2) as [_ Hi]. by split. }
  apply bind_same; [apply inside_same with c1; by apply root_inside | done].
Qed.
End Trees.

(** C23: Nothing an input announces makes a decoder reserve more elements at
    once than the input has bytes. Over an allocator that grants that much,
    decoding metadata, a symlink transport or a tree patch, its filter rules
    included, gives exactly what it gives with unlimited memory, errors
    included: a count is compared with the bytes left before memory is reserved
    for it. *)
Theorem decoders_reserve_within_input `{Blake3} (small : Allocator) s :
  (forall r, wanted r <= zlen s -> @grants small r = true) ->
  @MetadataDecode.decode small s = @MetadataDecode.decode plentiful s
  /\ @Symlinks.decode small s = @Symlinks.decode plentiful s
  /\ (zlen s <= usize_max -> forall limits,
       @Decode.decode small limits _ s = @Decode.decode plentiful limits _ s).
Proof.
  intros HB. split_and!.
  - by apply (metadata_decode_within small plentiful (zlen s) HB).
  - by apply (transport_decode_within small plentiful (zlen s) HB).
  - intros Hmax limits. by apply (patch_decode_within small plentiful (zlen s) HB).
Qed.

(** A record that announces four thousand million attributes and holds none. *)
Section Sample.
Definition announced : bytes := le32 u32_max ++ zeros 16.

Lemma decoders_reserve_within_input_witness :
  @MetadataDecode.decode (at_most 20) announced = Err TruncatedMetadata.
Proof.
  assert (forall r, wanted r <= zlen announced -> @grants (at_most 20) r = true) as HB.
  { intros r. replace (zlen announced) with 20 by (vm_compute; reflexivity). apply (proj2 (Z.leb_le (wanted r) 20)). }
  rewrite (proj1 (@decoders_reserve_within_input toy_blake3 (at_most 20) announced HB)).
  vm_compute. reflexivity.
Defined.
End Sample.
