(* ===== verification/ReservationApply.v ===== *)
(** * What applying a patch reserves

    Application over an allocator that grants no more at once than the patch is
    long, than the output the caller allows and than the source has parts: it
    gives exactly what it gives with unlimited memory. A patch that announces a
    huge target is refused before memory is asked for it. *)

From S2P Require Export Reservation.

(** A source whose lists have at most [B] elements. *)
Definition metadata_within (B : Z) (c : CanonicalMetadata) : Prop :=
  zlen (xattrs (metadata c)) <= B /\ zlen (aces (metadata c)) <= B /\ zlen (holes (metadata c)) <= B.
Definition source_within (B : Z) (s : Snapshot) : Prop :=
  zlen (entries s) <= B /\ Forall (fun e => metadata_within B (emetadata e)) (entries s) /\ metadata_within B (root s).

(** A loop with an invariant of its state. *)
Lemma foldM_same_inv {E X S} (I : S -> Prop) (f f' : S -> X -> result E S) s l :
  I s -> (forall s x, x ∈ l -> I s -> f s x = f' s x /\ forall s', f' s x = Ok s' -> I s') ->
  foldM f s l = foldM f' s l.
Proof.
  revert s. induction l as [| x l IH]; intros s Hs Hf; [done |]. cbn [foldM].
  destruct (Hf s x ltac:(by left) Hs) as [Hx HI]. apply bind_same; [done |].
  intros s' Hs'. apply IH; [by apply HI |]. intros. apply Hf; [by right | done].
Qed.

Section Within.
Context (small big : Allocator) (B : Z) (HS : grants_up_to B small) (HB : grants_up_to B big).

Lemma borrowing_within c omit :
  metadata_within B c -> @borrowing_omitting small c omit = @borrowing_omitting big c omit.
Proof using All.
  intros (Hx & Ha & Hh). unfold borrowing_omitting. apply bind_same; [| done].
  apply foldM_same. intros value family _. unfold borrow_family.
  destruct (Omit.contains omit family); [done |]. destruct value, family; try done;
    by rewrite (reserve_within small big B HS HB).
Qed.

End Within.

Section Projected.
Context (small big : Allocator) (B : Z) (HS : grants_up_to B small) (HB : grants_up_to B big).

Lemma project_within source omit :
  source_within B (CanonicalSnapshot.snapshot source) ->
  @Encode.project small source omit = @Encode.project big source omit.
Proof using All.
  intros (Hn & He & Hr). unfold Encode.project. rewrite (reserve_within small big B HS HB) by done.
  apply bind_same; [done |]. intros _ _. apply bind_same.
  - apply foldM_same. intros l e Hin. unfold Encode.project_entry.
    rewrite list.Forall_forall in He. by rewrite (borrowing_within (at_moment (zlen l) small) (at_moment (zlen l) big) B) by (moments || by apply He).
  - intros projected _.
    by rewrite (borrowing_within (at_moment (zlen projected) small) (at_moment (zlen projected) big) B) by (done || moments).
Qed.

End Projected.

Section Codecs.
Context (small big : Allocator) (B : Z) (HS : grants_up_to B small) (HB : grants_up_to B big).
Context `{Native}.

(** Two codecs that agree on what fits the bound. *)
Definition codecs_within (Z1 Z2 : Zstd) : Prop :=
  forall ks source frame expected, expected <= B ->
  @decode_frame Z1 ks source frame expected = @decode_frame Z2 ks source frame expected.

Lemma native_within : codecs_within (@zstd_native small _) (@zstd_native big _).
Proof using All.
  intros ks source frame expected He. cbn [decode_frame zstd_native]. unfold Codec.decode.
  by rewrite (reserve_within (at_path ks small) (at_path ks big) B) by (done || by apply at_path_up_to).
Qed.
End Codecs.

Lemma codec_at_within B k Z1 Z2 : codecs_within B Z1 Z2 -> codecs_within B (codec_at k Z1) (codec_at k Z2).
Proof. intros Hz ks. cbn. apply Hz. Qed.

Section Expansion.
Context (small big : Allocator) (B : Z) (HS : grants_up_to B small) (HB : grants_up_to B big).
Context `{Blake3} (Z1 Z2 : Zstd) (HZ : codecs_within B Z1 Z2).

Lemma file_apply_within source patch maximum h frame :
  FileHeader.decode_prefix patch = Ok (h, frame) -> FileHeader.target_len h <= B ->
  @File.apply _ Z1 source patch maximum = @File.apply _ Z2 source patch maximum.
Proof using All.
  intros Hd Ht. unfold File.apply. rewrite Hd. cbn [map_err rbind].
  by rewrite HZ.
Qed.

(** Only a target within the remaining output reaches the decoder. *)
Lemma delta_within source patch remaining :
  remaining <= B -> @Apply.delta _ Z1 source patch remaining = @Apply.delta _ Z2 source patch remaining.
Proof using All.
  intros Hr. unfold Apply.delta. destruct (FileHeader.decode_prefix patch) as [[h frame] |] eqn:Hd; [| done].
  cbn [map_err rbind]. destruct (Z.ltb_spec remaining (FileHeader.target_len h)); [done |].
  by rewrite (file_apply_within _ _ _ h frame) by (done || lia).
Qed.

Lemma account_le remaining n r : Apply.account remaining n = Ok r -> 0 <= n -> r <= remaining /\ n <= remaining.
Proof. intros [-> Hn]%ok_or_Ok%checked_sub_Some Hp. lia. Qed.

Lemma expand_within source st d mode :
  Apply.remaining st <= B ->
  @Apply.expand small _ Z1 source st d mode = @Apply.expand big _ Z2 source st d mode
  /\ forall c own r, @Apply.expand big _ Z2 source st d mode = Ok (c, own, r) -> r <= B.
Proof using All.
  intros Hr. split.
  - unfold Apply.expand. destruct (Decode.doperation d); try done.
    + apply bind_same; [done |]. intros i _. apply bind_same; [done |]. intros old _.
      destruct (econtent old); try done. case_bool_decide; [done |]. by rewrite delta_within.
    + apply bind_same; [done |]. intros i _. apply bind_same; [done |]. intros target _.
      apply bind_same; [done |]. intros _ _. destruct (econtent target) as [| m data |]; try done.
      apply bind_same; [done |]. intros r [_ Hd]%account_le; [| apply zlen_nonneg].
      destruct (default false _); [| done]. by rewrite (reserve_within small big B HS HB) by lia.
  - intros c own r He. destruct (Decode.doperation d) eqn:Hd; unfold Apply.expand in He; rewrite Hd in He; inv_ok; try lia.
    all: try match type of He with context [econtent ?e] => destruct (econtent e) as [| ? data |]; try done end.
    all: try case_bool_decide; inv_ok.
    all: match goal with Ha : Apply.account _ _ = Ok _ |- _ => apply account_le in Ha; [lia | apply zlen_nonneg] end.
Qed.
End Expansion.

(** A decoded patch has no more entries than bytes. *)
Lemma entries_bounded `{Allocator, Blake3} limits s p :
  zlen s <= usize_max -> Decode.decode limits s = Ok p -> zlen (Decode.pentries p) <= zlen s.
Proof.
  intros Hm [-> Hwf]%Decode.patch_decode_Ok; [| done].
  pose proof (Decode.pw_header _ _ Hwf) as Ht. destruct (Decode.pw_acceptable _ _ Hwf) as (_ & _ & _ & Hfit & _).
  pose proof (Decode.pw_entry_count _ _ Hwf). pose proof (Decode.pw_rule_count _ _ Hwf).
  unfold Tree.counts_fit in Hfit. unfold Decode.patch_wire. rewrite zlen_app, Tree.tree_zlen_wire by done.
  change Tree.HEADER_LEN with 120. pose proof (zlen_nonneg (Decode.pentries p)).
  pose proof (zlen_nonneg (Decode.prules p)). lia.
Qed.

(** C24: No patch makes its application reserve more than the patch is long, the
    output the caller allows, or the source has entries and metadata elements.
    Over an allocator that grants that much at once, and the real codec, apply
    gives exactly what it gives with unlimited memory, errors included: what a
    patch announces, a decompressed length too, is compared with the budget
    before memory is reserved for it. *)
Theorem apply_reserves_within_budget `{Blake3, Native} (small : Allocator) (B : Z) source patch limits :
  (forall r, wanted r <= B -> @grants small r = true) ->
  zlen patch <= B -> zlen patch <= usize_max -> Apply.max_output_bytes limits <= B ->
  source_within B (CanonicalSnapshot.snapshot source) ->
  @Apply.apply small _ (@zstd_native small _) source patch limits
  = @Apply.apply plentiful _ (@zstd_native plentiful _) source patch limits.
Proof.
  intros HB Hp Hu Hm Hs. unfold Apply.apply. apply bind_same; [by apply (patch_decode_within small plentiful B HB) |].
  intros parsed Hd%entries_bounded; [| done]. apply bind_same.
  { destruct (_ =? 0); [done |]. by apply (project_within (at_moment 3 small) plentiful B (at_moment_up_to _ _ _ HB)). }
  intros masked _. apply bind_same; [done |]. intros _ _.
  rewrite (reserve_within small plentiful B HB) by (by apply total_up_to, _ || lia). apply bind_same; [done |]. intros _ _.
  apply bind_same; [| done]. apply (foldM_same_inv (fun st => Apply.remaining st <= B)); [done |].
  intros st d _ Hr. unfold Apply.step. cbv zeta. set (k := zlen (Apply.built st)).
  assert (codecs_within B (codec_at k (codec_at 5 (@zstd_native small _)))
    (codec_at k (codec_at 5 (@zstd_native plentiful _)))) as Hz.
  { apply codec_at_within, codec_at_within, native_within; [done | by apply total_up_to, _]. }
  assert (forall mode, _) as Hx by exact (fun mode =>
    expand_within (at_moment k (at_moment 5 small)) (at_moment k (at_moment 5 plentiful)) B
      (at_moment_up_to _ _ _ (at_moment_up_to _ _ _ HB)) (total_up_to _ _ _) _ _ Hz
      (CanonicalSnapshot.snapshot source) st d mode Hr).
  split.
  - apply bind_same; [done |]. intros mode _. by rewrite (proj1 (Hx mode)).
  - intros st' (mode & _ & ([[c own] r] & He & [= <-])%rbind_Ok)%rbind_Ok. by apply (proj2 (Hx mode)) in He.
Qed.

Section Sample.
#[local] Instance small_memory : Allocator := at_most 2048.

#[export] Instance metadata_within_dec B c : Decision (metadata_within B c).
Proof. unfold metadata_within. apply _. Defined.
#[export] Instance source_within_dec B s : Decision (source_within B s).
Proof. unfold source_within. apply _. Defined.

Lemma apply_reserves_within_budget_witness :
  @Apply.apply small_memory toy_blake3 (@zstd_native small_memory store_native) source_snapshot Encode.sample_patch
    (Apply.MkApplyLimits Decode.limits_default 2048)
  = Ok (Encode.scoped (Omit.MkOmit 2) target_snapshot).
Proof.
  assert (zlen Encode.sample_patch <= 2048) as Hp by (vm_compute; discriminate).
  assert (zlen Encode.sample_patch <= usize_max) as Hu by (vm_compute; discriminate).
  assert (source_within 2048 (CanonicalSnapshot.snapshot source_snapshot)) as Hs
    by (apply (bool_decide_unpack _); vm_compute; exact I).
  rewrite (@apply_reserves_within_budget toy_blake3 store_native small_memory 2048 source_snapshot Encode.sample_patch
    (Apply.MkApplyLimits Decode.limits_default 2048) (fun r => proj2 (Z.leb_le (wanted r) 2048)) Hp Hu (Z.le_refl 2048) Hs).
  vm_compute. reflexivity.
Defined.
End Sample.
